(* ===== verification/_CoqProject ===== *)
-Q . S2P
Prelude.v
Codec.v
Bank.v
Squeeze.v
SponsorPool.v
NetCap.v
VPCap.v
Contest.v
GasSponsor.v
FeeMarket.v
ValGrant.v
Paymaster.v
Proth.v
Sha256.v
WebAuthn.v
AnteMsgs.v
VoteTrim.v
EncTypes.v
StakeWeight.v
Threshold.v
CurveModel.v
Dkg.v
DkgProofs.v
EncKeeper.v
EncRegistry.v
EncDkg.v
EncAbci.v
EncSchedule.v
EncIngest.v
EncMsg.v
EncGenesis.v
EncFrame.v
DkgNode.v
DkgDriver.v
VoteExt.v
EncInvariant.v
VoteExtProofs.v
EncBond.v
EncEpoch.v
EncBlock.v
EncCommit.v
EncUntouched.v
EncReveal.v
EncKeys.v
EncModel.v
EncVotes.v
VoteExtServed.v
EncImport.v
EncChain.v
VoteExtRuns.v
EncRuns.v
EncFindings.v
