(* ===== verification/Prelude.v ===== *)
(** * Limonata: a Rocq development of its protocol modules

    Limonata is a Cosmos SDK chain with an EVM.  What its repository adds to the
    upstream SDK and EVM modules is: an encrypted mempool, whose key a committee of
    validators generates and uses through vote extensions; a set of modules that
    decide who pays for gas and how fees are split; limits on voting power, on what
    restricted accounts send, and on validator grants; and passkey signatures.  This
    library translates that code to executable Rocq functions, one file per
    component, and proves what makes it correct.  File names below without a [.v]
    suffix are files of this library; Go paths are relative to src/.

    ** How the code is represented

    - [Prelude] (this file): machine integers as [Z] with their wrap-around, byte
      strings with their order, ordered key-value stores with prefix and range
      iteration, the state and error monad [M] whose results are a value, an error or
      a panic ([outcome]), the world of bank state, stores and emitted events ([World]),
      the class [JSON] of the codecs of stored records, and the tactics and hints the
      other files share.
    - [Codec] builds a concrete codec for the class [JSON]; [Sha256] is the executable
      hash; [Proth] certifies the prime used by [CurveModel], a concrete group for the
      curve interface.  They instantiate interfaces in concrete runs.
    - Code outside the repository is an interface, a class of operations with a class
      of the laws its documentation states: x/bank ([Bank], with the executable
      [ledger]), secp256k1 and AES-GCM ([Threshold]), ECDSA ([Dkg], [VoteExt]), P-256
      ([WebAuthn]), x/auth and x/staking ([ValGrant], [VPCap], [Paymaster]), the EVM
      ([EncAbci]), the protobuf encoding of the extended commit ([VoteTrim]), the
      SDK's proposal handlers ([VoteExt]).  Every theorem that uses laws is applied at
      a concrete instance by a lemma [..._witness].
    - Randomness drawn by the code is an argument of the definition.
    - A message handler that fails leaves the state it reached; undoing it is the
      runtime's work and is written in the step relations.

    ** The encrypted mempool

    A user encrypts a transaction to the committee's key and escrows a bond; after
    the decryption height the validators attach partial decryptions to their votes,
    the next proposer injects those votes, every node stores the verified shares
    before the block, and the begin block recombines, decrypts and executes.  The
    parts, from the arithmetic upwards:

    - [EncTypes] (x/encmempool/types): parameters, records, validation.
    - [StakeWeight] (keeper/stakeweight.go): apportionment of evaluation points, the
      threshold and the concentration guard.  With the strict threshold no coalition of
      at most two thirds of the stake can decrypt; the guard's dynamic program decides
      exactly whether such a coalition exists.
    - [Threshold] (threshold/threshold.go): any threshold of shares decrypts.
    - [Dkg], [DkgProofs] (dkg/): Feldman sharing, the discrete-log proofs, complaints.
      From honest dealings to the recovered plaintext, whatever invalid partials are
      mixed in; a complaint convicts exactly the dealers that cheated.
    - [DkgDriver] (dkg/dkg.go and the share file of threshold/threshold.go): the driver
      that runs all parties in one process.  With a threshold of honest parties it
      succeeds, disqualifies exactly the cheaters, and cannot be made to disqualify an
      honest party.
    - [EncKeeper] (keeper/keeper.go, dkg.go), [EncRegistry] (voteext.go, dkg.go),
      [EncDkg] (endblock.go), [EncAbci] (abci.go, evm_exec.go), [EncIngest]
      (voteext.go), [EncMsg] (msg_server.go), [EncGenesis] (genesis.go): every operation
      of the keeper on its store.
    - [DkgNode] (x/encmempool/dkgnode/enckey.go): what a validator's node computes:
      dealings, derived shares, poisoned dealers, proven partials.  An honest dealing is
      accepted; the search with a table per dealer is the plain nested loop.
    - [VoteExt], [VoteTrim] (evmd/dkg_voteext.go): the five handlers of vote extensions
      and the knapsack that fits them into a block.  [VoteExtProofs]: a node never sends
      a share before the decryption height, its complaints take effect when they are
      ingested, its extension fits every limit and is accepted by its peers, the cache of
      verdicts changes nothing, and an honest proposal carries the votes and is accepted.
      [VoteExtServed]: the block that counts a node's vote stores the shares it carries,
      when the votes fit the verification budget of the block.
    - [EncFrame], [EncUntouched]: which records an operation writes.  [EncInvariant]
      (reference counts), [EncBond] (bonds), [EncEpoch] (keys that are still needed),
      [EncCommit] (commit counters), [EncKeys] (key registry): one invariant each, with
      its preservation.  [EncBlock] joins them for a block.
    - [EncChain]: the module as a state machine ([step]), its reachable states, and its
      refinement of an abstract pool of sealed transactions.  In every reachable state
      the module account covers the bonds, the counts are exact, the epochs in use have
      their keys; each ciphertext is settled once.
    - [EncSchedule] (fair selection and retry backoff), [EncReveal] and [EncRuns]
      (commit-reveal, governance), [EncVotes] (ingestion does not depend on the order of
      the votes, stores only proven shares and verifies a bounded number), [EncImport]
      (an import followed by an export), [EncFindings] (exports that are refused).
    - [EncModel], [VoteExtRuns]: concrete environments and runs.

    ** Transactions, fees and sponsorship

    - [Squeeze] (x/squeeze): the fee split of a block is exact.
    - [SponsorPool] (x/sponsorpool, precompiles/sponsorpool): in every history the escrow
      of a contract and the contribution of a sponsor are exactly what the deposits,
      withdrawals and reservations add up to.
    - [Contest] (x/contest): the registry [GasSponsor] reads, counters, allocation.
    - [GasSponsor] (x/gassponsor): who pays for an Ethereum transaction; every budget and
      the daily mint are respected.  It calls [Contest] and [SponsorPool].
    - [FeeMarket] (x/feemarket): the base fee update with its bounds.
    - [Paymaster] (x/paymaster, ante/cosmos/min_gas_price.go, ante/evm/fee_checker.go): a
      Cosmos transaction's fee is charged exactly once, to who should pay.
    - [WebAuthn] (x/paymaster/webauthn, ante/cosmos/webauthn_sigverify.go): a passkey
      assertion is accepted for its own transaction and, unless the documents signed
      collide under SHA-256, no other.
    - [AnteMsgs] (ante/ante.go, ante/cosmos.go, ante/cosmos/authz.go, reject_msgs.go): which
      decorators a transaction meets.  An Ethereum message reaches execution only by its
      own route, at whatever depth of authz messages it is hidden.

    ** Limits

    - [NetCap] (x/netcap, ante/netcap_evm.go): what a restricted account sends to other
      addresses in a window, and in any interval as long as one.  The value of a contract
      creation escapes the limit.
    - [VPCap] (x/vpcap, the end blocker of evmd/app.go): the cap on voting power, and that
      the updates sent keep the consensus set equal to the capped one.
    - [ValGrant] (x/valgrant, precompiles/valgrant): what is clawed back from a grantee
      never exceeds the principal granted, whatever happens to the accounts meanwhile.

    ** Bounds and fuel

    Loops of the source that are not structural have an explicit bound.  The cap of
    [VPCap] has the source's own 64 rounds.  The nonce search of [Dkg] takes its fuel as
    an argument: each attempt is accepted with probability 1 - 2^-127, and the theorems
    about a proof hold for whatever fuel it was found within.  The cache eviction of
    [VoteExt] and the selection loop of [EncAbci] have the size of their input as fuel,
    and it is proved that this is enough ([VoteExtProofs], [EncSchedule]).  The random reader of [DkgDriver] has its length as
    fuel.  The key-value stores are finite maps, so iterators end.  [EncChain] assumes that the sequence number and the epoch counter stay below
    2^64, where the code would wrap them.

    ** Not modelled

    - x/vm, x/erc20, x/ibc, the other precompiles, mempool, crypto, ethereum, encoding:
      upstream code around go-ethereum, ibc-go and the SDK, whose semantics is not in
      the repository.  The EVM is an interface of [EncAbci].
    - rpc, server, indexer, client, wallets, evmd/cmd, and the reading and writing of the
      node's key files: input and output of a node, without consensus state.
    - api and the protobuf files: generated.
    - The wiring of the application (evmd/app.go), its upgrade handlers, and the remaining
      decorators of ante: sequences of calls into the SDK and go-ethereum.
    - Logs, metrics, gas metering and ABI decoding; of the queries only those the
      handlers themselves call.
    - Secrecy: that fewer shares than the threshold reveal nothing is a computational
      statement; what is proved is who holds how many shares and when they are sent. *)
From stdpp Require Import gmap strings list sorting.
From Stdlib Require Import Ascii ZArith Lia DecimalString DecimalZ.

#[global] Set Default Goal Selector "!".
Open Scope Z_scope.

(** ** Machine integers

    Go's fixed-width integers are kept as [Z] together with the function that
    wraps a result to its width. *)

Definition u32 (z : Z) : Z := z mod 2 ^ 32.
Definition u64 (z : Z) : Z := z mod 2 ^ 64.
Definition i64 (z : Z) : Z := (z + 2 ^ 63) mod 2 ^ 64 - 2 ^ 63.

Definition is_u64 (z : Z) : Prop := 0 <= z < 2 ^ 64.
Definition is_i64 (z : Z) : Prop := - 2 ^ 63 <= z < 2 ^ 63.

(** [lia] on goals with division and remainder by constants. *)
Ltac div_lia := Z.to_euclidean_division_equations; lia.

(** [sumZ f l] is the sum of [f] over [l]; it is what every accumulation loop
    of the modules computes. *)
Fixpoint sumZ {A : Type} (f : A -> Z) (l : list A) : Z :=
  match l with
  | [] => 0
  | x :: l' => f x + sumZ f l'
  end.

(** ** Outcomes and the state monad

    A keeper method returns a value, returns a Go [error], or panics.  Unlike a
    transaction, a keeper method does not roll the store back when it fails, so
    the state reached is part of every outcome. *)

Inductive outcome (A : Type) : Type :=
| Ret (a : A)
| Err (e : string)
| Panic (msg : string).
Arguments Ret {A} a.
Arguments Err {A} e.
Arguments Panic {A} msg.

#[export] Instance outcome_ret : MRet outcome := fun A a => Ret a.
#[export] Instance outcome_bind : MBind outcome :=
  fun A B f m =>
    match m with
    | Ret a => f a
    | Err e => Err e
    | Panic msg => Panic msg
    end.

(** [fold_ok f st l] is a validation loop: [for _, x := range l { ... }] that
    updates local variables [st] and returns at the first error. *)
Fixpoint fold_ok {S A : Type} (f : S -> A -> outcome S) (st : S) (l : list A) : outcome S :=
  match l with
  | [] => Ret st
  | x :: l' => f st x ≫= fun st' => fold_ok f st' l'
  end.

(** [map_ok f l] fills a slice element by element, stopping at the first error. *)
Fixpoint map_ok {A C : Type} (f : A -> outcome C) (l : list A) : outcome (list C) :=
  match l with
  | [] => Ret []
  | x :: l' => y ← f x; ys ← map_ok f l'; Ret (y :: ys)
  end.

Lemma map_ok_Ret {X Y : Type} (f : X -> outcome Y) g l :
  Forall (fun x => f x = Ret (g x)) l -> map_ok f l = Ret (g <$> l).
Proof. induction 1 as [|x l Hx Hl IH]; simpl; [done|]. rewrite Hx. simpl. by rewrite IH. Qed.

Definition M (S A : Type) : Type := S -> outcome A * S.

#[export] Instance M_ret (S : Type) : MRet (M S) := fun A a s => (Ret a, s).
#[export] Instance M_bind (S : Type) : MBind (M S) :=
  fun A B f m s =>
    match m s with
    | (Ret a, s') => f a s'
    | (Err e, s') => (Err e, s')
    | (Panic msg, s') => (Panic msg, s')
    end.

Definition fail {S A : Type} (e : string) : M S A := fun s => (Err e, s).
Definition panic {S A : Type} (msg : string) : M S A := fun s => (Panic msg, s).
Definition gets {S A : Type} (f : S -> A) : M S A := fun s => (Ret (f s), s).
Definition modify {S : Type} (f : S -> S) : M S unit := fun s => (Ret tt, f s).

(** [lift_outcome] runs a computation that has no state of its own. *)
Definition lift_outcome {S A : Type} (o : outcome A) : M S A := fun s => (o, s).

(** [wrap_err f m] is Go's [if err != nil { return errorsmod.Wrap(...) }]. *)
Definition wrap_err {S A : Type} (f : string -> string) (m : M S A) : M S A :=
  fun s => match m s with (Err e, s') => (Err (f e), s') | r => r end.

(** [for_each f l] is [for _, x := range l { ... }] with an early return on
    error. *)
Fixpoint for_each {S A : Type} (f : A -> M S unit) (l : list A) : M S unit :=
  match l with
  | [] => mret tt
  | x :: l' => f x ≫= fun _ => for_each f l'
  end.

(** ** Triples

    [triple E P m Q]: from a state with [P], a run of [m] that returns leaves [Q]
    of its result; one that fails leaves [E]; of a panic nothing is said, since
    the callers that recover from one discard the writes. *)
Definition triple {S A : Type} (E P : S -> Prop) (m : M S A) (Q : A -> S -> Prop) : Prop :=
  forall s o s', P s -> m s = (o, s') ->
    match o with Ret a => Q a s' | Err _ => E s' | Panic _ => True end.

Section triples.
Context {S : Type} {E : S -> Prop}.
Implicit Types P : S -> Prop.

Lemma hoare_bind {A C : Type} P (m : M S A) R (f : A -> M S C) Q :
  triple E P m R -> (forall a, triple E (R a) (f a) Q) -> triple E P (m ≫= f) Q.
Proof.
  intros Hm Hf s o s' HP. unfold mbind, M_bind. destruct (m s) as [[a|e|p] s1] eqn:R1; intros Hr; simplify_eq.
  - eapply Hf; [|exact Hr]. apply (Hm _ _ _ HP R1).
  - apply (Hm _ _ _ HP R1).
  - done.
Qed.
Lemma hoare_gets {A : Type} P (f : S -> A) : triple E P (gets f) (fun a s => P s /\ a = f s).
Proof. by intros s o s' HP [= <- <-]. Qed.
Lemma hoare_mret {A : Type} (Q : A -> S -> Prop) a : triple E (Q a) (mret a) Q.
Proof. by intros s o s' HP [= <- <-]. Qed.
Lemma hoare_modify P (Q : S -> Prop) f : (forall s, P s -> Q (f s)) -> triple E P (modify f) (fun _ => Q).
Proof. intros Hf s o s' HP [= <- <-]. by apply Hf. Qed.
Lemma hoare_pre {A : Type} P P' (m : M S A) Q : (forall s, P s -> P' s) -> triple E P' m Q -> triple E P m Q.
Proof. intros HP Hm s o s' Hs. apply Hm. auto. Qed.
Lemma hoare_post {A : Type} P (m : M S A) (Q Q' : A -> S -> Prop) :
  (forall a s, Q a s -> Q' a s) -> triple E P m Q -> triple E P m Q'.
Proof. intros HQ Hm s o s' Hs R. specialize (Hm s o s' Hs R). destruct o; auto. Qed.
Lemma hoare_assume {A : Type} P (C : Prop) (m : M S A) Q :
  (C -> triple E P m Q) -> triple E (fun s => P s /\ C) m Q.
Proof. intros Hm s o s' [HP HC]. by apply Hm. Qed.
Lemma hoare_panic {A : Type} P msg (Q : A -> S -> Prop) : triple E P (panic msg) Q.
Proof. by intros s o s' _ [= <- <-]. Qed.
Lemma hoare_for_each {A : Type} (f : A -> M S unit) (I : list A -> S -> Prop) l :
  (forall x l', triple E (I (x :: l')) (f x) (fun _ => I l')) -> triple E (I l) (for_each f l) (fun _ => I []).
Proof.
  intros Hf. induction l as [|x l IH]; [apply (hoare_mret (fun _ => I []))|].
  eapply hoare_bind; [apply Hf|]. intros ?. exact IH.
Qed.
End triples.

(** ** cosmossdk.io/math.Int

    The library is not part of the repository: its arithmetic is [Z] restricted
    to a range it documents, [int_fits], outside which every operation panics,
    and its parser is the parameter [NewIntFromString].  [Int_String] is the
    documented decimal rendering. *)

Class MathInt : Type := {
  int_fits : Z -> bool;
  NewIntFromString : string -> option Z
}.

Definition Int_String (z : Z) : string := NilZero.string_of_int (Z.to_int z).

Class MathIntLaws `{MathInt} : Prop := {
  int_fits_spec z : int_fits z = true <-> Z.abs z < 2 ^ 256;
  NewIntFromString_String z : int_fits z = true -> NewIntFromString (Int_String z) = Some z;
  NewIntFromString_fits s z : NewIntFromString s = Some z -> int_fits z = true
}.

(** The result of an operation, in a pure computation and in a stateful one. *)
Definition o_int `{MathInt} (z : Z) : outcome Z :=
  if int_fits z then Ret z else Panic "Int overflow".

Definition int_result `{MathInt} {S : Type} (z : Z) : M S Z :=
  if int_fits z then mret z else panic "Int overflow".

Definition int_add `{MathInt} {S : Type} (a b : Z) : M S Z := int_result (a + b).
Definition int_sub `{MathInt} {S : Type} (a b : Z) : M S Z := int_result (a - b).
Definition int_mul `{MathInt} {S : Type} (a b : Z) : M S Z := int_result (a * b).

(** [Quo] is truncated division and panics on a zero divisor. *)
Definition int_quo `{MathInt} {S : Type} (a b : Z) : M S Z :=
  if b =? 0 then panic "division by zero" else int_result (Z.quot a b).

(** [parse_positive s] is the test [v, ok := NewIntFromString(s); ok && v.IsPositive()]. *)
Definition parse_positive `{MathInt} (s : string) : option Z :=
  match NewIntFromString s with
  | Some v => if 0 <? v then Some v else None
  | None => None
  end.

(** The executable reading of the two documented behaviours. *)
Definition decimal_parse (s : string) : option Z :=
  match NilZero.int_of_string s with
  | Some d =>
      let z := Z.of_int d in
      if Z.abs z <? 2 ^ 256 then Some z else None
  | None => None
  end.

Definition decimal_MathInt : MathInt :=
  {| int_fits z := Z.abs z <? 2 ^ 256; NewIntFromString := decimal_parse |}.

(** ** encoding/json

    A module keeps its records in the store as JSON.  The codec of a record
    type is a pair of functions of which the code uses that decoding inverts
    encoding (on the valid UTF-8 strings [encoding/json] is defined for). *)

Class JSON (A : Type) : Type := {
  json_Marshal : A -> string;
  json_Unmarshal : string -> option A
}.

Class JSONLaws (A : Type) `{JSON A} : Prop := {
  json_roundtrip a : json_Unmarshal (json_Marshal a) = Some a
}.

(** [sdk.AccAddress.String]: the bech32 rendering of an address. *)
Class Bech32 : Type := { AccAddress_String : string -> string }.

(** ** Byte strings

    [[]byte] and [string] are both Stdlib's [string], a list of 8-bit
    characters. *)

Definition byte_of (z : Z) : Ascii.ascii := Ascii.ascii_of_N (Z.to_N z).
Definition byte_to_Z (c : Ascii.ascii) : Z := Z.of_N (Ascii.N_of_ascii c).

(** [binary.BigEndian.PutUint64] on [n] bytes, and [Uint64]. *)
Fixpoint be_bytes (n : nat) (z : Z) : string :=
  match n with
  | O => EmptyString
  | S n' => String (byte_of ((z / 2 ^ (8 * Z.of_nat n')) mod 256)) (be_bytes n' z)
  end.

Definition be64 (z : Z) : string := be_bytes 8 z.

Fixpoint be_decode_acc (acc : Z) (s : string) : Z :=
  match s with
  | EmptyString => acc
  | String c s' => be_decode_acc (acc * 256 + byte_to_Z c) s'
  end.

Definition be_decode (s : string) : Z := be_decode_acc 0 s.

(** [strings.ToLower] on the ASCII strings the modules pass to it. *)
Definition ascii_lower (c : Ascii.ascii) : Ascii.ascii :=
  let n := Ascii.N_of_ascii c in
  if ((65 <=? n) && (n <=? 90))%N then Ascii.ascii_of_N (n + 32) else c.

Fixpoint ToLower (s : string) : string :=
  match s with
  | EmptyString => EmptyString
  | String c s' => String (ascii_lower c) (ToLower s')
  end.

(** [strings.ToLower(addr.Hex())]: the checksum casing of [common.Address.Hex] is
    erased by [ToLower], what is left is [0x] and two lower-case digits per
    byte. *)
Definition hex_digit (n : Z) : Ascii.ascii := byte_of (if n <? 10 then 48 + n else 87 + n).

Fixpoint hex_bytes (s : string) : string :=
  match s with
  | EmptyString => EmptyString
  | String c s' =>
      String (hex_digit (byte_to_Z c / 16)) (String (hex_digit (byte_to_Z c mod 16)) (hex_bytes s'))
  end.

Definition lower_hex (addr : string) : string := "0x" +:+ hex_bytes addr.

(** A one-byte key prefix such as [[]byte{0x02}]. *)
Definition byte_prefix (z : Z) : string := String (byte_of z) EmptyString.

(** [contains] of x/netcap and the other list searches by equality. *)
Fixpoint contains (l : list string) (s : string) : bool :=
  match l with
  | [] => false
  | x :: l' => if String.eqb x s then true else contains l' s
  end.

(** Byte-wise lexicographic order, the order of store iterators and of
    [sort.Strings]. *)
Definition str_le (s t : string) : Prop := String.leb s t = true.
#[export] Instance str_le_dec : RelDecision str_le.
Proof. intros s t. unfold str_le. apply _. Defined.

Definition key_le {V : Type} (a b : string * V) : Prop := str_le a.1 b.1.
#[export] Instance key_le_dec {V : Type} : RelDecision (@key_le V).
Proof. intros a b. unfold key_le. apply _. Defined.

(** ** The multi-store, events and the block context *)

Record Event := mkEvent { ev_type : string; ev_attrs : list (string * string) }.

(** The committed state every keeper works on: the bank's own state, one
    key-value store per store key, and the events emitted so far. *)
Record World (B : Type) := mkWorld {
  w_bank : B;
  w_kv : gmap string (gmap string string);
  w_events : list Event
}.
Arguments mkWorld {B}.
Arguments w_bank {B}.
Arguments w_kv {B}.
Arguments w_events {B}.

(** The part of [sdk.Context] the modules read. *)
Record Ctx := mkCtx {
  BlockTime : Z;       (** [ctx.BlockTime().Unix()], an int64 *)
  BlockHeight : Z;     (** [ctx.BlockHeight()], an int64 *)
  IsCheckTx : bool;
  IsReCheckTx : bool
}.

(** [uint64(ctx.BlockTime().UTC().Unix() / 86400)], the UTC day bucket. *)
Definition utc_day (ctx : Ctx) : Z := u64 (Z.quot (BlockTime ctx) 86400).

(** [prefixEnd]: the exclusive upper bound of the keys starting with [p];
    [None] stands for the open-ended [nil]. *)
Fixpoint prefixEnd_go (rev_bytes : list Ascii.ascii) : option (list Ascii.ascii) :=
  match rev_bytes with
  | [] => None
  | c :: rest =>
      if byte_to_Z c =? 255 then prefixEnd_go rest
      else Some (byte_of (byte_to_Z c + 1) :: rest)
  end.
Definition prefixEnd (p : string) : option string :=
  match prefixEnd_go (rev (String.list_ascii_of_string p)) with
  | Some bs => Some (String.string_of_list_ascii (rev bs))
  | None => None
  end.

Section store.
Context {B : Type}.

Definition kvs (n : string) (w : World B) : gmap string string := default ∅ (w_kv w !! n).

Definition kv_get (n k : string) (w : World B) : option string := kvs n w !! k.

Definition kv_set (n k v : string) (w : World B) : World B :=
  mkWorld (w_bank w) (<[n := <[k := v]> (kvs n w)]> (w_kv w)) (w_events w).

Definition kv_delete (n k : string) (w : World B) : World B :=
  mkWorld (w_bank w) (<[n := delete k (kvs n w)]> (w_kv w)) (w_events w).

(** [Iterator(start, end)]: the entries with [start <= key < end] in key
    order; [None] is the open-ended [nil] bound. *)
Definition in_range (lo : string) (hi : option string) (k : string) : bool :=
  String.leb lo k && match hi with Some h => negb (String.leb h k) | None => true end.

Definition kv_range (n lo : string) (hi : option string) (w : World B) : list (string * string) :=
  merge_sort key_le (filter (fun e => in_range lo hi e.1 = true) (map_to_list (kvs n w))).

(** [Iterator(prefix, prefixEnd(prefix))]. *)
Definition kv_iter (n p : string) (w : World B) : list (string * string) :=
  kv_range n p (prefixEnd p) w.

Definition emit (e : Event) (w : World B) : World B :=
  mkWorld (w_bank w) (w_kv w) (w_events w ++ [e]).

Definition set_bank (b : B) (w : World B) : World B :=
  mkWorld b (w_kv w) (w_events w).

(** [on_bank m] runs a bank operation on the bank part of the state. *)
Definition on_bank {A : Type} (m : M B A) : M (World B) A :=
  fun w => let r := m (w_bank w) in (r.1, set_bank r.2 w).

End store.


Lemma sublist_zip_fst {A C : Type} (l : list A) (k : list C) : (zip l k).*1 `sublist_of` l.
Proof.
  revert k. induction l as [|x l IH]; intros [|y k]; simpl; [constructor..|apply sublist_nil_l|].
  apply sublist_skip, IH.
Qed.

Lemma sorted_filter {A : Type} (R : A -> A -> Prop) f (l : list A) : StronglySorted R l -> StronglySorted R (List.filter f l).
Proof.
  induction 1 as [|x l Hs IH Hall]; simpl; [constructor|]. destruct (f x); [|done]. constructor; [done|].
  apply Forall_forall. intros y Hy. apply list_elem_of_In, filter_In in Hy as [Hy _]. apply list_elem_of_In in Hy.
  by eapply Forall_forall in Hall.
Qed.

(** ** Laws of the monad and inversion of runs *)

Lemma bind_Ret {S A C : Type} (m : M S A) (f : A -> M S C) s a s' :
  m s = (Ret a, s') -> (m ≫= f) s = f a s'.
Proof. intros H. unfold mbind, M_bind. by rewrite H. Qed.

Lemma bind_Err {S A C : Type} (m : M S A) (f : A -> M S C) s e s' :
  m s = (Err e, s') -> (m ≫= f) s = (Err e, s').
Proof. unfold mbind, M_bind. by intros ->. Qed.

Lemma bind_Ret_inv {S A C : Type} (m : M S A) (f : A -> M S C) s c s2 :
  (m ≫= f) s = (Ret c, s2) ->
  exists a s1, m s = (Ret a, s1) /\ f a s1 = (Ret c, s2).
Proof.
  unfold mbind, M_bind. destruct (m s) as [[a|e|p] s1] eqn:E; intros H; try discriminate.
  eauto.
Qed.

Lemma bind_Err_inv {S A C : Type} (m : M S A) (f : A -> M S C) s e s2 :
  (m ≫= f) s = (Err e, s2) ->
  m s = (Err e, s2) \/ exists a s1, m s = (Ret a, s1) /\ f a s1 = (Err e, s2).
Proof.
  unfold mbind, M_bind. destruct (m s) as [[a|e'|p] s1] eqn:E; intros H; simplify_eq; eauto.
Qed.

Lemma gets_run {S A : Type} (f : S -> A) s : gets f s = (Ret (f s), s).
Proof. done. Qed.
Lemma modify_run {S : Type} (f : S -> S) s : modify f s = (Ret tt, f s).
Proof. done. Qed.
Lemma mret_run {S A : Type} (a : A) (s : S) : (mret a : M S A) s = (Ret a, s).
Proof. done. Qed.

Lemma int_result_Ret `{MathInt} {S : Type} z (s : S) r s' :
  int_result z s = (Ret r, s') -> r = z /\ s' = s /\ int_fits z = true.
Proof. unfold int_result, mret, M_ret, panic. destruct (int_fits z) eqn:E; intros Hr; by simplify_eq. Qed.

Lemma o_int_fits `{MathInt} z : int_fits z = true -> o_int z = Ret z.
Proof. unfold o_int. by intros ->. Qed.

Lemma o_bind_Ret {A C : Type} (m : outcome A) (f : A -> outcome C) c :
  m ≫= f = Ret c -> exists a, m = Ret a /\ f a = Ret c.
Proof. destruct m; simpl; try discriminate. eauto. Qed.

Lemma int_result_fits `{MathInt} {S : Type} z (s : S) :
  int_fits z = true -> int_result z s = (Ret z, s).
Proof. unfold int_result. by intros ->. Qed.

Lemma int_result_not_Err `{MathInt} {S : Type} z (s : S) e s' :
  int_result z s <> (Err e, s').
Proof. unfold int_result, mret, M_ret, panic. by destruct (int_fits z). Qed.

Lemma int_quo_Ret `{MathInt} {S : Type} a b (s : S) r s' :
  int_quo a b s = (Ret r, s') -> b <> 0 /\ r = Z.quot a b /\ s' = s.
Proof.
  unfold int_quo. destruct (b =? 0) eqn:E; [done|].
  intros (-> & -> & _)%int_result_Ret. repeat split. by apply Z.eqb_neq.
Qed.

Lemma int_add_run `{MathInt} {S : Type} a b (s : S) :
  int_fits (a + b) = true -> int_add a b s = (Ret (a + b), s).
Proof. apply int_result_fits. Qed.

Lemma int_sub_run `{MathInt} {S : Type} a b (s : S) :
  int_fits (a - b) = true -> int_sub a b s = (Ret (a - b), s).
Proof. apply int_result_fits. Qed.

Lemma int_mul_run `{MathInt} {S : Type} a b (s : S) :
  int_fits (a * b) = true -> int_mul a b s = (Ret (a * b), s).
Proof. apply int_result_fits. Qed.

Lemma int_quo_run `{MathInt} {S : Type} a b (s : S) :
  b <> 0 -> int_fits (Z.quot a b) = true -> int_quo a b s = (Ret (Z.quot a b), s).
Proof.
  intros Hb Hf. unfold int_quo. rewrite (proj2 (Z.eqb_neq _ _)) by done. by apply int_result_fits.
Qed.

(** [run_inv H] turns a run [(c ≫= f) s = (Ret a, s')] in the hypothesis [H]
    into the run of each of its steps, splitting on the conditions met. *)
Ltac run_eq H := first [ injection H; clear H; intros; subst | clear H ].
Ltac run_step H :=
  match type of H with
  | (_ ≫= _) _ = (Ret _, _) =>
      let H1 := fresh "Hrun" in
      apply bind_Ret_inv in H as (? & ? & H1 & H); run_step H1
  | gets _ _ = (Ret _, _) => rewrite gets_run in H; run_eq H
  | modify _ _ = (Ret _, _) => rewrite modify_run in H; run_eq H
  | mret _ _ = (Ret _, _) => rewrite mret_run in H; run_eq H
  | int_add _ _ _ = (Ret _, _) => apply int_result_Ret in H as (? & ? & ?); subst
  | int_sub _ _ _ = (Ret _, _) => apply int_result_Ret in H as (? & ? & ?); subst
  | int_mul _ _ _ = (Ret _, _) => apply int_result_Ret in H as (? & ? & ?); subst
  | int_quo _ _ _ = (Ret _, _) => apply int_quo_Ret in H as (? & ? & ?); subst
  | fail _ _ = (Ret _, _) => discriminate H
  | panic _ _ = (Ret _, _) => discriminate H
  | (if ?b then _ else _) _ = _ => let E := fresh "E" in destruct b eqn:E
  | match ?o with Some _ => _ | None => _ end _ = _ =>
      let E := fresh "E" in destruct o eqn:E
  | match ?o with (_, _) => _ end _ = _ => let E := fresh "E" in destruct o eqn:E
  | _ => idtac
  end.
Ltac run_inv H :=
  repeat (progress (run_step H)); try discriminate;
  repeat match goal with u : unit |- _ => destruct u end.

(** [run_gets] and [run_seq E] execute one step of the computation in the goal: a
    read, and a step whose run is the equation [E]. *)
Ltac run_gets := rewrite (bind_Ret (gets _) _ _ _ _ (gets_run _ _)).
Ltac run_seq E := rewrite (bind_Ret _ _ _ _ _ E).

(** ** Sums *)

Lemma sumZ_app {A : Type} (f : A -> Z) l1 l2 : sumZ f (l1 ++ l2) = sumZ f l1 + sumZ f l2.
Proof. induction l1 as [|x l1 IH]; simpl; lia. Qed.

Lemma sumZ_nonneg {A : Type} (f : A -> Z) l : Forall (fun x => 0 <= f x) l -> 0 <= sumZ f l.
Proof. induction 1; simpl; lia. Qed.

Lemma sumZ_le {A : Type} (f g : A -> Z) l :
  Forall (fun x => f x <= g x) l -> sumZ f l <= sumZ g l.
Proof. induction 1; simpl; lia. Qed.

Lemma sumZ_ext {A : Type} (f g : A -> Z) l :
  Forall (fun x => f x = g x) l -> sumZ f l = sumZ g l.
Proof. induction 1; simpl; congruence. Qed.

Lemma sumZ_one {A : Type} (l : list A) : sumZ (fun _ => 1) l = Z.of_nat (length l).
Proof. induction l as [|x l IH]; simpl; lia. Qed.

Lemma sumZ_perm {A : Type} (f : A -> Z) l1 l2 : l1 ≡ₚ l2 -> sumZ f l1 = sumZ f l2.
Proof. induction 1; simpl; lia. Qed.

Lemma sumZ_map {A C : Type} (f : C -> Z) (g : A -> C) l : sumZ f (g <$> l) = sumZ (fun x => f (g x)) l.
Proof. induction l as [|x l IH]; [done|]. simpl. f_equal. exact IH. Qed.

Lemma sumZ_mul_l {A : Type} (c : Z) (f : A -> Z) l : sumZ (fun x => c * f x) l = c * sumZ f l.
Proof. induction l as [|x l IH]; simpl; lia. Qed.

Lemma sumZ_mul_r {A : Type} (c : Z) (f : A -> Z) l : sumZ (fun x => f x * c) l = sumZ f l * c.
Proof. induction l as [|x l IH]; simpl; lia. Qed.

Lemma sumZ_add {A : Type} (f g : A -> Z) l :
  sumZ (fun x => f x + g x) l = sumZ f l + sumZ g l.
Proof. induction l as [|x l IH]; simpl; lia. Qed.

Lemma sumZ_elem_le {A : Type} (f : A -> Z) l x :
  Forall (fun y => 0 <= f y) l -> x ∈ l -> f x <= sumZ f l.
Proof.
  induction 1 as [|y l Hy Hl IH]; intros Hx; [by apply not_elem_of_nil in Hx|].
  apply elem_of_cons in Hx as [->|Hx]; simpl.
  - pose proof (sumZ_nonneg _ _ Hl). lia.
  - specialize (IH Hx). lia.
Qed.

(** ** Machine integers *)

Lemma u64_id z : is_u64 z -> u64 z = z.
Proof. unfold u64, is_u64. intros. apply Z.mod_small. lia. Qed.

Lemma u64_range z : is_u64 (u64 z).
Proof. unfold u64, is_u64. apply Z.mod_pos_bound. lia. Qed.

Lemma i64_id z : is_i64 z -> i64 z = z.
Proof. unfold i64, is_i64. intros. rewrite Z.mod_small; lia. Qed.

Lemma i64_range z : is_i64 (i64 z).
Proof.
  unfold i64, is_i64. pose proof (Z.mod_pos_bound (z + 2 ^ 63) (2 ^ 64) ltac:(lia)). lia.
Qed.

(** ** math.Int *)

Section math_int.
Context `{MathIntLaws}.

Lemma int_fits_nonneg_le a b : 0 <= a <= b -> int_fits b = true -> int_fits a = true.
Proof. rewrite !int_fits_spec. lia. Qed.

Lemma int_fits_0 : int_fits 0 = true.
Proof. apply int_fits_spec. done. Qed.

Lemma parse_positive_Some s v :
  parse_positive s = Some v <-> NewIntFromString s = Some v /\ 0 < v.
Proof.
  unfold parse_positive. destruct (NewIntFromString s) as [z|]; [|naive_solver].
  destruct (0 <? z) eqn:E; [apply Z.ltb_lt in E|apply Z.ltb_ge in E]; naive_solver lia.
Qed.

Lemma NewIntFromString_lit s z :
  s = Int_String z -> Z.abs z < 2 ^ 256 -> NewIntFromString s = Some z.
Proof. intros -> Hz. apply NewIntFromString_String. by apply int_fits_spec. Qed.

End math_int.

Lemma Int_String_parse z : NilZero.int_of_string (Int_String z) = Some (Z.to_int z).
Proof. unfold Int_String. apply NilZero.isi; destruct z as [|p|p]; simpl; try done.
  - intros [= Hn]. apply (DecimalPos.Unsigned.to_uint_nonnil p Hn).
  - intros [= Hn]. apply (DecimalPos.Unsigned.to_uint_nonnil p Hn).
Qed.

#[export] Instance decimal_MathIntLaws : @MathIntLaws decimal_MathInt.
Proof.
  split; simpl.
  - intros z. apply Z.ltb_lt.
  - intros z Hz. unfold decimal_parse. rewrite Int_String_parse, DecimalZ.of_to. by rewrite Hz.
  - intros s z. unfold decimal_parse. destruct (NilZero.int_of_string s); [|done].
    case_match; naive_solver.
Qed.

(** ** Byte strings *)

Lemma byte_to_Z_of z : 0 <= z < 256 -> byte_to_Z (byte_of z) = z.
Proof.
  intros Hz. unfold byte_to_Z, byte_of.
  rewrite Ascii.N_ascii_embedding; [|lia]. lia.
Qed.

Lemma byte_of_to_Z c : byte_of (byte_to_Z c) = c.
Proof. unfold byte_to_Z, byte_of. rewrite N2Z.id. apply Ascii.ascii_N_embedding. Qed.

Lemma byte_to_Z_range c : 0 <= byte_to_Z c < 256.
Proof. unfold byte_to_Z. pose proof (Ascii.N_ascii_bounded c). lia. Qed.

Lemma str_app_cons c (s t : string) : String c s +:+ t = String c (s +:+ t).
Proof. done. Qed.

Lemma str_app_nil (t : string) : EmptyString +:+ t = t.
Proof. done. Qed.

Lemma str_app_assoc (s t u : string) : (s +:+ t) +:+ u = s +:+ (t +:+ u).
Proof. induction s as [|c s IH]; [done|]. rewrite !str_app_cons. by rewrite IH. Qed.

Lemma str_app_length (s t : string) :
  String.length (s +:+ t) = (String.length s + String.length t)%nat.
Proof. induction s as [|c s IH]; [done|]. rewrite str_app_cons. simpl. by rewrite IH. Qed.

Lemma str_app_inv (s s' t t' : string) :
  String.length s = String.length s' -> s +:+ t = s' +:+ t' -> s = s' /\ t = t'.
Proof.
  revert s'. induction s as [|c s IH]; intros [|c' s'] Hl H; try discriminate; [done|].
  rewrite !str_app_cons in H. simpl in *. injection H as -> H. injection Hl as Hl.
  destruct (IH s' Hl H) as [-> ->]. done.
Qed.

Lemma hex_bytes_length s : String.length (hex_bytes s) = (2 * String.length s)%nat.
Proof. induction s as [|c s IH]; [done|]. simpl. rewrite IH. lia. Qed.

Lemma lower_hex_length addr :
  String.length addr = 20%nat -> String.length (lower_hex addr) = 42%nat.
Proof. intros H. unfold lower_hex. rewrite str_app_length, hex_bytes_length, H. done. Qed.

Lemma hex_digit_inj a b : 0 <= a < 16 -> 0 <= b < 16 -> hex_digit a = hex_digit b -> a = b.
Proof.
  intros Ha Hb H. apply (f_equal byte_to_Z) in H. unfold hex_digit in H.
  destruct (Z.ltb_spec a 10), (Z.ltb_spec b 10); rewrite !byte_to_Z_of in H by lia; lia.
Qed.

Lemma hex_bytes_inj s t : hex_bytes s = hex_bytes t -> s = t.
Proof.
  revert t. induction s as [|c s IH]; intros [|d t] H; try done.
  simpl in H. injection H as H1 H2 H3.
  pose proof (byte_to_Z_range c) as Hc. pose proof (byte_to_Z_range d) as Hd.
  apply hex_digit_inj in H1; [|div_lia..]. apply hex_digit_inj in H2; [|div_lia..].
  rewrite <- (byte_of_to_Z c), <- (byte_of_to_Z d), (IH _ H3).
  do 2 f_equal. div_lia.
Qed.

Lemma lower_hex_inj a b : lower_hex a = lower_hex b -> a = b.
Proof. unfold lower_hex. intros H. apply (inj (String.append _)) in H. by apply hex_bytes_inj. Qed.

Lemma ToLower_length s : String.length (ToLower s) = String.length s.
Proof. induction s as [|c s IH]; [done|]. simpl. by rewrite IH. Qed.

Lemma ascii_lower_idem c : ascii_lower (ascii_lower c) = ascii_lower c.
Proof. by destruct c as [[] [] [] [] [] [] [] []]. Qed.

Lemma ToLower_idem s : ToLower (ToLower s) = ToLower s.
Proof. induction s as [|c s IH]; [done|]. simpl. by rewrite ascii_lower_idem, IH. Qed.

Lemma be_bytes_length n z : String.length (be_bytes n z) = n.
Proof. induction n as [|n IH]; [done|]. simpl. by rewrite IH. Qed.

Lemma be_bytes_mod n z : be_bytes n (z mod 2 ^ (8 * Z.of_nat n)) = be_bytes n z.
Proof.
  assert (Hgen : forall k, (n <= k)%nat -> be_bytes n (z mod 2 ^ (8 * Z.of_nat k)) = be_bytes n z);
    [|by apply Hgen].
  induction n as [|n IH]; intros k Hk; [done|]. simpl. rewrite IH by lia. do 2 f_equal.
  rewrite <- (Z.land_ones z) by lia. rewrite <- !Z.shiftr_div_pow2 by lia.
  change 256 with (2 ^ 8). rewrite <- !Z.land_ones by lia.
  apply Z.bits_inj'. intros i Hi.
  rewrite !Z.land_spec, !Z.shiftr_spec, Z.land_spec, !Z.testbit_ones_nonneg by lia.
  destruct (i <? 8) eqn:E; [|by rewrite !andb_false_r].
  apply Z.ltb_lt in E. rewrite (proj2 (Z.ltb_lt _ _)) by lia. by rewrite andb_true_r.
Qed.

Lemma be_decode_acc_app acc s t : be_decode_acc acc (s +:+ t) = be_decode_acc (be_decode_acc acc s) t.
Proof. revert acc. induction s as [|c s IH]; intros acc; [done|].
  rewrite str_app_cons. simpl. by rewrite IH.
Qed.

Lemma be_decode_acc_bytes n acc z :
  be_decode_acc acc (be_bytes n z) = acc * 2 ^ (8 * Z.of_nat n) + z mod 2 ^ (8 * Z.of_nat n).
Proof.
  revert acc. induction n as [|n IH]; intros acc; cbn [be_bytes be_decode_acc].
  - rewrite Z.mod_1_r. lia.
  - rewrite IH, byte_to_Z_of by (apply Z.mod_pos_bound; lia).
    replace (8 * Z.of_nat (S n)) with (8 * Z.of_nat n + 8) by lia.
    rewrite Z.pow_add_r by lia. set (P := 2 ^ (8 * Z.of_nat n)).
    assert (0 < P) by (apply Z.pow_pos_nonneg; lia).
    change (2 ^ 8) with 256. rewrite (Z.rem_mul_r z P 256) by lia. lia.
Qed.

Lemma be_decode_acc_range s acc :
  0 <= acc -> acc * 256 ^ Z.of_nat (String.length s) <= be_decode_acc acc s
              < (acc + 1) * 256 ^ Z.of_nat (String.length s).
Proof.
  revert acc. induction s as [|c s IH]; intros acc Ha; cbn [be_decode_acc String.length].
  - change (256 ^ Z.of_nat 0) with 1. lia.
  - pose proof (byte_to_Z_range c). rewrite Nat2Z.inj_succ, Z.pow_succ_r by lia.
    specialize (IH (acc * 256 + byte_to_Z c) ltac:(lia)). nia.
Qed.

Lemma be_bytes_decode_acc acc s : 0 <= acc -> be_bytes (String.length s) (be_decode_acc acc s) = s.
Proof.
  revert acc. induction s as [|c s IH]; intros acc Hacc; [done|]. simpl. pose proof (byte_to_Z_range c) as Hc.
  rewrite IH by lia. f_equal. set (a := acc * 256 + byte_to_Z c).
  pose proof (be_decode_acc_range s a ltac:(lia)) as Hr.
  assert (E : be_decode_acc a s / 2 ^ (8 * Z.of_nat (String.length s)) = a).
  { rewrite Z.pow_mul_r by lia. change (2 ^ 8) with 256. symmetry.
    apply Z.div_unique_pos with (r := be_decode_acc a s - a * 256 ^ Z.of_nat (String.length s)); lia. }
  rewrite E. unfold a. rewrite Z.add_comm, Z_mod_plus_full, Z.mod_small by lia. apply byte_of_to_Z.
Qed.

Lemma substring_app_l n (s t : string) : String.length s = n -> String.substring 0 n (s +:+ t) = s.
Proof.
  revert n. induction s as [|c s IH]; intros n <-; [by destruct t|]. rewrite str_app_cons. simpl. by rewrite IH.
Qed.
Lemma substring_all n (s : string) : String.length s = n -> String.substring 0 n s = s.
Proof. revert n. induction s as [|c s IH]; intros n <-; [done|]. simpl. by rewrite IH. Qed.
Lemma substring_app_r n m (s t : string) :
  String.length s = n -> String.substring n m (s +:+ t) = String.substring 0 m t.
Proof. revert n. induction s as [|c s IH]; intros n <-; [done|]. rewrite str_app_cons. simpl. by apply IH. Qed.
Lemma substring_split n m (s : string) :
  String.length s = (n + m)%nat -> String.substring 0 n s +:+ String.substring n m s = s.
Proof.
  revert s. induction n as [|n IH]; intros s Hs.
  - replace (String.substring 0 0 s) with EmptyString by (by destruct s). rewrite str_app_nil. by apply substring_all.
  - destruct s as [|c s]; [done|]. simpl. rewrite str_app_cons. f_equal. apply IH. by injection Hs.
Qed.
Lemma substring_length n m (s : string) :
  (n + m <= String.length s)%nat -> String.length (String.substring n m s) = m.
Proof.
  revert n m. induction s as [|c s IH]; intros n m Hs; simpl in Hs.
  - destruct n; [|lia]. by destruct m; [|lia].
  - destruct n as [|n]; [destruct m as [|m]; simpl; [done|]; f_equal; apply IH; lia|]. simpl. apply IH. lia.
Qed.

Lemma be_decode_be64 z : is_u64 z -> be_decode (be64 z) = z.
Proof.
  intros Hz. unfold be_decode, be64. rewrite be_decode_acc_bytes.
  change (8 * Z.of_nat 8) with 64. rewrite Z.mod_small; [lia|exact Hz].
Qed.

Lemma be64_inj a b : is_u64 a -> is_u64 b -> be64 a = be64 b -> a = b.
Proof. intros Ha Hb H. rewrite <- (be_decode_be64 a), <- (be_decode_be64 b) by done. by rewrite H. Qed.
Lemma be64_app_inj a b s t : is_u64 a -> is_u64 b -> be64 a +:+ s = be64 b +:+ t -> a = b /\ s = t.
Proof.
  intros Ha Hb E. apply str_app_inv in E as [E ->]; [|unfold be64; by rewrite !be_bytes_length]. split; [by apply be64_inj|done].
Qed.

Lemma ascii_compare_byte a b :
  0 <= a < 256 -> 0 <= b < 256 -> Ascii.compare (byte_of a) (byte_of b) = (a ?= b).
Proof.
  intros Ha Hb. unfold Ascii.compare.
  assert (Hn : forall z, 0 <= z < 256 -> Ascii.N_of_ascii (byte_of z) = Z.to_N z).
  { intros z Hz. unfold byte_of. apply Ascii.N_ascii_embedding. lia. }
  rewrite !Hn by done. by rewrite Z2N.inj_compare by lia.
Qed.

(** Big-endian keys are ordered as the numbers they encode. *)
Lemma be_bytes_compare n a b s t :
  0 <= a < 2 ^ (8 * Z.of_nat n) -> 0 <= b < 2 ^ (8 * Z.of_nat n) ->
  String.compare (be_bytes n a +:+ s) (be_bytes n b +:+ t) =
  match a ?= b with Eq => String.compare s t | c => c end.
Proof.
  revert a b. induction n as [|n IH]; intros a b Ha Hb.
  - change (2 ^ (8 * Z.of_nat 0)) with 1 in *.
    assert (a = 0) as -> by lia. assert (b = 0) as -> by lia. done.
  - cbn [be_bytes]. rewrite !str_app_cons. cbn [String.compare].
    replace (8 * Z.of_nat (S n)) with (8 * Z.of_nat n + 8) in * by lia.
    rewrite Z.pow_add_r in * by lia. set (P := 2 ^ (8 * Z.of_nat n)) in *.
    assert (HP : 0 < P) by (apply Z.pow_pos_nonneg; lia). change (2 ^ 8) with 256 in *.
    assert (Hqa : 0 <= a / P < 256)
      by (split; [apply Z.div_pos; lia|apply Z.div_lt_upper_bound; lia]).
    assert (Hqb : 0 <= b / P < 256)
      by (split; [apply Z.div_pos; lia|apply Z.div_lt_upper_bound; lia]).
    rewrite (Z.mod_small (a / P)), (Z.mod_small (b / P)) by lia.
    rewrite ascii_compare_byte by lia.
    rewrite <- (be_bytes_mod n a), <- (be_bytes_mod n b). fold P.
    rewrite IH by (apply Z.mod_pos_bound; lia).
    pose proof (Z.div_mod a P ltac:(lia)). pose proof (Z.div_mod b P ltac:(lia)).
    pose proof (Z.mod_pos_bound a P HP). pose proof (Z.mod_pos_bound b P HP).
    destruct (Z.compare_spec (a / P) (b / P)) as [E|E|E].
    + destruct (Z.compare_spec (a mod P) (b mod P)), (Z.compare_spec a b); try done; nia.
    + destruct (Z.compare_spec a b); try done; nia.
    + destruct (Z.compare_spec a b); try done; nia.
Qed.

Lemma str_compare_refl s : String.compare s s = Eq.
Proof.
  induction s as [|c s IH]; [done|]. simpl.
  unfold Ascii.compare. by rewrite N.compare_refl.
Qed.

Lemma str_leb_compare s t : String.leb s t = match String.compare s t with Gt => false | _ => true end.
Proof. unfold String.leb. by destruct (String.compare s t). Qed.

#[export] Instance str_le_total : Total str_le.
Proof. intros s t. apply String.leb_total. Qed.

#[export] Instance str_le_trans : Transitive str_le.
Proof.
  intros s t u. unfold str_le. rewrite !str_leb_compare.
  revert t u. induction s as [|a s IH]; intros [|b t] [|c u]; simpl; try done.
  unfold Ascii.compare.
  destruct (N.compare_spec (Ascii.N_of_ascii a) (Ascii.N_of_ascii b)) as [E1|E1|E1],
    (N.compare_spec (Ascii.N_of_ascii b) (Ascii.N_of_ascii c)) as [E2|E2|E2],
    (N.compare_spec (Ascii.N_of_ascii a) (Ascii.N_of_ascii c)) as [E3|E3|E3];
    try done; try lia. apply IH.
Qed.

#[export] Instance key_le_total {V : Type} : Total (@key_le V).
Proof. intros a b. apply str_le_total. Qed.

#[export] Instance key_le_trans {V : Type} : Transitive (@key_le V).
Proof. intros a b c. apply str_le_trans. Qed.

Lemma str_prefix_app p s : String.prefix p (p +:+ s) = true.
Proof.
  induction p as [|c p IH]; [by destruct s|].
  rewrite str_app_cons. simpl. by destruct (ascii_dec c c).
Qed.

Lemma str_prefix_inv p s : String.prefix p s = true -> exists t, s = p +:+ t.
Proof.
  revert s. induction p as [|c p IH]; intros s H; [by exists s|].
  destruct s as [|d s]; [done|]. simpl in H. destruct (ascii_dec c d) as [->|]; [|done].
  destruct (IH _ H) as [t ->]. by exists t.
Qed.

Lemma contains_spec l s : contains l s = true <-> s ∈ l.
Proof.
  induction l as [|x l IH]; simpl.
  - split; [done|]. intros H. by apply not_elem_of_nil in H.
  - rewrite elem_of_cons. destruct (String.eqb_spec x s) as [->|Hne]; [naive_solver|].
    rewrite IH. naive_solver.
Qed.

(** ** Key-value stores *)

Section store_lemmas.
Context {B : Type}.
Implicit Types (w : World B) (n k v : string).

Lemma kvs_set n n' k v w :
  kvs n (kv_set n' k v w) = if decide (n' = n) then <[k := v]> (kvs n w) else kvs n w.
Proof. unfold kvs, kv_set; simpl. rewrite lookup_insert. case_decide; by subst. Qed.

Lemma kvs_delete n n' k w :
  kvs n (kv_delete n' k w) = if decide (n' = n) then delete k (kvs n w) else kvs n w.
Proof. unfold kvs, kv_delete; simpl. rewrite lookup_insert. case_decide; by subst. Qed.

Lemma kv_get_set n n' k k' v w :
  kv_get n k (kv_set n' k' v w) =
  if decide (n' = n /\ k' = k) then Some v else kv_get n k w.
Proof.
  unfold kv_get. rewrite kvs_set. repeat case_decide; try naive_solver; subst.
  - destruct_and!; subst. by rewrite lookup_insert_eq.
  - rewrite lookup_insert_ne; naive_solver.
Qed.

Lemma kv_get_delete n n' k k' w :
  kv_get n k (kv_delete n' k' w) =
  if decide (n' = n /\ k' = k) then None else kv_get n k w.
Proof.
  unfold kv_get. rewrite kvs_delete. repeat case_decide; try naive_solver; subst.
  - destruct_and!; subst. by rewrite lookup_delete_eq.
  - rewrite lookup_delete_ne; naive_solver.
Qed.

Lemma kv_get_set_eq n k v w : kv_get n k (kv_set n k v w) = Some v.
Proof. rewrite kv_get_set. by rewrite decide_True. Qed.

Lemma kv_get_set_ne n n' k k' v w :
  n' <> n \/ k' <> k -> kv_get n k (kv_set n' k' v w) = kv_get n k w.
Proof. intros H. rewrite kv_get_set. rewrite decide_False; naive_solver. Qed.

Lemma kv_get_delete_eq n k w : kv_get n k (kv_delete n k w) = None.
Proof. rewrite kv_get_delete. by rewrite decide_True. Qed.

Lemma kv_get_delete_ne n n' k k' w :
  n' <> n \/ k' <> k -> kv_get n k (kv_delete n' k' w) = kv_get n k w.
Proof. intros H. rewrite kv_get_delete. rewrite decide_False; naive_solver. Qed.

Lemma kv_get_emit n k e w : kv_get n k (emit e w) = kv_get n k w.
Proof. done. Qed.
Lemma kv_get_set_bank n k b w : kv_get n k (set_bank b w) = kv_get n k w.
Proof. done. Qed.
Lemma w_bank_set n k v w : w_bank (kv_set n k v w) = w_bank w.
Proof. done. Qed.
Lemma w_bank_delete n k w : w_bank (kv_delete n k w) = w_bank w.
Proof. done. Qed.
Lemma w_bank_emit e w : w_bank (emit e w) = w_bank w.
Proof. done. Qed.
Lemma w_bank_set_bank b w : w_bank (set_bank b w) = b.
Proof. done. Qed.

Lemma on_bank_run {A : Type} (m : M B A) w o b :
  m (w_bank w) = (o, b) -> on_bank m w = (o, set_bank b w).
Proof. unfold on_bank. by intros ->. Qed.

Lemma on_bank_inv {A : Type} (m : M B A) w o w' :
  on_bank m w = (o, w') -> exists b, m (w_bank w) = (o, b) /\ w' = set_bank b w.
Proof.
  unfold on_bank. destruct (m (w_bank w)) as [o' b]; simpl. intros [= -> <-]. eauto.
Qed.

Lemma elem_of_kv_range n lo hi w k v :
  (k, v) ∈ kv_range n lo hi w <-> kv_get n k w = Some v /\ in_range lo hi k = true.
Proof.
  unfold kv_range. rewrite merge_sort_Permutation, list_elem_of_filter, elem_of_map_to_list.
  unfold kv_get. naive_solver.
Qed.

Lemma NoDup_kv_range n lo hi w : NoDup (kv_range n lo hi w).*1.
Proof.
  unfold kv_range. rewrite merge_sort_Permutation.
  apply NoDup_fmap_fst.
  - intros k v1 v2 [_ H1]%list_elem_of_filter [_ H2]%list_elem_of_filter.
    apply elem_of_map_to_list in H1, H2. congruence.
  - apply NoDup_filter, NoDup_map_to_list.
Qed.

Lemma kv_range_sorted n lo hi w : StronglySorted key_le (kv_range n lo hi w).
Proof. unfold kv_range. apply StronglySorted_merge_sort; apply _. Qed.

End store_lemmas.

Lemma prefixEnd_go_app l c :
  prefixEnd_go (l ++ [c]) =
  match prefixEnd_go l with
  | Some bs => Some (bs ++ [c])
  | None => if byte_to_Z c =? 255 then None else Some [byte_of (byte_to_Z c + 1)]
  end.
Proof. induction l as [|d l IH]; simpl; [done|]. destruct (byte_to_Z d =? 255); [exact IH|done]. Qed.

Lemma prefixEnd_cons c p :
  prefixEnd (String c p) =
  match prefixEnd p with
  | Some e => Some (String c e)
  | None => if byte_to_Z c =? 255 then None else Some (String (byte_of (byte_to_Z c + 1)) EmptyString)
  end.
Proof.
  unfold prefixEnd. simpl. rewrite prefixEnd_go_app.
  destruct (prefixEnd_go _) as [bs|]; simpl.
  - by rewrite rev_app_distr.
  - by destruct (byte_to_Z c =? 255).
Qed.

Lemma compare_cons c d s t :
  String.compare (String c s) (String d t) =
  match byte_to_Z c ?= byte_to_Z d with Eq => String.compare s t | r => r end.
Proof.
  simpl. rewrite <- (byte_of_to_Z c) at 1. rewrite <- (byte_of_to_Z d) at 1.
  rewrite ascii_compare_byte by apply byte_to_Z_range. done.
Qed.

(** Between a one-byte prefix and an extension of it, every key has the prefix. *)
Lemma in_range_byte c t k : in_range (String c EmptyString) (Some (String c t)) k = true -> exists u, k = String c u.
Proof.
  unfold in_range. rewrite !str_leb_compare. destruct k as [|d u]; [done|]. rewrite !compare_cons.
  destruct (Z.compare_spec (byte_to_Z c) (byte_to_Z d)) as [E|E|E]; [|done|done].
  intros _. exists u. by rewrite <- (byte_of_to_Z c), <- (byte_of_to_Z d), E.
Qed.

(** The bounds of a prefix iterator select exactly the keys with that prefix. *)
Lemma in_range_prefix p k :
  is_Some (prefixEnd p) -> in_range p (prefixEnd p) k = String.prefix p k.
Proof.
  intros [e He]. rewrite He. revert e k He. induction p as [|c p IH]; intros e k He; [done|].
  rewrite prefixEnd_cons in He. unfold in_range. rewrite !str_leb_compare.
  destruct k as [|d k]; [done|]. cbn [String.prefix].
  pose proof (byte_to_Z_range c) as Hc. pose proof (byte_to_Z_range d) as Hd.
  destruct (prefixEnd p) as [e'|] eqn:Ep.
  - injection He as <-. rewrite !compare_cons. specialize (IH e' k eq_refl).
    unfold in_range in IH. rewrite !str_leb_compare in IH.
    destruct (ascii_dec c d) as [->|Hne].
    + rewrite Z.compare_refl. exact IH.
    + destruct (Z.compare_spec (byte_to_Z c) (byte_to_Z d)) as [E|E|E]; [|done|done].
      exfalso. apply Hne. rewrite <- (byte_of_to_Z c), <- (byte_of_to_Z d). by rewrite E.
  - destruct (Z.eqb_spec (byte_to_Z c) 255); [done|]. injection He as <-. rewrite !compare_cons.
    rewrite byte_to_Z_of by lia.
    assert (Hp : String.prefix p k = match String.compare p k with Gt => false | _ => true end).
    { clear -Ep. revert k. induction p as [|a p IHp]; intros k; [by destruct k|].
      rewrite prefixEnd_cons in Ep. destruct (prefixEnd p); [done|].
      destruct (Z.eqb_spec (byte_to_Z a) 255) as [Ea|]; [|done].
      destruct k as [|b k]; [done|]. rewrite compare_cons. cbn [String.prefix]. rewrite Ea.
      pose proof (byte_to_Z_range b). destruct (ascii_dec a b) as [->|Hne].
      - rewrite Ea, Z.compare_refl. by apply IHp.
      - destruct (Z.compare_spec 255 (byte_to_Z b)) as [E|E|E]; [|lia|done].
        exfalso. apply Hne. rewrite <- (byte_of_to_Z a), <- (byte_of_to_Z b). congruence. }
    destruct (ascii_dec c d) as [->|Hne].
    + rewrite Z.compare_refl, Hp. destruct (Z.compare_spec (byte_to_Z d + 1) (byte_to_Z d)); try lia.
      by rewrite andb_true_r.
    + destruct (Z.compare_spec (byte_to_Z c) (byte_to_Z d)) as [E|E|E]; [| |done].
      * exfalso. apply Hne. rewrite <- (byte_of_to_Z c), <- (byte_of_to_Z d). by rewrite E.
      * destruct (Z.compare_spec (byte_to_Z c + 1) (byte_to_Z d)); try done; [|lia].
        by destruct k.
Qed.

Lemma prefixEnd_byte z s : 0 <= z < 255 -> is_Some (prefixEnd (byte_prefix z +:+ s)).
Proof.
  intros Hz. unfold byte_prefix. rewrite str_app_cons, str_app_nil, prefixEnd_cons, byte_to_Z_of by lia.
  rewrite (proj2 (Z.eqb_neq z 255)) by lia. destruct (prefixEnd s); eauto.
Qed.

Lemma elem_of_kv_iter {B : Type} n p (w : World B) k v :
  is_Some (prefixEnd p) ->
  (k, v) ∈ kv_iter n p w <-> kv_get n k w = Some v /\ exists t, k = p +:+ t.
Proof.
  intros Hp. unfold kv_iter. rewrite elem_of_kv_range, in_range_prefix by done.
  split; intros [? Hk]; (split; [done|]).
  - by apply str_prefix_inv.
  - destruct Hk as [t ->]. apply str_prefix_app.
Qed.

Lemma str_le_antisym s t : str_le s t -> str_le t s -> s = t.
Proof.
  unfold str_le. rewrite !str_leb_compare. revert t.
  induction s as [|c s IH]; intros [|d t]; try done. rewrite !compare_cons.
  rewrite (Z.compare_antisym (byte_to_Z c) (byte_to_Z d)).
  destruct (Z.compare_spec (byte_to_Z c) (byte_to_Z d)) as [E|E|E]; simpl; try done.
  intros Hst Hts. f_equal; [|by apply IH].
  by rewrite <- (byte_of_to_Z c), <- (byte_of_to_Z d), E.
Qed.

(** An iterator depends only on the keys in its range. *)
Lemma kv_range_ext {B : Type} n lo hi (w w' : World B) :
  (forall k, in_range lo hi k = true -> kv_get n k w' = kv_get n k w) -> kv_range n lo hi w' = kv_range n lo hi w.
Proof.
  intros Hk. assert (He : forall k v, (k, v) ∈ kv_range n lo hi w' <-> (k, v) ∈ kv_range n lo hi w).
  { intros k v. rewrite !elem_of_kv_range. split; intros [Hg Hr]; (split; [|done]); by rewrite ?Hk in *. }
  apply (StronglySorted_unique_strong key_le).
  - intros [k1 v1] [k2 v2] H1 H2 H12 H21. apply He in H1. apply elem_of_kv_range in H1, H2.
    assert (k1 = k2) as <- by by apply str_le_antisym. destruct H1, H2. congruence.
  - apply kv_range_sorted.
  - apply kv_range_sorted.
  - apply NoDup_Permutation; [| |by intros [k v]]; (eapply NoDup_fmap_1; apply (NoDup_kv_range n lo hi)).
Qed.

Lemma kv_iter_ext {B : Type} n p (w w' : World B) :
  is_Some (prefixEnd p) -> (forall t, kv_get n (p +:+ t) w' = kv_get n (p +:+ t) w) ->
  kv_iter n p w' = kv_iter n p w.
Proof.
  intros Hp Hk. apply kv_range_ext. intros k Hr. rewrite in_range_prefix in Hr by done.
  apply str_prefix_inv in Hr as [t ->]. apply Hk.
Qed.

(** The entry of one key of the range, and the other entries. *)
Lemma kv_iter_split {B : Type} n p t (w : World B) :
  is_Some (prefixEnd p) ->
  kv_iter n p w ≡ₚ
  match kv_get n (p +:+ t) w with Some v => [(p +:+ t, v)] | None => [] end ++
  kv_iter n p (kv_delete n (p +:+ t) w).
Proof.
  intros Hp. apply NoDup_Permutation.
  - eapply NoDup_fmap_1. apply (NoDup_kv_range n p (prefixEnd p)).
  - apply NoDup_app. split_and!.
    + destruct (kv_get n _ w); [apply NoDup_singleton|constructor].
    + intros [k v] Hk. rewrite elem_of_kv_iter by done. destruct (kv_get n (p +:+ t) w); [|by apply not_elem_of_nil in Hk].
      apply list_elem_of_singleton in Hk as [= -> ->]. rewrite kv_get_delete_eq. by intros [? _].
    + eapply NoDup_fmap_1. apply (NoDup_kv_range n p (prefixEnd p)).
  - intros [k v]. rewrite elem_of_app, !elem_of_kv_iter, kv_get_delete by done.
    case_decide as E.
    + destruct E as [_ <-]. destruct (kv_get n (p +:+ t) w) as [v'|]; [|set_solver].
      rewrite list_elem_of_singleton. naive_solver.
    + assert (Hk : p +:+ t <> k) by naive_solver.
      split; [tauto|]. intros [Hin|]; [|done]. destruct (kv_get n (p +:+ t) w); [|by apply not_elem_of_nil in Hin].
      apply list_elem_of_singleton in Hin as [= -> _]. done.
Qed.

(** ** Automation

    The database [kv] rewrites a read of the store after writes; [kv_simp] uses
    it together with the inequality of keys whose first bytes differ. *)

Create Rewrite HintDb kv.
#[export] Hint Rewrite @kv_get_set_eq @kv_get_delete_eq @kv_get_emit @kv_get_set_bank
  @w_bank_set @w_bank_delete @w_bank_emit @w_bank_set_bank : kv.

Lemma byte_prefix_ne a b s t :
  0 <= a < 256 -> 0 <= b < 256 -> a <> b -> byte_prefix a +:+ s <> byte_prefix b +:+ t.
Proof.
  intros Ha Hb Hne H. unfold byte_prefix in H. rewrite !str_app_cons in H.
  injection H as H _. apply (f_equal byte_to_Z) in H. rewrite !byte_to_Z_of in H; lia.
Qed.

Lemma byte_prefix_inj a s t : byte_prefix a +:+ s = byte_prefix a +:+ t -> s = t.
Proof. unfold byte_prefix. rewrite !str_app_cons. intros [= H]. exact H. Qed.

Ltac key_ne :=
  first
    [ left; discriminate
    | right; first [ discriminate | apply byte_prefix_ne; lia | congruence ] ].

Ltac kv_simp :=
  repeat (progress (autorewrite with kv) || (rewrite kv_get_set_ne by key_ne)
          || (rewrite kv_get_delete_ne by key_ne)).

(** Turn the boolean tests of the code into propositions. *)
Ltac bool_prop :=
  repeat match goal with
  | H : negb _ = true |- _ => apply negb_true_iff in H
  | H : negb _ = false |- _ => apply negb_false_iff in H
  | H : _ && _ = true |- _ => apply andb_true_iff in H as [? ?]
  | H : _ || _ = false |- _ => apply orb_false_iff in H as [? ?]
  | H : _ && _ = false |- _ => apply andb_false_iff in H
  | H : _ || _ = true |- _ => apply orb_true_iff in H
  | H : (_ <? _) = true |- _ => apply Z.ltb_lt in H
  | H : (_ <? _) = false |- _ => apply Z.ltb_ge in H
  | H : (_ <=? _) = true |- _ => apply Z.leb_le in H
  | H : (_ <=? _) = false |- _ => apply Z.leb_gt in H
  | H : (_ =? _) = true |- _ => apply Z.eqb_eq in H
  | H : (_ =? _) = false |- _ => apply Z.eqb_neq in H
  | H : String.eqb _ _ = true |- _ => apply String.eqb_eq in H
  | H : String.eqb _ _ = false |- _ => apply String.eqb_neq in H
  end.
