(* ===== verification/Codec.v ===== *)
(** * An executable codec

    The store holds JSON documents.  The models take the codec of each record
    type as the class [JSON] of the prelude; this file builds one concrete codec
    per record, prefix-free and linear in the size of the record, with its round
    trip.  The concrete runs of the models use it. *)
From S2P Require Import Prelude.
From stdpp Require Import gmap strings list.
From Stdlib Require Import Ascii ZArith Lia.

#[local] Set Default Goal Selector "!".
Open Scope Z_scope.

(** [dec] reads one value off the front of a string and returns the rest. *)
Class Codec (A : Type) : Type := {
  enc : A -> string;
  dec : string -> option (A * string);
  dec_enc a r : dec (enc a +:+ r) = Some (a, r)
}.

Definition byte0 : ascii := "0"%char.
Definition byte1 : ascii := "1"%char.

Definition enc_bool (b : bool) : string := String (if b then byte1 else byte0) EmptyString.
Definition dec_bool (s : string) : option (bool * string) :=
  match s with
  | String c r => if ascii_dec c byte1 then Some (true, r) else Some (false, r)
  | EmptyString => None
  end.

#[export] Instance Codec_bool : Codec bool.
Proof. refine {| enc := enc_bool; dec := dec_bool |}. by intros [] r. Defined.

#[export] Instance Codec_unit : Codec unit.
Proof. refine {| enc _ := EmptyString; dec s := Some (tt, s) |}. by intros []. Defined.

#[export] Instance Codec_pair (A C : Type) `{Codec A} `{Codec C} : Codec (A * C).
Proof.
  refine {| enc p := enc p.1 +:+ enc p.2;
            dec s := match dec s with
                     | Some (a, r) => match dec r with Some (c, r') => Some ((a, c), r') | None => None end
                     | None => None
                     end |}.
  intros [a c] r. simpl. rewrite str_app_assoc, dec_enc. by rewrite dec_enc.
Defined.

#[export] Instance Codec_option (A : Type) `{Codec A} : Codec (option A).
Proof.
  refine {| enc o := match o with Some a => String byte1 (enc a) | None => String byte0 EmptyString end;
            dec s := match dec_bool s with
                     | Some (true, r) => match dec r with Some (a, r') => Some (Some a, r') | None => None end
                     | Some (false, r) => Some (None, r)
                     | None => None
                     end |}.
  intros [a|] r; rewrite str_app_cons; simpl; [|by rewrite str_app_nil]. by rewrite dec_enc.
Defined.

(** A string: every character announced by [1], the end by [0]. *)
Fixpoint enc_string (s : string) : string :=
  match s with
  | EmptyString => String byte0 EmptyString
  | String c s' => String byte1 (String c (enc_string s'))
  end.
Fixpoint dec_string (fuel : string) (s : string) : option (string * string) :=
  match s with
  | String b r =>
      if ascii_dec b byte1 then
        match r, fuel with
        | String c r', String _ fuel' =>
            match dec_string fuel' r' with Some (t, r'') => Some (String c t, r'') | None => None end
        | _, _ => None
        end
      else Some (EmptyString, r)
  | EmptyString => None
  end.

Lemma dec_string_enc t : forall fuel r, (String.length t <= String.length fuel)%nat ->
  dec_string fuel (enc_string t +:+ r) = Some (t, r).
Proof.
  induction t as [|c t IH]; intros fuel r Hf; cbn [enc_string].
  - rewrite str_app_cons, str_app_nil. by destruct fuel.
  - rewrite !str_app_cons. destruct fuel as [|d fuel]; simpl in *; [lia|].
    by rewrite IH by lia.
Qed.

Lemma enc_string_length t : (String.length t <= String.length (enc_string t))%nat.
Proof. induction t as [|c t IH]; simpl; lia. Qed.

#[export] Instance Codec_string : Codec string.
Proof.
  refine {| enc := enc_string; dec s := dec_string s s |}.
  intros t r. apply dec_string_enc. rewrite str_app_length. pose proof (enc_string_length t). lia.
Defined.

(** An integer, through the bits of its absolute value. *)
Fixpoint enc_pos (p : positive) : string :=
  match p with
  | xH => String byte0 EmptyString
  | xO q => String byte1 (String byte0 (enc_pos q))
  | xI q => String byte1 (String byte1 (enc_pos q))
  end.
Fixpoint dec_pos (fuel : string) (s : string) : option (positive * string) :=
  match s with
  | String b r =>
      if ascii_dec b byte1 then
        match r, fuel with
        | String c r', String _ fuel' =>
            match dec_pos fuel' r' with
            | Some (q, r'') => Some (if ascii_dec c byte1 then xI q else xO q, r'')
            | None => None
            end
        | _, _ => None
        end
      else Some (xH, r)
  | EmptyString => None
  end.

Lemma dec_pos_enc p : forall fuel r, (String.length (enc_pos p) <= String.length fuel)%nat ->
  dec_pos fuel (enc_pos p +:+ r) = Some (p, r).
Proof.
  induction p as [p IH|p IH|]; intros fuel r Hf; cbn [enc_pos] in *; rewrite ?str_app_cons;
    destruct fuel as [|d fuel]; simpl in *; try lia; try (by rewrite IH by lia).
  by rewrite str_app_nil.
Qed.

Definition enc_Z (z : Z) : string :=
  match z with
  | Z0 => String byte0 EmptyString
  | Zpos p => String byte1 (String byte1 (enc_pos p))
  | Zneg p => String byte1 (String byte0 (enc_pos p))
  end.
Definition dec_Z (s : string) : option (Z * string) :=
  match dec_bool s with
  | Some (false, r) => Some (0, r)
  | Some (true, r) =>
      match dec_bool r with
      | Some (sg, r') =>
          match dec_pos r' r' with
          | Some (p, r'') => Some (if sg then Zpos p else Zneg p, r'')
          | None => None
          end
      | None => None
      end
  | None => None
  end.

#[export] Instance Codec_Z : Codec Z.
Proof.
  refine {| enc := enc_Z; dec := dec_Z |}.
  assert (Hp : forall p r, dec_pos (enc_pos p +:+ r) (enc_pos p +:+ r) = Some (p, r))
    by (intros p r; apply dec_pos_enc; rewrite str_app_length; lia).
  intros [|p|p] r; unfold enc_Z, dec_Z; rewrite !str_app_cons; simpl; rewrite ?Hp; by rewrite ?str_app_nil.
Defined.

Section list_codec.
Context `{Codec A}.

Fixpoint enc_list (l : list A) : string :=
  match l with
  | [] => String byte0 EmptyString
  | a :: l' => String byte1 (enc a +:+ enc_list l')
  end.
Fixpoint dec_list (fuel : string) (s : string) : option (list A * string) :=
  match s with
  | String b r =>
      if ascii_dec b byte1 then
        match dec r, fuel with
        | Some (a, r'), String _ fuel' =>
            match dec_list fuel' r' with Some (l, r'') => Some (a :: l, r'') | None => None end
        | _, _ => None
        end
      else Some ([], r)
  | EmptyString => None
  end.

Lemma dec_list_enc l : forall fuel r, (String.length (enc_list l) <= String.length fuel)%nat ->
  dec_list fuel (enc_list l +:+ r) = Some (l, r).
Proof.
  induction l as [|a l IH]; intros fuel r Hf; cbn [enc_list] in *; rewrite ?str_app_cons;
    destruct fuel as [|d fuel]; cbn [dec_list String.length] in *; try lia.
  - by rewrite str_app_nil.
  - rewrite str_app_assoc, dec_enc. rewrite str_app_length in Hf. simpl. by rewrite IH by lia.
Qed.

#[export] Instance Codec_list : Codec (list A).
Proof.
  refine {| enc := enc_list; dec s := dec_list s s |}.
  intros l r. apply dec_list_enc. rewrite str_app_length. lia.
Defined.
End list_codec.

(** A record through the tuple of its fields. *)
Definition Codec_iso {A C : Type} `{Codec C} (f : A -> C) (g : C -> A)
    (Hgf : forall a, g (f a) = a) : Codec A.
Proof.
  refine {| enc a := enc (f a);
            dec s := match dec s with Some (c, r) => Some (g c, r) | None => None end |}.
  intros a r. by rewrite dec_enc, Hgf.
Defined.

Definition codec_JSON (A : Type) `{Codec A} : JSON A :=
  {| json_Marshal := enc;
     json_Unmarshal s := match dec s with Some (a, EmptyString) => Some a | _ => None end |}.

Lemma str_app_nil_r (s : string) : s +:+ EmptyString = s.
Proof. induction s as [|c s IH]; [done|]. rewrite str_app_cons. by rewrite IH. Qed.

Lemma codec_JSONLaws (A : Type) `{Codec A} : @JSONLaws A (codec_JSON A).
Proof. split. intros a. simpl. rewrite <- (str_app_nil_r (enc a)). by rewrite dec_enc. Qed.
