(* ===== verification/Bank.v ===== *)
(** * The bank keeper as an interface

    x/bank is a package of the Cosmos SDK, outside the repository.  Each Limonata
    keeper declares the part of it that it uses in an [expected_keepers.go]; the
    class [BankKeeper] is the union of those interfaces and [BankLaws] states
    what the SDK documents of each method.  The theorems of the modules are
    proved against the two classes.  [ledger] is a small executable
    implementation that satisfies them; the concrete runs of the models use it. *)
From S2P Require Import Prelude.
From stdpp Require Import gmap strings list.
From Stdlib Require Import ZArith Lia.

#[local] Set Default Goal Selector "!".
Open Scope Z_scope.

(** [sdk.Coins] as the list of its coins.  At every call site of the models the
    amount is positive by an earlier guard, so [sdk.NewCoins(sdk.NewCoin(d, a))]
    is [[(d, a)]]. *)
Abbreviation Coins := (list (string * Z)).

Definition AmountOf (cs : Coins) (d : string) : Z :=
  sumZ (fun c => if String.eqb c.1 d then c.2 else 0) cs.

(** [fees.IsZero()]: every coin is zero. *)
Definition Coins_IsZero (cs : Coins) : bool := forallb (fun c => c.2 =? 0) cs.

(** evmd/config/permissions.go: the module accounts and their permissions. *)
Definition Minter : string := "minter".
Definition Burner : string := "burner".
Definition Staking : string := "staking".

Definition FeeCollectorName : string := "fee_collector".
Definition GasPoolName : string := "paymaster_gas_pool".
Definition FeeDenom : string := "aLIMO".

Definition maccPerms : list (string * list string) :=
  [ (FeeCollectorName, []);
    ("distribution", []);
    ("transfer", [Minter; Burner]);
    ("mint", [Minter]);
    ("bonded_tokens_pool", [Burner; Staking]);
    ("not_bonded_tokens_pool", [Burner; Staking]);
    ("gov", [Burner]);
    ("evm", [Minter; Burner]);
    ("feemarket", []);
    ("erc20", [Minter; Burner]);
    ("squeeze", [Burner]);
    (GasPoolName, []);
    ("gassponsor", [Minter]);
    ("valgrant", [Burner]);
    ("encmempool", [Burner]) ].

Definition macc_lookup (m : string) : option (list string) :=
  (list_to_map maccPerms : gmap string (list string)) !! m.

Definition is_macc (m : string) : bool :=
  match macc_lookup m with Some _ => true | None => false end.
Definition has_perm (m p : string) : bool :=
  match macc_lookup m with Some ps => contains ps p | None => false end.

(** The methods.  An address is its byte string. *)
Class BankKeeper (B : Type) : Type := {
  NewModuleAddress : string -> string;
  BlockedAddr : string -> bool;
  GetBalance : B -> string -> string -> Z;
  GetSupply : B -> string -> Z;
  bank_valid : B -> Prop;   (** the invariants x/bank maintains of its own state *)
  SendCoinsFromModuleToModule : string -> string -> Coins -> M B unit;
  SendCoinsFromAccountToModule : string -> string -> Coins -> M B unit;
  SendCoinsFromModuleToAccount : string -> string -> Coins -> M B unit;
  MintCoins : string -> Coins -> M B unit;
  BurnCoins : string -> Coins -> M B unit
}.

(** [moved b b' from to cs]: the coins [cs] went from one address to the other
    and nothing else changed. *)
Definition moved `{BankKeeper B} (b b' : B) (from to : string) (cs : Coins) : Prop :=
  (forall a d, GetBalance b' a d =
     GetBalance b a d - (if decide (a = from) then AmountOf cs d else 0)
                      + (if decide (a = to) then AmountOf cs d else 0)) /\
  (forall d, GetSupply b' d = GetSupply b d).

(** [created b b' a cs]: the coins [cs] were added at [a] and to the supply. *)
Definition created `{BankKeeper B} (b b' : B) (addr : string) (cs : Coins) (sign : Z) : Prop :=
  (forall a d, GetBalance b' a d =
     GetBalance b a d + (if decide (a = addr) then sign * AmountOf cs d else 0)) /\
  (forall d, GetSupply b' d = GetSupply b d + sign * AmountOf cs d).

Class BankLaws (B : Type) `{BankKeeper B} : Prop := {
  NewModuleAddress_inj m1 m2 : NewModuleAddress m1 = NewModuleAddress m2 -> m1 = m2;
  GetBalance_range b a d : bank_valid b -> 0 <= GetBalance b a d < 2 ^ 256;
  m2m_valid m1 m2 cs b o b' :
    bank_valid b -> SendCoinsFromModuleToModule m1 m2 cs b = (o, b') -> bank_valid b';
  a2m_valid a m cs b o b' :
    bank_valid b -> SendCoinsFromAccountToModule a m cs b = (o, b') -> bank_valid b';
  m2a_valid m a cs b o b' :
    bank_valid b -> SendCoinsFromModuleToAccount m a cs b = (o, b') -> bank_valid b';
  mint_valid m cs b o b' : bank_valid b -> MintCoins m cs b = (o, b') -> bank_valid b';
  burn_valid m cs b o b' : bank_valid b -> BurnCoins m cs b = (o, b') -> bank_valid b';
  m2m_moved m1 m2 cs b b' :
    SendCoinsFromModuleToModule m1 m2 cs b = (Ret tt, b') ->
    moved b b' (NewModuleAddress m1) (NewModuleAddress m2) cs;
  a2m_moved a m cs b b' :
    SendCoinsFromAccountToModule a m cs b = (Ret tt, b') ->
    moved b b' a (NewModuleAddress m) cs;
  m2a_moved m a cs b b' :
    SendCoinsFromModuleToAccount m a cs b = (Ret tt, b') ->
    moved b b' (NewModuleAddress m) a cs;
  mint_created m cs b b' :
    MintCoins m cs b = (Ret tt, b') -> created b b' (NewModuleAddress m) cs 1;
  burn_destroyed m cs b b' :
    BurnCoins m cs b = (Ret tt, b') -> created b b' (NewModuleAddress m) cs (-1);
  m2m_enough m1 m2 d a b :
    bank_valid b -> is_macc m1 = true -> is_macc m2 = true ->
    0 < a <= GetBalance b (NewModuleAddress m1) d ->
    GetBalance b (NewModuleAddress m2) d + a < 2 ^ 256 ->
    exists b', SendCoinsFromModuleToModule m1 m2 [(d, a)] b = (Ret tt, b');
  mint_enough m d a b :
    bank_valid b -> has_perm m Minter = true -> 0 < a ->
    GetBalance b (NewModuleAddress m) d + a < 2 ^ 256 -> GetSupply b d + a < 2 ^ 256 ->
    exists b', MintCoins m [(d, a)] b = (Ret tt, b');
  burn_enough m d a b :
    bank_valid b -> has_perm m Burner = true -> 0 < a <= GetBalance b (NewModuleAddress m) d ->
    exists b', BurnCoins m [(d, a)] b = (Ret tt, b');
  m2a_enough m addr d a b :
    bank_valid b -> is_macc m = true -> BlockedAddr addr = false ->
    0 < a <= GetBalance b (NewModuleAddress m) d -> GetBalance b addr d + a < 2 ^ 256 ->
    exists b', SendCoinsFromModuleToAccount m addr [(d, a)] b = (Ret tt, b');
  m2a_err m addr d a b e b' a' d' :
    SendCoinsFromModuleToAccount m addr [(d, a)] b = (Err e, b') ->
    GetBalance b' a' d' = GetBalance b a' d'
}.

(** ** An executable bank

    Balances and supplies are finite maps; an operation on one coin that would
    leave the range of [math.Int] returns an error. *)
Record ledger := mkLedger {
  l_bal : gmap (string * string) Z;
  l_sup : gmap string Z
}.

Definition l_get (l : ledger) (a d : string) : Z := default 0 (l_bal l !! (a, d)).
Definition l_supply (l : ledger) (d : string) : Z := default 0 (l_sup l !! d).

Definition l_add (a d : string) (x : Z) (l : ledger) : ledger :=
  mkLedger (<[(a, d) := l_get l a d + x]> (l_bal l)) (l_sup l).

Definition in_int_range (z : Z) : bool := (0 <=? z) && (z <? 2 ^ 256).

(** Run [f] on a single positive coin if the balance it leaves is in range. *)
Definition one_coin (f : string -> Z -> ledger -> ledger)
    (ok : string -> Z -> ledger -> bool) (cs : Coins) : M ledger unit := fun l =>
  match cs with
  | [(d, x)] => if (0 <? x) && ok d x l then (Ret tt, f d x l) else (Err "insufficient funds", l)
  | _ => (Err "one coin expected", l)
  end.

Definition l_transfer (from to : string) (d : string) (x : Z) (l : ledger) : ledger :=
  l_add to d x (l_add from d (- x) l).

Definition l_send (from to : string) : Coins -> M ledger unit :=
  one_coin (l_transfer from to) (fun d x l =>
    in_int_range (l_get l from d - x) && in_int_range (l_get l to d + x)).

Definition l_create (addr : string) (sign : Z) (d : string) (x : Z) (l : ledger) : ledger :=
  let l' := l_add addr d (sign * x) l in
  mkLedger (l_bal l') (<[d := l_supply l d + sign * x]> (l_sup l')).

Definition l_issue (addr : string) (sign : Z) : Coins -> M ledger unit :=
  one_coin (l_create addr sign) (fun d x l => in_int_range (l_get l addr d + sign * x)).

Definition l_module_address (m : string) : string := "module/" +:+ m.

Definition guarded {A : Type} (b : bool) (m : M ledger A) : M ledger A :=
  if b then m else panic "module account permissions".

#[export] Instance ledger_BankKeeper : BankKeeper ledger := {|
  NewModuleAddress := l_module_address;
  BlockedAddr a := String.prefix "module/" a;
  GetBalance := l_get;
  GetSupply := l_supply;
  bank_valid l := map_Forall (fun _ x => in_int_range x = true) (l_bal l);
  SendCoinsFromModuleToModule m1 m2 cs :=
    guarded (is_macc m1 && is_macc m2) (l_send (l_module_address m1) (l_module_address m2) cs);
  SendCoinsFromAccountToModule a m cs := l_send a (l_module_address m) cs;
  SendCoinsFromModuleToAccount m a cs := l_send (l_module_address m) a cs;
  MintCoins m cs := guarded (has_perm m Minter) (l_issue (l_module_address m) 1 cs);
  BurnCoins m cs := guarded (has_perm m Burner) (l_issue (l_module_address m) (-1) cs)
|}.

(** ** The executable bank satisfies the laws *)

Lemma AmountOf_one d x d' : AmountOf [(d, x)] d' = if decide (d = d') then x else 0.
Proof.
  unfold AmountOf; simpl. destruct (String.eqb_spec d d'), (decide (d = d')); lia || done.
Qed.

Lemma l_get_add l a d x a' d' :
  l_get (l_add a d x l) a' d' = l_get l a' d' + (if decide ((a, d) = (a', d')) then x else 0).
Proof.
  unfold l_add, l_get at 1; simpl. rewrite lookup_insert. case_decide; simplify_eq; simpl; [done|].
  unfold l_get. lia.
Qed.

Lemma one_coin_inv f ok cs l o l' :
  one_coin f ok cs l = (o, l') ->
  (exists d x, cs = [(d, x)] /\ 0 < x /\ ok d x l = true /\ o = Ret tt /\ l' = f d x l) \/
  (l' = l /\ exists e, o = Err e).
Proof.
  unfold one_coin. destruct cs as [|[d x] [|]]; try (intros; simplify_eq; by eauto).
  destruct (_ && _) eqn:E; intros; simplify_eq; [|by eauto].
  bool_prop. left. by exists d, x.
Qed.

Lemma one_coin_run f ok d x l :
  0 < x -> ok d x l = true -> one_coin f ok [(d, x)] l = (Ret tt, f d x l).
Proof. intros Hx Hok. unfold one_coin. rewrite Hok. by rewrite (proj2 (Z.ltb_lt 0 x)). Qed.

Lemma in_int_range_spec z : in_int_range z = true <-> 0 <= z < 2 ^ 256.
Proof. unfold in_int_range. rewrite andb_true_iff, Z.leb_le, Z.ltb_lt. done. Qed.

Lemma l_valid_add a d x l :
  map_Forall (fun _ x => in_int_range x = true) (l_bal l) ->
  in_int_range (l_get l a d + x) = true ->
  map_Forall (fun _ x => in_int_range x = true) (l_bal (l_add a d x l)).
Proof. intros Hl Hx. unfold l_add; simpl. by apply map_Forall_insert_2. Qed.

Lemma l_valid_get a d l :
  map_Forall (fun _ x => in_int_range x = true) (l_bal l) -> 0 <= l_get l a d < 2 ^ 256.
Proof.
  intros Hl. unfold l_get. destruct (l_bal l !! (a, d)) eqn:E; simpl; [|lia].
  apply in_int_range_spec. by apply (Hl _ _ E).
Qed.

Lemma l_send_valid from to cs l o l' :
  map_Forall (fun _ x => in_int_range x = true) (l_bal l) ->
  l_send from to cs l = (o, l') ->
  map_Forall (fun _ x => in_int_range x = true) (l_bal l').
Proof.
  intros Hl [(d & x & -> & Hx & Hok & -> & ->)|(-> & _)]%one_coin_inv; [|done].
  apply andb_true_iff in Hok as [H1 H2]. unfold l_transfer.
  apply l_valid_add; [apply l_valid_add; [done|]|].
  - by rewrite Z.add_opp_r.
  - rewrite l_get_add. case_decide as E; [|by rewrite Z.add_0_r]. injection E as ->.
    rewrite !in_int_range_spec in *. pose proof (l_valid_get to d l Hl). lia.
Qed.

Lemma l_send_moved from to cs l l' :
  l_send from to cs l = (Ret tt, l') -> moved l l' from to cs.
Proof.
  intros [(d & x & -> & Hx & Hok & _ & ->)|(-> & e & ?)]%one_coin_inv; [|done].
  split; [|done]. intros a d'. simpl. unfold l_transfer.
  rewrite !l_get_add, !AmountOf_one. repeat case_decide; simplify_eq; lia.
Qed.

Lemma l_issue_valid a sg cs l o l' :
  map_Forall (fun _ x => in_int_range x = true) (l_bal l) ->
  l_issue a sg cs l = (o, l') ->
  map_Forall (fun _ x => in_int_range x = true) (l_bal l').
Proof.
  intros Hl [(d & x & -> & Hx & Hok & -> & ->)|(-> & _)]%one_coin_inv; [|done].
  unfold l_create; simpl. by apply l_valid_add.
Qed.

Lemma l_issue_created a sg cs l l' :
  l_issue a sg cs l = (Ret tt, l') -> created l l' a cs sg.
Proof.
  intros [(d & x & -> & Hx & Hok & _ & ->)|(-> & e & ?)]%one_coin_inv; [|done].
  split; simpl.
  - intros a' d'. change (l_get (l_create a sg d x l) a' d') with (l_get (l_add a d (sg * x) l) a' d').
    rewrite l_get_add, AmountOf_one. repeat case_decide; simplify_eq; lia.
  - intros d'. unfold l_create, l_supply at 1; simpl. rewrite lookup_insert, AmountOf_one.
    case_decide; simplify_eq; simpl; [done|]. unfold l_supply. lia.
Qed.

Lemma guarded_inv {A : Type} b (m : M ledger A) l o l' :
  guarded b m l = (o, l') ->
  (b = true /\ m l = (o, l')) \/ (l' = l /\ exists e, o = Panic e).
Proof. destruct b; simpl; [by left|]. unfold panic. intros [= <- <-]. right. eauto. Qed.

#[export] Instance ledger_BankLaws : BankLaws ledger.
Proof.
  split; cbn -[Z.pow is_macc has_perm].
  - intros m1 m2 H. unfold l_module_address in H. by apply (inj (String.append _)) in H.
  - intros. by apply l_valid_get.
  - intros m1 m2 cs b o b' Hv [[_ H]|[-> _]]%guarded_inv; [by eapply l_send_valid|done].
  - intros. by eapply l_send_valid.
  - intros. by eapply l_send_valid.
  - intros m cs b o b' Hv [[_ H]|[-> _]]%guarded_inv; [by eapply l_issue_valid|done].
  - intros m cs b o b' Hv [[_ H]|[-> _]]%guarded_inv; [by eapply l_issue_valid|done].
  - intros m1 m2 cs b b' [[_ H]|[_ [e ?]]]%guarded_inv; [by apply l_send_moved|done].
  - intros. by apply l_send_moved.
  - intros. by apply l_send_moved.
  - intros m cs b b' [[_ H]|[_ [e ?]]]%guarded_inv; [by apply l_issue_created|done].
  - intros m cs b b' [[_ H]|[_ [e ?]]]%guarded_inv; [by apply l_issue_created|done].
  - intros m1 m2 d a b Hv -> -> Ha Hb. eexists. apply one_coin_run; [lia|].
    pose proof (l_valid_get (l_module_address m1) d b Hv).
    pose proof (l_valid_get (l_module_address m2) d b Hv).
    rewrite andb_true_iff, !in_int_range_spec. lia.
  - intros m d a b Hv -> Ha Hb _. eexists. apply one_coin_run; [lia|].
    pose proof (l_valid_get (l_module_address m) d b Hv).
    rewrite in_int_range_spec. lia.
  - intros m d a b Hv -> Ha. eexists. apply one_coin_run; [lia|].
    pose proof (l_valid_get (l_module_address m) d b Hv).
    rewrite in_int_range_spec. lia.
  - intros m addr d a b Hv _ _ Ha Hb. pose proof (l_valid_get (l_module_address m) d b Hv).
    pose proof (l_valid_get addr d b Hv). eexists.
    rewrite (proj2 (Z.ltb_lt 0 a)), (proj2 (in_int_range_spec (_ - a))), (proj2 (in_int_range_spec (_ + a))) by lia.
    reflexivity.
  - intros m addr d a b e b' a' d'. destruct (_ && _); [discriminate|]. by intros [= _ ->].
Qed.

(** The balances and the supply after a bank operation, as equations for
    [lia]: [bank_simp] instantiates the laws of the runs in the context. *)
Ltac bank_laws :=
  repeat match goal with
  | H : SendCoinsFromModuleToModule _ _ _ _ = (Ret tt, _) |- _ => apply m2m_moved in H
  | H : SendCoinsFromAccountToModule _ _ _ _ = (Ret tt, _) |- _ => apply a2m_moved in H
  | H : SendCoinsFromModuleToAccount _ _ _ _ = (Ret tt, _) |- _ => apply m2a_moved in H
  | H : MintCoins _ _ _ = (Ret tt, _) |- _ => apply mint_created in H
  | H : BurnCoins _ _ _ = (Ret tt, _) |- _ => apply burn_destroyed in H
  end.

Section moved_lemmas.
Context `{BankKeeper B}.
Implicit Types (b : B) (a : string).

Lemma moved_balance b b' from to d x a d' :
  moved b b' from to [(d, x)] ->
  GetBalance b' a d' =
  GetBalance b a d' - (if decide (a = from /\ d = d') then x else 0)
                    + (if decide (a = to /\ d = d') then x else 0).
Proof.
  intros [Hm _]. rewrite Hm, AmountOf_one. repeat case_decide; naive_solver lia.
Qed.

Lemma moved_supply b b' from to cs d : moved b b' from to cs -> GetSupply b' d = GetSupply b d.
Proof. intros [_ Hs]. apply Hs. Qed.

Lemma created_balance b b' addr sg d x a d' :
  created b b' addr [(d, x)] sg ->
  GetBalance b' a d' = GetBalance b a d' + (if decide (a = addr /\ d = d') then sg * x else 0).
Proof.
  intros [Hm _]. rewrite Hm, AmountOf_one. repeat case_decide; naive_solver lia.
Qed.

Lemma created_supply b b' addr sg d x d' :
  created b b' addr [(d, x)] sg ->
  GetSupply b' d' = GetSupply b d' + (if decide (d = d') then sg * x else 0).
Proof. intros [_ Hs]. rewrite Hs, AmountOf_one. case_decide; lia. Qed.

End moved_lemmas.

(** [bank_lia] decides goals on balances after rewriting with the laws above. *)
Ltac bank_lia :=
  repeat case_decide; destruct_and?; subst; try lia; try (exfalso; intuition congruence);
  naive_solver lia.

(** The idiom [if amt.IsPositive() { bank operation on amt }]: with a sufficient
    balance it always succeeds and moves exactly [amt], also when it is zero. *)
Section optional_operations.
Context `{BankLaws B}.
Implicit Types (w : World B) (d : string) (x : Z).

Lemma set_bank_id w : set_bank (w_bank w) w = w.
Proof. by destruct w. Qed.

Lemma moved_zero b from to d : moved b b from to [(d, 0)].
Proof. split; [|done]. intros. rewrite AmountOf_one. bank_lia. Qed.

Lemma created_zero b a d sg : created b b a [(d, 0)] sg.
Proof. split; intros; rewrite AmountOf_one; bank_lia. Qed.

Lemma opt_burn_run w m d x :
  bank_valid (w_bank w) -> has_perm m Burner = true ->
  0 <= x <= GetBalance (w_bank w) (NewModuleAddress m) d ->
  exists b', (if 0 <? x then on_bank (BurnCoins m [(d, x)]) else mret tt) w = (Ret tt, set_bank b' w) /\
    bank_valid b' /\ created (w_bank w) b' (NewModuleAddress m) [(d, x)] (-1).
Proof.
  intros Hv Hp Hx. destruct (0 <? x) eqn:E; bool_prop.
  - destruct (burn_enough m d x (w_bank w)) as [b R]; [done..|lia|].
    exists b. split_and!; [by apply on_bank_run|by eapply burn_valid|by apply burn_destroyed].
  - assert (x = 0) as -> by lia. exists (w_bank w).
    split_and!; [by rewrite set_bank_id|done|apply created_zero].
Qed.

Lemma opt_m2m_run w m1 m2 d x :
  bank_valid (w_bank w) -> is_macc m1 = true -> is_macc m2 = true ->
  0 <= x <= GetBalance (w_bank w) (NewModuleAddress m1) d ->
  GetBalance (w_bank w) (NewModuleAddress m2) d + x < 2 ^ 256 ->
  exists b', (if 0 <? x then on_bank (SendCoinsFromModuleToModule m1 m2 [(d, x)]) else mret tt) w
             = (Ret tt, set_bank b' w) /\
    bank_valid b' /\ moved (w_bank w) b' (NewModuleAddress m1) (NewModuleAddress m2) [(d, x)].
Proof.
  intros Hv H1 H2 Hx Hb. destruct (0 <? x) eqn:E; bool_prop.
  - destruct (m2m_enough m1 m2 d x (w_bank w)) as [b R]; [done..|lia|done|].
    exists b. split_and!; [by apply on_bank_run|by eapply m2m_valid|by apply m2m_moved].
  - assert (x = 0) as -> by lia. exists (w_bank w).
    split_and!; [by rewrite set_bank_id|done|apply moved_zero].
Qed.

End optional_operations.
