(* ===== verification/Squeeze.v ===== *)
(** * x/squeeze: the per-block fee split

    Models x/squeeze/types (parameters and their bounds) and x/squeeze/keeper
    (the parameter store and the [BeginBlock] that splits the fee collector's
    balance into a burned part, a part recycled into the gas pool and the
    remainder left to x/distribution). *)
From S2P Require Import Prelude Codec Bank.
From stdpp Require Import gmap strings list.
From Stdlib Require Import ZArith Lia.

#[local] Set Default Goal Selector "!".
Open Scope Z_scope.

Module Squeeze.

Definition ModuleName : string := "squeeze".
Definition StoreKey : string := ModuleName.
Definition BurnBps_default : Z := 2000.
Definition GrantBps_default : Z := 2000.
Definition BpsDenom : Z := 10000.
Definition ParamsKey : string := byte_prefix 1.

Definition MinBurnBps : Z := 1000.
Definition MaxBurnBps : Z := 5000.
Definition MinGrantBps : Z := 1000.
Definition MaxGrantBps : Z := 4000.
Definition MinTakeBps : Z := 3000.
Definition MaxTakeBps : Z := 7000.

Record Params := mkParams { BurnBps : Z; GrantBps : Z }.

#[export] Instance Params_eq_dec : EqDecision Params.
Proof. solve_decision. Defined.
#[export] Instance Params_codec : Codec Params :=
  Codec_iso (fun p => (BurnBps p, GrantBps p)) (fun t => mkParams t.1 t.2)
    (fun p => match p with mkParams _ _ => eq_refl end).

Definition DefaultParams : Params := mkParams BurnBps_default GrantBps_default.

(** [Params.Validate]; the two fields are uint32 and the sum is taken in uint64. *)
Definition Validate (p : Params) : outcome unit :=
  if (BurnBps p =? 0) && (GrantBps p =? 0) then Ret tt
  else if (BurnBps p <? MinBurnBps) || (MaxBurnBps <? BurnBps p)
  then Err "burn_bps out of allowed range"
  else if (GrantBps p <? MinGrantBps) || (MaxGrantBps <? GrantBps p)
  then Err "grant_bps out of allowed range"
  else
    let take := u64 (BurnBps p + GrantBps p) in
    if (take <? MinTakeBps) || (MaxTakeBps <? take)
    then Err "burn_bps+grant_bps out of allowed range"
    else Ret tt.

Section keeper.
Context `{BankKeeper B} `{MathInt} `{JSON Params}.

Definition SetParams (p : Params) : M (World B) unit :=
  modify (kv_set StoreKey ParamsKey (json_Marshal p)).

Definition GetParams (w : World B) : Params :=
  match kv_get StoreKey ParamsKey w with
  | None => DefaultParams
  | Some bz => match json_Unmarshal bz with Some p => p | None => DefaultParams end
  end.

Definition InitGenesis (gs : Params) : M (World B) unit := SetParams gs.
Definition ExportGenesis (w : World B) : Params := GetParams w.

(** [Keeper.BeginBlock]; [feeCollectorName] is the keeper's field. *)
Definition BeginBlock (feeCollectorName : string) : M (World B) unit :=
  amt ← gets (fun w => GetBalance (w_bank w) (NewModuleAddress feeCollectorName) FeeDenom);
  if negb (0 <? amt) then mret tt else
  p ← gets GetParams;
  burnNum ← int_mul amt (BurnBps p);
  burnAmt ← int_quo burnNum BpsDenom;
  grantNum ← int_mul amt (GrantBps p);
  grantAmt ← int_quo grantNum BpsDenom;
  moved ← int_add burnAmt grantAmt;
  if negb (0 <? moved) then mret tt else
  on_bank (SendCoinsFromModuleToModule feeCollectorName ModuleName [(FeeDenom, moved)]);;
  (if 0 <? burnAmt then on_bank (BurnCoins ModuleName [(FeeDenom, burnAmt)]) else mret tt);;
  (if 0 <? grantAmt
   then on_bank (SendCoinsFromModuleToModule ModuleName GasPoolName [(FeeDenom, grantAmt)])
   else mret tt).

End keeper.

(** ** Correctness of the split *)

Definition burn_part (amt : Z) (p : Params) : Z := amt * BurnBps p / BpsDenom.
Definition grant_part (amt : Z) (p : Params) : Z := amt * GrantBps p / BpsDenom.

(** What [Validate] guarantees of accepted parameters. *)
Lemma Validate_bounds p :
  0 <= BurnBps p < 2 ^ 32 -> 0 <= GrantBps p < 2 ^ 32 -> Validate p = Ret tt ->
  BurnBps p <= MaxBurnBps /\ GrantBps p <= MaxGrantBps /\ BurnBps p + GrantBps p <= MaxTakeBps /\
  ((BurnBps p = 0 /\ GrantBps p = 0) \/ MinTakeBps <= BurnBps p + GrantBps p).
Proof.
  intros Hb Hg. unfold Validate.
  destruct (_ && _) eqn:E1.
  { intros _. bool_prop. unfold MaxBurnBps, MaxGrantBps, MaxTakeBps. lia. }
  destruct (_ || _) eqn:E2; [done|]. destruct (_ || (MaxGrantBps <? _)) eqn:E3; [done|].
  rewrite u64_id by (unfold is_u64; lia).
  destruct (_ || (MaxTakeBps <? _)) eqn:E4; [done|]. intros _. bool_prop. auto.
Qed.

Lemma split_bounds amt p :
  0 <= amt -> 0 <= BurnBps p -> 0 <= GrantBps p -> BurnBps p + GrantBps p <= MaxTakeBps ->
  0 <= burn_part amt p /\ 0 <= grant_part amt p /\
  3000 * amt <= 10000 * (amt - burn_part amt p - grant_part amt p).
Proof.
  intros Ha Hb Hg Ht. unfold burn_part, grant_part, BpsDenom, MaxTakeBps in *.
  pose proof (Z.mul_div_le (amt * BurnBps p) 10000 ltac:(lia)).
  pose proof (Z.mul_div_le (amt * GrantBps p) 10000 ltac:(lia)).
  repeat split; [apply Z.div_pos; nia|apply Z.div_pos; nia|nia].
Qed.

(** The effect of a block: [burn] leaves the supply, [grant] goes from the fee
    collector to the gas pool, and nothing else changes: no other balance, no
    other denomination, no store. *)
Definition split_post `{BankKeeper B} (fc : string) (burn grant : Z) (w w' : World B) : Prop :=
  (forall a d, GetBalance (w_bank w') a d = GetBalance (w_bank w) a d
     - (if decide (a = NewModuleAddress fc /\ d = FeeDenom) then burn + grant else 0)
     + (if decide (a = NewModuleAddress GasPoolName /\ d = FeeDenom) then grant else 0)) /\
  (forall d, GetSupply (w_bank w') d =
     GetSupply (w_bank w) d - (if decide (d = FeeDenom) then burn else 0)) /\
  w_kv w' = w_kv w /\ bank_valid (w_bank w').

Section theorems.
Context `{BankLaws B} `{MathIntLaws} `{JSON Params}.

Lemma bps_part_run {S : Type} amt bps (s : S) k :
  0 <= amt -> 0 <= bps <= BpsDenom -> amt * BpsDenom < 2 ^ 256 ->
  (int_mul amt bps ≫= fun n => int_quo n BpsDenom ≫= k) s = (k (amt * bps / BpsDenom) s : outcome unit * S).
Proof.
  intros Ha Hb Hf. unfold BpsDenom in *.
  rewrite (bind_Ret _ _ _ _ _ (int_mul_run amt bps s ltac:(apply int_fits_spec; nia))).
  assert (Hq : 0 <= amt * bps / 10000 <= amt).
  { split; [apply Z.div_pos; nia|apply Z.div_le_upper_bound; nia]. }
  rewrite <- (Z.quot_div_nonneg (amt * bps) 10000) by nia.
  rewrite <- (Z.quot_div_nonneg (amt * bps) 10000) in Hq by nia.
  rewrite (bind_Ret _ _ _ _ _ (int_quo_run (amt * bps) 10000 s ltac:(lia)
    ltac:(apply int_fits_spec; lia))). done.
Qed.

Lemma split_post_0 fc (w : World B) : bank_valid (w_bank w) -> split_post fc 0 0 w w.
Proof. intros Hv. repeat split; try done; intros; repeat case_decide; lia. Qed.

Lemma moves_run fc burn grant (w : World B) :
  bank_valid (w_bank w) -> is_macc fc = true -> fc <> ModuleName ->
  0 <= burn -> 0 <= grant -> 0 < burn + grant ->
  burn + grant <= GetBalance (w_bank w) (NewModuleAddress fc) FeeDenom ->
  GetBalance (w_bank w) (NewModuleAddress ModuleName) FeeDenom + (burn + grant) < 2 ^ 256 ->
  GetBalance (w_bank w) (NewModuleAddress GasPoolName) FeeDenom + grant < 2 ^ 256 ->
  exists w',
    (on_bank (SendCoinsFromModuleToModule fc ModuleName [(FeeDenom, burn + grant)]);;
     (if 0 <? burn then on_bank (BurnCoins ModuleName [(FeeDenom, burn)]) else mret tt);;
     (if 0 <? grant
      then on_bank (SendCoinsFromModuleToModule ModuleName GasPoolName [(FeeDenom, grant)])
      else mret tt)) w = (Ret tt, w') /\
    split_post fc burn grant w w'.
Proof.
  intros Hv Hfc Hne Hb Hg Hpos Hle Hsq Hpool.
  assert (Hne1 : NewModuleAddress fc <> NewModuleAddress ModuleName)
    by (intros E; by apply NewModuleAddress_inj in E).
  assert (Hne2 : NewModuleAddress ModuleName <> NewModuleAddress GasPoolName)
    by (intros E; by apply NewModuleAddress_inj in E).
  destruct (m2m_enough fc ModuleName FeeDenom (burn + grant) (w_bank w)) as [b1 R1]; [done..|].
  run_seq (on_bank_run _ _ _ _ R1).
  pose proof (GetBalance_range _ (NewModuleAddress ModuleName) FeeDenom Hv) as Hsq0.
  pose proof (m2m_valid _ _ _ _ _ _ Hv R1) as Hv1. apply m2m_moved in R1.
  destruct (opt_burn_run (set_bank b1 w) ModuleName FeeDenom burn) as (b2 & R2 & Hv2 & C2); [done..| |].
  { simpl. rewrite (moved_balance _ _ _ _ _ _ _ _ R1). bank_lia. }
  run_seq R2. simpl in C2.
  destruct (opt_m2m_run (set_bank b2 w) ModuleName GasPoolName FeeDenom grant)
    as (b3 & R3 & Hv3 & C3); [done..| | |].
  { simpl. rewrite (created_balance _ _ _ _ _ _ _ _ C2), (moved_balance _ _ _ _ _ _ _ _ R1). bank_lia. }
  { simpl. rewrite (created_balance _ _ _ _ _ _ _ _ C2), (moved_balance _ _ _ _ _ _ _ _ R1). bank_lia. }
  exists (set_bank b3 w). split; [exact R3|]. simpl in C3.
  split_and!; simpl; [| |done|done]; intros.
  - rewrite (moved_balance _ _ _ _ _ _ _ _ C3), (created_balance _ _ _ _ _ _ _ _ C2),
      (moved_balance _ _ _ _ _ _ _ _ R1). bank_lia.
  - rewrite (moved_supply _ _ _ _ _ _ C3), (created_supply _ _ _ _ _ _ _ C2),
      (moved_supply _ _ _ _ _ _ R1). bank_lia.
Qed.

(** C23: with parameters that [Validate] accepts, [BeginBlock] never fails and
    splits the fee collector's balance exactly: [burn_bps/10000] of it (rounded
    down) leaves the supply, [grant_bps/10000] of it (rounded down) goes to the
    gas pool, every other balance, denomination and store is unchanged, and the
    remainder left for x/distribution is at least 30% of the fees. *)
Theorem BeginBlock_split (fc : string) (w : World B) :
  let p := GetParams w in
  let amt := GetBalance (w_bank w) (NewModuleAddress fc) FeeDenom in
  bank_valid (w_bank w) -> is_macc fc = true -> fc <> ModuleName ->
  0 <= BurnBps p < 2 ^ 32 -> 0 <= GrantBps p < 2 ^ 32 -> Validate p = Ret tt ->
  amt * BpsDenom < 2 ^ 256 ->
  GetBalance (w_bank w) (NewModuleAddress ModuleName) FeeDenom + amt < 2 ^ 256 ->
  GetBalance (w_bank w) (NewModuleAddress GasPoolName) FeeDenom + amt < 2 ^ 256 ->
  exists w',
    BeginBlock fc w = (Ret tt, w') /\
    split_post fc (burn_part amt p) (grant_part amt p) w w' /\
    3000 * amt <= 10000 * GetBalance (w_bank w') (NewModuleAddress fc) FeeDenom.
Proof.
  intros p amt Hv Hfc Hne Hb Hg Hval Hamt Hsq Hpool.
  destruct (Validate_bounds p Hb Hg Hval) as (Hb5 & Hg4 & Ht & _).
  pose proof (GetBalance_range _ (NewModuleAddress fc) FeeDenom Hv) as Hr. fold amt in Hr.
  destruct (split_bounds amt p) as (H0b & H0g & Hshare); [lia..|].
  assert (Hex : exists w', BeginBlock fc w = (Ret tt, w') /\
                  split_post fc (burn_part amt p) (grant_part amt p) w w').
  { unfold BeginBlock. run_gets. fold amt. destruct (negb (0 <? amt)) eqn:E.
    { bool_prop. assert (amt = 0) as -> by lia. exists w. split; [done|]. by apply split_post_0. }
    run_gets. fold p. unfold MaxBurnBps, MaxGrantBps in *.
    rewrite bps_part_run by (unfold BpsDenom in *; lia).
    rewrite bps_part_run by (unfold BpsDenom in *; lia).
    fold (burn_part amt p) (grant_part amt p).
    rewrite (bind_Ret _ _ _ _ _ (int_add_run (burn_part amt p) (grant_part amt p) w
      ltac:(apply int_fits_spec; lia))).
    destruct (0 <? burn_part amt p + grant_part amt p) eqn:E2; cbn [negb]; bool_prop; cycle 1.
    { assert (burn_part amt p = 0) as -> by lia. assert (grant_part amt p = 0) as -> by lia.
      exists w. split; [done|]. by apply split_post_0. }
    apply moves_run; try done; fold amt; lia. }
  destruct Hex as (w' & HR & HP). exists w'. split_and!; [done..|].
  destruct HP as [HB _]. rewrite HB. fold amt. bank_lia.
Qed.

End theorems.

(** ** A concrete block *)
Module Example.
#[local] Existing Instance decimal_MathInt.
#[local] Instance Params_JSON : JSON Params := codec_JSON Params.

(** 1001 units of fees, no stored parameters: 200 are burned, 200 recycled. *)
Definition w0 : World ledger :=
  mkWorld (mkLedger {[ (l_module_address FeeCollectorName, FeeDenom) := 1001 ]}
                    {[ FeeDenom := 5000 ]}) ∅ [].

Lemma BeginBlock_split_witness :
  let amt := GetBalance (w_bank w0) (NewModuleAddress FeeCollectorName) FeeDenom in
  let p := GetParams w0 in
  (amt, burn_part amt p, grant_part amt p) = (1001, 200, 200) /\
  exists w', BeginBlock FeeCollectorName w0 = (Ret tt, w') /\
    split_post FeeCollectorName (burn_part amt p) (grant_part amt p) w0 w' /\
    3000 * amt <= 10000 * GetBalance (w_bank w') (NewModuleAddress FeeCollectorName) FeeDenom.
Proof.
  intros amt p. split; [vm_compute; reflexivity|].
  apply (BeginBlock_split FeeCollectorName w0).
  - apply map_Forall_singleton. vm_compute. reflexivity.
  - vm_compute. reflexivity.
  - discriminate.
  - vm_compute. split; [discriminate|reflexivity].
  - vm_compute. split; [discriminate|reflexivity].
  - vm_compute. reflexivity.
  - vm_compute. reflexivity.
  - vm_compute. reflexivity.
  - vm_compute. reflexivity.
Defined.

End Example.
End Squeeze.
