(* ===== verification/SponsorPool.v ===== *)
(** * x/sponsorpool: per-contract gas escrow

    Models x/sponsorpool/types and x/sponsorpool/keeper: developers deposit LIMO
    for a contract into the gas pool, transactions to that contract reserve
    their fee against the escrow, sponsors withdraw what is unspent. *)
From S2P Require Import Prelude Codec Bank.
From stdpp Require Import gmap strings list.
From Stdlib Require Import ZArith Lia.

#[local] Set Default Goal Selector "!".
Open Scope Z_scope.

Module SponsorPool.

Definition ModuleName : string := "sponsorpool".
Definition StoreKey : string := ModuleName.
Definition ParamsKey : string := byte_prefix 0.

Definition ErrBadAmount : string := "amount must be positive".
Definition ErrInsufficientContribution : string := "withdraw exceeds your contribution".
Definition ErrInsufficientEscrow : string := "escrow has already been spent on gas".

Record Params := mkParams { Enabled : bool; PerTxCap : string }.

#[export] Instance Params_eq_dec : EqDecision Params.
Proof. solve_decision. Defined.
#[export] Instance Params_codec : Codec Params :=
  Codec_iso (fun p => (Enabled p, PerTxCap p)) (fun t => mkParams t.1 t.2)
    (fun p => match p with mkParams _ _ => eq_refl end).

Definition DefaultParams : Params := mkParams true "1000000000000000000000".

(** The store keys. *)
Definition escrowKey (contract : string) : string := byte_prefix 1 +:+ ToLower contract.
Definition contribKey (sponsor contract : string) : string :=
  byte_prefix 2 +:+ (sponsor +:+ ToLower contract).

Section keeper.
Context `{BankKeeper B} `{MathInt} `{JSON Params}.

(** [GenesisState.Validate]. *)
Definition Validate (p : Params) : outcome unit :=
  if negb (String.eqb (PerTxCap p) "") then
    match NewIntFromString (PerTxCap p) with
    | Some _ => Ret tt
    | None => Err "invalid per_tx_cap"
    end
  else Ret tt.

Definition SetParams (p : Params) : M (World B) unit :=
  modify (kv_set StoreKey ParamsKey (json_Marshal p)).

Definition GetParams (w : World B) : Params :=
  match kv_get StoreKey ParamsKey w with
  | None => DefaultParams
  | Some bz => match json_Unmarshal bz with Some p => p | None => DefaultParams end
  end.

Definition InitGenesis (gs : Params) : M (World B) unit := SetParams gs.
Definition ExportGenesis (w : World B) : Params := GetParams w.

Definition getInt (key : string) (w : World B) : Z :=
  match kv_get StoreKey key w with
  | None => 0
  | Some bz => match NewIntFromString bz with Some v => v | None => 0 end
  end.

Definition setInt (key : string) (v : Z) (w : World B) : World B :=
  if negb (0 <? v) then kv_delete StoreKey key w
  else kv_set StoreKey key (Int_String v) w.

Definition EscrowOf (contract : string) (w : World B) : Z := getInt (escrowKey contract) w.

Definition ContributionOf (sponsor contract : string) (w : World B) : Z :=
  getInt (contribKey sponsor contract) w.

(** [poolModule] is the keeper's field. *)
Definition Deposit (poolModule sponsor contract : string) (amt : Z) : M (World B) unit :=
  if negb (0 <? amt) then fail ErrBadAmount else
  on_bank (SendCoinsFromAccountToModule sponsor poolModule [(FeeDenom, amt)]);;
  escrow ← gets (EscrowOf contract);
  escrow' ← int_add escrow amt;
  modify (setInt (escrowKey contract) escrow');;
  contrib ← gets (ContributionOf sponsor contract);
  contrib' ← int_add contrib amt;
  modify (setInt (contribKey sponsor contract) contrib').

Definition DepositFrom (poolModule payer sponsor contract : string) (amt : Z) : M (World B) unit :=
  if negb (0 <? amt) then fail ErrBadAmount else
  on_bank (SendCoinsFromAccountToModule payer poolModule [(FeeDenom, amt)]);;
  escrow ← gets (EscrowOf contract);
  escrow' ← int_add escrow amt;
  modify (setInt (escrowKey contract) escrow');;
  contrib ← gets (ContributionOf sponsor contract);
  contrib' ← int_add contrib amt;
  modify (setInt (contribKey sponsor contract) contrib').

Definition Withdraw (poolModule sponsor contract : string) (amt : Z) : M (World B) unit :=
  if negb (0 <? amt) then fail ErrBadAmount else
  contrib ← gets (ContributionOf sponsor contract);
  escrow ← gets (EscrowOf contract);
  if contrib <? amt then fail ErrInsufficientContribution else
  if escrow <? amt then fail ErrInsufficientEscrow else
  on_bank (SendCoinsFromModuleToAccount poolModule sponsor [(FeeDenom, amt)]);;
  escrow' ← int_sub escrow amt;
  modify (setInt (escrowKey contract) escrow');;
  contrib' ← int_sub contrib amt;
  modify (setInt (contribKey sponsor contract) contrib').

Definition Reserve (contract : string) (fee : Z) : M (World B) bool :=
  p ← gets GetParams;
  if negb (Enabled p) || negb (0 <? fee) then mret false else
  if match NewIntFromString (PerTxCap p) with
     | Some c => (0 <? c) && (c <? fee)
     | None => false
     end
  then mret false else
  escrow ← gets (EscrowOf contract);
  if escrow <? fee then mret false else
  escrow' ← int_sub escrow fee;
  modify (setInt (escrowKey contract) escrow');;
  mret true.

(** The precompile 0x901 (precompiles/sponsorpool/tx.go): the caller is the
    sponsor, the target address is rendered in lower-case hex. *)
Definition Precompile_Deposit (poolModule caller target : string) (amount : Z) : M (World B) unit :=
  Deposit poolModule caller (lower_hex target) amount.
Definition Precompile_Withdraw (poolModule caller target : string) (amount : Z) : M (World B) unit :=
  Withdraw poolModule caller (lower_hex target) amount.
Definition Precompile_EscrowOf (target : string) (w : World B) : Z := EscrowOf (lower_hex target) w.
Definition Precompile_ContributionOf (sponsor target : string) (w : World B) : Z :=
  ContributionOf sponsor (lower_hex target) w.

End keeper.

(** ** Histories

    The module's operations as data, and the states reached by a history of
    successful operations (a failed transaction is rolled back by the SDK)
    interleaved with anything that leaves this module's accounts alone. *)

Inductive op :=
| OpDeposit (sponsor contract : string) (amt : Z)
| OpDepositFrom (payer sponsor contract : string) (amt : Z)
| OpWithdraw (sponsor contract : string) (amt : Z)
| OpReserve (contract : string) (fee : Z).

Definition op_contract (o : op) : string :=
  match o with
  | OpDeposit _ c _ | OpDepositFrom _ _ c _ | OpWithdraw _ c _ | OpReserve c _ => c
  end.

(** What an operation credits to, withdraws from and spends of a contract, and
    what it credits to and withdraws for one sponsor of it. *)
Definition on_contract (o : op) (c : string) (x : Z) : Z :=
  if String.eqb (ToLower (op_contract o)) (ToLower c) then x else 0.

Definition deposited (c : string) (o : op) : Z :=
  match o with
  | OpDeposit _ _ a | OpDepositFrom _ _ _ a => on_contract o c a
  | _ => 0
  end.
Definition withdrawn (c : string) (o : op) : Z :=
  match o with OpWithdraw _ _ a => on_contract o c a | _ => 0 end.
Definition reserved (c : string) (o : op) : Z :=
  match o with OpReserve _ a => on_contract o c a | _ => 0 end.
Definition deposited_by (s c : string) (o : op) : Z :=
  match o with
  | OpDeposit s' _ a | OpDepositFrom _ s' _ a => if String.eqb s' s then on_contract o c a else 0
  | _ => 0
  end.
Definition withdrawn_by (s c : string) (o : op) : Z :=
  match o with OpWithdraw s' _ a => if String.eqb s' s then on_contract o c a else 0 | _ => 0 end.

Section histories.
Context `{BankKeeper B} `{MathInt} `{JSON Params}.

Definition exec (pool : string) (o : op) : M (World B) unit :=
  match o with
  | OpDeposit s c a => Deposit pool s c a
  | OpDepositFrom p s c a => DepositFrom pool p s c a
  | OpWithdraw s c a => Withdraw pool s c a
  | OpReserve c f => ok ← Reserve c f; if ok : bool then mret tt else fail "declined"
  end.

(** The escrow and contribution entries of two states agree. *)
Definition same_accounts (w w' : World B) : Prop :=
  forall k, k <> ParamsKey -> kv_get StoreKey k w' = kv_get StoreKey k w.

Inductive reachable (pool : string) : list op -> World B -> Prop :=
| reach_init w : (forall k, k <> ParamsKey -> kv_get StoreKey k w = None) -> reachable pool [] w
| reach_env log w w' : reachable pool log w -> same_accounts w w' -> reachable pool log w'
| reach_op log w o w' :
    reachable pool log w -> String.length (op_contract o) = 42%nat ->
    exec pool o w = (Ret tt, w') -> reachable pool (o :: log) w'.

End histories.

(** ** Lemmas on the accounts *)

Lemma escrowKey_eq c c' : escrowKey c = escrowKey c' <-> ToLower c = ToLower c'.
Proof. split; [apply byte_prefix_inj|]. unfold escrowKey. by intros ->. Qed.

Lemma contribKey_eq s c s' c' :
  String.length c = String.length c' ->
  contribKey s c = contribKey s' c' <-> s = s' /\ ToLower c = ToLower c'.
Proof.
  intros Hl. split; [|by unfold contribKey; intros [-> ->]].
  unfold contribKey. intros H%byte_prefix_inj.
  apply str_app_inv; [|done]. apply (f_equal String.length) in H.
  rewrite !str_app_length, !ToLower_length in H. lia.
Qed.

Lemma escrow_contrib_ne c s c' : escrowKey c <> contribKey s c'.
Proof. apply byte_prefix_ne; lia. Qed.

Section account_lemmas.
Context `{BankLaws B} `{MathIntLaws} `{JSON Params}.
Implicit Types w : World B.

Lemma getInt_setInt k k' v w :
  0 <= v -> int_fits v = true ->
  getInt k (setInt k' v w) = if decide (k' = k) then v else getInt k w.
Proof.
  intros Hv Hf. unfold setInt, getInt. destruct (0 <? v) eqn:E; bool_prop; simpl.
  - rewrite kv_get_set. case_decide as E1; case_decide as E2; try naive_solver.
    by rewrite NewIntFromString_String.
  - assert (v = 0) as -> by lia.
    rewrite kv_get_delete. case_decide; case_decide; naive_solver.
Qed.

Lemma w_bank_setInt k v w : w_bank (setInt k v w) = w_bank w.
Proof. unfold setInt. by destruct (negb _). Qed.

Lemma getInt_set_bank k b w : getInt k (set_bank b w) = getInt k w.
Proof. done. Qed.

(** The two account updates every money-moving operation ends with. *)
Lemma accounts_after s c s' c' e k w :
  0 <= e -> int_fits e = true -> 0 <= k -> int_fits k = true ->
  let w' := setInt (contribKey s c) k (setInt (escrowKey c) e w) in
  EscrowOf c' w' = (if decide (ToLower c = ToLower c') then e else EscrowOf c' w) /\
  (String.length c = String.length c' ->
   ContributionOf s' c' w' =
   if decide (s = s' /\ ToLower c = ToLower c') then k else ContributionOf s' c' w).
Proof.
  intros He Hfe Hk Hfk w'. unfold EscrowOf, ContributionOf, w'. split.
  - rewrite getInt_setInt by done. rewrite decide_False by (by apply not_eq_sym, escrow_contrib_ne).
    rewrite getInt_setInt by done. repeat case_decide; try done; by rewrite escrowKey_eq in *.
  - intros Hl. rewrite !getInt_setInt by done.
    rewrite (decide_False (P := escrowKey c = _)) by apply escrow_contrib_ne.
    pose proof (contribKey_eq s c s' c' Hl). repeat case_decide; naive_solver.
Qed.

Lemma getInt_nonneg_setInt k k' v w :
  int_fits v = true -> 0 <= getInt k w -> 0 <= getInt k (setInt k' v w).
Proof.
  intros Hf Hw. destruct (decide (0 <= v)) as [Hv|Hv].
  - rewrite getInt_setInt by done. by case_decide.
  - unfold setInt. rewrite (proj2 (Z.ltb_ge 0 v)) by lia. simpl. unfold getInt.
    rewrite kv_get_delete. by case_decide.
Qed.

(** The runs of the four operations that succeed: the bank move, the guards that
    held, and the account entries written. *)
Lemma contrib_escrow_get s c e w :
  0 <= e -> int_fits e = true ->
  ContributionOf s c (setInt (escrowKey c) e w) = ContributionOf s c w.
Proof.
  intros. unfold ContributionOf. rewrite getInt_setInt by done.
  by rewrite decide_False by apply escrow_contrib_ne.
Qed.

Lemma DepositFrom_inv pool payer s c amt w w' :
  0 <= EscrowOf c w -> DepositFrom pool payer s c amt w = (Ret tt, w') ->
  exists b, SendCoinsFromAccountToModule payer pool [(FeeDenom, amt)] (w_bank w) = (Ret tt, b) /\
    0 < amt /\
    let e := EscrowOf c w + amt in
    let k := ContributionOf s c w + amt in
    int_fits e = true /\ int_fits k = true /\
    w' = setInt (contribKey s c) k (setInt (escrowKey c) e (set_bank b w)).
Proof.
  unfold DepositFrom. intros He R. run_inv R. bool_prop.
  match goal with H : on_bank _ _ = _ |- _ => apply on_bank_inv in H as (b & R1 & ->) end.
  change (EscrowOf c (set_bank b w)) with (EscrowOf c w) in *.
  rewrite contrib_escrow_get in * by (done || lia). eauto 10.
Qed.

Lemma Deposit_DepositFrom pool s c amt : Deposit pool s c amt = DepositFrom pool s s c amt.
Proof. done. Qed.

Lemma Withdraw_inv pool s c amt w w' :
  Withdraw pool s c amt w = (Ret tt, w') ->
  exists b, SendCoinsFromModuleToAccount pool s [(FeeDenom, amt)] (w_bank w) = (Ret tt, b) /\
    0 < amt <= ContributionOf s c w /\ amt <= EscrowOf c w /\
    let e := EscrowOf c w - amt in
    let k := ContributionOf s c w - amt in
    int_fits e = true /\ int_fits k = true /\
    w' = setInt (contribKey s c) k (setInt (escrowKey c) e (set_bank b w)).
Proof.
  unfold Withdraw. intros R. run_inv R. bool_prop.
  match goal with H : on_bank _ _ = _ |- _ => apply on_bank_inv in H as (b & R1 & ->) end.
  split_and?; eauto 12.
Qed.

Lemma Reserve_inv c fee w w' :
  Reserve c fee w = (Ret true, w') ->
  0 < fee <= EscrowOf c w /\
  int_fits (EscrowOf c w - fee) = true /\ w' = setInt (escrowKey c) (EscrowOf c w - fee) w.
Proof. unfold Reserve. intros R. run_inv R. bool_prop. auto. Qed.

Lemma escrow_debit c c' fee w :
  0 <= EscrowOf c w - fee -> int_fits (EscrowOf c w - fee) = true ->
  EscrowOf c' (setInt (escrowKey c) (EscrowOf c w - fee) w) =
  EscrowOf c' w - if decide (ToLower c = ToLower c') then fee else 0.
Proof.
  intros H0' Hf. unfold EscrowOf at 1. rewrite getInt_setInt by done.
  pose proof (escrowKey_eq c c') as Hk. destruct (decide (ToLower c = ToLower c')) as [E|E].
  - rewrite decide_True by tauto. unfold EscrowOf. by rewrite (proj2 Hk E).
  - rewrite decide_False by tauto. unfold EscrowOf. lia.
Qed.

End account_lemmas.

(** The change of an account by one operation of a history. *)
Definition escrow_delta (c : string) (o : op) : Z := deposited c o - withdrawn c o - reserved c o.
Definition contrib_delta (s c : string) (o : op) : Z := deposited_by s c o - withdrawn_by s c o.

Ltac delta_lia :=
  unfold escrow_delta, contrib_delta; simpl; unfold on_contract; simpl;
  repeat match goal with |- context [String.eqb ?a ?b] => destruct (String.eqb_spec a b) end;
  repeat case_decide; destruct_and?; subst; try lia; naive_solver lia.

(** No account is negative. *)
Definition accounts_nonneg `{MathInt} {B : Type} (w : World B) : Prop :=
  (forall c, 0 <= EscrowOf c w) /\ (forall s c, 0 <= ContributionOf s c w).

Section accounting.
Context `{BankLaws B} `{MathIntLaws} `{JSON Params}.
Implicit Types w : World B.

(** Adding [d] (of either sign) to the escrow of [c'] and to the contribution of
    [s'] to it. *)
Lemma accounts_moved s' c' d b w s c :
  let e := EscrowOf c' w + d in
  let k := ContributionOf s' c' w + d in
  let w' := setInt (contribKey s' c') k (setInt (escrowKey c') e (set_bank b w)) in
  accounts_nonneg w -> String.length c' = String.length c ->
  0 <= e -> 0 <= k -> int_fits e = true -> int_fits k = true ->
  EscrowOf c w' = EscrowOf c w + (if decide (ToLower c' = ToLower c) then d else 0) /\
  ContributionOf s c w' =
    ContributionOf s c w + (if decide (s' = s /\ ToLower c' = ToLower c) then d else 0) /\
  accounts_nonneg w'.
Proof.
  intros e k w' Hw Hl He Hk Hfe Hfk.
  destruct (accounts_after s' c' s c e k (set_bank b w)) as [HE HC]; [done..|].
  specialize (HC Hl). fold w' in HE, HC. rewrite HE, HC. unfold e, k.
  split_and!.
  - destruct (decide (ToLower c' = ToLower c)) as [E|E]; [|by rewrite Z.add_0_r].
    unfold EscrowOf, escrowKey. by rewrite E.
  - destruct (decide (s' = s /\ ToLower c' = ToLower c)) as [[-> E]|E]; [|by rewrite Z.add_0_r].
    unfold ContributionOf, contribKey. by rewrite E.
  - destruct Hw as [Hw1 Hw2]. unfold w'.
    split; intros; repeat (apply getInt_nonneg_setInt; [done|]); [apply Hw1|apply Hw2].
Qed.

Lemma exec_accounts pool o w w' s c :
  accounts_nonneg w -> String.length (op_contract o) = String.length c ->
  exec pool o w = (Ret tt, w') ->
  EscrowOf c w' = EscrowOf c w + escrow_delta c o /\
  ContributionOf s c w' = ContributionOf s c w + contrib_delta s c o /\
  accounts_nonneg w'.
Proof.
  intros Hw Hl.
  destruct o as [s' c' amt|payer s' c' amt|s' c' amt|c' fee]; simpl in Hl |- *;
    pose proof (proj1 Hw c') as He0; try pose proof (proj2 Hw s' c') as Hk0.
  - rewrite Deposit_DepositFrom. intros (b & _ & Ha & Hfe & Hfk & ->)%DepositFrom_inv; [|done].
    destruct (accounts_moved s' c' amt b w s c) as (-> & -> & ?);
      [done|done|lia|lia|done|done|].
    split_and!; [delta_lia|delta_lia|done].
  - intros (b & _ & Ha & Hfe & Hfk & ->)%DepositFrom_inv; [|done].
    destruct (accounts_moved s' c' amt b w s c) as (-> & -> & ?);
      [done|done|lia|lia|done|done|].
    split_and!; [delta_lia|delta_lia|done].
  - intros (b & _ & Hk & He & Hfe & Hfk & ->)%Withdraw_inv. rewrite <- !Z.add_opp_r in *.
    destruct (accounts_moved s' c' (- amt) b w s c) as (-> & -> & ?);
      [done..|lia|lia|done|done|].
    split_and!; [delta_lia|delta_lia|done].
  - intros R. run_inv R. apply Reserve_inv in Hrun as (He & Hf & ->).
    split_and!; [| |destruct Hw as [Hw1 Hw2]; split; intros; apply getInt_nonneg_setInt;
      [done|apply Hw1|done|apply Hw2]].
    + rewrite escrow_debit by (done || lia). delta_lia.
    + unfold ContributionOf. rewrite getInt_setInt by (done || lia).
      rewrite decide_False by (apply escrow_contrib_ne). delta_lia.
Qed.

Lemma same_accounts_get w w' :
  same_accounts w w' ->
  (forall c, EscrowOf c w' = EscrowOf c w) /\ (forall s c, ContributionOf s c w' = ContributionOf s c w).
Proof.
  intros Hs. split; intros; unfold EscrowOf, ContributionOf, getInt; by rewrite Hs by discriminate.
Qed.

Lemma reachable_accounts pool log w :
  reachable pool log w ->
  accounts_nonneg w /\
  forall c s, String.length c = 42%nat ->
    EscrowOf c w = sumZ (escrow_delta c) log /\ ContributionOf s c w = sumZ (contrib_delta s c) log.
Proof.
  induction 1 as [w Hi|log w w' _ [[IHe IHc] IH] Hs|log w o w' _ [IHn IH] Hl R].
  - assert (forall k, k <> ParamsKey -> getInt k w = 0) as Hz
      by (intros k Hk; unfold getInt; by rewrite Hi).
    split; [split; intros|intros c s _; split]; unfold EscrowOf, ContributionOf;
      by rewrite Hz by discriminate.
  - destruct (same_accounts_get _ _ Hs) as [He Hc].
    split; [split; intros; rewrite ?He, ?Hc; auto|]. intros c s Hl. rewrite He, Hc. auto.
  - split; [by destruct (exec_accounts pool o w w' "" (op_contract o) IHn eq_refl R) as (_ & _ & ?)|].
    intros c s Hc. destruct (IH c s Hc) as [He Hk].
    destruct (exec_accounts pool o w w' s c IHn) as (-> & -> & _); [congruence|done|].
    simpl. lia.
Qed.

Lemma sumZ_escrow_delta c log :
  sumZ (escrow_delta c) log =
  sumZ (deposited c) log - sumZ (withdrawn c) log - sumZ (reserved c) log.
Proof. induction log as [|o log IH]; simpl; [done|]. rewrite IH. unfold escrow_delta. lia. Qed.

Lemma sumZ_contrib_delta s c log :
  sumZ (contrib_delta s c) log = sumZ (deposited_by s c) log - sumZ (withdrawn_by s c) log.
Proof. induction log as [|o log IH]; simpl; [done|]. rewrite IH. unfold contrib_delta. lia. Qed.

(** C22: after any history of successful deposits, withdrawals and reservations,
    interleaved with the rest of the chain, a contract's escrow is exactly what
    was deposited for it minus what was withdrawn and what gas reservations
    spent, a sponsor's contribution is exactly its own deposits minus its own
    withdrawals, and neither is ever negative: nobody withdraws what another
    sponsor paid in and gas never spends more than was deposited. *)
Theorem escrow_accounting pool log w c s :
  reachable pool log w -> String.length c = 42%nat ->
  EscrowOf c w = sumZ (deposited c) log - sumZ (withdrawn c) log - sumZ (reserved c) log /\
  ContributionOf s c w = sumZ (deposited_by s c) log - sumZ (withdrawn_by s c) log /\
  sumZ (withdrawn c) log + sumZ (reserved c) log <= sumZ (deposited c) log /\
  sumZ (withdrawn_by s c) log <= sumZ (deposited_by s c) log.
Proof.
  intros Hr Hc. destruct (reachable_accounts _ _ _ Hr) as [[Hn1 Hn2] Ha].
  destruct (Ha c s Hc) as [He Hk]. specialize (Hn1 c). specialize (Hn2 s c).
  rewrite <- sumZ_escrow_delta, <- sumZ_contrib_delta. split_and!; [done|done| |].
  - rewrite He, sumZ_escrow_delta in Hn1. lia.
  - rewrite Hk, sumZ_contrib_delta in Hn2. lia.
Qed.

(** The whole of [Reserve] as one decision: a reservation is granted exactly when
    the module is enabled, the fee is positive, within the per-transaction cap
    and covered by the escrow. *)
Definition reserve_ok (c : string) (fee : Z) (w : World B) : bool :=
  Enabled (GetParams w) && (0 <? fee) && (fee <=? EscrowOf c w) &&
  match parse_positive (PerTxCap (GetParams w)) with Some cap => fee <=? cap | None => true end.

(** [Reserve] never fails on a state whose escrow entries are in range: it
    grants exactly the requests [reserve_ok] describes, a granted one lowers
    that contract's escrow by the fee and touches no other account and no coin,
    and a refused one changes nothing. *)
Theorem Reserve_spec c fee w :
  int_fits (EscrowOf c w) = true ->
  exists w', Reserve c fee w = (Ret (reserve_ok c fee w), w') /\
    w_bank w' = w_bank w /\
    (reserve_ok c fee w = false -> w' = w) /\
    (reserve_ok c fee w = true ->
       (forall c', EscrowOf c' w' =
          EscrowOf c' w - if decide (ToLower c = ToLower c') then fee else 0) /\
       (forall s c', ContributionOf s c' w' = ContributionOf s c' w)).
Proof.
  intros Hf. unfold Reserve, reserve_ok, parse_positive. run_gets.
  destruct (Enabled _); simpl; [|by exists w].
  destruct (0 <? fee) eqn:E0; simpl; [|by exists w].
  set (over := match NewIntFromString (PerTxCap (GetParams w)) with Some _ => _ | None => _ end).
  set (under := match match NewIntFromString (PerTxCap (GetParams w)) with Some _ => _ | None => _ end
    with Some _ => _ | None => _ end).
  assert (Hou : over = negb under).
  { unfold over, under. destruct (NewIntFromString _) as [z|]; [|done].
    destruct (0 <? z); [|done]. simpl. by rewrite Z.ltb_antisym. }
  rewrite Hou. destruct under; simpl; [|exists w; by rewrite andb_false_r].
  run_gets. rewrite Z.ltb_antisym, andb_true_r. destruct (fee <=? EscrowOf c w) eqn:E1; simpl; [|by exists w].
  bool_prop. assert (Hfit : int_fits (EscrowOf c w - fee) = true)
    by (eapply int_fits_nonneg_le; [|exact Hf]; lia).
  run_seq (int_sub_run _ _ w Hfit). eexists. split; [reflexivity|].
  rewrite w_bank_setInt. split_and!; [done|done|]. intros _. split; intros.
  - apply escrow_debit; [lia|done].
  - unfold ContributionOf. rewrite getInt_setInt by (done || lia).
    by rewrite decide_False by apply escrow_contrib_ne.
Qed.

End accounting.

(** ** A concrete history: deposit 100, reserve 30, withdraw 20. *)
Module Example.
#[local] Existing Instance decimal_MathInt.
#[local] Instance Params_JSON : JSON Params := codec_JSON Params.

Definition dapp : string := "0x00000000000000000000000000000000000000AA".
Definition w0 : World ledger :=
  mkWorld (mkLedger {[ ("alice", FeeDenom) := 500 ]} {[ FeeDenom := 500 ]}) ∅ [].
Definition run_op (o : op) (w : World ledger) : World ledger := (exec GasPoolName o w).2.
Definition w1 : World ledger := run_op (OpDeposit "alice" dapp 100) w0.
Definition w2 : World ledger := run_op (OpReserve dapp 30) w1.
Definition w3 : World ledger := run_op (OpWithdraw "alice" dapp 20) w2.
Definition history : list op := [OpWithdraw "alice" dapp 20; OpReserve dapp 30; OpDeposit "alice" dapp 100].

Lemma run_op_ok o w : (exec GasPoolName o w).1 = Ret tt -> exec GasPoolName o w = (Ret tt, run_op o w).
Proof. unfold run_op. destruct (exec _ o w); simpl. by intros ->. Defined.

Lemma history_reachable : reachable GasPoolName history w3.
Proof.
  eapply (reach_op _ _ w2); [|reflexivity|apply run_op_ok; vm_compute; reflexivity].
  eapply (reach_op _ _ w1); [|reflexivity|apply run_op_ok; vm_compute; reflexivity].
  eapply (reach_op _ _ w0); [|reflexivity|apply run_op_ok; vm_compute; reflexivity].
  apply reach_init. done.
Defined.

Lemma escrow_accounting_witness :
  EscrowOf dapp w3 =
    sumZ (deposited dapp) history - sumZ (withdrawn dapp) history - sumZ (reserved dapp) history /\
  (EscrowOf dapp w3, ContributionOf "alice" dapp w3) = (50, 80).
Proof.
  split; [|vm_compute; reflexivity].
  apply (escrow_accounting GasPoolName history w3 dapp "alice" history_reachable). reflexivity.
Defined.

Lemma Reserve_spec_witness :
  (reserve_ok dapp 30 w1, reserve_ok dapp 101 w1) = (true, false) /\
  exists w', Reserve dapp 30 w1 = (Ret (reserve_ok dapp 30 w1), w') /\ w_bank w' = w_bank w1.
Proof.
  split; [vm_compute; reflexivity|].
  destruct (Reserve_spec dapp 30 w1) as (w' & R & Hb & _); [vm_compute; reflexivity|].
  exists w'. exact (conj R Hb).
Defined.

End Example.
End SponsorPool.
