(* ===== verification/NetCap.v ===== *)
(** * x/netcap: the net-seller cap

    Models x/netcap/types, x/netcap/keeper and the EVM ante decorator of
    ante/netcap_evm.go: a restricted address may send to other addresses at most a
    cap of the native coin per time window.  The accounting is proved over every run
    of bank sends and Ethereum transactions: each window carries at most the cap, and
    therefore every interval as long as a window at most twice the cap.  The
    decorator passes over contract creations, so the value they carry is outside the
    limit ([Example.creation_escapes]). *)
From S2P Require Import Prelude Codec Bank.
From stdpp Require Import gmap strings list.
From Stdlib Require Import ZArith Lia.

#[local] Set Default Goal Selector "!".
Open Scope Z_scope.

Module NetCap.

Definition ModuleName : string := "netcap".
Definition StoreKey : string := ModuleName.
Definition BaseDenom : string := "aLIMO".
Definition ParamsKey : string := byte_prefix 1.
Definition SpendPrefix : string := byte_prefix 2.
Definition ErrNetCapExceeded : string := "net-seller cap exceeded".

Record Params := mkParams {
  Enabled : bool;
  RestrictedAddresses : list string;
  Whitelist : list string;
  WindowSeconds : Z;
  CapPerWindow : string
}.

Record WindowSpend := mkWindowSpend { WindowStartUnix : Z; Spent : string }.

#[export] Instance Params_codec : Codec Params :=
  Codec_iso (fun p => (Enabled p, RestrictedAddresses p, Whitelist p, WindowSeconds p, CapPerWindow p))
    (fun t => mkParams t.1.1.1.1 t.1.1.1.2 t.1.1.2 t.1.2 t.2)
    (fun p => match p with mkParams _ _ _ _ _ => eq_refl end).
#[export] Instance WindowSpend_codec : Codec WindowSpend :=
  Codec_iso (fun s => (WindowStartUnix s, Spent s)) (fun t => mkWindowSpend t.1 t.2)
    (fun s => match s with mkWindowSpend _ _ => eq_refl end).

Definition DefaultParams : Params := mkParams false [] [] 0 "0".

(** [GenesisState.Validate]. *)
Definition Validate `{MathInt} (p : Params) : outcome unit :=
  if negb (Enabled p) then Ret tt
  else if WindowSeconds p <=? 0 then Err "netcap: window_seconds must be > 0 when enabled"
  else match NewIntFromString (CapPerWindow p) with
       | Some v => if v <? 0 then Err "netcap: invalid cap_per_window" else Ret tt
       | None => Err "netcap: invalid cap_per_window"
       end.

(** What the module uses of x/auth: whether the account at an address is a module
    account ([None] when there is no account). *)
Class Accounts (W : Type) : Type := { account_is_module : W -> string -> option bool }.

(** The accounts are kept in x/auth's store, not in this one. *)
Class AccountsLaws (B : Type) `{Accounts (World B)} : Prop := {
  account_is_module_set k v (w : World B) addr :
    account_is_module (kv_set StoreKey k v w) addr = account_is_module w addr
}.

(** A message of a transaction as the decorator sees it: [UnpackEthMsg] either
    fails or gives the sender, the recipient ([None] for a creation) and the
    value ([None] for nil). *)
Record EthMsg := mkEthMsg { em_From : string; em_To : option string; em_Value : option Z }.

Definition spendKey (addr : string) : string := SpendPrefix +:+ addr.

Section keeper.
Context {B : Type} `{Bech32} `{Accounts (World B)} `{MathInt} `{JSON Params} `{JSON WindowSpend}.
Implicit Types w : World B.

Definition SetParams (p : Params) : M (World B) unit :=
  modify (kv_set StoreKey ParamsKey (json_Marshal p)).

Definition GetParams w : Params :=
  match kv_get StoreKey ParamsKey w with
  | None => DefaultParams
  | Some bz => match json_Unmarshal bz with Some p => p | None => DefaultParams end
  end.

Definition InitGenesis (gs : Params) : M (World B) unit := SetParams gs.
Definition ExportGenesis w : Params := GetParams w.

Definition getSpend (addr : string) w : WindowSpend :=
  match kv_get StoreKey (spendKey addr) w with
  | None => mkWindowSpend 0 "0"
  | Some bz => match json_Unmarshal bz with Some ws => ws | None => mkWindowSpend 0 "0" end
  end.

Definition setSpend (addr : string) (ws : WindowSpend) : M (World B) unit :=
  modify (kv_set StoreKey (spendKey addr) (json_Marshal ws)).

(** [ak] says whether the keeper has an account keeper. *)
Definition isModuleAccount (ak : bool) (addr : string) w : bool :=
  if negb ak then false
  else match account_is_module w addr with None => false | Some b => b end.

Definition CheckAndRecord (ak : bool) (ctx : Ctx) (from to : string) (amount : option Z) : M (World B) unit :=
  p ← gets GetParams;
  match amount with
  | None => mret tt
  | Some amt =>
  if negb (Enabled p) || negb (0 <? amt) then mret tt else
  let fromStr := AccAddress_String from in
  if negb (contains (RestrictedAddresses p) fromStr) then mret tt else
  exempt ← gets (fun w => contains (Whitelist p) (AccAddress_String to) || isModuleAccount ak to w);
  if exempt : bool then mret tt else
  match NewIntFromString (CapPerWindow p) with
  | None => mret tt
  | Some capAmt =>
  let now := BlockTime ctx in
  ws0 ← gets (getSpend fromStr);
  let ws := if (WindowStartUnix ws0 =? 0) || (WindowSeconds p <=? i64 (now - WindowStartUnix ws0))
            then mkWindowSpend now "0" else ws0 in
  let spent := match NewIntFromString (Spent ws) with Some s => s | None => 0 end in
  newSpent ← int_add spent amt;
  if capAmt <? newSpent then fail ErrNetCapExceeded else
  if IsCheckTx ctx || IsReCheckTx ctx then mret tt else
  setSpend fromStr (mkWindowSpend (WindowStartUnix ws) (Int_String newSpent))
  end
  end.

Definition SendRestrictionFn (ak : bool) (ctx : Ctx) (from to : string) (amt : Coins) : M (World B) string :=
  CheckAndRecord ak ctx from to (Some (AmountOf amt BaseDenom));;
  mret to.

(** [NetCapEVMDecorator.AnteHandle]: the loop before [next]; [checker] says
    whether a checker is configured. *)
Definition AnteHandle_msg (ak : bool) (ctx : Ctx) (msg : option EthMsg) : M (World B) unit :=
  match msg with
  | None => mret tt
  | Some m =>
      match em_To m, em_Value m with
      | Some to, Some val => if val <=? 0 then mret tt else CheckAndRecord ak ctx (em_From m) to (Some val)
      | _, _ => mret tt
      end
  end.
Definition AnteHandle (checker ak : bool) (ctx : Ctx) (msgs : list (option EthMsg)) : M (World B) unit :=
  if negb checker then mret tt else for_each (AnteHandle_msg ak ctx) msgs.

End keeper.

(** ** The accounting of one restricted address

    [charge]: what a call that returned counts against [a], as a list of
    (time, amount). *)
Section accounting.
Context {B : Type} `{Bech32} `{AccountsLaws B} `{MathIntLaws} `{JSON Params} `{JSONLaws WindowSpend}.
Context (ak : bool) (p : Params) (a : string) (cap : Z).
Implicit Types w : World B.
Implicit Types log : list (Z * Z).

Definition exempt (to : string) w : bool :=
  contains (Whitelist p) (AccAddress_String to) || isModuleAccount ak to w.

Definition charge (ctx : Ctx) (from to : string) (amt : Z) w : list (Z * Z) :=
  if (0 <? amt) && String.eqb (AccAddress_String from) a && negb (exempt to w)
     && negb (IsCheckTx ctx || IsReCheckTx ctx)
  then [(BlockTime ctx, amt)] else [].

(** A message without a recipient, a contract creation, counts nothing: the decorator
    does not look at its value. *)
Definition charge_msg (ctx : Ctx) w (msg : option EthMsg) : list (Z * Z) :=
  match msg with
  | Some (mkEthMsg from (Some to) (Some val)) => charge ctx from to val w
  | _ => []
  end.

(** The spend record of [a] and the parameters are the same in both states. *)
Definition same_spend w w' : Prop :=
  getSpend a w' = getSpend a w /\ GetParams w' = GetParams w.

(** A run under the parameters [p]: the outflow of [a] charged so far, newest
    first, the last block time and the state reached.  A transaction that fails is
    rolled back and is no step. *)
Inductive run : list (Z * Z) -> Z -> World B -> Prop :=
| run_init w : GetParams w = p -> getSpend a w = mkWindowSpend 0 "0" -> run [] 0 w
| run_env log t w w' : run log t w -> same_spend w w' -> run log t w'
| run_send log t w ctx from to coins r w' :
    run log t w -> t <= BlockTime ctx -> 0 < BlockTime ctx < 2 ^ 63 ->
    SendRestrictionFn ak ctx from to coins w = (Ret r, w') ->
    run (charge ctx from to (AmountOf coins BaseDenom) w ++ log) (BlockTime ctx) w'
| run_eth log t w ctx msgs w' :
    run log t w -> t <= BlockTime ctx -> 0 < BlockTime ctx < 2 ^ 63 ->
    AnteHandle true ak ctx msgs w = (Ret tt, w') ->
    run (rev (mjoin (charge_msg ctx w <$> msgs)) ++ log) (BlockTime ctx) w'.

(** ** The windows

    [windows s log]: the charges fall into windows of [WindowSeconds], the newest
    starting at [s], no two of them overlapping and each within the cap. *)
Let W := WindowSeconds p.

Inductive windows : Z -> list (Z * Z) -> Prop :=
| windows_nil s : windows s []
| windows_cons s s' cur old :
    windows s' old -> (old = [] \/ s' + W <= s) ->
    Forall (fun e => s <= e.1 < s + W) cur -> sumZ snd cur <= cap -> windows s (cur ++ old).

Definition within (t : Z) log : Z := sumZ (fun e => if (t <=? e.1) && (e.1 <? t + W) then e.2 else 0) log.

Lemma within_app t l1 l2 : within t (l1 ++ l2) = within t l1 + within t l2.
Proof. apply sumZ_app. Qed.

Lemma within_le t log : Forall (fun e => 0 <= e.2) log -> within t log <= sumZ snd log.
Proof. intros Hp. apply sumZ_le. eapply Forall_impl; [exact Hp|]. intros e He. simpl in *. destruct (_ && _); lia. Qed.

Lemma within_0 t log : Forall (fun e => e.1 < t \/ t + W <= e.1) log -> within t log = 0.
Proof.
  induction 1 as [|e l He _ IH]; [done|]. unfold within in *. simpl.
  destruct (t <=? e.1) eqn:E1, (e.1 <? t + W) eqn:E2; bool_prop; simpl; lia.
Qed.

Lemma windows_before s log : windows s log -> 0 < W -> Forall (fun e => e.1 < s + W) log.
Proof.
  intros Hw HW. induction Hw as [|s s' cur old _ IH Hs Hcur _]; [constructor|].
  apply Forall_app. split; [eapply Forall_impl; [exact Hcur|]; simpl; lia|].
  destruct Hs as [->|Hs]; [constructor|]. eapply Forall_impl; [exact IH|]. simpl. lia.
Qed.

(** An interval that starts within the newest window meets no other one. *)
Lemma windows_newest s log t :
  windows s log -> 0 < W -> 0 <= cap -> Forall (fun e => 0 <= e.2) log -> s <= t -> within t log <= cap.
Proof.
  intros Hw HW Hc Hp Ht. destruct Hw as [|s s' cur old Ho Hs Hcur Hsum]; [done|].
  apply Forall_app in Hp as [Hp1 Hp2]. rewrite within_app, (within_0 t old), Z.add_0_r.
  - etransitivity; [by apply within_le|done].
  - destruct Hs as [->|Hs]; [constructor|]. eapply Forall_impl; [by apply (windows_before s')|]. simpl. lia.
Qed.

Lemma windows_two s log t :
  windows s log -> 0 < W -> 0 <= cap -> Forall (fun e => 0 <= e.2) log -> within t log <= 2 * cap.
Proof.
  intros Hw HW Hc. revert t. induction Hw as [|s s' cur old Ho IH Hs Hcur Hsum]; intros t Hp; [unfold within; simpl; lia|].
  apply Forall_app in Hp as [Hp1 Hp2]. rewrite within_app.
  pose proof (within_le t cur Hp1). specialize (IH t Hp2).
  destruct (decide (t + W <= s)) as [Hlt|Hge].
  - rewrite (within_0 t cur); [lia|]. eapply Forall_impl; [exact Hcur|]. simpl. lia.
  - destruct Hs as [->|Hs]; [unfold within; simpl; fold (within t cur); lia|].
    pose proof (windows_newest s' old t Ho HW Hc Hp2 ltac:(lia)). lia.
Qed.

(** ** One call *)

Lemma getSpend_set addr ws w :
  getSpend a (kv_set StoreKey (spendKey addr) (json_Marshal ws) w) = if decide (addr = a) then ws else getSpend a w.
Proof.
  unfold getSpend. rewrite kv_get_set. case_decide as E.
  - destruct E as [_ E]. apply byte_prefix_inj in E as ->. rewrite decide_True by done. by rewrite json_roundtrip.
  - rewrite decide_False by naive_solver. done.
Qed.

Lemma GetParams_set addr bz w : GetParams (kv_set StoreKey (spendKey addr) bz w) = GetParams w.
Proof. unfold GetParams. rewrite kv_get_set_ne; [done|]. right. unfold spendKey, SpendPrefix, ParamsKey. discriminate. Qed.

(** The invariant of a run: the open window [cur] starts at the recorded time and
    its charges add up to the recorded amount. *)
Record open_window log t (ws : WindowSpend) : Prop := {
  ow_start : 0 < WindowStartUnix ws <= t;
  ow_split : exists cur old s', log = cur ++ old /\ windows s' old /\
    (old = [] \/ s' + W <= WindowStartUnix ws) /\
    Forall (fun e => WindowStartUnix ws <= e.1 < WindowStartUnix ws + W) cur /\ sumZ snd cur <= cap /\
    NewIntFromString (Spent ws) = Some (sumZ snd cur)
}.
Definition run_inv log t w : Prop :=
  GetParams w = p /\ Forall (fun e => 0 < e.2 /\ e.1 <= t) log /\ 0 <= t < 2 ^ 63 /\
  ((getSpend a w = mkWindowSpend 0 "0" /\ log = []) \/ open_window log t (getSpend a w)).

Hypothesis (Hen : Enabled p = true) (Hres : contains (RestrictedAddresses p) a = true)
  (Hwin : 0 < W < 2 ^ 63) (Hcap : NewIntFromString (CapPerWindow p) = Some cap) (Hcap0 : 0 <= cap).

(** The window a transfer at time [now] is recorded in. *)
Definition current (now : Z) (ws0 : WindowSpend) : WindowSpend :=
  if (WindowStartUnix ws0 =? 0) || (W <=? i64 (now - WindowStartUnix ws0)) then mkWindowSpend now "0" else ws0.

Lemma open_current log t now ws :
  NewIntFromString "0" = Some 0 -> t <= now < 2 ^ 63 -> 0 < now ->
  ((ws = mkWindowSpend 0 "0" /\ log = []) \/ open_window log t ws) ->
  open_window log now (current now ws) /\ now < WindowStartUnix (current now ws) + W.
Proof.
  intros Hz Hn Hpos [[-> ->]|[Hs (cur & old & s' & -> & Ho & Hgap & Hcur & Hsum & Hsp)]].
  - unfold current. simpl. split; [|lia]. split; [simpl; lia|]. exists [], [], 0. simpl.
    split_and!; [done|constructor|by left|constructor|lia|done].
  - unfold current. rewrite i64_id by (unfold is_i64; lia).
    destruct (WindowStartUnix ws =? 0) eqn:E; bool_prop; [lia|]. simpl.
    destruct (W <=? now - WindowStartUnix ws) eqn:E2; bool_prop.
    + split; [|simpl; lia]. split; [simpl; lia|]. exists [], (cur ++ old), (WindowStartUnix ws). simpl.
      split_and!; [done|by eapply windows_cons|right; lia|constructor|lia|done].
    + split; [|lia]. split; [lia|]. exists cur, old, s'. by split_and!.
Qed.

Lemma parse_zero : NewIntFromString "0" = Some 0.
Proof. by apply (NewIntFromString_lit "0" 0). Qed.

(** A call that returns writes nothing, or records a charge. *)
Lemma call_cases ctx from to amt w w' :
  GetParams w = p -> CheckAndRecord ak ctx from to (Some amt) w = (Ret tt, w') ->
  (w' = w /\ charge ctx from to amt w = []) \/
  exists spent, 0 < amt /\ exempt to w = false /\ IsCheckTx ctx || IsReCheckTx ctx = false /\
    let ws := current (BlockTime ctx) (getSpend (AccAddress_String from) w) in
    default 0 (NewIntFromString (Spent ws)) = spent /\ int_fits (spent + amt) = true /\ spent + amt <= cap /\
    w' = kv_set StoreKey (spendKey (AccAddress_String from))
           (json_Marshal (mkWindowSpend (WindowStartUnix ws) (Int_String (spent + amt)))) w.
Proof.
  intros Hp. unfold CheckAndRecord. run_gets. rewrite Hp, Hen, Hcap. simpl.
  unfold charge, exempt. destruct (0 <? amt) eqn:Ea; simpl; [|intros [= <-]; by left].
  destruct (contains (RestrictedAddresses p) (AccAddress_String from)) eqn:Er; simpl.
  2:{ intros R. run_inv R. left. split; [done|]. destruct (String.eqb_spec (AccAddress_String from) a) as [<-|]; [congruence|done]. }
  run_gets. destruct (contains (Whitelist p) _ || _) eqn:Ex.
  { intros R. run_inv R. left. by rewrite andb_false_r. }
  run_gets. fold W. fold (current (BlockTime ctx) (getSpend (AccAddress_String from) w)).
  set (ws := current _ _). intros R. run_inv R.
  - left. split; [done|]. by rewrite andb_false_r.
  - right. bool_prop. eexists. split_and!; try done. by injection R as <-.
Qed.

Lemma run_inv_later log t t' w : run_inv log t w -> t <= t' < 2 ^ 63 -> run_inv log t' w.
Proof.
  intros (Hp & Hpos & Ht & Hw) Hle. split_and!; [done|eapply Forall_impl; [exact Hpos|]; simpl; lia|lia..|].
  destruct Hw as [Hw|[Hs Ho]]; [by left|right]. split; [lia|exact Ho].
Qed.

Lemma call_inv log t w ctx from to amt w' :
  run_inv log t w -> t <= BlockTime ctx -> 0 < BlockTime ctx < 2 ^ 63 ->
  CheckAndRecord ak ctx from to (Some amt) w = (Ret tt, w') ->
  run_inv (charge ctx from to amt w ++ log) (BlockTime ctx) w' /\
  (forall addr, account_is_module w' addr = account_is_module w addr).
Proof.
  intros (Hp & Hpos & Ht & Hw) Hle Hnow [[-> ->]|(spent & Ha & Hex & Hchk & Hsp & Hfit & Hc & ->)]%call_cases; [| |done].
  { split; [|done]. eapply run_inv_later; [|split; [exact Hle|lia]]. split_and!; [done|done|lia..|done]. }
  split; [|intros; apply account_is_module_set]. unfold run_inv. rewrite GetParams_set, getSpend_set. unfold charge.
  rewrite Hex, Hchk, (proj2 (Z.ltb_lt 0 amt) Ha). simpl. rewrite !andb_true_r.
  assert (Hpos' : Forall (fun e : Z * Z => 0 < e.2 /\ e.1 <= BlockTime ctx) log)
    by (eapply Forall_impl; [exact Hpos|]; simpl; lia).
  destruct (String.eqb_spec (AccAddress_String from) a) as [<-|Hne].
  - rewrite decide_True by done. split_and!; [done|by constructor|lia..|]. right.
    pose proof (open_current log t (BlockTime ctx) _ parse_zero ltac:(lia) ltac:(lia) Hw) as [[Hs Ho] Hend].
    set (ws := current _ _) in *. destruct Ho as (cur & old & s' & -> & Ho & Hgap & Hcur & Hsum & Hparse).
    rewrite Hparse in Hsp. simpl in Hsp. subst spent. split; [done|]. simpl.
    exists ((BlockTime ctx, amt) :: cur), old, s'. simpl. split_and!; try done; [|lia|].
    + constructor; [simpl; lia|done].
    + rewrite NewIntFromString_String by done. f_equal. lia.
  - rewrite decide_False by done. split_and!; [done|done|lia..|].
    destruct Hw as [Hw|[Hs Ho]]; [by left|right]. split; [lia|exact Ho].
Qed.

Lemma charge_kinds ctx from to amt w w0 :
  (forall addr, account_is_module w addr = account_is_module w0 addr) ->
  charge ctx from to amt w = charge ctx from to amt w0.
Proof. intros Hk. unfold charge, exempt, isModuleAccount. by rewrite Hk. Qed.

Lemma msg_inv ctx m log t w w0 w' :
  run_inv log t w -> t <= BlockTime ctx -> 0 < BlockTime ctx < 2 ^ 63 ->
  (forall addr, account_is_module w addr = account_is_module w0 addr) ->
  AnteHandle_msg ak ctx m w = (Ret tt, w') ->
  run_inv (rev (charge_msg ctx w0 m) ++ log) (BlockTime ctx) w' /\
  (forall addr, account_is_module w' addr = account_is_module w0 addr).
Proof.
  intros Hinv Hle Hnow Hk. pose proof (run_inv_later _ _ _ _ Hinv (conj Hle (proj2 Hnow))) as Hl.
  destruct m as [[from [to|] [val|]]|]; simpl; try (by intros [= <-]).
  destruct (val <=? 0) eqn:E; bool_prop.
  - intros [= <-]. unfold charge. by rewrite (proj2 (Z.ltb_ge 0 val) E).
  - intros R. destruct (call_inv _ _ _ _ _ _ _ _ Hinv Hle Hnow R) as [Hi Hk'].
    rewrite (charge_kinds _ _ _ _ _ _ Hk) in Hi. split; [|intros; by rewrite Hk', Hk].
    replace (rev (charge ctx from to val w0)) with (charge ctx from to val w0); [done|].
    unfold charge. by destruct (_ && _).
Qed.

Lemma msgs_inv ctx msgs : forall log t w w0 w',
  run_inv log t w -> t <= BlockTime ctx -> 0 < BlockTime ctx < 2 ^ 63 ->
  (forall addr, account_is_module w addr = account_is_module w0 addr) ->
  for_each (AnteHandle_msg ak ctx) msgs w = (Ret tt, w') ->
  run_inv (rev (mjoin (charge_msg ctx w0 <$> msgs)) ++ log) (BlockTime ctx) w'.
Proof.
  induction msgs as [|m msgs IH]; intros log t w w0 w' Hinv Hle Hnow Hk.
  { intros [= <-]. simpl. eapply run_inv_later; [done|lia]. }
  intros R. apply bind_Ret_inv in R as ([] & w1 & R1 & R2). rewrite fmap_cons. simpl.
  rewrite rev_app_distr, <- app_assoc.
  destruct (msg_inv _ _ _ _ _ _ _ Hinv Hle Hnow Hk R1) as [Hi Hk1]. by eapply (IH _ _ w1 w0).
Qed.

Lemma run_run_inv log t w : run log t w -> run_inv log t w.
Proof.
  induction 1 as [w Hp Hs|log t w w' _ IH [Hs Hp]|log t w ctx from to coins r w' _ IH Hle Hnow R
                 |log t w ctx msgs w' _ IH Hle Hnow R].
  - split_and!; [done|constructor|lia..|by left].
  - unfold run_inv. by rewrite Hs, Hp.
  - apply bind_Ret_inv in R as ([] & w1 & R1 & [= _ <-]). by apply (call_inv log t w).
  - by apply (msgs_inv ctx msgs log t w w).
Qed.

(** C24: in every run of bank sends and Ethereum transactions with fixed
    parameters, the coins a restricted address sent to a recipient that is neither
    whitelisted nor a module account, by a bank send or as the value of an Ethereum
    message to an address, are recorded in windows of [WindowSeconds] that each carry
    at most the cap; hence any interval of that length, wherever it starts, carries at
    most twice the cap.  The value of a contract creation has no recipient and is not
    among these coins. *)
Theorem outflow_bounded log t w u :
  run log t w -> (exists s, windows s log) /\ within u log <= 2 * cap.
Proof.
  intros (_ & Hpos & _ & Hw)%run_run_inv.
  assert (exists s, windows s log) as [s Hs].
  { destruct Hw as [[_ ->]|[_ (cur & old & s' & -> & Ho & Hgap & Hcur & Hsum & _)]]; [by exists 0; constructor|].
    eexists. by eapply windows_cons. }
  split; [by exists s|]. eapply windows_two; [done|lia|done|]. eapply Forall_impl; [exact Hpos|]. simpl. lia.
Qed.

End accounting.

(** ** A concrete run *)
Module Example.
#[local] Existing Instance decimal_MathInt.
#[local] Instance Params_JSON : JSON Params := codec_JSON Params.
#[local] Instance Spend_JSON : JSON WindowSpend := codec_JSON WindowSpend.
#[local] Instance Spend_laws : JSONLaws WindowSpend := codec_JSONLaws WindowSpend.
#[local] Instance addresses : Bech32 := {| AccAddress_String s := s |}.
#[local] Instance accounts : Accounts (World ledger) :=
  {| account_is_module _ addr := Some (String.prefix "module/" addr) |}.
#[local] Instance accounts_laws : AccountsLaws ledger.
Proof. by split. Qed.

Definition p : Params := mkParams true ["team"] ["cold"] 10 "100".
Definition w0 : World ledger := mkWorld (mkLedger ∅ ∅) {[ StoreKey := {[ ParamsKey := json_Marshal p ]} ]} [].
Definition at_time (t : Z) : Ctx := mkCtx t 1 false false.
Definition w1 := (SendRestrictionFn true (at_time 5) "team" "bob" [(BaseDenom, 1)] w0).2.
Definition w2 := (AnteHandle true true (at_time 14)
  [Some (mkEthMsg "team" (Some "cold") (Some 500)); Some (mkEthMsg "team" (Some "bob") (Some 99))] w1).2.
Definition w3 := (SendRestrictionFn true (at_time 15) "team" "bob" [(BaseDenom, 100)] w2).2.
Definition log : list (Z * Z) := [(15, 100); (14, 99); (5, 1)].

Lemma run_w3 : run true p "team" log 15 w3.
Proof.
  assert (R0 : run true p "team" [] 0 w0) by (apply run_init; vm_compute; reflexivity).
  assert (E1 : SendRestrictionFn true (at_time 5) "team" "bob" [(BaseDenom, 1)] w0 = (Ret "bob", w1))
    by (vm_compute; reflexivity).
  assert (E2 : AnteHandle true true (at_time 14) [Some (mkEthMsg "team" (Some "cold") (Some 500));
    Some (mkEthMsg "team" (Some "bob") (Some 99))] w1 = (Ret tt, w2)) by (vm_compute; reflexivity).
  assert (E3 : SendRestrictionFn true (at_time 15) "team" "bob" [(BaseDenom, 100)] w2 = (Ret "bob", w3))
    by (vm_compute; reflexivity).
  assert (R1 : run true p "team" [(5, 1)] 5 w1)
    by (refine (run_send _ _ _ _ _ _ _ _ _ _ _ _ R0 _ _ E1); simpl; lia).
  assert (R2 : run true p "team" [(14, 99); (5, 1)] 14 w2)
    by (refine (run_eth _ _ _ _ _ _ _ _ _ R1 _ _ E2); simpl; lia).
  refine (run_send _ _ _ _ _ _ _ _ _ _ _ _ R2 _ _ E3); simpl; lia.
Qed.

(** The limit is per window, not over a sliding interval: 199 of the coins, with
    a cap of 100 per 10 seconds, leave within two seconds of each other; a second
    transfer in the same window is refused. *)
Lemma double_spend :
  within p 6 log = 199 /\
  (SendRestrictionFn true (at_time 16) "team" "bob" [(BaseDenom, 1)] w3).1 = Err ErrNetCapExceeded.
Proof. split; vm_compute; reflexivity. Qed.

(** In the same window, with the cap used up, a contract creation by the restricted
    address passes with any value, and nothing is recorded. *)
Lemma creation_escapes :
  (SendRestrictionFn true (at_time 16) "team" "bob" [(BaseDenom, 1)] w3).1 = Err ErrNetCapExceeded /\
  AnteHandle true true (at_time 16) [Some (mkEthMsg "team" None (Some 1000000))] w3 = (Ret tt, w3).
Proof. split; vm_compute; reflexivity. Qed.

Lemma outflow_bounded_witness :
  run true p "team" log 15 w3 /\ (exists s, windows p 100 s log) /\ within p 6 log <= 2 * 100.
Proof.
  split; [exact run_w3|].
  assert (Hen : Enabled p = true) by reflexivity.
  assert (Hres : contains (RestrictedAddresses p) "team" = true) by reflexivity.
  assert (Hwin : 0 < WindowSeconds p < 2 ^ 63) by (simpl; lia).
  assert (Hcap : NewIntFromString (CapPerWindow p) = Some 100) by (vm_compute; reflexivity).
  exact (outflow_bounded true p "team" 100 Hen Hres Hwin Hcap ltac:(lia) log 15 w3 6 run_w3).
Defined.

End Example.
End NetCap.
