(* ===== verification/VPCap.v ===== *)
(** * x/vpcap: the voting-power cap

    Models x/vpcap/types, x/vpcap/keeper and the application's [EndBlocker]
    (evmd/app.go): each validator's consensus power is cut to a share of the
    effective total by a fixed-point iteration of at most 64 rounds, and the updates
    sent to CometBFT are the difference to what was sent before. *)
From S2P Require Import Prelude Codec.
From stdpp Require Import gmap strings list.
From Stdlib Require Import ZArith Lia.

#[local] Set Default Goal Selector "!".
Open Scope Z_scope.

Module VPCap.

Definition ModuleName : string := "vpcap".
Definition StoreKey : string := ModuleName.
Definition ParamsKey : string := byte_prefix 1.
Definition LastSentPrefix : string := byte_prefix 2.

Record Params := mkParams {
  Enabled : bool;
  PerValidatorCapBps : Z;
  FoundationCapBps : Z;
  FoundationValidators : list string
}.

Record LastSent := mkLastSent { PubKey : string; Power : Z }.

#[export] Instance Params_codec : Codec Params :=
  Codec_iso (fun p => (Enabled p, PerValidatorCapBps p, FoundationCapBps p, FoundationValidators p))
    (fun t => mkParams t.1.1.1 t.1.1.2 t.1.2 t.2)
    (fun p => match p with mkParams _ _ _ _ => eq_refl end).
#[export] Instance LastSent_codec : Codec LastSent :=
  Codec_iso (fun s => (PubKey s, Power s)) (fun t => mkLastSent t.1 t.2)
    (fun s => match s with mkLastSent _ _ => eq_refl end).

Definition DefaultParams : Params := mkParams false 1000 1500 [].

(** [GenesisState.Validate]. *)
Definition Validate (p : Params) : outcome unit :=
  if Enabled p && ((PerValidatorCapBps p =? 0) || (10000 <=? PerValidatorCapBps p))
  then Err "per_validator_cap_bps must be in (0,10000) when enabled" else Ret tt.

(** ** The fixed point *)

(** [total += e] over a slice of int64. *)
Definition i64_sum (l : list Z) : Z := foldl (fun acc e => i64 (acc + e)) 0 l.

Definition cap_one (capPow r : Z) : Z :=
  let nv := if capPow <? r then capPow else r in
  if (0 <? r) && (nv <? 1) then 1 else nv.

(** One round: [None] is a [break]. *)
Definition cap_round (raw : list Z) (bps : Z) (effective : list Z) : option (list Z) :=
  let total := i64_sum effective in
  if total <=? 0 then None else
  let capPow := Z.quot (i64 (total * bps)) 10000 in
  let capPow := if capPow <? 1 then 1 else capPow in
  let next := cap_one capPow <$> raw in
  if decide (next = effective) then None else Some next.

Fixpoint cap_rounds (n : nat) (raw : list Z) (bps : Z) (effective : list Z) : list Z :=
  match n with
  | O => effective
  | S n' => match cap_round raw bps effective with
            | None => effective
            | Some next => cap_rounds n' raw bps next
            end
  end.

Definition capPowers (raw : list Z) (bps : Z) : list Z := cap_rounds 64 raw bps raw.

(** ** The levels

    Every round's assignment cuts all powers at one level. *)
Definition level (c : Z) (raw : list Z) : list Z := (fun r => Z.min r c) <$> raw.
Definition sum (l : list Z) : Z := sumZ (fun x => x) l.

(** The level the cap of an assignment prescribes. *)
Definition cap_of (bps total : Z) : Z := Z.max 1 (total * bps / 10000).
Definition next_level (raw : list Z) (bps c : Z) : Z := cap_of bps (sum (level c raw)).

(** How many powers lie above a level. *)
Definition above (c : Z) (raw : list Z) : Z := sumZ (fun r => if c <? r then 1 else 0) raw.

Lemma min_sum_zero c l :
  Forall (fun r => 0 <= r) l -> 1 <= c -> sumZ (fun r => Z.min r c) l <= 0 -> sumZ (fun r => r) l <= 0.
Proof.
  induction 1 as [|r l Hr Hl IH]; intros Hc Hz; simpl in *; [lia|].
  assert (0 <= sumZ (fun r => Z.min r c) l) by (apply sumZ_nonneg; eapply Forall_impl; [exact Hl|]; simpl; lia).
  assert (0 <= sumZ (fun r => r) l) by by apply sumZ_nonneg.
  specialize (IH Hc ltac:(lia)). lia.
Qed.

Section levels.
Context (raw : list Z) (bps : Z).
Hypothesis (Hraw : Forall (fun r => 0 <= r) raw) (Hbps : 0 < bps < 10000) (Hsum : sum raw * bps < 2 ^ 63).

Lemma foldl_sum l acc :
  Forall (fun r => 0 <= r) l -> 0 <= acc -> acc + sum l < 2 ^ 63 -> foldl (fun acc e => i64 (acc + e)) acc l = acc + sum l.
Proof.
  intros Hl. revert acc. induction Hl as [|x l Hx Hl IH]; intros acc Ha Hb; unfold sum in *; simpl in *; [lia|].
  pose proof (sumZ_nonneg (fun x => x) l Hl). rewrite i64_id by (unfold is_i64; lia). rewrite IH; lia.
Qed.

Lemma sum_nonneg l : Forall (fun r => 0 <= r) l -> 0 <= sum l.
Proof. apply sumZ_nonneg. Qed.

Lemma level_nonneg c : 0 <= c -> Forall (fun r => 0 <= r) (level c raw).
Proof. intros Hc. apply Forall_fmap. eapply Forall_impl; [exact Hraw|]. simpl. lia. Qed.

Lemma level_sum c : sum (level c raw) = sumZ (fun r => Z.min r c) raw.
Proof. apply sumZ_map. Qed.

Lemma level_sum_le c : sum (level c raw) <= sum raw.
Proof. rewrite level_sum. apply sumZ_le, Forall_true. intros; lia. Qed.

Lemma level_all c : sum raw <= c -> level c raw = raw.
Proof.
  intros Hc. unfold level. rewrite <- (list_fmap_id raw) at 2. apply list_fmap_ext. intros i r Hr%list_elem_of_lookup_2.
  simpl. pose proof (sumZ_elem_le (fun x => x) raw r Hraw Hr). unfold sum in *. simpl in *. lia.
Qed.

Lemma cap_one_min c r : 1 <= c -> cap_one c r = Z.min r c.
Proof.
  intros Hc. unfold cap_one. destruct (c <? r) eqn:E; bool_prop; destruct (0 <? r) eqn:E2; simpl; bool_prop;
    repeat (destruct (_ <? 1) eqn:?; bool_prop); lia.
Qed.

Lemma cap_round_level c :
  1 <= c -> cap_round raw bps (level c raw) =
  if sum raw <=? 0 then None
  else if decide (level (next_level raw bps c) raw = level c raw) then None
  else Some (level (next_level raw bps c) raw).
Proof.
  intros Hc. pose proof (level_nonneg c ltac:(lia)) as Hl. pose proof (sum_nonneg _ Hl).
  pose proof (level_sum_le c) as Hle. unfold cap_round, i64_sum.
  rewrite foldl_sum by (done || nia). rewrite Z.add_0_l.
  assert (Hz : sum (level c raw) <= 0 <-> sum raw <= 0).
  { split; [|lia]. rewrite level_sum. unfold sum. intros Hz. by apply (min_sum_zero c). }
  destruct (sum (level c raw) <=? 0) eqn:E1, (sum raw <=? 0) eqn:E2; bool_prop; try lia; try done.
  rewrite i64_id by (unfold is_i64; nia). rewrite Z.quot_div_nonneg by nia.
  fold (next_level raw bps c).
  assert (Hn : (if sum (level c raw) * bps / 10000 <? 1 then 1 else sum (level c raw) * bps / 10000) = next_level raw bps c).
  { unfold next_level, cap_of. destruct (_ <? 1) eqn:E; bool_prop; lia. }
  rewrite Hn. assert (Hm : cap_one (next_level raw bps c) <$> raw = level (next_level raw bps c) raw).
  { apply list_fmap_ext. intros. apply cap_one_min. unfold next_level, cap_of. lia. }
  by rewrite Hm.
Qed.

Lemma next_level_mono c c' : c <= c' -> next_level raw bps c <= next_level raw bps c'.
Proof.
  intros Hc. unfold next_level, cap_of. rewrite !level_sum.
  assert (sumZ (fun r => Z.min r c) raw <= sumZ (fun r => Z.min r c') raw) by (apply sumZ_le, Forall_true; intros; lia).
  pose proof (Z.div_le_mono (sumZ (fun r => Z.min r c) raw * bps) (sumZ (fun r => Z.min r c') raw * bps) 10000 ltac:(lia) ltac:(nia)).
  lia.
Qed.

(** A stable assignment: another round would change nothing. *)
Definition stable (e : list Z) : Prop := cap_round raw bps e = None.

(** Starting from a level, the rounds end at a lower one; they end stable if there
    were enough of them. *)
Lemma cap_rounds_level n c :
  1 <= c -> next_level raw bps c <= c ->
  exists c', 1 <= c' <= c /\ next_level raw bps c' <= c' /\ cap_rounds n raw bps (level c raw) = level c' raw /\
    (forall L, next_level raw bps L = L -> L <= c -> L <= c').
Proof.
  revert c. induction n as [|n IH]; intros c Hc Hn; [exists c; by split_and!|]. cbn [cap_rounds].
  rewrite cap_round_level by done. destruct (sum raw <=? 0); [exists c; by split_and!|].
  case_decide; [exists c; by split_and!|].
  destruct (IH (next_level raw bps c)) as (c' & Hc' & Hn' & -> & HL).
  - unfold next_level, cap_of. lia.
  - by apply next_level_mono.
  - exists c'. split_and!; try done; [lia..|]. intros L HF HLc. apply HL; [done|]. rewrite <- HF. by apply next_level_mono.
Qed.

(** The distance to a fixed level below which at most half of the admissible
    number of validators is cut halves in every round. *)
Lemma next_level_halves c L :
  next_level raw bps L = L -> 2 * above L raw * bps <= 10000 -> L <= c ->
  2 * (next_level raw bps c - L) <= (c - L) + 1.
Proof.
  intros HF Hm Hc.
  assert (Hs : sum (level c raw) <= sum (level L raw) + above L raw * (c - L)).
  { rewrite !level_sum. unfold above. rewrite <- sumZ_mul_r, <- sumZ_add. apply sumZ_le, Forall_true. intros r.
    destruct (L <? r) eqn:E; bool_prop; lia. }
  assert (H1 : sum (level c raw) * bps <= sum (level L raw) * bps + 5000 * (c - L)) by nia.
  unfold next_level, cap_of in *.
  pose proof (Z.div_lt_upper_bound (sum (level L raw) * bps) 10000 (L + 1)) as Hb.
  pose proof (Z.mul_div_le (sum (level c raw) * bps) 10000 ltac:(lia)).
  pose proof (Z.mul_succ_div_gt (sum (level L raw) * bps) 10000 ltac:(lia)). lia.
Qed.

Lemma stable_fixed c : 1 <= c -> next_level raw bps c = c -> stable (level c raw).
Proof. intros Hc HF. unfold stable. rewrite cap_round_level, HF by done. destruct (sum raw <=? 0); [done|]. by case_decide. Qed.

Lemma stable_rounds n e : stable e -> cap_rounds n raw bps e = e.
Proof. intros Hs. destruct n as [|n]; [done|]. cbn [cap_rounds]. by rewrite Hs. Qed.

Lemma round_cases c :
  1 <= c -> stable (level c raw) \/
  (next_level raw bps c <> c /\ forall n, cap_rounds (S n) raw bps (level c raw) = cap_rounds n raw bps (level (next_level raw bps c) raw)).
Proof.
  intros Hc. destruct (cap_round raw bps (level c raw)) as [e|] eqn:E; [right|by left].
  pose proof E as E'. rewrite cap_round_level in E by done. destruct (sum raw <=? 0); [done|]. case_decide as D; [done|].
  injection E as <-. split; [intros HF; by rewrite HF in D|]. intros n. cbn [cap_rounds]. by rewrite E'.
Qed.

Lemma cap_rounds_converge n c L :
  next_level raw bps L = L -> 2 * above L raw * bps <= 10000 -> 1 <= c -> L <= c <= L + 2 ^ Z.of_nat n + 1 ->
  stable (cap_rounds (n + 2) raw bps (level c raw)).
Proof.
  intros HF Hm. assert (HL : 1 <= L) by (rewrite <- HF; unfold next_level, cap_of; lia).
  assert (Hstep : forall c, L <= c -> L <= next_level raw bps c /\ 2 * (next_level raw bps c - L) <= (c - L) + 1).
  { intros c0 Hc. split; [rewrite <- HF at 1; by apply next_level_mono|by apply next_level_halves]. }
  revert c. induction n as [|n IH]; intros c Hc Hd; (destruct (round_cases c Hc) as [Hs|[Hne Hr]]; [by rewrite stable_rounds|]).
  - cbn [Nat.add]. rewrite Hr. simpl in Hd. destruct (Hstep c ltac:(lia)) as [H1 H2].
    set (c1 := next_level raw bps c) in *. destruct (round_cases c1 ltac:(lia)) as [Hs|[Hne1 Hr1]]; [by rewrite stable_rounds|].
    rewrite Hr1. destruct (Hstep c1 H1) as [H3 H4]. cbn [cap_rounds].
    assert (Hc1 : c1 <> L) by (intros E; rewrite E in Hne1; lia).
    assert (next_level raw bps c1 = L) as -> by lia. by apply stable_fixed.
  - cbn [Nat.add]. rewrite Hr. destruct (Hstep c ltac:(lia)) as [H1 H2]. apply IH; [lia|].
    rewrite Nat2Z.inj_succ, Z.pow_succ_r in Hd by lia. lia.
Qed.

Lemma raw_level : raw = level (sum raw + 1) raw /\ next_level raw bps (sum raw + 1) <= sum raw + 1.
Proof.
  pose proof (sum_nonneg raw Hraw). split; [symmetry; apply level_all; lia|].
  unfold next_level, cap_of. rewrite level_all by lia.
  pose proof (Z.div_le_upper_bound (sum raw * bps) 10000 (sum raw) ltac:(lia) ltac:(nia)). lia.
Qed.

(** A stable level respects the share of its own total. *)
Lemma stable_share c :
  1 <= c -> 0 < sum raw -> stable (level c raw) ->
  Forall (fun x => x <= cap_of bps (sum (level c raw))) (level c raw).
Proof.
  intros Hc Hpos. unfold stable. rewrite cap_round_level by done. destruct (sum raw <=? 0) eqn:E; bool_prop; [lia|].
  case_decide as D; [intros _|done]. apply Forall_forall. intros x Hx. rewrite <- D in Hx.
  apply list_elem_of_fmap in Hx as (r & -> & _). fold (next_level raw bps c). lia.
Qed.

End levels.

Lemma cap_of_le bps total x : x <= cap_of bps total -> x <= 1 \/ x * 10000 <= total * bps.
Proof.
  unfold cap_of. intros Hx. destruct (decide (x <= 1)); [by left|right].
  pose proof (Z.mul_div_le (total * bps) 10000 ltac:(lia)). lia.
Qed.

(** C40: [capPowers] cuts every power at one common level of at least 1, so no
    power grows, the order of the validators is kept and none with stake is driven
    to zero.  If the validators that the fixed point cuts are at most half of the
    number the cap admits, the 64 rounds reach it: another round would change
    nothing, and a validator with more than [bps/10000] of the resulting total has a
    power of 1, the least a validator with stake is left with. *)
Theorem capPowers_enforces raw bps L :
  Forall (fun r => 0 <= r) raw -> 0 < bps < 10000 -> sum raw * bps < 2 ^ 63 ->
  let e := capPowers raw bps in
  (exists c, 1 <= c /\ e = level c raw) /\
  (next_level raw bps L = L -> 2 * above L raw * bps <= 10000 ->
   stable raw bps e /\ Forall (fun x => x <= 1 \/ x * 10000 <= sum e * bps) e).
Proof.
  intros Hraw Hbps Hsum e. pose proof (sum_nonneg raw Hraw).
  destruct (raw_level raw bps Hraw Hbps Hsum) as [Er Hn].
  assert (Hlev : exists c, 1 <= c /\ e = level c raw).
  { destruct (cap_rounds_level raw bps Hraw Hbps Hsum 64 (sum raw + 1)) as (c & Hc & _ & E & _); [lia|done|].
    exists c. split; [lia|]. unfold e, capPowers. by rewrite <- E, <- Er. }
  split; [done|]. intros HF Hm.
  assert (Hst : stable raw bps e).
  { unfold e, capPowers. replace (cap_rounds 64 raw bps raw) with (cap_rounds 64 raw bps (level (sum raw + 1) raw)) by (by rewrite <- Er).
    destruct (round_cases raw bps Hraw Hbps Hsum (sum raw + 1)) as [Hs|[Hne Hr]]; [lia|by rewrite stable_rounds|].
    rewrite Hr. apply (cap_rounds_converge raw bps Hraw Hbps Hsum 61 _ L); [done|done|unfold next_level, cap_of; lia|].
    pose proof (level_sum_le raw L). unfold next_level, cap_of in *. rewrite <- Er.
    pose proof (Z.div_le_mono (sum (level L raw) * bps) (sum raw * bps) 10000 ltac:(lia) ltac:(nia)).
    pose proof (Z.div_lt_upper_bound (sum raw * bps) 10000 (2 ^ 61) ltac:(lia) ltac:(lia)). simpl. lia. }
  split; [done|]. apply (Forall_impl (fun x => x <= cap_of bps (sum e))).
  2:{ intros x. apply cap_of_le. }
  destruct Hlev as (c & Hc & E). rewrite E in *.
  destruct (decide (0 < sum raw)); [by apply stable_share|]. apply Forall_fmap, Forall_forall. intros r Hr. simpl.
  pose proof (sumZ_elem_le (fun x => x) raw r Hraw Hr). unfold sum, cap_of in *. simpl in *. lia.
Qed.

(** ** The updates sent to CometBFT *)

(** What the module reads of x/staking: the bonded validators in the order of their
    power, each with its consensus address, key and power, or the error of
    [GetConsAddr] or [TmConsPublicKey]. *)
Record vinfo := mkVinfo { consAddr : string; pubKey : string; raw : Z }.

Class StakingKeeper (W : Type) : Type := {
  IterateBondedValidatorsByPower : W -> outcome (list (outcome vinfo))
}.

(** The protobuf encoding of a public key. *)
Class PubKeyProto : Type := {
  pk_Marshal : string -> option string;
  pk_Unmarshal : string -> option string
}.

(** abci.ValidatorUpdate: a key and its new power, zero to remove it. *)
Abbreviation ValidatorUpdate := (string * Z)%type.

Definition lastSentKey (ca : string) : string := LastSentPrefix +:+ ca.

Section keeper.
Context {B : Type} `{StakingKeeper (World B)} `{PubKeyProto} `{JSON Params} `{JSON LastSent}.
Implicit Types w : World B.

Definition SetParams (p : Params) : M (World B) unit :=
  modify (kv_set StoreKey ParamsKey (json_Marshal p)).

Definition GetParams w : Params :=
  match kv_get StoreKey ParamsKey w with
  | None => DefaultParams
  | Some bz => match json_Unmarshal bz with Some p => p | None => DefaultParams end
  end.

Definition InitGenesis (gs : Params) : M (World B) unit := SetParams gs.
Definition ExportGenesis w : Params := GetParams w.

Definition GetAllLastSent w : gmap string LastSent :=
  list_to_map (omap (fun e : string * string =>
    match json_Unmarshal e.2 with
    | Some ls => Some (String.substring 1 (String.length e.1 - 1) e.1, ls)
    | None => None
    end) (kv_iter StoreKey LastSentPrefix w)).

Definition SetLastSent (ca : string) (ls : LastSent) : M (World B) unit :=
  modify (kv_set StoreKey (lastSentKey ca) (json_Marshal ls)).
Definition DeleteLastSent (ca : string) : M (World B) unit :=
  modify (kv_delete StoreKey (lastSentKey ca)).

(** The loop over the bonded validators: the records still in [last] and the
    updates so far are its locals. *)
Fixpoint send_bonded (l : list (vinfo * Z)) (last : gmap string LastSent) (updates : list ValidatorUpdate)
    : M (World B) (gmap string LastSent * list ValidatorUpdate) :=
  match l with
  | [] => mret (last, updates)
  | (v, power) :: l' =>
      let updates := if match last !! consAddr v with Some prev => negb (Power prev =? power) | None => true end
                     then updates ++ [(pubKey v, power)] else updates in
      match pk_Marshal (pubKey v) with
      | None => fail "marshal pubkey"
      | Some pkBz =>
          SetLastSent (consAddr v) (mkLastSent pkBz power);;
          send_bonded l' (delete (consAddr v) last) updates
      end
  end.

(** The loop over what is left in [last]. *)
Fixpoint send_departed (l : list (string * LastSent)) (updates : list ValidatorUpdate)
    : M (World B) (list ValidatorUpdate) :=
  match l with
  | [] => mret updates
  | (key, ls) :: l' =>
      match pk_Unmarshal (PubKey ls) with
      | None => send_departed l' updates
      | Some pk => DeleteLastSent key;; send_departed l' (updates ++ [(pk, 0)])
      end
  end.

(** [order] is the order in which Go ranges over a map. *)
Definition ComputeCappedValidatorUpdates (order : list (string * LastSent) -> list (string * LastSent))
    : M (World B) (option (list ValidatorUpdate)) :=
  p ← gets GetParams;
  if negb (Enabled p) || (PerValidatorCapBps p =? 0) || (10000 <=? PerValidatorCapBps p) then mret None else
  vals0 ← (fun w => (IterateBondedValidatorsByPower w, w));
  vals ← lift_outcome (map_ok (fun o => o) vals0);
  let effective := capPowers (raw <$> vals) (PerValidatorCapBps p) in
  last ← gets GetAllLastSent;
  st ← send_bonded (zip vals effective) last [];
  updates ← send_departed (order (map_to_list st.1)) st.2;
  mret (Some updates).

(** [EVMD.EndBlocker] after the modules' own end blocks returned [eb]. *)
Definition EndBlocker (order : list (string * LastSent) -> list (string * LastSent)) (eb : list ValidatorUpdate)
    : M (World B) (list ValidatorUpdate) :=
  capped ← ComputeCappedValidatorUpdates order;
  match capped with Some us => mret us | None => mret eb end.

End keeper.

(** CometBFT's view of the validator set, and the effect of the updates on it. *)
Definition apply_update (V : gmap string Z) (u : ValidatorUpdate) : gmap string Z :=
  if u.2 =? 0 then delete u.1 V else <[u.1 := u.2]> V.
Definition apply_updates (us : list ValidatorUpdate) (V : gmap string Z) : gmap string Z :=
  foldl apply_update V us.

Lemma apply_updates_notin us V pk : Forall (fun u => u.1 <> pk) us -> apply_updates us V !! pk = V !! pk.
Proof.
  revert V. induction us as [|[k x] us IH]; intros V Hu; [done|]. apply Forall_cons in Hu as [Hk Hu]. simpl in *.
  unfold apply_updates. simpl. fold (apply_updates us (apply_update V (k, x))). rewrite IH by done.
  unfold apply_update. simpl. destruct (x =? 0); [by rewrite lookup_delete_ne|by rewrite lookup_insert_ne].
Qed.

Lemma apply_updates_in us V pk x :
  (pk, x) ∈ us -> Forall (fun u => u.1 = pk -> u.2 = x) us ->
  apply_updates us V !! pk = if x =? 0 then None else Some x.
Proof.
  revert V. induction us as [|[k y] us IH]; intros V Hin Hu; [by apply not_elem_of_nil in Hin|].
  apply Forall_cons in Hu as [Hk Hu]. simpl in *. unfold apply_updates. simpl.
  fold (apply_updates us (apply_update V (k, y))).
  destruct (decide ((pk, x) ∈ us)) as [Hin'|Hni]; [by apply IH|].
  rewrite apply_updates_notin.
  - apply elem_of_cons in Hin as [[= <- <-]|Hin]; [|done]. unfold apply_update. simpl.
    destruct (x =? 0); [apply lookup_delete_eq|apply lookup_insert_eq].
  - apply Forall_forall. intros [k' y'] Hin' Heq. simpl in *. subst k'. apply Hni.
    eapply Forall_forall in Hu; [|exact Hin']. simpl in Hu. by rewrite <- (Hu eq_refl).
Qed.

(** ** The records *)
Section records.
Context {B : Type} `{JSONLaws LastSent}.
Implicit Types w : World B.

Lemma strip_prefix ca : String.substring 1 (String.length (lastSentKey ca) - 1) (lastSentKey ca) = ca.
Proof.
  unfold lastSentKey, LastSentPrefix, byte_prefix. rewrite str_app_cons, str_app_nil. simpl.
  rewrite Nat.sub_0_r. by apply substring_all.
Qed.

Lemma last_lookup w ca : GetAllLastSent w !! ca = kv_get StoreKey (lastSentKey ca) w ≫= json_Unmarshal.
Proof.
  assert (Hin : forall ls, (ca, ls) ∈ omap (fun e : string * string =>
      match json_Unmarshal e.2 with
      | Some ls => Some (String.substring 1 (String.length e.1 - 1) e.1, ls)
      | None => None
      end) (kv_iter StoreKey LastSentPrefix w) <-> kv_get StoreKey (lastSentKey ca) w ≫= json_Unmarshal = Some ls).
  { intros ls. rewrite list_elem_of_omap. split.
    - intros ([k bz] & Hk & Hj). apply elem_of_kv_iter in Hk as (Hg & t & ->); [|by eexists].
      change (LastSentPrefix +:+ t) with (lastSentKey t) in *. cbn [fst snd] in *.
      destruct (json_Unmarshal bz) eqn:E; [|done]. rewrite strip_prefix in Hj.
      injection Hj as -> ->. by rewrite Hg.
    - destruct (kv_get _ _ w) as [bz|] eqn:E; [|done]. simpl. intros Hj. exists (lastSentKey ca, bz). cbn [fst snd].
      rewrite Hj, strip_prefix. split; [|done]. apply elem_of_kv_iter; [by eexists|]. split; [done|by eexists]. }
  unfold GetAllLastSent. destruct (kv_get _ _ w ≫= json_Unmarshal) as [ls|] eqn:E.
  - apply elem_of_list_to_map_1'; [|by apply Hin]. intros y Hy. apply Hin in Hy. congruence.
  - apply not_elem_of_list_to_map_1. intros ([k ls] & -> & Hk)%list_elem_of_fmap. apply Hin in Hk. congruence.
Qed.

Lemma last_set w ca ls : GetAllLastSent (kv_set StoreKey (lastSentKey ca) (json_Marshal ls) w) = <[ca := ls]> (GetAllLastSent w).
Proof.
  apply map_eq. intros ca'. rewrite last_lookup, kv_get_set, lookup_insert. case_decide as E.
  - destruct E as [_ E]. apply byte_prefix_inj in E as ->. rewrite decide_True by done. simpl. apply json_roundtrip.
  - rewrite decide_False by naive_solver. by rewrite last_lookup.
Qed.

Lemma last_delete w ca : GetAllLastSent (kv_delete StoreKey (lastSentKey ca) w) = delete ca (GetAllLastSent w).
Proof.
  apply map_eq. intros ca'. rewrite last_lookup, kv_get_delete, lookup_delete. case_decide as E.
  - destruct E as [_ E]. apply byte_prefix_inj in E as ->. by rewrite decide_True.
  - rewrite decide_False by naive_solver. by rewrite last_lookup.
Qed.

End records.

(** ** The two loops *)
Section loops.
Context {B : Type} `{PubKeyProto} `{JSONLaws LastSent}.
Implicit Types (w : World B) (last : gmap string LastSent) (us : list ValidatorUpdate).

Definition addrs (l : list (vinfo * Z)) : list string := (fun e => consAddr e.1) <$> l.
Definition record_of (v : vinfo) (power : Z) : LastSent := mkLastSent (default "" (pk_Marshal (pubKey v))) power.

Lemma send_bonded_run l : forall last us w,
  NoDup (addrs l) -> Forall (fun e => is_Some (pk_Marshal (pubKey e.1))) l ->
  exists last' us' w', send_bonded l last us w = (Ret (last', us'), w') /\
    (forall ca, last' !! ca = if decide (ca ∈ addrs l) then None else last !! ca) /\
    (forall u, u ∈ us' <-> u ∈ us \/ exists v x, (v, x) ∈ l /\ u = (pubKey v, x) /\
       (forall prev, last !! consAddr v = Some prev -> Power prev <> x)) /\
    (forall v x, (v, x) ∈ l -> GetAllLastSent w' !! consAddr v = Some (record_of v x)) /\
    (forall ca, ca ∉ addrs l -> GetAllLastSent w' !! ca = GetAllLastSent w !! ca).
Proof.
  induction l as [|[v x] l IH]; intros last us w Hnd Hok.
  { exists last, us, w. split_and!; [done|done| |by intros ? ? ?%not_elem_of_nil|done].
    intros u. split; [by left|]. intros [?|(v & x & ?%not_elem_of_nil & _)]; done. }
  apply Forall_cons in Hok as [[bz Hbz] Hok]. unfold addrs in Hnd. rewrite fmap_cons in Hnd. apply NoDup_cons in Hnd as [Hni Hnd].
  cbn [fst] in Hbz, Hni. cbn [send_bonded]. rewrite Hbz. set (us1 := if _ : bool then _ else us).
  assert (Hus1 : forall u, u ∈ us1 <-> u ∈ us \/ (u = (pubKey v, x) /\ forall prev, last !! consAddr v = Some prev -> Power prev <> x)).
  { intros u. unfold us1. destruct (last !! consAddr v) as [prev|].
    - destruct (Z.eqb_spec (Power prev) x); simpl; rewrite ?elem_of_app, ?list_elem_of_singleton; naive_solver.
    - rewrite elem_of_app, list_elem_of_singleton. naive_solver. }
  destruct (IH (delete (consAddr v) last) us1 (kv_set StoreKey (lastSentKey (consAddr v)) (json_Marshal (mkLastSent bz x)) w) Hnd Hok)
    as (last' & us' & w' & R & Hl & Hu & Hin & Hout).
  exists last', us', w'. split; [exact R|]. fold (addrs l) in *.
  change (addrs ((v, x) :: l)) with (consAddr v :: addrs l).
  split_and!.
  - intros ca. rewrite Hl. destruct (decide (ca = consAddr v)) as [->|Hne].
    + rewrite lookup_delete_eq, (decide_True (P := _ ∈ _ :: _)) by set_solver. by case_decide.
    + rewrite lookup_delete_ne by done. repeat case_decide; set_solver.
  - intros u. rewrite Hu, Hus1. split.
    + intros [[?|[-> ?]]|(v' & x' & Hv & -> & Hp)]; [by left|right; exists v, x; set_solver|right; exists v', x'].
      split_and!; [set_solver|done|]. intros prev Hprev. apply Hp. rewrite lookup_delete_ne; [done|].
      intros E. apply Hni. rewrite E. apply list_elem_of_fmap. by exists (v', x').
    + intros [?|(v' & x' & Hv & -> & Hp)]; [by left; left|]. apply elem_of_cons in Hv as [[= -> ->]|Hv]; [by left; right|].
      right. exists v', x'. split_and!; [done|done|]. intros prev [Hne Hprev]%lookup_delete_Some. by apply Hp.
  - intros v' x' [[= -> ->]|Hv]%elem_of_cons; [|by apply Hin]. rewrite Hout by done. rewrite last_set, lookup_insert_eq.
    unfold record_of. by rewrite Hbz.
  - intros ca Hca. rewrite Hout by set_solver. rewrite last_set, lookup_insert_ne by set_solver. done.
Qed.

Lemma send_departed_run l : forall us w,
  Forall (fun e => is_Some (pk_Unmarshal (PubKey e.2))) l ->
  exists us' w', send_departed l us w = (Ret us', w') /\
    (forall u, u ∈ us' <-> u ∈ us \/ exists key ls pk, (key, ls) ∈ l /\ pk_Unmarshal (PubKey ls) = Some pk /\ u = (pk, 0)) /\
    (forall ca, GetAllLastSent w' !! ca = if decide (ca ∈ l.*1) then None else GetAllLastSent w !! ca).
Proof.
  induction l as [|[key ls] l IH]; intros us w Hok.
  { exists us, w. split_and!; [done| |done]. intros u. split; [by left|].
    intros [?|(? & ? & ? & ?%not_elem_of_nil & _)]; done. }
  apply Forall_cons in Hok as [[pk Hpk] Hok]. cbn [snd] in Hpk. cbn [send_departed]. rewrite Hpk.
  destruct (IH (us ++ [(pk, 0)]) (kv_delete StoreKey (lastSentKey key) w) Hok) as (us' & w' & R & Hu & Hl).
  exists us', w'. split; [exact R|]. split.
  - intros u. rewrite Hu, elem_of_app, list_elem_of_singleton. split.
    + intros [[?| ->]|(k' & ls' & pk' & Hin & Hp & ->)]; [by left|right; exists key, ls, pk; set_solver|].
      right. exists k', ls', pk'. set_solver.
    + intros [?|(k' & ls' & pk' & Hin & Hp & ->)]; [by left; left|].
      apply elem_of_cons in Hin as [[= -> ->]|Hin]; [left; right; congruence|right; by exists k', ls', pk'].
  - intros ca. rewrite Hl, last_delete, fmap_cons. cbn [fst]. destruct (decide (ca = key)) as [->|Hne].
    + rewrite lookup_delete_eq, (decide_True (P := _ ∈ _ :: _)) by set_solver. by case_decide.
    + rewrite lookup_delete_ne by done. repeat case_decide; set_solver.
Qed.

End loops.

(** ** The validator set

    [tracks addr_of w V]: the records are exactly CometBFT's view [V]; [addr_of] is
    the address of a key. *)
Section tracking.
Context {B : Type} `{StakingKeeper (World B)} `{PubKeyProto} `{JSON Params} `{JSONLaws LastSent}.
Context (addr_of : string -> string).
Implicit Types (w : World B) (V : gmap string Z).

Record tracks w V : Prop := {
  tr_last ca ls : GetAllLastSent w !! ca = Some ls ->
    exists pk, pk_Unmarshal (PubKey ls) = Some pk /\ addr_of pk = ca /\ V !! pk = Some (Power ls);
  tr_view pk x : V !! pk = Some x ->
    exists ls, GetAllLastSent w !! addr_of pk = Some ls /\ pk_Unmarshal (PubKey ls) = Some pk /\ Power ls = x
}.

(** What x/staking guarantees of the bonded set: distinct validators with stake
    and an encodable key each. *)
Record bonded_ok (vals : list vinfo) : Prop := {
  bo_addr : Forall (fun v => consAddr v = addr_of (pubKey v)) vals;
  bo_distinct : NoDup (consAddr <$> vals);
  bo_power : Forall (fun v => 1 <= raw v) vals;
  bo_key : Forall (fun v => exists bz, pk_Marshal (pubKey v) = Some bz /\ pk_Unmarshal bz = Some (pubKey v)) vals
}.

(** The set the cap prescribes. *)
Definition capped_set (vals : list vinfo) (bps : Z) : list (vinfo * Z) := zip vals (capPowers (raw <$> vals) bps).

Lemma capped_positive vals bps v x :
  Forall (fun v => 1 <= raw v) vals -> 0 < bps < 10000 -> sum (raw <$> vals) * bps < 2 ^ 63 ->
  (v, x) ∈ capped_set vals bps -> 1 <= x.
Proof.
  intros Hp Hb Hs Hin. assert (Hr : Forall (fun r => 1 <= r) (raw <$> vals)) by by apply Forall_fmap.
  destruct (raw_level (raw <$> vals) bps) as [Er Hn]; [|done..|].
  { eapply Forall_impl; [exact Hr|]. simpl. lia. }
  destruct (cap_rounds_level (raw <$> vals) bps) with (n := 64%nat) (c := sum (raw <$> vals) + 1) as (c & Hc & _ & E & _); [|done|done| |done|].
  { eapply Forall_impl; [exact Hr|]. simpl. lia. }
  { pose proof (sum_nonneg (raw <$> vals)) as Hz. assert (0 <= sum (raw <$> vals)); [|lia]. apply Hz.
    eapply Forall_impl; [exact Hr|]. simpl. lia. }
  unfold capped_set, capPowers in Hin. rewrite <- Er in E. rewrite E in Hin. apply elem_of_zip_r in Hin.
  apply list_elem_of_fmap in Hin as (r & -> & Hin). eapply Forall_forall in Hr; [|exact Hin]. simpl in Hr. lia.
Qed.

Lemma capPowers_length raws bps : length (capPowers raws bps) = length raws.
Proof.
  unfold capPowers. assert (Hg : forall n e, length e = length raws -> length (cap_rounds n raws bps e) = length raws); [|by apply Hg].
  induction n as [|n IH]; intros e He; [done|]. cbn [cap_rounds]. unfold cap_round.
  destruct (_ <=? 0); [done|]. case_decide; [done|]. apply IH. by rewrite length_fmap.
Qed.

Lemma capped_fst vals bps : (capped_set vals bps).*1 = vals.
Proof. unfold capped_set. apply fst_zip. by rewrite capPowers_length, length_fmap. Qed.

Lemma capped_addrs vals bps : addrs (capped_set vals bps) = consAddr <$> vals.
Proof. unfold addrs. rewrite <- (capped_fst vals bps) at 2. by rewrite <- list_fmap_compose. Qed.

(** The updates of a block relative to the records [last], whatever their order. *)
Section view.
Context (L : list (vinfo * Z)) (last : gmap string LastSent) (V : gmap string Z) (us : list ValidatorUpdate).
Hypothesis (HL : Forall (fun e => consAddr e.1 = addr_of (pubKey e.1) /\ 1 <= e.2) L) (Hnd : NoDup (addrs L)).
Hypothesis Hlast : forall ca ls, last !! ca = Some ls ->
  exists pk, pk_Unmarshal (PubKey ls) = Some pk /\ addr_of pk = ca /\ V !! pk = Some (Power ls).
Hypothesis Hview : forall pk x, V !! pk = Some x ->
  exists ls, last !! addr_of pk = Some ls /\ pk_Unmarshal (PubKey ls) = Some pk /\ Power ls = x.
Hypothesis Hcol : forall v x pk y, (v, x) ∈ L -> V !! pk = Some y -> addr_of pk = consAddr v -> pk = pubKey v.
Hypothesis Hus : forall u, (u ∈ us) <->
  (exists v x, (v, x) ∈ L /\ u = (pubKey v, x) /\ forall prev, last !! consAddr v = Some prev -> Power prev <> x) \/
  (exists key ls pk, (key ∉ addrs L) /\ last !! key = Some ls /\ pk_Unmarshal (PubKey ls) = Some pk /\ u = (pk, 0)).

Lemma L_addr v x : (v, x) ∈ L -> consAddr v = addr_of (pubKey v) /\ 1 <= x /\ consAddr v ∈ addrs L.
Proof.
  intros Hin. destruct (proj1 (Forall_forall _ _) HL _ Hin) as [Ha Hx]. split_and!; [done..|].
  apply list_elem_of_fmap. by exists (v, x).
Qed.

Lemma L_fun v x v' x' : (v, x) ∈ L -> (v', x') ∈ L -> pubKey v = pubKey v' -> (v, x) = (v', x').
Proof.
  intros Hv Hv' E. apply list_elem_of_lookup in Hv as [i Hi], Hv' as [j Hj].
  assert (i = j) as ->; [|congruence]. eapply NoDup_lookup; [exact Hnd| |]; unfold addrs; rewrite list_lookup_fmap.
  - by rewrite Hi.
  - rewrite Hj. simpl. f_equal. apply list_elem_of_lookup_2, L_addr in Hi as [-> _].
    apply list_elem_of_lookup_2, L_addr in Hj as [-> _]. by rewrite E.
Qed.

(** An update of a key is that of its validator, if it is bonded. *)
Lemma update_of v x u : (v, x) ∈ L -> u ∈ us -> u.1 = pubKey v ->
  u = (pubKey v, x) /\ forall prev, last !! consAddr v = Some prev -> Power prev <> x.
Proof.
  intros Hv Hu E. apply Hus in Hu as [(v' & x' & Hv' & -> & Hp)|(key & ls & pk & Hk & Hl & Hpk & ->)]; simpl in E.
  - pose proof (L_fun _ _ _ _ Hv' Hv E) as [= -> ->]. done.
  - subst pk. apply Hlast in Hl as (pk & Hpk' & <- & _). simplify_eq. destruct (L_addr v x Hv) as (Ha & _ & Hin).
    by rewrite <- Ha in Hk.
Qed.

Lemma view_bonded v x : (v, x) ∈ L -> apply_updates us V !! pubKey v = Some x.
Proof.
  intros Hv. destruct (L_addr v x Hv) as (Ha & Hx & Hin).
  destruct (decide ((pubKey v, x) ∈ us)) as [Hu|Hu].
  - rewrite (apply_updates_in us V (pubKey v) x Hu); [destruct (Z.eqb_spec x 0); [lia|done]|].
    apply Forall_forall. intros u Hu' E. by destruct (update_of v x u Hv Hu' E) as [-> _].
  - rewrite apply_updates_notin.
    2:{ apply Forall_forall. intros u Hu' E. destruct (update_of v x u Hv Hu' E) as [-> _]. done. }
    destruct (last !! consAddr v) as [prev|] eqn:El; [destruct (decide (Power prev = x)) as [Hp|Hp]|].
    + destruct (Hlast _ _ El) as (pk & _ & Hpk & HV). rewrite <- (Hcol v x pk (Power prev) Hv HV Hpk). congruence.
    + exfalso. apply Hu, Hus. left. exists v, x. split_and!; [done..|]. congruence.
    + exfalso. apply Hu, Hus. left. exists v, x. split_and!; [done..|]. congruence.
Qed.

Lemma view_other pk : (forall v x, (v, x) ∈ L -> pubKey v <> pk) -> apply_updates us V !! pk = None.
Proof.
  intros Hno. assert (Hz : Forall (fun u => u.1 = pk -> u.2 = 0) us).
  { apply Forall_forall. intros u Hu E. apply Hus in Hu as [(v & x & Hv & -> & _)|(? & ? & ? & _ & _ & _ & ->)]; [|done].
    by apply Hno in Hv. }
  destruct (decide ((pk, 0) ∈ us)) as [Hu|Hu]; [by rewrite (apply_updates_in us V pk 0)|].
  rewrite apply_updates_notin.
  2:{ apply Forall_forall. intros [k x] Hin E. simpl in E. subst k. eapply Forall_forall in Hz; [|exact Hin]. simpl in Hz.
      by rewrite (Hz eq_refl) in Hin. }
  destruct (V !! pk) as [y|] eqn:E; [|done]. destruct (Hview _ _ E) as (ls & Hl & Hpk & _). exfalso. apply Hu, Hus. right.
  exists (addr_of pk), ls, pk. split_and!; [|done..]. intros ([v x] & Ea & Hv)%list_elem_of_fmap. simpl in Ea.
  apply (Hno v x Hv). symmetry. by apply (Hcol v x pk y).
Qed.

End view.

Lemma map_ok_id {A : Type} (l : list A) : map_ok (fun o : outcome A => o) (Ret <$> l) = Ret l.
Proof. induction l as [|x l IH]; [done|]. rewrite fmap_cons. cbn [map_ok]. by rewrite IH. Qed.

(** The updates and the records left by a block. *)
Lemma Compute_run order w V vals :
  let bps := PerValidatorCapBps (GetParams w) in
  let L := capped_set vals bps in
  Enabled (GetParams w) = true -> 0 < bps < 10000 -> (forall l, order l ≡ₚ l) ->
  IterateBondedValidatorsByPower w = Ret (Ret <$> vals) -> bonded_ok vals -> tracks w V ->
  exists us w', ComputeCappedValidatorUpdates order w = (Ret (Some us), w') /\
    (forall u, (u ∈ us) <->
      (exists v x, (v, x) ∈ L /\ u = (pubKey v, x) /\ forall prev, GetAllLastSent w !! consAddr v = Some prev -> Power prev <> x) \/
      (exists key ls pk, (key ∉ addrs L) /\ GetAllLastSent w !! key = Some ls /\ pk_Unmarshal (PubKey ls) = Some pk /\ u = (pk, 0))) /\
    (forall v x, (v, x) ∈ L -> GetAllLastSent w' !! consAddr v = Some (record_of v x)) /\
    (forall ca ls, GetAllLastSent w' !! ca = Some ls -> exists v x, (v, x) ∈ L /\ ca = consAddr v /\ ls = record_of v x).
Proof.
  intros bps L Hen Hbps Hord Hit [Ha Hnd Hpw Hkey] [Hlast Hview].
  destruct (send_bonded_run L (GetAllLastSent w) [] w) as (last' & us1 & w1 & R1 & Hl1 & Hu1 & Hin1 & Hout1).
  { unfold L. by rewrite capped_addrs. }
  { apply Forall_forall. intros [v x] Hin. eapply Forall_forall in Hkey as (bz & -> & _); [by eexists|].
    rewrite <- (capped_fst vals bps). apply list_elem_of_fmap. by exists (v, x). }
  set (D := order (map_to_list last')).
  assert (HD : forall key ls, (key, ls) ∈ D <-> (key ∉ addrs L) /\ GetAllLastSent w !! key = Some ls).
  { intros key ls. unfold D. rewrite Hord, elem_of_map_to_list, Hl1. case_decide; naive_solver. }
  assert (HDk : forall key, key ∈ D.*1 -> key ∉ addrs L).
  { intros key ([k ls] & -> & [Hk _]%HD)%list_elem_of_fmap. done. }
  destruct (send_departed_run D us1 w1) as (us & w' & R2 & Hu2 & Hl2).
  { apply Forall_forall. intros [key ls] [_ Hl]%HD. destruct (Hlast _ _ Hl) as (pk & Hpk & _). by exists pk. }
  exists us, w'. split_and!.
  - unfold ComputeCappedValidatorUpdates. run_gets. fold bps. rewrite Hen. cbn [negb orb].
    destruct (Z.eqb_spec bps 0); [lia|]. destruct (Z.leb_spec 10000 bps); [lia|]. cbn [orb].
    erewrite bind_Ret by (rewrite Hit; reflexivity). erewrite bind_Ret by (unfold lift_outcome; rewrite map_ok_id; reflexivity).
    run_gets. run_seq R1. cbn [fst snd]. run_seq R2. done.
  - intros u. rewrite Hu2, Hu1. setoid_rewrite HD. split.
    + intros [[?%not_elem_of_nil|?]|(key & ls & pk & [? ?] & ? & ?)]; [done|by left|right]. by exists key, ls, pk.
    + intros [?|(key & ls & pk & ? & ? & ? & ?)]; [by left; right|right]. by exists key, ls, pk.
  - intros v x Hv. rewrite Hl2. rewrite decide_False; [by apply Hin1|]. intros Hk%HDk. apply Hk, list_elem_of_fmap. by exists (v, x).
  - intros ca ls. rewrite Hl2. case_decide as Hk; [done|]. destruct (decide (ca ∈ addrs L)) as [Hin|Hni].
    + apply list_elem_of_fmap in Hin as ([v x] & -> & Hv). simpl. rewrite (Hin1 v x Hv). intros [= <-]. by exists v, x.
    + rewrite Hout1 by done. intros Hls. destruct Hk. apply list_elem_of_fmap. exists (ca, ls). split; [done|]. by apply HD.
Qed.

(** C26: while the records are CometBFT's view of the validator set, an end block
    with the cap enabled succeeds, the updates it returns turn that view into
    exactly the bonded validators with their capped powers, in whatever order Go
    ranges over the departed ones, and the records follow the view again. *)
Theorem validator_set_tracked order eb w V vals :
  let bps := PerValidatorCapBps (GetParams w) in
  Enabled (GetParams w) = true -> 0 < bps < 10000 -> (forall l, order l ≡ₚ l) ->
  IterateBondedValidatorsByPower w = Ret (Ret <$> vals) -> bonded_ok vals -> sum (raw <$> vals) * bps < 2 ^ 63 ->
  tracks w V -> (forall v pk y, v ∈ vals -> V !! pk = Some y -> addr_of pk = consAddr v -> pk = pubKey v) ->
  exists us w', EndBlocker order eb w = (Ret us, w') /\ tracks w' (apply_updates us V) /\
    forall pk x, apply_updates us V !! pk = Some x <-> exists v, (v, x) ∈ capped_set vals bps /\ pubKey v = pk.
Proof.
  intros bps Hen Hbps Hord Hit Hok Hsum Htr Hcol. destruct (Compute_run order w V vals) as (us & w' & R & Hus & Hin & Hout); [done..|].
  fold bps in Hus, Hin, Hout. set (L := capped_set vals bps) in *. destruct Hok as [Ha Hnd Hpw Hkey], Htr as [Hlast Hview].
  assert (HLv : forall v x, (v, x) ∈ L -> v ∈ vals).
  { intros v x Hv. rewrite <- (capped_fst vals bps). apply list_elem_of_fmap. by exists (v, x). }
  assert (HL : Forall (fun e => consAddr e.1 = addr_of (pubKey e.1) /\ 1 <= e.2) L).
  { apply Forall_forall. intros [v x] Hv. split; [|by eapply capped_positive].
    eapply Forall_forall in Ha; [exact Ha|by eapply HLv]. }
  assert (HndL : NoDup (addrs L)) by (unfold L; by rewrite capped_addrs).
  assert (Hv : forall pk x, apply_updates us V !! pk = Some x <-> exists v, (v, x) ∈ L /\ pubKey v = pk).
  { intros pk x. split; [|intros (v & Hv & <-); eapply view_bonded; eauto].
    intros Hx. destruct (decide (Exists (fun e => pubKey e.1 = pk) L)) as [([v y] & Hv & E)%Exists_exists|Hno].
    - simpl in E. subst pk. exists v. split; [|done]. erewrite view_bonded in Hx by eauto. by injection Hx as ->.
    - erewrite view_other in Hx; eauto; [done|]. intros v y Hv E. apply Hno, Exists_exists. by exists (v, y). }
  exists us, w'. split_and!; [unfold EndBlocker; by run_seq R| |done]. split.
  - intros ca ls (v & x & Hvx & -> & ->)%Hout. exists (pubKey v). destruct (L_addr L HL v x Hvx) as (Hav & _ & _).
    split_and!; [|done|by apply Hv; exists v]. unfold record_of. simpl.
    eapply Forall_forall in Hkey as (bz & -> & Hbz); [exact Hbz|by eapply HLv].
  - intros pk x (v & Hvx & <-)%Hv. exists (record_of v x). destruct (L_addr L HL v x Hvx) as (<- & _ & _).
    split_and!; [by apply Hin| |done]. unfold record_of. simpl.
    eapply Forall_forall in Hkey as (bz & -> & Hbz); [exact Hbz|by eapply HLv].
Qed.

End tracking.

(** ** Concrete sets *)
Module Example.
#[local] Instance Params_JSON : JSON Params := codec_JSON Params.
#[local] Instance Sent_JSON : JSON LastSent := codec_JSON LastSent.
#[local] Instance Sent_laws : JSONLaws LastSent := codec_JSONLaws LastSent.
#[local] Instance keys : PubKeyProto := {| pk_Marshal := Some; pk_Unmarshal := Some |}.

(** A validator with 72% of the power among twenty, and a cap of 10%. *)
Definition whale : list Z := 5000 :: repeat 100 19.

Lemma capPowers_enforces_witness :
  capPowers whale 1000 = 211 :: repeat 100 19 /\ stable whale 1000 (capPowers whale 1000) /\
  Forall (fun x => x <= 1 \/ x * 10000 <= sum (capPowers whale 1000) * 1000) (capPowers whale 1000).
Proof.
  split; [vm_compute; reflexivity|].
  assert (H1 : Forall (fun r => 0 <= r) whale) by (repeat constructor; discriminate).
  assert (H2 : sum whale * 1000 < 2 ^ 63) by (vm_compute; reflexivity).
  assert (H3 : next_level whale 1000 211 = 211) by (vm_compute; reflexivity).
  assert (H4 : 2 * above 211 whale * 1000 <= 10000) by (vm_compute; discriminate).
  exact (proj2 (capPowers_enforces whale 1000 211 H1 ltac:(lia) H2) H3 H4).
Defined.

(** Three validators cannot share a total at 10% each: they are left with the
    minimum of 1, a third of the total. *)
Lemma cap_minimum : capPowers [9000; 50; 50] 1000 = [1; 1; 1].
Proof. vm_compute. reflexivity. Qed.

(** Nineteen validators, more than the ten a cap of 10% asks for, with a fixed
    point at 10: the 64 rounds stop far above it and nine validators keep more
    than 10% of the result. *)
Definition nine_whales : list Z := repeat (10 ^ 12) 9 ++ repeat 1 10.

Lemma slow_convergence :
  let e := capPowers nine_whales 1000 in
  next_level nine_whales 1000 10 = 10 /\ ~ stable nine_whales 1000 e /\
  sumZ (fun x => if cap_of 1000 (sum e) <? x then 1 else 0) e = 9.
Proof.
  split_and!; [vm_compute; reflexivity| |vm_compute; reflexivity]. unfold stable. vm_compute. discriminate.
Qed.

Definition alice : vinfo := mkVinfo "a" "a" 90.
Definition bob : vinfo := mkVinfo "b" "b" 10.
#[local] Instance staking : StakingKeeper (World unit) :=
  {| IterateBondedValidatorsByPower _ := Ret [Ret alice; Ret bob] |}.
Definition p : Params := mkParams true 8000 0 [].
Definition sent (l : list (string * Z)) : gmap string string :=
  list_to_map ((fun e => (lastSentKey e.1, json_Marshal (mkLastSent e.1 e.2))) <$> l).
Definition world (l : list (string * Z)) : World unit :=
  mkWorld tt {[ StoreKey := <[ParamsKey := json_Marshal p]> (sent l) ]} [].
Definition view (l : list (string * Z)) : gmap string Z := list_to_map l.

(** Bob is known with power 5 and carol leaves: alice enters with 40 of 50. *)
Definition before : list (string * Z) := [("b", 5); ("c", 7)].

Lemma tracks_before : tracks (fun pk => pk) (world before) (view before).
Proof.
  assert (E : GetAllLastSent (world before) = list_to_map ((fun e => (e.1, mkLastSent e.1 e.2)) <$> before))
    by (vm_compute; reflexivity).
  split.
  - intros ca ls. rewrite E. intros Hl%elem_of_list_to_map_2. simpl in Hl.
    repeat (apply elem_of_cons in Hl as [[= -> ->]|Hl]; [eexists; split_and!; [reflexivity..|vm_compute; reflexivity]|]).
    apply not_elem_of_nil in Hl. contradiction.
  - intros pk x Hl%elem_of_list_to_map_2. rewrite E.
    repeat (apply elem_of_cons in Hl as [[= -> ->]|Hl]; [eexists; split_and!; [vm_compute; reflexivity|reflexivity..]|]).
    apply not_elem_of_nil in Hl. contradiction.
Qed.

Lemma validator_set_tracked_witness :
  exists us w', EndBlocker (fun l => rev l) [("b", 10)] (world before) = (Ret us, w') /\
    us = [("a", 40); ("b", 10); ("c", 0)] /\ tracks (fun pk => pk) w' (apply_updates us (view before)).
Proof.
  assert (H1 : Enabled (GetParams (world before)) = true) by (vm_compute; reflexivity).
  assert (H2 : 0 < PerValidatorCapBps (GetParams (world before)) < 10000) by (vm_compute; split; reflexivity).
  assert (H3 : forall l : list (string * LastSent), rev l ≡ₚ l) by (intros; symmetry; apply Permutation_rev).
  assert (H4 : bonded_ok (fun pk => pk) [alice; bob]).
  { split; [repeat constructor|apply NoDup_cons; split; [set_solver|apply NoDup_singleton]
           |repeat constructor; discriminate|repeat constructor; by eexists]. }
  assert (H5 : sum (raw <$> [alice; bob]) * PerValidatorCapBps (GetParams (world before)) < 2 ^ 63) by (vm_compute; reflexivity).
  assert (H6 : IterateBondedValidatorsByPower (world before) = Ret (Ret <$> [alice; bob])) by reflexivity.
  destruct (validator_set_tracked (fun pk => pk) (fun l => rev l) [("b", 10)] (world before) (view before) [alice; bob]
    H1 H2 H3 H6 H4 H5 tracks_before) as (us & w' & R & Ht & _).
  { intros v pk y Hv _ E. simpl in E. subst pk. apply elem_of_cons in Hv as [->|Hv]; [done|].
    by apply list_elem_of_singleton in Hv as ->. }
  exists us, w'. split_and!; [done| |done].
  assert (R' : (EndBlocker (fun l => rev l) [("b", 10)] (world before)).1 = Ret [("a", 40); ("b", 10); ("c", 0)])
    by (vm_compute; reflexivity).
  rewrite R in R'. by injection R'.
Defined.

(** The records are empty before the first capped block although CometBFT already
    has the genesis set: a validator that leaves in that block is never removed. *)
Lemma genesis_leaver_stays :
  (EndBlocker (fun l => l) [("c", 0)] (world [])).1 = Ret [("a", 40); ("b", 10)] /\
  apply_updates [("a", 40); ("b", 10)] (view [("a", 1); ("b", 1); ("c", 1)]) !! "c" = Some 1.
Proof. split; vm_compute; reflexivity. Qed.

End Example.
End VPCap.
