(* ===== verification/Contest.v ===== *)
(** * x/contest: showcase registry, activity counters and the allocation map

    Models x/contest/types, x/contest/keeper and x/contest/post: the admin-gated
    registry of showcase contracts (which x/gassponsor reads), the counters the post
    handler feeds, the end block that turns daily activity markers into points and
    freezes the leaderboard, and the pro-rata allocation computed from it. *)
From S2P Require Import Prelude Codec Bank.
From stdpp Require Import gmap strings list sorting.
From Stdlib Require Import ZArith Lia.

#[local] Set Default Goal Selector "!".
Open Scope Z_scope.

Module Contest.

Definition ModuleName : string := "contest".
Definition StoreKey : string := ModuleName.
Definition ParamsKey : string := byte_prefix 1.
Definition ShowcasePrefix : string := byte_prefix 2.
Definition DevStatsPrefix : string := byte_prefix 3.
Definition TesterPointsPrefix : string := byte_prefix 4.
Definition DailyUAWPrefix : string := byte_prefix 5.
Definition SnapshotDoneKey : string := byte_prefix 6.

Record ShowcaseApp := mkApp { Address : string; Dev : string; VM : string; Approved : bool }.
Record DevStats := mkDevStats { TxVolume : Z; GasSponsored : string }.
Record Params := mkParams {
  SnapshotUnix : Z;
  DevTrackBudget : string;
  TesterTrackBudget : string;
  WeightTxVolume : Z;
  WeightGasSponsoredPer : Z;
  GasSponsoredDivisor : string;
  WeightUAW : Z;
  Admin : string;
  PasskeyEnabled : bool
}.
Record GenesisState := mkGenesis { gs_Params : Params; gs_Showcase : list ShowcaseApp }.

#[export] Instance ShowcaseApp_codec : Codec ShowcaseApp :=
  Codec_iso (fun a => (Address a, Dev a, VM a, Approved a)) (fun t => mkApp t.1.1.1 t.1.1.2 t.1.2 t.2)
    (fun a => match a with mkApp _ _ _ _ => eq_refl end).
#[export] Instance DevStats_codec : Codec DevStats :=
  Codec_iso (fun s => (TxVolume s, GasSponsored s)) (fun t => mkDevStats t.1 t.2)
    (fun s => match s with mkDevStats _ _ => eq_refl end).
#[export] Instance Params_codec : Codec Params :=
  Codec_iso (fun p => (SnapshotUnix p, DevTrackBudget p, TesterTrackBudget p, WeightTxVolume p, WeightGasSponsoredPer p,
                       GasSponsoredDivisor p, WeightUAW p, Admin p, PasskeyEnabled p))
    (fun t => mkParams t.1.1.1.1.1.1.1.1 t.1.1.1.1.1.1.1.2 t.1.1.1.1.1.1.2 t.1.1.1.1.1.2 t.1.1.1.1.2 t.1.1.1.2 t.1.1.2 t.1.2 t.2)
    (fun p => match p with mkParams _ _ _ _ _ _ _ _ _ => eq_refl end).

Definition DefaultParams : Params := mkParams 0 "0" "0" 1 1 "1000000000000000000" 10 "" false.
Definition DefaultGenesisState : GenesisState := mkGenesis DefaultParams [].

(** common.IsHexAddress of go-ethereum. *)
Class HexAddress : Type := { IsHexAddress : string -> bool }.

(** time.Time.UTC().String() of a Unix time. *)
Class TimeFormat : Type := { UTC_String : Z -> string }.

(** [GenesisState.Validate]. *)
Definition Validate `{MathInt} `{HexAddress} (gs : GenesisState) : outcome unit :=
  let p := gs_Params gs in
  if negb (bool_decide (is_Some (NewIntFromString (DevTrackBudget p)))) then Err "invalid dev_track_budget" else
  if negb (bool_decide (is_Some (NewIntFromString (TesterTrackBudget p)))) then Err "invalid tester_track_budget" else
  if negb (bool_decide (is_Some (NewIntFromString (GasSponsoredDivisor p)))) then Err "invalid gas_sponsored_divisor" else
  fold_ok (fun _ a => if String.eqb (VM a) "evm" && negb (IsHexAddress (Address a))
                      then Err "showcase: invalid EVM address" else Ret tt) tt (gs_Showcase gs).

Definition showcaseKey (addr : string) : string := ShowcasePrefix +:+ addr.
Definition devKey (dev : string) : string := DevStatsPrefix +:+ dev.
Definition testerKey (t : string) : string := TesterPointsPrefix +:+ t.
Definition dailyKey (day : Z) (t : string) : string := DailyUAWPrefix +:+ (be64 day +:+ t).

Definition normalizeAddr (addr vm : string) : string := if String.eqb vm "evm" then ToLower addr else addr.

(** The bytes of a key after a prefix of [n] bytes. *)
Definition key_tail (n : nat) (k : string) : string := String.substring n (String.length k - n) k.

Section keeper.
Context `{BankKeeper B} `{MathInt} `{Bech32} `{HexAddress} `{TimeFormat} `{JSON Params} `{JSON ShowcaseApp} `{JSON DevStats}.
Implicit Types w : World B.

Definition SetParams (p : Params) : M (World B) unit := modify (kv_set StoreKey ParamsKey (json_Marshal p)).

Definition GetParams w : Params :=
  match kv_get StoreKey ParamsKey w with
  | None => DefaultParams
  | Some bz => match json_Unmarshal bz with Some p => p | None => DefaultParams end
  end.

Definition SetShowcase (a : ShowcaseApp) : M (World B) unit :=
  modify (kv_set StoreKey (showcaseKey (Address a)) (json_Marshal a)).
Definition DeleteShowcase (addr : string) : M (World B) unit := modify (kv_delete StoreKey (showcaseKey addr)).
Definition GetShowcase (addr : string) w : option ShowcaseApp :=
  match kv_get StoreKey (showcaseKey addr) w with
  | None => None
  | Some bz => json_Unmarshal bz
  end.
Definition IterateShowcase w : list ShowcaseApp :=
  omap (fun e : string * string => json_Unmarshal e.2) (kv_iter StoreKey ShowcasePrefix w).

(** A record that does not decode leaves the defaults. *)
Definition getDev (dev : string) w : DevStats :=
  let s := match kv_get StoreKey (devKey dev) w with
           | None => mkDevStats 0 "0"
           | Some bz => match json_Unmarshal bz with Some s => s | None => mkDevStats 0 "0" end
           end in
  if String.eqb (GasSponsored s) "" then mkDevStats (TxVolume s) "0" else s.
Definition setDev (dev : string) (s : DevStats) : M (World B) unit :=
  modify (kv_set StoreKey (devKey dev) (json_Marshal s)).

Definition AddDevTxVolume (dev : string) (n : Z) : M (World B) unit :=
  s ← gets (getDev dev);
  setDev dev (mkDevStats (u64 (TxVolume s + n)) (GasSponsored s)).

Definition AddGasSponsored (dev : string) (amt : Z) : M (World B) unit :=
  s ← gets (getDev dev);
  let cur := match NewIntFromString (GasSponsored s) with Some c => c | None => 0 end in
  total ← int_add cur amt;
  setDev dev (mkDevStats (TxVolume s) (Int_String total)).

Definition IterateDev w : list (string * DevStats) :=
  omap (fun e : string * string => match json_Unmarshal e.2 with Some s => Some (key_tail 1 e.1, s) | None => None end)
    (kv_iter StoreKey DevStatsPrefix w).

(** [if len(bz) == 8 { binary.BigEndian.Uint64(bz) }]. *)
Definition points_of (bz : option string) : Z :=
  match bz with
  | Some b => if (String.length b =? 8)%nat then be_decode b else 0
  | None => 0
  end.
Definition AddTesterPoints (tester : string) (pts : Z) : M (World B) unit :=
  modify (fun w => kv_set StoreKey (testerKey tester)
    (be64 (u64 (points_of (kv_get StoreKey (testerKey tester) w) + pts))) w).
Definition IterateTester w : list (string * Z) :=
  omap (fun e : string * string => if (String.length e.2 =? 8)%nat then Some (key_tail 1 e.1, be_decode e.2) else None)
    (kv_iter StoreKey TesterPointsPrefix w).

Definition MarkActiveToday (day : Z) (tester : string) : M (World B) unit :=
  modify (fun w => match kv_get StoreKey (dailyKey day tester) w with
                   | Some _ => w
                   | None => kv_set StoreKey (dailyKey day tester) (byte_prefix 1) w
                   end).

Definition SnapshotDone w : bool :=
  match kv_get StoreKey SnapshotDoneKey w with Some bz => String.eqb bz (byte_prefix 1) | None => false end.
Definition setSnapshotDone : M (World B) unit := modify (kv_set StoreKey SnapshotDoneKey (byte_prefix 1)).

(** abci.go *)
Definition rollup_entry (weight : Z) (k : string) : M (World B) unit :=
  AddTesterPoints (key_tail 9 k) weight;;
  modify (kv_delete StoreKey k).
Definition rollupUAW (today weight : Z) : M (World B) unit :=
  entries ← gets (kv_range StoreKey (DailyUAWPrefix +:+ be64 0) (Some (DailyUAWPrefix +:+ be64 today)));
  if existsb (fun k => (String.length k <? 9)%nat) entries.*1 then panic "slice bounds out of range" else
  for_each (rollup_entry weight) entries.*1.

Definition EndBlock (ctx : Ctx) : M (World B) unit :=
  done ← gets SnapshotDone;
  if done : bool then mret tt else
  p ← gets GetParams;
  rollupUAW (utc_day ctx) (WeightUAW p);;
  if (0 <? SnapshotUnix p) && (SnapshotUnix p <=? BlockTime ctx) then
    setSnapshotDone;;
    modify (emit (mkEvent "contest_snapshot"
      [("height", Int_String (BlockHeight ctx)); ("block_time", UTC_String (BlockTime ctx))]))
  else mret tt.

(** genesis.go *)
Definition InitGenesis (gs : GenesisState) : M (World B) unit :=
  SetParams (gs_Params gs);;
  for_each SetShowcase (gs_Showcase gs).
Definition ExportGenesis w : GenesisState := mkGenesis (GetParams w) (IterateShowcase w).

(** msg_server.go *)
Definition requireAdmin (signer : string) : M (World B) unit :=
  p ← gets GetParams;
  if String.eqb (Admin p) "" then fail "contest admin is not configured" else
  if negb (String.eqb signer (Admin p)) then fail "signer is not the contest admin" else mret tt.

Definition RegisterShowcase (admin address dev vm0 : string) : M (World B) unit :=
  requireAdmin admin;;
  let vm := if String.eqb vm0 "" then "evm" else vm0 in
  if String.eqb vm "evm" && negb (IsHexAddress address) then fail "invalid EVM contract address" else
  let app := mkApp (normalizeAddr address vm) dev vm true in
  SetShowcase app;;
  modify (emit (mkEvent "contest_showcase_registered" [("address", Address app); ("dev", dev); ("vm", vm)])).

Definition RemoveShowcase (admin address : string) : M (World B) unit :=
  requireAdmin admin;;
  DeleteShowcase (normalizeAddr address "evm");;
  modify (emit (mkEvent "contest_showcase_removed" [("address", normalizeAddr address "evm")])).

Definition with_passkey (p : Params) (b : bool) : Params :=
  mkParams (SnapshotUnix p) (DevTrackBudget p) (TesterTrackBudget p) (WeightTxVolume p) (WeightGasSponsoredPer p)
    (GasSponsoredDivisor p) (WeightUAW p) (Admin p) b.
Definition with_admin (p : Params) (a : string) : Params :=
  mkParams (SnapshotUnix p) (DevTrackBudget p) (TesterTrackBudget p) (WeightTxVolume p) (WeightGasSponsoredPer p)
    (GasSponsoredDivisor p) (WeightUAW p) a (PasskeyEnabled p).

Definition SetPasskeyEnabled (admin : string) (enabled : bool) : M (World B) unit :=
  requireAdmin admin;;
  p ← gets GetParams;
  SetParams (with_passkey p enabled);;
  modify (emit (mkEvent "contest_passkey_enabled" [("enabled", if enabled then "true" else "false")])).

Definition SetAdmin (authority admin : string) : M (World B) unit :=
  if negb (String.eqb authority (AccAddress_String (NewModuleAddress "gov"))) then fail "expected gov authority" else
  p ← gets GetParams;
  SetParams (with_admin p admin).

(** post/record.go: what an Ethereum message shows, its sender and its target
    ([None] for a creation); [None] for any other message. *)
Definition record_msg (day : Z) (msg : option (string * option string)) : M (World B) unit :=
  match msg with
  | Some (sender, Some to) =>
      found ← gets (GetShowcase (lower_hex to));
      match found with
      | Some app =>
          if negb (Approved app) then mret tt else
          AddDevTxVolume (Dev app) 1;;
          MarkActiveToday day (lower_hex sender)
      | None => mret tt
      end
  | _ => mret tt
  end.
Definition PostHandle (ctx : Ctx) (msgs : list (option (string * option string))) (simulate success : bool) : M (World B) unit :=
  if simulate || negb success || IsCheckTx ctx then mret tt else
  done ← gets SnapshotDone;
  if done : bool then mret tt else
  for_each (record_msg (utc_day ctx)) msgs.

End keeper.

(** ** The allocation map *)

Record Alloc := mkAlloc { al_Address : string; al_Amount : Z; al_Points : Z; al_Track : string }.

Definition add_amount (x : Z) (a : Alloc) : Alloc :=
  mkAlloc (al_Address a) (al_Amount a + x) (al_Points a) (al_Track a).

Section allocation.
Context `{MathInt}.

(** The locals of the loop of [distribute]. *)
Record dist := mkDist { d_out : list Alloc; d_running : Z; d_bestIdx : Z; d_bestPts : Z }.

Definition share_step (budget totalI : Z) (track : string) (st : dist) (e : nat * (string * Z)) : outcome dist :=
  let '(i, (a, p)) := e in
  m ← o_int (budget * p);
  amt ← o_int (Z.quot m totalI);
  running ← o_int (d_running st + amt);
  Ret (mkDist (d_out st ++ [mkAlloc a amt p track]) running
         (if d_bestPts st <? p then Z.of_nat i else d_bestIdx st)
         (if d_bestPts st <? p then p else d_bestPts st)).

(** [points] lists the map in the order Go ranges over it. *)
Definition distribute (points : list (string * Z)) (budget : Z) (track : string) : outcome (list Alloc) :=
  let pos := filter (fun e => 0 < e.2) points in
  let total := foldl (fun t e => u64 (t + e.2)) 0 pos in
  let addrs := merge_sort str_le pos.*1 in
  if (total =? 0) || negb (0 <? budget) then Ret [] else
  let look a := default 0 ((list_to_map points : gmap string Z) !! a) in
  st ← fold_ok (share_step budget total track) (mkDist [] 0 (-1) 0) (imap (fun i a => (i, (a, look a))) addrs);
  rem ← o_int (budget - d_running st);
  if (0 <? rem) && (0 <=? d_bestIdx st) then
    match d_out st !! Z.to_nat (d_bestIdx st) with
    | Some best => _ ← o_int (al_Amount best + rem); Ret (alter (add_amount rem) (Z.to_nat (d_bestIdx st)) (d_out st))
    | None => Panic "index out of range"
    end
  else Ret (d_out st).

(** [math.Int.Uint64] panics outside its range. *)
Definition int_Uint64 (z : Z) : outcome Z := if (0 <=? z) && (z <? 2 ^ 64) then Ret z else Panic "Uint64() out of bounds".

Definition dev_points (p : Params) (div : Z) (s : DevStats) : outcome Z :=
  let pts := u64 (TxVolume s * WeightTxVolume p) in
  match NewIntFromString (GasSponsored s) with
  | Some gas =>
      if 0 <? gas then
        q ← o_int (Z.quot gas div);
        g ← int_Uint64 q;
        Ret (u64 (pts + u64 (g * WeightGasSponsoredPer p)))
      else Ret pts
  | None => Ret pts
  end.

(** [order] is the order in which Go ranges over the two maps; a later entry with
    the same key replaces an earlier one. *)
Definition ExportAllocation {B : Type} `{JSON Params} `{JSON DevStats}
    (order : gmap string Z -> list (string * Z)) (w : World B) : outcome (list Alloc) :=
  let p := GetParams w in
  let devBudget := default 0 (NewIntFromString (DevTrackBudget p)) in
  let testBudget := default 0 (NewIntFromString (TesterTrackBudget p)) in
  let div := default 1 (parse_positive (GasSponsoredDivisor p)) in
  devs ← map_ok (fun e : string * DevStats => pts ← dev_points p div e.2; Ret (e.1, pts)) (IterateDev w);
  let devPts : gmap string Z := foldl (fun m e => <[e.1 := e.2]> m) ∅ devs in
  let testPts : gmap string Z := foldl (fun m e => <[e.1 := e.2]> m) ∅ (IterateTester w) in
  out ← distribute (order devPts) devBudget "developer";
  out' ← distribute (order testPts) testBudget "tester";
  Ret (out ++ out').

End allocation.

(** ** The allocation spends the budget exactly *)
Section allocation_theorems.
Context `{MathIntLaws}.
Implicit Types points : list (string * Z).

Definition share (budget total : Z) (track : string) (e : string * Z) : Alloc :=
  mkAlloc e.1 (budget * e.2 / total) e.2 track.

(** The best entry so far. *)
Definition best_ok (st : dist) : Prop :=
  (d_out st = [] /\ d_bestIdx st = -1 /\ d_bestPts st = 0) \/
  (0 <= d_bestIdx st /\ (exists a, d_out st !! Z.to_nat (d_bestIdx st) = Some a /\ al_Points a = d_bestPts st) /\
   Forall (fun a => al_Points a <= d_bestPts st) (d_out st)).

Lemma sum_shares_le budget total track l :
  0 <= budget -> 0 < total -> Forall (fun e => 0 <= e.2) l -> sumZ snd l <= total ->
  0 <= sumZ al_Amount (share budget total track <$> l) <= budget.
Proof.
  intros Hb Ht Hp Hs. rewrite sumZ_map. simpl. split.
  - apply sumZ_nonneg. eapply Forall_impl; [exact Hp|]. intros e He. simpl in *. apply Z.div_pos; nia.
  - assert (total * sumZ (fun e : string * Z => budget * e.2 / total) l <= budget * sumZ snd l).
    { rewrite <- !sumZ_mul_l. apply sumZ_le. apply Forall_true. intros e. simpl. by apply Z.mul_div_le. }
    nia.
Qed.

Lemma best_ok_snoc budget total track st a p :
  0 < p -> 0 <= d_bestPts st -> best_ok st ->
  best_ok (mkDist (d_out st ++ [share budget total track (a, p)]) (d_running st + budget * p / total)
    (if d_bestPts st <? p then Z.of_nat (length (d_out st)) else d_bestIdx st) (if d_bestPts st <? p then p else d_bestPts st)).
Proof.
  intros Hp Hbp Hb. right. simpl. destruct (d_bestPts st <? p) eqn:E; bool_prop.
  - split_and!; [lia| |].
    + exists (share budget total track (a, p)). by rewrite Nat2Z.id, list_lookup_middle.
    + apply Forall_app. split; [|by repeat constructor; simpl; lia]. destruct Hb as [(-> & _)|(_ & _ & Hall)]; [constructor|].
      eapply Forall_impl; [exact Hall|]. simpl. lia.
  - destruct Hb as [(_ & _ & Hz)|(Hi0 & (b & Hl & Hpb) & Hall)]; [lia|]. split_and!; [done| |].
    + exists b. by rewrite lookup_app_l by (by eapply lookup_lt_Some).
    + apply Forall_app. split; [done|]. by repeat constructor.
Qed.

Lemma share_loop budget total track l : forall st n,
  0 <= budget -> 0 < total -> Forall (fun e => 0 < e.2 <= total) l -> budget * total < 2 ^ 256 ->
  0 <= d_running st -> 0 <= d_bestPts st -> best_ok st -> n = length (d_out st) ->
  d_running st + sumZ al_Amount (share budget total track <$> l) <= budget ->
  exists st', fold_ok (share_step budget total track) st (imap (fun i e => ((n + i)%nat, e)) l) = Ret st' /\
    d_out st' = d_out st ++ (share budget total track <$> l) /\
    d_running st' = d_running st + sumZ al_Amount (share budget total track <$> l) /\ best_ok st'.
Proof.
  induction l as [|[a p] l IH]; intros st n Hb Ht Hp Hfit Hr Hbp Hbest Hn Hrun.
  { exists st. rewrite app_nil_r. simpl. split_and!; [done|done|lia|done]. }
  apply Forall_cons in Hp as [Hp Hl]. rewrite fmap_cons in *. simpl in Hp, Hrun.
  assert (Hq : 0 <= budget * p / total) by (apply Z.div_pos; nia).
  assert (Hrest : 0 <= sumZ al_Amount (share budget total track <$> l)).
  { rewrite sumZ_map. apply sumZ_nonneg. eapply Forall_impl; [exact Hl|]. intros e He. simpl in *. apply Z.div_pos; nia. }
  rewrite imap_cons. cbn [fold_ok share_step]. rewrite o_int_fits by (apply int_fits_spec; nia). simpl.
  rewrite Z.quot_div_nonneg by nia. rewrite o_int_fits by (apply int_fits_spec; nia). simpl.
  rewrite o_int_fits by (apply int_fits_spec; nia). cbn [mbind outcome_bind].
  set (st1 := mkDist _ _ _ _). destruct (IH st1 (S n)) as (st' & R & Ho & Hr' & Hb'); try done.
  - simpl. lia.
  - simpl. destruct (d_bestPts st <? p); lia.
  - unfold st1. rewrite Nat.add_0_r, Hn. apply best_ok_snoc; [lia|done|done].
  - simpl. rewrite length_app, Hn. simpl. lia.
  - simpl. lia.
  - exists st'. split_and!; [|by rewrite Ho; simpl; rewrite <- app_assoc|rewrite Hr'; simpl; lia|done].
    rewrite <- R. f_equal. apply imap_ext. intros i x _. simpl. f_equal. lia.
Qed.

Lemma add_amount_0 a : add_amount 0 a = a.
Proof. destruct a. unfold add_amount. simpl. by rewrite Z.add_0_r. Qed.

Lemma sum_alter (l : list Alloc) i a x :
  l !! i = Some a -> sumZ al_Amount (alter (add_amount x) i l) = sumZ al_Amount l + x.
Proof.
  revert i. induction l as [|b l IH]; intros [|i] Hl; try done; simpl in Hl.
  - injection Hl as ->. simpl. lia.
  - change (alter (add_amount x) (S i) (b :: l)) with (b :: alter (add_amount x) i l). cbn [sumZ]. rewrite (IH i Hl). lia.
Qed.

(** How much the floors leave over: less than one unit per entry. *)
Lemma remainder_bounds budget total track l :
  0 < total -> sumZ snd l = total -> l <> [] ->
  budget - sumZ al_Amount (share budget total track <$> l) < Z.of_nat (length l).
Proof.
  intros Ht Hs Hne. rewrite sumZ_map. simpl.
  assert (budget * sumZ snd l < total * (sumZ (fun e : string * Z => budget * e.2 / total) l + Z.of_nat (length l))); [|nia].
  clear Hs. induction l as [|e l IH]; [done|]. destruct l as [|e' l].
  - simpl. pose proof (Z.mul_succ_div_gt (budget * e.2) total Ht). nia.
  - specialize (IH ltac:(done)). simpl sumZ in *. simpl length in *.
    pose proof (Z.mul_succ_div_gt (budget * e.2) total Ht). nia.
Qed.

Lemma foldl_u64 (l : list (string * Z)) acc :
  Forall (fun e => 0 <= e.2) l -> 0 <= acc -> acc + sumZ snd l < 2 ^ 64 ->
  foldl (fun t e => u64 (t + e.2)) acc l = acc + sumZ snd l.
Proof.
  intros Hl. revert acc. induction Hl as [|e l He Hl IH]; intros acc Ha Hb; simpl in *; [lia|].
  pose proof (sumZ_nonneg snd l Hl). rewrite u64_id by (unfold is_u64; lia). rewrite IH; lia.
Qed.

Lemma sum_positive points : Forall (fun e => 0 <= e.2) points -> sumZ snd (filter (fun e => 0 < e.2) points) = sumZ snd points.
Proof.
  induction 1 as [|e l He Hl IH]; [done|]. rewrite filter_cons. case_decide; simpl; lia.
Qed.

(** The sorted positive entries. *)
Definition sorted_entries points : list (string * Z) :=
  (fun a => (a, default 0 ((list_to_map points : gmap string Z) !! a))) <$>
    merge_sort str_le (filter (fun e => 0 < e.2) points).*1.

Lemma sorted_entries_perm points : NoDup points.*1 -> sorted_entries points ≡ₚ filter (fun e => 0 < e.2) points.
Proof.
  intros Hnd. unfold sorted_entries. rewrite (merge_sort_Permutation str_le). rewrite <- list_fmap_compose.
  apply Permutation_refl'. etransitivity; [|apply list_fmap_id]. apply list_fmap_ext.
  intros i [a p] Hl%list_elem_of_lookup_2. simpl. apply list_elem_of_filter in Hl as [_ Hl].
  by rewrite (elem_of_list_to_map_1 points a p).
Qed.

Lemma sorted_entries_sorted points : StronglySorted str_le (sorted_entries points).*1.
Proof.
  unfold sorted_entries. rewrite <- list_fmap_compose. simpl. rewrite list_fmap_id. apply StronglySorted_merge_sort; apply _.
Qed.

Lemma positive_entries points : Forall (fun e => 0 < e.2) (filter (fun e => 0 < e.2) points).
Proof. apply Forall_forall. by intros e [He _]%list_elem_of_filter. Qed.

(** What follows the loop. *)
Definition finish (budget : Z) (st : dist) : outcome (list Alloc) :=
  rem ← o_int (budget - d_running st);
  if (0 <? rem) && (0 <=? d_bestIdx st) then
    match d_out st !! Z.to_nat (d_bestIdx st) with
    | Some best => _ ← o_int (al_Amount best + rem); Ret (alter (add_amount rem) (Z.to_nat (d_bestIdx st)) (d_out st))
    | None => Panic "index out of range"
    end
  else Ret (d_out st).

Lemma distribute_eq points budget track :
  Forall (fun e => 0 <= e.2) points -> sumZ snd points < 2 ^ 64 ->
  distribute points budget track =
  if (sumZ snd points =? 0) || negb (0 <? budget) then Ret [] else
  fold_ok (share_step budget (sumZ snd points) track) (mkDist [] 0 (-1) 0) (imap (fun i e => (i, e)) (sorted_entries points))
    ≫= finish budget.
Proof.
  intros Hpos Hs. unfold distribute. rewrite foldl_u64, Z.add_0_l, sum_positive; [|done| |done|rewrite sum_positive by done; lia].
  2:{ eapply Forall_impl; [apply positive_entries|]. simpl. lia. }
  destruct (_ || _); [done|]. unfold sorted_entries. by rewrite imap_fmap.
Qed.

#[local] Instance str_le_anti : AntiSymm (=) str_le.
Proof. intros s t. apply str_le_antisym. Qed.

Lemma sorted_entries_unique points points' :
  NoDup points.*1 -> points' ≡ₚ points -> sorted_entries points' = sorted_entries points.
Proof.
  intros Hnd Hp. unfold sorted_entries. rewrite (list_to_map_proper points' points) by (done || by rewrite Hp).
  f_equal. apply (StronglySorted_unique str_le); [apply StronglySorted_merge_sort; apply _..|].
  rewrite !(merge_sort_Permutation str_le). by rewrite Hp.
Qed.

(** The loop and what follows it, on entries in any order. *)
Lemma allocate_run budget total track l :
  0 < budget -> 0 < total -> Forall (fun e => 0 < e.2) l -> sumZ snd l = total -> budget * total < 2 ^ 256 ->
  exists out i top, fold_ok (share_step budget total track) (mkDist [] 0 (-1) 0) (imap (fun i e => (i, e)) l) ≫= finish budget = Ret out /\
    sumZ al_Amount out = budget /\ (share budget total track <$> l) !! i = Some top /\ Forall (fun e => e.2 <= al_Points top) l /\
    let rem := budget - sumZ al_Amount (share budget total track <$> l) in
    0 <= rem < Z.of_nat (length l) /\ out = alter (add_amount rem) i (share budget total track <$> l).
Proof.
  intros Hb Ht Hl Hs Hfit. set (sh := share budget total track <$> l). set (rem := budget - sumZ al_Amount sh).
  assert (Hne : l <> []) by (intros ->; simpl in Hs; lia).
  assert (Hle : Forall (fun e => 0 < e.2 <= total) l).
  { apply Forall_forall. intros e He. split; [by eapply Forall_forall in Hl|]. rewrite <- Hs. apply sumZ_elem_le; [|done].
    eapply Forall_impl; [exact Hl|]. simpl. lia. }
  destruct (sum_shares_le budget total track l) as [Hs0 Hs1]; [lia|done| |lia|].
  { eapply Forall_impl; [exact Hl|]. simpl. lia. }
  pose proof (remainder_bounds budget total track l Ht Hs Hne) as Hrem. fold sh in Hs0, Hs1, Hrem. fold rem in Hrem.
  destruct (share_loop budget total track l (mkDist [] 0 (-1) 0) 0) as (st & R & Ho & Hr & Hbest); try done; try lia.
  { by left. }
  simpl in Ho, Hr. rewrite Z.add_0_l in Hr. fold sh in Ho, Hr. destruct Hbest as [(Hnil & _)|(Hi & (top & Htop & Hpts) & Hall)].
  { destruct l; [done|]. rewrite Ho in Hnil. done. }
  rewrite Ho in Htop, Hall. exists (alter (add_amount rem) (Z.to_nat (d_bestIdx st)) sh), (Z.to_nat (d_bestIdx st)), top.
  split_and!; [|rewrite (sum_alter _ _ _ _ Htop); lia|done| |intros rem'; split; [unfold rem'; lia|done]].
  - change (imap (fun i e => (i, e)) l) with (imap (fun i e => ((0 + i)%nat, e)) l). rewrite R. cbn [mbind outcome_bind].
    unfold finish. rewrite Ho, Hr. fold rem. rewrite o_int_fits by (apply int_fits_spec; nia). cbn [mbind outcome_bind].
    rewrite (proj2 (Z.leb_le 0 (d_bestIdx st)) Hi), andb_true_r, Htop. destruct (0 <? rem) eqn:E; bool_prop.
    + rewrite o_int_fits; [reflexivity|]. apply int_fits_spec. 
      assert (0 <= al_Amount top <= sumZ al_Amount sh); [|nia].
      assert (Hn : Forall (fun a => 0 <= al_Amount a) sh).
      { apply Forall_fmap. eapply Forall_impl; [exact Hl|]. intros e He. simpl in *. apply Z.div_pos; nia. }
      split; [by eapply Forall_lookup in Hn|]. apply sumZ_elem_le; [done|]. by eapply list_elem_of_lookup_2.
    + assert (rem = 0) as -> by lia. f_equal. symmetry. apply list_alter_id. apply add_amount_0.
  - rewrite Hpts. by apply (Forall_fmap (share budget total track) (fun a => al_Points a <= d_bestPts st)) in Hall.
Qed.

(** With points whose sum fits 64 bits, the allocation of a positive budget
    spends it exactly: the entries are the addresses with points in their order,
    each gets its pro-rata share rounded down, and what the rounding leaves, less
    than one unit per entry, goes to an entry with the most points.  The order in
    which the map is ranged over plays no role. *)
Theorem distribute_exact points budget track :
  let total := sumZ snd points in
  NoDup points.*1 -> Forall (fun e => 0 <= e.2) points -> total < 2 ^ 64 -> 0 <= budget -> budget * total < 2 ^ 256 ->
  exists out, (forall points', points' ≡ₚ points -> distribute points' budget track = Ret out) /\
    (total = 0 \/ budget = 0 -> out = []) /\
    (0 < total -> 0 < budget ->
     sumZ al_Amount out = budget /\
     exists l i top, l ≡ₚ filter (fun e => 0 < e.2) points /\ StronglySorted str_le l.*1 /\
       (share budget total track <$> l) !! i = Some top /\ Forall (fun e => e.2 <= al_Points top) l /\
       let rem := budget - sumZ al_Amount (share budget total track <$> l) in
       0 <= rem < Z.of_nat (length l) /\ out = alter (add_amount rem) i (share budget total track <$> l)).
Proof.
  intros total Hnd Hpos Hs Hb Hfit. assert (Ht : 0 <= total) by by apply sumZ_nonneg.
  assert (Hperm : forall points', points' ≡ₚ points -> distribute points' budget track = distribute points budget track).
  { intros points' Hp. rewrite !distribute_eq by (done || by rewrite ?Hp, ?(sumZ_perm snd _ _ Hp)).
    by rewrite (sumZ_perm snd _ _ Hp), (sorted_entries_unique _ _ Hnd Hp). }
  pose proof (distribute_eq points budget track Hpos Hs) as R. fold total in R.
  destruct ((total =? 0) || negb (0 <? budget)) eqn:E; bool_prop.
  { exists []. split_and!; [intros; by rewrite Hperm|done|]. intros. destruct E; bool_prop; lia. }
  set (l := sorted_entries points) in *. assert (Hl : l ≡ₚ filter (fun e => 0 < e.2) points) by by apply sorted_entries_perm.
  destruct (allocate_run budget total track l) as (out & i & top & R' & Hsum & Hin & Hall & Hrem & Hout); [lia..| | |done|].
  { rewrite Hl. apply positive_entries. }
  { rewrite (sumZ_perm snd _ _ Hl). by apply sum_positive. }
  exists out. split_and!; [intros; by rewrite Hperm, R|lia|]. intros _ _. split; [done|].
  exists l, i, top. split_and!; try done. apply sorted_entries_sorted.
Qed.

End allocation_theorems.

(** ** Concrete allocations *)
Module Example.
#[local] Existing Instance decimal_MathInt.
#[local] Existing Instance decimal_MathIntLaws.

Definition points : list (string * Z) := [("carol", 1); ("dave", 0); ("alice", 3); ("bob", 3)].

Lemma distribute_exact_witness :
  let out := [mkAlloc "alice" 44 3 "tester"; mkAlloc "bob" 42 3 "tester"; mkAlloc "carol" 14 1 "tester"] in
  distribute points 100 "tester" = Ret out /\ sumZ al_Amount out = 100 /\
  forall points', points' ≡ₚ points -> distribute points' 100 "tester" = Ret out.
Proof.
  intros out. assert (R : distribute points 100 "tester" = Ret out) by (vm_compute; reflexivity).
  assert (H1 : NoDup points.*1) by (apply (bool_decide_unpack _); vm_compute; exact I).
  assert (H2 : Forall (fun e => 0 <= e.2) points) by (repeat constructor; discriminate).
  assert (H3 : sumZ snd points < 2 ^ 64) by (vm_compute; reflexivity).
  assert (H4 : 100 * sumZ snd points < 2 ^ 256) by (vm_compute; reflexivity).
  destruct (distribute_exact points 100 "tester" H1 H2 H3 ltac:(lia) H4) as (out' & Hp & _ & Hsum).
  assert (out' = out) as -> by (rewrite (Hp points (Permutation_refl _)) in R; by injection R).
  split_and!; [done| |done]. apply Hsum; [vm_compute; reflexivity|lia].
Defined.

(** Points whose 64-bit sum wraps around are paid far more than the budget. *)
Lemma distribute_wraps :
  distribute [("alice", 2 ^ 63); ("bob", 2 ^ 63 + 1)] 100 "tester" =
  Ret [mkAlloc "alice" (100 * 2 ^ 63) (2 ^ 63) "tester"; mkAlloc "bob" (100 * (2 ^ 63 + 1)) (2 ^ 63 + 1) "tester"].
Proof. vm_compute. reflexivity. Qed.

End Example.
End Contest.
