(* ===== verification/GasSponsor.v ===== *)
(** * x/gassponsor: who pays the fee of an Ethereum transaction

    Models x/gassponsor/types and x/gassponsor/keeper: the decision, made once per
    transaction, whether the gas pool pays its fee (through an approved dApp, a
    developer's escrow, the account's daily budget or the onboarding grant), the
    counters that bound each path, and the begin block that mints the gas pool back
    to its target under a daily cap.  The decision calls [Contest.GetShowcase] and
    [SponsorPool.Reserve]. *)
From S2P Require Import Prelude Codec Bank SponsorPool Contest.
From stdpp Require Import gmap strings list.
From Stdlib Require Import ZArith Lia.

#[local] Set Default Goal Selector "!".
Open Scope Z_scope.

Module GasSponsor.

Definition ModuleName : string := "gassponsor".
Definition StoreKey : string := ModuleName.
Definition ParamsKey : string := byte_prefix 1.
Definition AllowancePrefix : string := byte_prefix 2.
Definition MintedTodayPrefix : string := byte_prefix 3.
Definition OnboardingPrefix : string := byte_prefix 5.
Definition GrantedTodayPrefix : string := byte_prefix 6.
Definition DappSpentPrefix : string := byte_prefix 7.

Record Params := mkParams {
  Enabled : bool;
  BaselineDaily : string;
  RefillEnabled : bool;
  MinPoolBalance : string;
  ColdStartDaily : string;
  BalanceDivisor : string;
  DappPerTxFeeCap : string;
  RefillDailyMintCap : string;
  DappDailyCap : string;
  DailyBudget : string;
  HoldMinimum : string;
  OnboardingGrant : string;
  OnboardingDailyCap : string
}.

#[export] Instance Params_codec : Codec Params :=
  Codec_iso (fun p => (Enabled p, BaselineDaily p, RefillEnabled p, MinPoolBalance p, ColdStartDaily p, BalanceDivisor p,
      DappPerTxFeeCap p, RefillDailyMintCap p, DappDailyCap p, DailyBudget p, HoldMinimum p, OnboardingGrant p, OnboardingDailyCap p))
    (fun t => let '(a, b, c, d, e, f, g, h, i, j, k, l, m) := t in mkParams a b c d e f g h i j k l m)
    (fun p => match p with mkParams _ _ _ _ _ _ _ _ _ _ _ _ _ => eq_refl end).

Definition DefaultParams : Params :=
  mkParams true "1000000000000000000" true "200000000000000000000000000" "100000000000000000" "1"
    "1000000000000000000" "0" "0" "1000000000000000000" "1000000000000000000" "50000000000000000" "0".

Section validate.
Context `{MathInt}.

(** An optional field: empty, or a number the test [ok] accepts. *)
Definition optional (s : string) (ok : Z -> bool) (e : string) : outcome unit :=
  if String.eqb s "" then Ret tt else
  match NewIntFromString s with
  | Some c => if ok c then Ret tt else Err e
  | None => Err e
  end.
Definition nonneg (c : Z) : bool := negb (c <? 0).

(** [GenesisState.Validate]. *)
Definition Validate (p : Params) : outcome unit :=
  _ ← match NewIntFromString (BaselineDaily p) with Some _ => Ret tt | None => Err "invalid baseline_daily" end;
  _ ← match NewIntFromString (MinPoolBalance p) with Some _ => Ret tt | None => Err "invalid min_pool_balance" end;
  _ ← optional (ColdStartDaily p) (fun _ => true) "invalid cold_start_daily";
  _ ← optional (BalanceDivisor p) (fun d => 0 <? d) "invalid balance_divisor";
  _ ← optional (DappPerTxFeeCap p) nonneg "invalid dapp_per_tx_fee_cap";
  _ ← optional (RefillDailyMintCap p) nonneg "invalid refill_daily_mint_cap";
  _ ← optional (DappDailyCap p) nonneg "invalid dapp_daily_cap";
  _ ← optional (DailyBudget p) nonneg "invalid daily_budget";
  _ ← optional (HoldMinimum p) nonneg "invalid hold_minimum";
  _ ← optional (OnboardingGrant p) nonneg "invalid onboarding_grant";
  optional (OnboardingDailyCap p) nonneg "invalid onboarding_daily_cap".

End validate.

Definition allowanceKey (day : Z) (sender : string) : string := AllowancePrefix +:+ (be64 day +:+ sender).
Definition mintedTodayKey (day : Z) : string := MintedTodayPrefix +:+ be64 day.
Definition dappSpentKey (day : Z) (to : string) : string := DappSpentPrefix +:+ (be64 day +:+ to).
Definition grantedTodayKey (day : Z) : string := GrantedTodayPrefix +:+ be64 day.
Definition onboardingKey (sender : string) : string := OnboardingPrefix +:+ sender.

(** The path that sponsors a transaction. *)
Inductive Path := Dapp | Escrow | Baseline | Onboarding.
#[export] Instance Path_eq_dec : EqDecision Path.
Proof. solve_decision. Defined.

Definition path_name (x : Path) : string :=
  match x with Dapp => "dapp" | Escrow => "escrow" | Baseline => "baseline" | Onboarding => "onboarding" end.

Section keeper.
Context `{BankKeeper B} `{MathInt} `{Bech32} `{JSON Params} `{JSON SponsorPool.Params} `{JSON Contest.ShowcaseApp}.
Implicit Types w : World B.

Definition SetParams (p : Params) : M (World B) unit := modify (kv_set StoreKey ParamsKey (json_Marshal p)).
Definition GetParams w : Params :=
  match kv_get StoreKey ParamsKey w with
  | None => DefaultParams
  | Some bz => match json_Unmarshal bz with Some p => p | None => DefaultParams end
  end.
Definition InitGenesis (gs : Params) : M (World B) unit := SetParams gs.
Definition ExportGenesis w : Params := GetParams w.

(** The five counters are decimal strings; a missing or unreadable one is zero. *)
Definition counter (key : string) w : Z :=
  match kv_get StoreKey key w with
  | None => 0
  | Some bz => match NewIntFromString bz with Some v => v | None => 0 end
  end.
Definition set_counter (key : string) (v : Z) : M (World B) unit := modify (kv_set StoreKey key (Int_String v)).

Definition allowanceUsed (day : Z) (sender : string) w : Z := counter (allowanceKey day sender) w.
Definition setAllowanceUsed (day : Z) (sender : string) (v : Z) : M (World B) unit := set_counter (allowanceKey day sender) v.
Definition mintedToday (day : Z) w : Z := counter (mintedTodayKey day) w.
Definition setMintedToday (day v : Z) : M (World B) unit := set_counter (mintedTodayKey day) v.
Definition dappSpentToday (day : Z) (to : string) w : Z := counter (dappSpentKey day to) w.
Definition addDappSpent (day : Z) (to : string) (amt : Z) : M (World B) unit :=
  old ← gets (dappSpentToday day to);
  new ← int_add old amt;
  set_counter (dappSpentKey day to) new.
Definition grantedToday (day : Z) w : Z := counter (grantedTodayKey day) w.
Definition addGrantedToday (day amt : Z) : M (World B) unit :=
  old ← gets (grantedToday day);
  new ← int_add old amt;
  set_counter (grantedTodayKey day) new.
Definition onboardingUsed (sender : string) w : Z := counter (onboardingKey sender) w.
Definition setOnboardingUsed (sender : string) (v : Z) : M (World B) unit := set_counter (onboardingKey sender) v.

(** The exported queries. *)
Definition MintedToday (ctx : Ctx) w : Z := mintedToday (utc_day ctx) w.
Definition AllowanceUsed (ctx : Ctx) (sender : string) w : Z := allowanceUsed (utc_day ctx) sender w.
Definition DappSpentToday (ctx : Ctx) (to : string) w : Z := dappSpentToday (utc_day ctx) to w.
Definition GrantedToday (ctx : Ctx) w : Z := grantedToday (utc_day ctx) w.
Definition OnboardingUsed (sender : string) w : Z := onboardingUsed sender w.
Definition PoolBalance w : Z := GetBalance (w_bank w) (NewModuleAddress GasPoolName) FeeDenom.

(** The account's holding of the fee coin. *)
Definition held (sender : string) w : Z := GetBalance (w_bank w) sender FeeDenom.

Definition effectiveAllowance (p : Params) (sender : string) : M (World B) Z :=
  h ← gets (held sender);
  match parse_positive (DailyBudget p) with
  | Some budget =>
      let minHold := default 0 (parse_positive (HoldMinimum p)) in
      if (0 <? h) && (minHold <=? h) then mret budget else mret 0
  | None =>
      match parse_positive (BaselineDaily p) with
      | None => mret 0
      | Some baseline =>
          let cold := default 0 (NewIntFromString (ColdStartDaily p)) in
          let div := default 1 (parse_positive (BalanceDivisor p)) in
          q ← int_quo h div;
          allow ← int_add cold q;
          mret (if baseline <? allow then baseline else allow)
      end
  end.
Definition EffectiveAllowance (sender : string) : M (World B) Z :=
  p ← gets GetParams; effectiveAllowance p sender.

Definition withinDappCap (p : Params) (amt : Z) : bool :=
  match parse_positive (DappPerTxFeeCap p) with None => true | Some c => amt <=? c end.

Definition withinDappDailyCap (p : Params) (day : Z) (to : string) (amt : Z) : M (World B) bool :=
  match parse_positive (DappDailyCap p) with
  | None => mret true
  | Some c => spent ← gets (dappSpentToday day to); new ← int_add spent amt; mret (new <=? c)
  end.

Definition dappRemaining (p : Params) (amt : Z) : M (World B) Z :=
  match parse_positive (DappPerTxFeeCap p) with None => mret (-1) | Some c => int_sub c amt end.

Definition emitSponsored (path : Path) (sender : string) (to : option string) (amount remaining : Z) : M (World B) unit :=
  modify (emit (mkEvent "gassponsor_sponsored"
    [("path", path_name path); ("amount", Int_String amount); ("account", AccAddress_String sender);
     ("dapp", match to with Some t => lower_hex t | None => EmptyString end); ("remaining_allowance", Int_String remaining)])).
Definition emitDappDaily (to : string) (spentToday : Z) (dailyCap : string) : M (World B) unit :=
  modify (emit (mkEvent "gassponsor_dapp_daily"
    [("dapp", lower_hex to); ("dapp_spent_today", Int_String spentToday); ("daily_cap", dailyCap)])).
Definition emitDappDailyCapped (to : string) (spentToday fee : Z) (dailyCap : string) : M (World B) unit :=
  modify (emit (mkEvent "gassponsor_dapp_daily_capped"
    [("dapp", lower_hex to); ("dapp_spent_today", Int_String spentToday); ("fee", Int_String fee); ("daily_cap", dailyCap)])).

(** The test of the daily onboarding cap. *)
Definition overOnboardingCap (p : Params) (day amt : Z) : M (World B) bool :=
  match parse_positive (OnboardingDailyCap p) with
  | None => mret false
  | Some dailyCap => g ← gets (grantedToday day); s ← int_add g amt; mret (dailyCap <? s)
  end.
Definition tryOnboarding (ctx : Ctx) (p : Params) (sender : string) (to : option string) (amt : Z) : M (World B) bool :=
  match parse_positive (OnboardingGrant p) with
  | None => mret false
  | Some grant =>
      h ← gets (held sender);
      if negb (h =? 0) then mret false else
      used ← gets (onboardingUsed sender);
      newUsed ← int_add used amt;
      if grant <? newUsed then mret false else
      let day := utc_day ctx in
      over ← overOnboardingCap p day amt;
      if over : bool then mret false else
      setOnboardingUsed sender newUsed;;
      addGrantedToday day amt;;
      left ← int_sub grant newUsed;
      emitSponsored Onboarding sender to amt left;;
      mret true
  end.

(** The first path: an approved EVM contract within its caps. *)
Definition try_dapp (ctx : Ctx) (p : Params) (sender : string) (to : option string) (amt : Z) : M (World B) bool :=
  match to with
  | None => mret false
  | Some t =>
      found ← gets (Contest.GetShowcase (lower_hex t));
      match found with
      | None => mret false
      | Some app =>
          if negb (Contest.Approved app && (String.eqb (Contest.VM app) "" || String.eqb (Contest.VM app) "evm")) then mret false else
          let day := utc_day ctx in
          if negb (withinDappCap p amt) then mret false else
          ok ← withinDappDailyCap p day t amt;
          if negb ok then
            spent ← gets (dappSpentToday day t);
            emitDappDailyCapped t spent amt (DappDailyCap p);;
            mret false
          else
            addDappSpent day t amt;;
            left ← dappRemaining p amt;
            emitSponsored Dapp sender to amt left;;
            spent ← gets (dappSpentToday day t);
            emitDappDaily t spent (DappDailyCap p);;
            mret true
      end
  end.

(** The second path; [pool] says whether the keeper has a sponsor pool. *)
Definition try_escrow (pool : bool) (sender : string) (to : option string) (amt : Z) : M (World B) bool :=
  match to with
  | Some t =>
      if negb pool then mret false else
      ok ← SponsorPool.Reserve (lower_hex t) amt;
      if negb ok then mret false else
      emitSponsored Escrow sender to amt (-1);;
      mret true
  | None => mret false
  end.

(** The third path. *)
Definition try_baseline (ctx : Ctx) (p : Params) (sender : string) (to : option string) (amt : Z) : M (World B) bool :=
  allow ← effectiveAllowance p sender;
  if negb (0 <? allow) then mret false else
  let day := utc_day ctx in
  used ← gets (allowanceUsed day sender);
  newUsed ← int_add used amt;
  if negb (newUsed <=? allow) then mret false else
  setAllowanceUsed day sender newUsed;;
  left ← int_sub allow newUsed;
  emitSponsored Baseline sender to amt left;;
  mret true.

(** The fall-through order; [None] is a transaction its sender pays. *)
Definition sponsor_path (pool : bool) (ctx : Ctx) (sender : string) (to : option string) (fees : Coins) : M (World B) (option Path) :=
  p ← gets GetParams;
  if negb (Enabled p) then mret None else
  let amt := AmountOf fees FeeDenom in
  if negb (0 <? amt) then mret None else
  b1 ← try_dapp ctx p sender to amt;
  if b1 : bool then mret (Some Dapp) else
  b2 ← try_escrow pool sender to amt;
  if b2 : bool then mret (Some Escrow) else
  b3 ← try_baseline ctx p sender to amt;
  if b3 : bool then mret (Some Baseline) else
  b4 ← tryOnboarding ctx p sender to amt;
  if b4 : bool then mret (Some Onboarding) else
  mret None.

(** Whether the pool pays, and whether through an approved application. *)
Definition IsSponsored (pool : bool) (ctx : Ctx) (sender : string) (to : option string) (fees : Coins) : M (World B) (bool * bool) :=
  x ← sponsor_path pool ctx sender to fees;
  mret (match x with
        | None => (false, false)
        | Some Dapp | Some Escrow => (true, true)
        | Some Baseline | Some Onboarding => (true, false)
        end).

(** abci.go: minting [mintAmt] into the pool, the part of [BeginBlock] after the cap. *)
Definition refill (p : Params) (day deficit mintAmt : Z) (capped : bool) : M (World B) unit :=
  on_bank (MintCoins ModuleName [(FeeDenom, mintAmt)]);;
  on_bank (SendCoinsFromModuleToModule ModuleName GasPoolName [(FeeDenom, mintAmt)]);;
  old ← gets (mintedToday day);
  new ← int_add old mintAmt;
  setMintedToday day new;;
  modify (emit (mkEvent "gassponsor_refill" [("minted", Int_String mintAmt)]));;
  if capped then
    modify (emit (mkEvent "gassponsor_refill_capped"
      [("deficit", Int_String deficit); ("minted", Int_String mintAmt); ("daily_cap", RefillDailyMintCap p)]))
  else mret tt.

Definition BeginBlock (ctx : Ctx) : M (World B) unit :=
  p ← gets GetParams;
  if negb (RefillEnabled p) then mret tt else
  match parse_positive (MinPoolBalance p) with
  | None => mret tt
  | Some target =>
      bal ← gets PoolBalance;
      if target <=? bal then mret tt else
      deficit ← int_sub target bal;
      let day := utc_day ctx in
      match parse_positive (RefillDailyMintCap p) with
      | None => refill p day deficit deficit false
      | Some cap =>
          minted ← gets (mintedToday day);
          remaining ← int_sub cap minted;
          if negb (0 <? remaining) then
            modify (emit (mkEvent "gassponsor_refill_capped"
              [("deficit", Int_String deficit); ("minted_today", Int_String minted); ("daily_cap", Int_String cap)]))
          else if remaining <? deficit then refill p day deficit remaining true
          else refill p day deficit deficit false
      end
  end.

End keeper.

(** ** The counters

    One name per counter, its store key, and the bound the parameters put on it. *)
Inductive ckey :=
| KAllowance (day : Z) (sender : string)
| KOnboarding (sender : string)
| KGranted (day : Z)
| KDapp (day : Z) (to : string)
| KMinted (day : Z).

#[export] Instance ckey_eq_dec : EqDecision ckey.
Proof. solve_decision. Defined.

Definition store_key (ck : ckey) : string :=
  match ck with
  | KAllowance d s => allowanceKey d s
  | KOnboarding s => onboardingKey s
  | KGranted d => grantedTodayKey d
  | KDapp d t => dappSpentKey d t
  | KMinted d => mintedTodayKey d
  end.

Definition day_ok (ck : ckey) : Prop :=
  match ck with
  | KAllowance d _ | KGranted d | KDapp d _ | KMinted d => is_u64 d
  | KOnboarding _ => True
  end.

Definition limit `{MathInt} (p : Params) (ck : ckey) : option Z :=
  match ck with
  | KAllowance _ _ => Some (match parse_positive (DailyBudget p) with
                            | Some b => b
                            | None => default 0 (parse_positive (BaselineDaily p))
                            end)
  | KOnboarding _ => Some (default 0 (parse_positive (OnboardingGrant p)))
  | KGranted _ => parse_positive (OnboardingDailyCap p)
  | KDapp _ _ => parse_positive (DappDailyCap p)
  | KMinted _ => parse_positive (RefillDailyMintCap p)
  end.

(** What happened: a sponsored transaction, or coins minted for the pool. *)
Inductive event :=
| Sponsored (x : Path) (day : Z) (sender : string) (to : option string) (amt : Z)
| Minted (day : Z) (amt : Z).

Definition ev_amount (e : event) : Z := match e with Sponsored _ _ _ _ a | Minted _ a => a end.

(** The counters an event is charged to. *)
Definition charged (e : event) : list ckey :=
  match e with
  | Sponsored Dapp d _ (Some t) _ => [KDapp d t]
  | Sponsored Baseline d s _ _ => [KAllowance d s]
  | Sponsored Onboarding d s _ _ => [KOnboarding s; KGranted d]
  | Minted d _ => [KMinted d]
  | _ => []
  end.

Definition total (ck : ckey) (log : list event) : Z :=
  sumZ (fun e => if decide (ck ∈ charged e) then ev_amount e else 0) log.

Lemma store_key_inj ck ck' : day_ok ck -> day_ok ck' -> store_key ck = store_key ck' -> ck = ck'.
Proof.
  assert (Hb : forall d d' s s', is_u64 d -> is_u64 d' -> be64 d +:+ s = be64 d' +:+ s' -> d = d' /\ s = s').
  { intros d d' s s' Hd Hd' E. apply str_app_inv in E as [E ->]; [|unfold be64; by rewrite !be_bytes_length]. by apply be64_inj in E. }
  destruct ck, ck'; simpl; intros Hd Hd' E; try (exfalso; revert E; apply byte_prefix_ne; lia);
    apply byte_prefix_inj in E; try (apply Hb in E as [-> ->]; done); [by subst|by apply be64_inj in E as ->..].
Qed.

Section counters.
Context `{BankLaws B} `{MathIntLaws} `{Bech32} `{JSON Params} `{JSON SponsorPool.Params} `{JSON Contest.ShowcaseApp}.
Implicit Types w : World B.

Definition count (ck : ckey) w : Z := counter (store_key ck) w.

Lemma params_key_ne ck : store_key ck <> ParamsKey.
Proof. destruct ck; simpl; unfold ParamsKey; discriminate. Qed.

Lemma count_set ck ck' v w :
  day_ok ck -> day_ok ck' -> int_fits v = true ->
  count ck (kv_set StoreKey (store_key ck') (Int_String v) w) = if decide (ck' = ck) then v else count ck w.
Proof.
  intros Hd Hd' Hf. unfold count, counter. rewrite kv_get_set. case_decide as E.
  - destruct E as [_ E]. apply store_key_inj in E as ->; [|done..]. rewrite decide_True by done.
    by rewrite NewIntFromString_String.
  - rewrite decide_False by naive_solver. done.
Qed.

Lemma GetParams_count ck v w : GetParams (kv_set StoreKey (store_key ck) v w) = GetParams w.
Proof. unfold GetParams. rewrite kv_get_set_ne; [done|]. right. apply params_key_ne. Qed.

(** The module's store is the same in both states. *)
Definition same_store w w' : Prop := forall k, kv_get StoreKey k w' = kv_get StoreKey k w.

Lemma same_store_count w w' ck : same_store w w' -> count ck w' = count ck w.
Proof. intros Hs. unfold count, counter. by rewrite Hs. Qed.
Lemma same_store_params w w' : same_store w w' -> GetParams w' = GetParams w.
Proof. intros Hs. unfold GetParams. by rewrite Hs. Qed.

(** [bumped p keys amt w w']: the counters [keys] grew by [amt], staying within
    their bounds, and nothing else in the store changed. *)
Record bumped (p : Params) (keys : list ckey) (amt : Z) w w' : Prop := {
  bu_days : Forall day_ok keys;
  bu_params : GetParams w' = GetParams w;
  bu_count ck : day_ok ck -> count ck w' = count ck w + (if decide (ck ∈ keys) then amt else 0);
  bu_limit ck L : ck ∈ keys -> limit p ck = Some L -> count ck w + amt <= L
}.

Lemma bumped_same p amt w w' : same_store w w' -> bumped p [] amt w w'.
Proof.
  intros Hs. split; [constructor|by apply same_store_params| |by intros ? ? ?%not_elem_of_nil].
  intros ck _. rewrite (same_store_count _ _ _ Hs). rewrite decide_False by apply not_elem_of_nil. lia.
Qed.

Lemma bumped_set p ck amt w w' :
  day_ok ck -> int_fits (count ck w + amt) = true -> (forall L, limit p ck = Some L -> count ck w + amt <= L) ->
  same_store (kv_set StoreKey (store_key ck) (Int_String (count ck w + amt)) w) w' -> bumped p [ck] amt w w'.
Proof.
  intros Hd Hf HL Hs. split; [by repeat constructor| | |].
  - rewrite (same_store_params _ _ Hs). apply GetParams_count.
  - intros ck' Hd'. rewrite (same_store_count _ _ _ Hs), count_set by done.
    case_decide; case_decide as E; rewrite list_elem_of_singleton in E; subst; try lia; congruence.
  - intros ck' L E%list_elem_of_singleton. subst. apply HL.
Qed.

Lemma bumped_trans p k1 k2 amt w w1 w2 :
  bumped p k1 amt w w1 -> bumped p k2 amt w1 w2 -> (forall ck, ck ∈ k1 -> ck ∉ k2) ->
  bumped p (k1 ++ k2) amt w w2.
Proof.
  intros [K1 P1 C1 L1] [K2 P2 C2 L2] Hdis. split; [by apply Forall_app|congruence| |].
  - intros ck Hd. rewrite C2, C1 by done. specialize (Hdis ck).
    repeat case_decide; rewrite ?elem_of_app in *; try lia; exfalso; naive_solver.
  - intros ck L [Hin|Hin]%elem_of_app HL; [by apply L1|]. pose proof (proj1 (Forall_forall _ _) K2 ck Hin) as Hok.
    specialize (L2 ck L Hin HL). rewrite C1 in L2 by done. rewrite decide_False in L2 by naive_solver. lia.
Qed.

(** ** The four paths *)

Lemma utc_day_ok ctx : is_u64 (utc_day ctx).
Proof. apply u64_range. Qed.

Ltac same_store_tac := intros ?k; rewrite ?kv_get_emit; done.

Lemma withinDappDailyCap_inv p day t amt w ok w' :
  withinDappDailyCap p day t amt w = (Ret ok, w') ->
  w' = w /\ (ok = true -> forall L, limit p (KDapp day t) = Some L -> count (KDapp day t) w + amt <= L).
Proof.
  unfold withinDappDailyCap. simpl. intros R. destruct (parse_positive (DappDailyCap p)) as [c|]; run_inv R.
  - split; [done|]. intros Hle L [= <-]. bool_prop. done.
  - done.
Qed.

Lemma dappRemaining_inv p amt w z w' : dappRemaining p amt w = (Ret z, w') -> w' = w.
Proof. unfold dappRemaining. intros R. destruct (parse_positive (DappPerTxFeeCap p)) as [c|]; by run_inv R. Qed.

Lemma try_dapp_bumped ctx p sender to amt w b w' :
  try_dapp ctx p sender to amt w = (Ret b, w') ->
  bumped p (if b then charged (Sponsored Dapp (utc_day ctx) sender to amt) else []) amt w w'.
Proof.
  intros R. unfold try_dapp in R. destruct to as [t|]; run_inv R; try (by apply bumped_same).
  - apply withinDappDailyCap_inv in Hrun as [-> _]. injection Hrun0 as <-. apply bumped_same. same_store_tac.
  - apply withinDappDailyCap_inv in Hrun as [-> Hle]. unfold addDappSpent in Hrun0. run_inv Hrun0.
    apply dappRemaining_inv in Hrun1 as ->. injection Hrun2 as <-. injection Hrun3 as <-. injection Hrun0 as <-.
    apply bumped_set; [apply utc_day_ok|done|apply Hle; by destruct x|same_store_tac].
Qed.

Lemma Reserve_same contract fee w b w' :
  SponsorPool.Reserve contract fee w = (Ret b, w') -> same_store w w'.
Proof.
  unfold SponsorPool.Reserve. intros R. run_inv R; try done. intros k. unfold SponsorPool.setInt.
  match goal with |- context [if ?b then _ else _] => destruct b end; [rewrite kv_get_delete_ne|rewrite kv_get_set_ne]; try done; by left.
Qed.

Lemma try_escrow_bumped pool p sender to amt w b w' : try_escrow pool sender to amt w = (Ret b, w') -> bumped p [] amt w w'.
Proof.
  intros R. unfold try_escrow in R. destruct to as [t|]; run_inv R; try (by apply bumped_same).
  - apply bumped_same. by eapply Reserve_same.
  - apply bumped_same. apply Reserve_same in Hrun. injection Hrun0 as <-. intros k. by rewrite kv_get_emit.
Qed.

Lemma effectiveAllowance_inv p sender w allow w' day :
  effectiveAllowance p sender w = (Ret allow, w') ->
  w' = w /\ forall L, limit p (KAllowance day sender) = Some L -> allow <= L.
Proof.
  unfold effectiveAllowance. simpl. intros R.
  destruct (parse_positive (DailyBudget p)) as [b|] eqn:Eb; [|destruct (parse_positive (BaselineDaily p)) as [bl|] eqn:El]; run_inv R;
    (split; [done|]); intros L [= <-]; try lia.
  - apply parse_positive_Some in Eb as [_ ?]. lia.
  - destruct (bl <? _) eqn:E; bool_prop; simpl; lia.
Qed.

Lemma try_baseline_bumped ctx p sender to amt w b w' :
  try_baseline ctx p sender to amt w = (Ret b, w') ->
  bumped p (if b then charged (Sponsored Baseline (utc_day ctx) sender to amt) else []) amt w w'.
Proof.
  intros R. unfold try_baseline in R. run_inv R;
    apply (effectiveAllowance_inv _ _ _ _ _ (utc_day ctx)) in Hrun as [-> Hle]; try (by apply bumped_same).
  injection Hrun0 as <-. injection Hrun1 as <-. bool_prop.
  apply bumped_set; [apply utc_day_ok|done| |same_store_tac]. intros L HL. specialize (Hle L HL). unfold count, allowanceUsed in *. simpl in *. lia.
Qed.

Lemma overOnboardingCap_inv p day amt w over w' :
  overOnboardingCap p day amt w = (Ret over, w') ->
  w' = w /\ (over = false -> forall L, limit p (KGranted day) = Some L -> count (KGranted day) w + amt <= L).
Proof.
  unfold overOnboardingCap. simpl. intros R. destruct (parse_positive (OnboardingDailyCap p)) as [c|]; run_inv R.
  - split; [done|]. intros Hle L [= <-]. bool_prop. done.
  - done.
Qed.

Lemma tryOnboarding_bumped ctx p sender to amt w b w' :
  tryOnboarding ctx p sender to amt w = (Ret b, w') ->
  bumped p (if b then charged (Sponsored Onboarding (utc_day ctx) sender to amt) else []) amt w w'.
Proof.
  intros R. unfold tryOnboarding in R. destruct (parse_positive (OnboardingGrant p)) as [grant|] eqn:Eg; run_inv R;
    try apply overOnboardingCap_inv in Hrun as [-> Hle]; try (by apply bumped_same).
  injection Hrun0 as <-. unfold addGrantedToday in Hrun1. run_inv Hrun1. injection Hrun1 as <-. injection Hrun2 as <-. bool_prop.
  match goal with |- bumped _ _ _ ?w0 _ => set (wa := w0) in * end.
  apply (bumped_trans p [KOnboarding sender] [KGranted (utc_day ctx)] amt wa
    (kv_set StoreKey (store_key (KOnboarding sender)) (Int_String (count (KOnboarding sender) wa + amt)) wa)).
  - apply bumped_set; [done|done| |done]. intros L [= <-]. rewrite Eg. done.
  - apply bumped_set; [apply utc_day_ok|done| |same_store_tac]. intros L HL.
    rewrite count_set by (done || apply utc_day_ok). rewrite decide_False by done. by apply Hle.
  - intros ck ->%list_elem_of_singleton. by intros ?%list_elem_of_singleton.
Qed.

(** The log entry of a decision. *)
Definition log_path (x : option Path) (day : Z) (sender : string) (to : option string) (amt : Z) : list event :=
  match x with Some y => [Sponsored y day sender to amt] | None => [] end.

Lemma bumped_nil p keys amt w w1 w2 : bumped p [] amt w w1 -> bumped p keys amt w1 w2 -> bumped p keys amt w w2.
Proof. intros H1' H2'. apply (bumped_trans p [] keys amt w w1 w2 H1' H2'). intros ck ?%not_elem_of_nil. done. Qed.

Lemma sponsor_path_bumped pool ctx sender to fees w x w' :
  sponsor_path pool ctx sender to fees w = (Ret x, w') ->
  bumped (GetParams w) (mjoin (charged <$> log_path x (utc_day ctx) sender to (AmountOf fees FeeDenom))) (AmountOf fees FeeDenom) w w'.
Proof.
  intros R. unfold sponsor_path in R. run_inv R; try (by apply bumped_same); cbn [log_path fmap list_fmap mjoin list_join];
    rewrite ?app_nil_r;
    repeat match goal with
    | Hr : try_dapp _ _ _ _ _ _ = (Ret _, _) |- _ => apply try_dapp_bumped in Hr; cbn match in Hr
    | Hr : try_escrow _ _ _ _ _ = _ |- bumped ?p _ _ _ _ => apply (try_escrow_bumped _ p) in Hr
    | Hr : try_baseline _ _ _ _ _ _ = (Ret _, _) |- _ => apply try_baseline_bumped in Hr; cbn match in Hr
    | Hr : tryOnboarding _ _ _ _ _ _ = (Ret _, _) |- _ => apply tryOnboarding_bumped in Hr; cbn match in Hr
    end; eauto using bumped_nil.
Qed.

(** ** The refill *)

Definition supply w : Z := GetSupply (w_bank w) FeeDenom.
Definition log_mint (day amt : Z) : list event := if amt =? 0 then [] else [Minted day amt].

Lemma refill_inv p day deficit amt capped w w' :
  is_u64 day -> (forall L, limit p (KMinted day) = Some L -> count (KMinted day) w + amt <= L) ->
  refill p day deficit amt capped w = (Ret tt, w') ->
  bumped p [KMinted day] amt w w' /\ supply w' = supply w + amt.
Proof.
  intros Hd HL R. unfold refill in R. run_inv R;
    apply on_bank_inv in Hrun as (b1 & M1 & ->); apply on_bank_inv in Hrun0 as (b2 & M2 & ->);
    injection Hrun1 as <-; simpl in M2; apply mint_created in M1; apply m2m_moved in M2;
    (split; [apply bumped_set; try done; same_store_tac|]);
    unfold supply; simpl; rewrite (moved_supply _ _ _ _ _ _ M2), (created_supply _ _ _ _ _ _ _ M1), decide_True by done; lia.
Qed.

Lemma BeginBlock_bumped ctx w w' :
  BeginBlock ctx w = (Ret tt, w') ->
  bumped (GetParams w) (mjoin (charged <$> log_mint (utc_day ctx) (supply w' - supply w))) (supply w' - supply w) w w'.
Proof.
  intros R. unfold BeginBlock in R.
  assert (Hsame : forall w1 : World B, same_store w1 w' -> supply w' = supply w1 ->
    bumped (GetParams w1) (mjoin (charged <$> log_mint (utc_day ctx) (supply w' - supply w1))) (supply w' - supply w1) w1 w').
  { intros w1 Hs ->. rewrite Z.sub_diag. by apply bumped_same. }
  assert (Hmint : forall w1 d a c, (forall L, limit (GetParams w1) (KMinted (utc_day ctx)) = Some L -> count (KMinted (utc_day ctx)) w1 + a <= L) ->
    refill (GetParams w1) (utc_day ctx) d a c w1 = (Ret tt, w') -> a <> 0 ->
    bumped (GetParams w1) (mjoin (charged <$> log_mint (utc_day ctx) (supply w' - supply w1))) (supply w' - supply w1) w1 w').
  { intros w1 d a c HL Hr Ha. destruct (refill_inv _ _ _ _ _ _ _ (utc_day_ok ctx) HL Hr) as [Hb ->].
    replace (supply w1 + a - supply w1) with a by lia. unfold log_mint. by rewrite (proj2 (Z.eqb_neq a 0) Ha). }
  run_inv R; try (by apply Hsame); try (injection R as <-; apply Hsame; [same_store_tac|done]); bool_prop;
    (eapply Hmint; [|exact R|]); try lia; simpl; intros L HL; unfold count, mintedToday in *; simpl in *; simplify_eq; try lia.
Qed.

(** ** Runs

    What happened so far, newest first, and the state reached, under the parameters
    [p], which no message changes. *)
Inductive run (pool : bool) (p : Params) : list event -> World B -> Prop :=
| run_init w : GetParams w = p -> (forall ck, count ck w = 0) -> run pool p [] w
| run_env log w w' : run pool p log w -> same_store w w' -> run pool p log w'
| run_tx log w ctx sender to fees x w' :
    run pool p log w -> sponsor_path pool ctx sender to fees w = (Ret x, w') ->
    run pool p (log_path x (utc_day ctx) sender to (AmountOf fees FeeDenom) ++ log) w'
| run_begin log w ctx w' :
    run pool p log w -> BeginBlock ctx w = (Ret tt, w') ->
    run pool p (log_mint (utc_day ctx) (supply w' - supply w) ++ log) w'.

Definition accounted (p : Params) (log : list event) w : Prop :=
  GetParams w = p /\ forall ck, day_ok ck -> count ck w = total ck log /\ forall L, limit p ck = Some L -> total ck log <= L.

Lemma limit_nonneg p ck L : limit p ck = Some L -> 0 <= L.
Proof.
  assert (Hd : forall s, 0 <= default 0 (parse_positive s)).
  { intros s. destruct (parse_positive s) eqn:E; [apply parse_positive_Some in E as [_ ?]|]; simpl; lia. }
  destruct ck; simpl; try (intros [_ ?]%parse_positive_Some; lia); intros [= <-]; [|apply Hd].
  destruct (parse_positive (DailyBudget p)) eqn:E; [apply parse_positive_Some in E as [_ ?]; lia|apply Hd].
Qed.

(** A step that logs at most one event and bumps its counters keeps the accounts. *)
Lemma accounted_step p log es amt w w' :
  accounted p log w -> (es = [] \/ exists e, es = [e] /\ ev_amount e = amt) ->
  bumped (GetParams w) (mjoin (charged <$> es)) amt w w' -> accounted p (es ++ log) w'.
Proof.
  intros [Hp Ha] Hes [Hk HP HC HL]. split; [congruence|]. intros ck Hd. destruct (Ha ck Hd) as [Hc Hlim].
  rewrite HC, Hc by done. rewrite Hp in HL. destruct Hes as [->|(e & -> & <-)].
  - change (mjoin (charged <$> [])) with (@nil ckey). rewrite app_nil_l, decide_False by apply not_elem_of_nil. split; [lia|done].
  - change (mjoin (charged <$> [e])) with (charged e ++ []) in *. rewrite app_nil_r in *.
    change (total ck ([e] ++ log)) with ((if decide (ck ∈ charged e) then ev_amount e else 0) + total ck log).
    split; [lia|]. intros L HL'.
    specialize (Hlim L HL'). case_decide as E; [|lia]. specialize (HL ck L E HL'). lia.
Qed.

(** C17: in every run, each counter is the sum of what it was charged and stays
    within its bound: an account's sponsored fees of a day within the daily budget,
    its onboarding draw within the lifetime grant, all onboarding of a day and each
    contract's sponsorship of a day within their caps, and the coins minted for the
    pool in a day within the mint cap, whatever transactions and blocks are
    interleaved. *)
Theorem budgets_respected pool p log w ck :
  run pool p log w -> day_ok ck ->
  count ck w = total ck log /\ forall L, limit p ck = Some L -> total ck log <= L.
Proof.
  intros Hr Hd. enough (accounted p log w) as [_ Ha] by by apply Ha. clear ck Hd.
  induction Hr as [w Hp H0'|log w w' _ IH Hs|log w ctx sender to fees x w' _ IH R|log w ctx w' _ IH R].
  - split; [done|]. intros ck _. split; [apply H0'|]. intros L HL. apply (limit_nonneg _ _ _ HL).
  - destruct IH as [Hp Ha]. split; [by rewrite (same_store_params _ _ Hs)|]. intros ck Hd.
    rewrite (same_store_count _ _ _ Hs). by apply Ha.
  - apply sponsor_path_bumped in R. eapply accounted_step; [exact IH| |exact R].
    destruct x as [y|]; [right; by eexists|by left].
  - apply BeginBlock_bumped in R. eapply accounted_step; [exact IH| |exact R].
    unfold log_mint. destruct (_ =? 0); [by left|right; by eexists].
Qed.

(** The amount a block mints: the deficit, cut to what the day's cap leaves. *)
Definition refill_amount (ctx : Ctx) w : Z :=
  let p := GetParams w in
  if negb (RefillEnabled p) then 0 else
  match parse_positive (MinPoolBalance p) with
  | None => 0
  | Some target =>
      let deficit := Z.max 0 (target - PoolBalance w) in
      match parse_positive (RefillDailyMintCap p) with
      | None => deficit
      | Some cap => Z.max 0 (Z.min deficit (cap - mintedToday (utc_day ctx) w))
      end
  end.

Lemma counter_fits key w : 0 <= counter key w -> counter key w < 2 ^ 256.
Proof.
  unfold counter. destruct (kv_get StoreKey key w) as [bz|]; [|lia].
  destruct (NewIntFromString bz) as [v|] eqn:E; [|lia]. apply NewIntFromString_fits, int_fits_spec in E. lia.
Qed.

(** The effect of minting [amt] into the pool. *)
Definition refill_post (day amt : Z) w w' : Prop :=
  (forall a d, GetBalance (w_bank w') a d = GetBalance (w_bank w) a d
     + (if decide (a = NewModuleAddress GasPoolName /\ d = FeeDenom) then amt else 0)) /\
  supply w' = supply w + amt /\ mintedToday day w' = mintedToday day w + amt /\ bank_valid (w_bank w').

Lemma refill_run p day deficit amt capped w :
  bank_valid (w_bank w) -> is_u64 day -> 0 < amt -> 0 <= mintedToday day w -> mintedToday day w + amt < 2 ^ 256 ->
  supply w + amt < 2 ^ 256 -> GetBalance (w_bank w) (NewModuleAddress ModuleName) FeeDenom + amt < 2 ^ 256 ->
  PoolBalance w + amt < 2 ^ 256 ->
  exists w', refill p day deficit amt capped w = (Ret tt, w') /\ refill_post day amt w w'.
Proof.
  intros Hv Hd Ha Hm Hmf Hs Hb Hp.
  assert (Hne : NewModuleAddress ModuleName <> NewModuleAddress GasPoolName) by (intros E; by apply NewModuleAddress_inj in E).
  destruct (mint_enough ModuleName FeeDenom amt (w_bank w)) as [b1 R1]; [done..|].
  pose proof (mint_valid _ _ _ _ _ Hv R1) as Hv1. pose proof (mint_created _ _ _ _ R1) as C1.
  pose proof (GetBalance_range _ (NewModuleAddress ModuleName) FeeDenom Hv) as Hr.
  destruct (m2m_enough ModuleName GasPoolName FeeDenom amt b1) as [b2 R2]; [done..| | |].
  { rewrite (created_balance _ _ _ _ _ _ _ _ C1). bank_lia. }
  { rewrite (created_balance _ _ _ _ _ _ _ _ C1). unfold PoolBalance in Hp. bank_lia. }
  pose proof (m2m_valid _ _ _ _ _ _ Hv1 R2) as Hv2. pose proof (m2m_moved _ _ _ _ _ R2) as C2.
  unfold refill. run_seq (on_bank_run _ _ _ _ R1). run_seq (on_bank_run _ (set_bank b1 w) _ _ R2). run_gets.
  change (mintedToday day (set_bank b2 (set_bank b1 w))) with (mintedToday day w).
  run_seq (int_add_run (mintedToday day w) amt (set_bank b2 (set_bank b1 w)) ltac:(apply int_fits_spec; lia)).
  assert (Hpost : forall w' : World B, w_bank w' = b2 ->
    same_store (kv_set StoreKey (store_key (KMinted day)) (Int_String (mintedToday day w + amt)) w) w' -> refill_post day amt w w').
  { intros w' Hw Hst. unfold refill_post, supply. rewrite Hw. split_and!; [| | |done].
    - intros a d. rewrite (moved_balance _ _ _ _ _ _ _ _ C2), (created_balance _ _ _ _ _ _ _ _ C1). bank_lia.
    - rewrite (moved_supply _ _ _ _ _ _ C2), (created_supply _ _ _ _ _ _ _ C1), decide_True by done. lia.
    - change (count (KMinted day) w' = count (KMinted day) w + amt). rewrite (same_store_count _ _ _ Hst).
      rewrite count_set by (done || (apply int_fits_spec; lia)). by rewrite decide_True. }
  destruct capped; eexists; (split; [reflexivity|]); (apply Hpost; [done|same_store_tac]).
Qed.

(** The begin block never fails while the sums stay in range, and tops the
    pool up exactly: it mints what is missing to the target, cut to what the day's
    cap leaves, all of it goes to the gas pool, no other balance changes, and the
    day's counter grows by the minted amount. *)
Theorem BeginBlock_refills ctx w :
  let amt := refill_amount ctx w in
  let day := utc_day ctx in
  bank_valid (w_bank w) -> 0 <= mintedToday day w -> mintedToday day w + amt < 2 ^ 256 -> supply w + amt < 2 ^ 256 ->
  GetBalance (w_bank w) (NewModuleAddress ModuleName) FeeDenom + amt < 2 ^ 256 ->
  exists w', BeginBlock ctx w = (Ret tt, w') /\ refill_post day amt w w'.
Proof.
  intros amt day Hv Hm Hmf Hs Hb. pose proof (utc_day_ok ctx) as Hd. fold day in Hd.
  assert (Hsame : forall w' : World B, amt = 0 -> w_bank w' = w_bank w -> same_store w w' -> refill_post day amt w w').
  { intros w' -> Hw Hst. unfold refill_post, supply. rewrite Hw. split_and!; [intros; case_decide; lia|lia| |done].
    rewrite Z.add_0_r. by apply (same_store_count w w' (KMinted day)). }
  pose proof (GetBalance_range _ (NewModuleAddress GasPoolName) FeeDenom Hv) as Hpr. fold (PoolBalance w) in Hpr.
  pose proof (counter_fits _ _ Hm) as Hmr. fold (mintedToday day w) in Hmr.
  unfold BeginBlock. run_gets. unfold amt, refill_amount in *. fold day in Hsame, Hmf, Hs, Hb |- *.
  destruct (RefillEnabled (GetParams w)); cbn [negb] in *; [|by exists w; split; [|apply Hsame]].
  destruct (parse_positive (MinPoolBalance (GetParams w))) as [target|] eqn:Et; [|by exists w; split; [|apply Hsame]].
  apply parse_positive_Some in Et as [Et Htp]. apply NewIntFromString_fits, int_fits_spec in Et.
  run_gets. destruct (target <=? PoolBalance w) eqn:E; bool_prop.
  { exists w. split; [done|]. apply Hsame; [|done|done]. destruct (parse_positive (RefillDailyMintCap _)); lia. }
  run_seq (int_sub_run target (PoolBalance w) w ltac:(apply int_fits_spec; lia)).
  rewrite (Z.max_r 0 (target - PoolBalance w)) in * by lia.
  destruct (parse_positive (RefillDailyMintCap (GetParams w))) as [cap|] eqn:Ec.
  - apply parse_positive_Some in Ec as [Ec Hcp]. apply NewIntFromString_fits, int_fits_spec in Ec. run_gets.
    run_seq (int_sub_run cap (mintedToday day w) w ltac:(apply int_fits_spec; lia)).
    destruct (0 <? cap - mintedToday day w) eqn:Er; cbn [negb]; bool_prop.
    + destruct (cap - mintedToday day w <? target - PoolBalance w) eqn:El; bool_prop.
      * rewrite (Z.max_r 0), Z.min_r in * by lia. apply refill_run; try done; lia.
      * rewrite (Z.max_r 0), Z.min_l in * by lia. apply refill_run; try done; lia.
    + eexists. split; [reflexivity|]. apply Hsame; [lia|done|same_store_tac].
  - apply refill_run; try done; lia.
Qed.

End counters.

(** ** A concrete day *)
Module Example.
#[local] Existing Instance decimal_MathInt.
#[local] Existing Instance decimal_MathIntLaws.
#[local] Instance Params_JSON : JSON Params := codec_JSON Params.
#[local] Instance Pool_JSON : JSON SponsorPool.Params := @codec_JSON _ SponsorPool.Params_codec.
#[local] Instance App_JSON : JSON Contest.ShowcaseApp := @codec_JSON _ Contest.ShowcaseApp_codec.
#[local] Instance addresses : Bech32 := {| AccAddress_String s := s |}.

Definition p : Params := mkParams true "0" true "1000" "0" "1" "40" "600" "50" "100" "10" "20" "30".
Definition ctx : Ctx := mkCtx 864000 1 false false.
Definition dapp : string := "dddddddddddddddddddd".
Definition w0 : World ledger :=
  mkWorld (mkLedger {[ ("alice", FeeDenom) := 50 ]} {[ FeeDenom := 50 ]})
    (<[StoreKey := {[ ParamsKey := json_Marshal p ]}]>
      {[ Contest.StoreKey := {[ Contest.showcaseKey (lower_hex dapp) :=
           json_Marshal (Contest.mkApp (lower_hex dapp) "dev" "evm" true) ]} ]}) [].

(** Alice uses the application, then her daily budget; zoe holds nothing and is
    granted her first transaction, but not a second one of the same size. *)
Definition w1 := (BeginBlock ctx w0).2.
Definition w2 := (sponsor_path true ctx "alice" (Some dapp) [(FeeDenom, 40)] w1).2.
Definition w3 := (sponsor_path true ctx "alice" (Some dapp) [(FeeDenom, 40)] w2).2.
Definition w4 := (sponsor_path true ctx "zoe" None [(FeeDenom, 15)] w3).2.
Definition w5 := (sponsor_path true ctx "zoe" None [(FeeDenom, 15)] w4).2.
Definition log : list event :=
  [Sponsored Onboarding 10 "zoe" None 15; Sponsored Baseline 10 "alice" (Some dapp) 40;
   Sponsored Dapp 10 "alice" (Some dapp) 40; Minted 10 600].

Lemma run_w5 : run true p log w5.
Proof.
  assert (E1 : BeginBlock ctx w0 = (Ret tt, w1)) by (vm_compute; reflexivity).
  assert (E2 : sponsor_path true ctx "alice" (Some dapp) [(FeeDenom, 40)] w1 = (Ret (Some Dapp), w2)) by (vm_compute; reflexivity).
  assert (E3 : sponsor_path true ctx "alice" (Some dapp) [(FeeDenom, 40)] w2 = (Ret (Some Baseline), w3)) by (vm_compute; reflexivity).
  assert (E4 : sponsor_path true ctx "zoe" None [(FeeDenom, 15)] w3 = (Ret (Some Onboarding), w4)) by (vm_compute; reflexivity).
  assert (E5 : sponsor_path true ctx "zoe" None [(FeeDenom, 15)] w4 = (Ret None, w5)) by (vm_compute; reflexivity).
  assert (R0 : run true p [] w0).
  { apply run_init; [vm_compute; reflexivity|]. intros ck. unfold count, counter.
    assert (E : kv_get StoreKey (store_key ck) w0 = None); [|by rewrite E].
    unfold kv_get, kvs, w0. cbn [w_kv]. rewrite lookup_insert_eq. apply lookup_singleton_ne, not_eq_sym, params_key_ne. }
  assert (Em : log_mint (utc_day ctx) (supply w1 - supply w0) = [Minted 10 600]) by (vm_compute; reflexivity).
  pose proof (run_begin _ _ _ _ _ _ R0 E1) as R1. rewrite Em in R1.
  pose proof (run_tx _ _ _ _ _ _ _ _ _ _ R1 E2) as R2. pose proof (run_tx _ _ _ _ _ _ _ _ _ _ R2 E3) as R3.
  pose proof (run_tx _ _ _ _ _ _ _ _ _ _ R3 E4) as R4. exact (run_tx _ _ _ _ _ _ _ _ _ _ R4 E5).
Qed.

Lemma budgets_respected_witness :
  run true p log w5 /\ count (KMinted 10) w5 = 600 /\ total (KMinted 10) log <= 600.
Proof.
  split; [exact run_w5|].
  assert (Hd : day_ok (KMinted 10)) by (unfold day_ok, is_u64; lia).
  assert (HL : limit p (KMinted 10) = Some 600) by (vm_compute; reflexivity).
  assert (HT : total (KMinted 10) log = 600) by (vm_compute; reflexivity).
  destruct (budgets_respected true p log w5 (KMinted 10) run_w5 Hd) as [Hc Hl].
  split; [rewrite Hc; exact HT|exact (Hl 600 HL)].
Defined.

Lemma BeginBlock_refills_witness :
  refill_amount ctx w0 = 600 /\ exists w', BeginBlock ctx w0 = (Ret tt, w') /\ refill_post (utc_day ctx) (refill_amount ctx w0) w0 w'.
Proof.
  split; [vm_compute; reflexivity|].
  assert (H1 : bank_valid (w_bank w0)) by (apply map_Forall_singleton; vm_compute; reflexivity).
  assert (H2 : 0 <= mintedToday (utc_day ctx) w0) by (vm_compute; discriminate).
  assert (H3 : mintedToday (utc_day ctx) w0 + refill_amount ctx w0 < 2 ^ 256) by (vm_compute; reflexivity).
  assert (H4 : supply w0 + refill_amount ctx w0 < 2 ^ 256) by (vm_compute; reflexivity).
  assert (H5 : GetBalance (w_bank w0) (NewModuleAddress ModuleName) FeeDenom + refill_amount ctx w0 < 2 ^ 256) by (vm_compute; reflexivity).
  exact (BeginBlock_refills ctx w0 H1 H2 H3 H4 H5).
Defined.

End Example.
End GasSponsor.
