(* ===== verification/FeeMarket.v ===== *)
(** * x/feemarket: the EIP-1559 base fee

    Models x/feemarket/types (parameters, [CalcGasBaseFee]) and x/feemarket/keeper
    (the stored parameters and block gas, the begin block that adjusts the base fee
    and the end block that records the gas the next adjustment is based on). *)
From S2P Require Import Prelude Codec Bank.
From stdpp Require Import gmap strings list.
From Stdlib Require Import ZArith Lia.

#[local] Set Default Goal Selector "!".
Open Scope Z_scope.

(** ** cosmossdk.io/math.LegacyDec

    A decimal with 18 fractional digits is the integer of its units.  The library
    panics when a result has more bits than it documents, [dec_fits]. *)
Class LegacyDec : Type := { dec_fits : Z -> bool; Dec_String : Z -> string }.
Class LegacyDecLaws `{LegacyDec} : Prop := { dec_fits_spec z : dec_fits z = true <-> Z.abs z < 2 ^ 315 }.

Definition dec_one : Z := 10 ^ 18.

Section decimals.
Context `{LegacyDec}.

Definition dec_result (z : Z) : outcome Z := if dec_fits z then Ret z else Panic "Int overflow".

(** [chopPrecisionAndRound]: division by [10^18], half to even. *)
Definition chop_pos (d : Z) : Z :=
  let q := d / dec_one in
  match 2 * (d mod dec_one) ?= dec_one with
  | Lt => q
  | Gt => q + 1
  | Eq => if Z.even q then q else q + 1
  end.
Definition chop (d : Z) : Z := if d <? 0 then - chop_pos (- d) else chop_pos d.

Definition dec_of_int (z : Z) : outcome Z := Ret (z * dec_one).
Definition dec_add (a b : Z) : outcome Z := dec_result (a + b).
Definition dec_sub (a b : Z) : outcome Z := dec_result (a - b).
Definition dec_mul (a b : Z) : outcome Z := dec_result (chop (a * b)).
(** [QuoInt] truncates and panics on a zero divisor. *)
Definition dec_quo_int (a b : Z) : outcome Z := if b =? 0 then Panic "division by zero" else Ret (Z.quot a b).
Definition dec_truncate (a : Z) : Z := Z.quot a dec_one.

End decimals.

Module FeeMarket.

Definition ModuleName : string := "feemarket".
Definition StoreKey : string := ModuleName.
Definition ParamsKey : string := "Params".
Definition KeyPrefixBlockGasWanted : string := byte_prefix 1.

(** A nil decimal is [None]. *)
Record Params := mkParams {
  NoBaseFee : bool;
  BaseFeeChangeDenominator : Z;
  ElasticityMultiplier : Z;
  EnableHeight : Z;
  BaseFee : option Z;
  MinGasPrice : option Z;
  MinGasMultiplier : option Z
}.

Definition DefaultParams : Params :=
  mkParams false 8 2 0 (Some (1000000000 * dec_one)) (Some 0) (Some (dec_one / 2)).

Definition validateMinGasPrice (gasPrice : option Z) : outcome unit :=
  match gasPrice with
  | None => Err "invalid parameter: nil"
  | Some g => if g <? 0 then Err "value cannot be negative" else Ret tt
  end.
Definition validateMinGasMultiplier (multiplier : option Z) : outcome unit :=
  match multiplier with
  | None => Err "invalid parameter: nil"
  | Some g => if g <? 0 then Err "value cannot be negative"
              else if dec_one <? g then Err "value cannot be greater than 1" else Ret tt
  end.

(** [Params.Validate]; [IsNegative] of a nil decimal panics. *)
Definition Validate (p : Params) : outcome unit :=
  if BaseFeeChangeDenominator p =? 0 then Err "base fee change denominator cannot be 0" else
  match BaseFee p with
  | None => Panic "nil pointer dereference"
  | Some b =>
      if b <? 0 then Err "initial base fee cannot be negative" else
      if EnableHeight p <? 0 then Err "enable height cannot be negative" else
      if ElasticityMultiplier p =? 0 then Err "elasticity multiplier cannot be zero" else
      validateMinGasMultiplier (MinGasMultiplier p) ≫= fun _ => validateMinGasPrice (MinGasPrice p)
  end.

Definition IsBaseFeeEnabled (p : Params) (height : Z) : bool := negb (NoBaseFee p) && (EnableHeight p <=? height).

(** types/utils.go *)
Definition CalcGasBaseFee `{LegacyDec} (gasUsed gasTarget baseFeeChangeDenom baseFee minUnitGas : Z) (minGasPrice : option Z) : outcome Z :=
  if gasUsed =? gasTarget then Ret baseFee else
  if gasTarget =? 0 then Ret 0 else
  num ← dec_of_int (Z.abs (gasUsed - gasTarget));
  num ← dec_mul num baseFee;
  num ← dec_quo_int num gasTarget;
  num ← dec_quo_int num baseFeeChangeDenom;
  if gasTarget <? gasUsed then dec_add baseFee (Z.max num minUnitGas)
  else d ← dec_sub baseFee num;
       match minGasPrice with Some m => Ret (Z.max d m) | None => Panic "nil pointer dereference" end.

(** The protobuf encoding of the parameters: a nil decimal is written as zero. *)
Class ParamsProto : Type := { pb_Marshal : Params -> string; pb_Unmarshal : string -> option Params }.

Definition or_zero (d : option Z) : option Z := Some (default 0 d).
Definition stored (p : Params) : Params :=
  mkParams (NoBaseFee p) (BaseFeeChangeDenominator p) (ElasticityMultiplier p) (EnableHeight p)
    (or_zero (BaseFee p)) (or_zero (MinGasPrice p)) (or_zero (MinGasMultiplier p)).
Class ParamsProtoLaws `{ParamsProto} : Prop := { pb_roundtrip p : pb_Unmarshal (pb_Marshal p) = Some (stored p) }.

Record GenesisState := mkGenesis { gs_Params : Params; gs_BlockGas : Z }.
Definition DefaultGenesisState : GenesisState := mkGenesis DefaultParams 0.
Definition Genesis_Validate (gs : GenesisState) : outcome unit := Validate (gs_Params gs).

Section keeper.
Context {B : Type} `{MathInt} `{LegacyDec} `{ParamsProto}.
Implicit Types w : World B.

(** [MustUnmarshal] panics. *)
Definition GetParams : M (World B) Params := fun w =>
  match kv_get StoreKey ParamsKey w with
  | None => (Ret DefaultParams, w)
  | Some bz => match pb_Unmarshal bz with Some p => (Ret p, w) | None => (Panic "unmarshal", w) end
  end.
Definition SetParams (p : Params) : M (World B) unit := modify (kv_set StoreKey ParamsKey (pb_Marshal p)).

Definition GetBaseFee : M (World B) (option Z) :=
  p ← GetParams; mret (if NoBaseFee p then None else BaseFee p).
Definition with_base_fee (p : Params) (b : Z) : Params :=
  mkParams (NoBaseFee p) (BaseFeeChangeDenominator p) (ElasticityMultiplier p) (EnableHeight p) (Some b) (MinGasPrice p) (MinGasMultiplier p).
Definition SetBaseFee (b : Z) : M (World B) unit :=
  p ← GetParams; SetParams (with_base_fee p b).

Definition SetBlockGasWanted (gas : Z) : M (World B) unit := modify (kv_set StoreKey KeyPrefixBlockGasWanted (be64 gas)).
(** [BigEndianToUint64] of nothing is zero. *)
Definition GetBlockGasWanted w : Z :=
  match kv_get StoreKey KeyPrefixBlockGasWanted w with
  | None => 0
  | Some bz => if String.eqb bz EmptyString then 0 else be_decode bz
  end.

(** The block gas limit the target is computed from (eip1559.go). *)
Definition gas_limit (maxGas : option Z) : Z :=
  match maxGas with Some g => if -1 <? g then g else 2 ^ 64 - 1 | None => 2 ^ 64 - 1 end.

(** [maxGas] is the consensus parameter ([None] without block parameters),
    [factor] the conversion factor of the EVM coin. *)
Definition CalculateBaseFee (height : Z) (maxGas : option Z) (factor : Z) : M (World B) (option Z) :=
  params ← GetParams;
  if negb (IsBaseFeeEnabled params height) then mret None else
  if height =? EnableHeight params then mret (BaseFee params) else
  match BaseFee params with
  | None => mret None
  | Some parentBaseFee =>
      parentGasUsed ← gets GetBlockGasWanted;
      parentGasTarget ← int_quo (gas_limit maxGas) (ElasticityMultiplier params);
      if negb ((0 <=? parentGasTarget) && (parentGasTarget <? 2 ^ 64)) then mret None else
      unit ← lift_outcome (dec_quo_int dec_one factor);
      b ← lift_outcome (CalcGasBaseFee parentGasUsed parentGasTarget (BaseFeeChangeDenominator params) parentBaseFee unit
            (MinGasPrice params));
      mret (Some b)
  end.

Definition BeginBlock (height : Z) (maxGas : option Z) (factor : Z) : M (World B) unit :=
  baseFee ← CalculateBaseFee height maxGas factor;
  match baseFee with
  | None => mret tt
  | Some b =>
      SetBaseFee b;;
      modify (emit (mkEvent "fee_market" [("base_fee", Dec_String b)]))
  end.

(** [meter] says whether the context has a block gas meter. *)
Definition EndBlock (height : Z) (meter : bool) (gasWanted gasUsed : Z) : M (World B) unit :=
  if negb meter then fail "block gas meter is nil when setting block gas wanted" else
  if 2 ^ 63 - 1 <? gasWanted then fail "integer overflow by integer type conversion. Gas wanted > MaxInt64" else
  if 2 ^ 63 - 1 <? gasUsed then fail "integer overflow by integer type conversion. Gas used > MaxInt64" else
  params ← GetParams;
  match MinGasMultiplier params with
  | None => panic "nil pointer dereference"
  | Some mult =>
      wanted ← lift_outcome (dec_of_int gasWanted);
      limited ← lift_outcome (dec_mul wanted mult);
      used ← lift_outcome (dec_of_int gasUsed);
      let updated := dec_truncate (Z.max limited used) in
      if negb ((0 <=? updated) && (updated <? 2 ^ 64)) then panic "Uint64() out of bounds" else
      SetBlockGasWanted updated;;
      modify (emit (mkEvent "block_gas" [("height", Int_String height); ("amount", Int_String updated)]))
  end.

(** [ValidateAuthority] of the SDK decides with [authorized]. *)
Definition UpdateParams (authorized : bool) (p : Params) : M (World B) unit :=
  if negb authorized then fail "unauthorized" else SetParams p.

Definition InitGenesis (gs : GenesisState) : M (World B) unit :=
  SetParams (gs_Params gs);; SetBlockGasWanted (gs_BlockGas gs).
Definition ExportGenesis : M (World B) GenesisState :=
  p ← GetParams; g ← gets GetBlockGasWanted; mret (mkGenesis p g).

End keeper.

(** ** The adjustment *)
Section adjustment.
Context `{LegacyDecLaws}.

(** [b * delta / target / denom], rounded down twice. *)
Definition fee_step (b delta target denom : Z) : Z := b * delta / target / denom.

Lemma chop_exact z : chop (z * dec_one) = z.
Proof.
  assert (Hp : forall n, 0 <= n -> chop_pos (n * dec_one) = n).
  { intros n Hn. unfold chop_pos. rewrite Z.mod_mul, Z.div_mul by (unfold dec_one; lia). done. }
  unfold chop. destruct (z * dec_one <? 0) eqn:E; bool_prop; unfold dec_one in *.
  - rewrite <- Z.mul_opp_l. rewrite Hp by lia. lia.
  - apply Hp. lia.
Qed.

(** The result, in closed form. *)
Lemma CalcGasBaseFee_run used target denom b unit minp :
  0 <= used < 2 ^ 64 -> 0 <= target < 2 ^ 64 -> 0 < denom -> 0 <= b -> 0 <= unit -> b + unit < 2 ^ 250 ->
  CalcGasBaseFee used target denom b unit (Some minp) = Ret
    (if used =? target then b
     else if target =? 0 then 0
     else let s := fee_step b (Z.abs (used - target)) target denom in
          if target <? used then b + Z.max s unit else Z.max (b - s) minp).
Proof.
  intros Hu Ht Hd Hb Hunit Hf. unfold CalcGasBaseFee, fee_step.
  destruct (used =? target) eqn:E1; [done|]. destruct (target =? 0) eqn:E2; [done|]. bool_prop.
  set (delta := Z.abs (used - target)). assert (Hdl : 0 <= delta < 2 ^ 64) by lia.
  simpl. unfold dec_mul, dec_result.
  replace (delta * dec_one * b) with ((b * delta) * dec_one) by ring. rewrite chop_exact.
  assert (Hn : 0 <= b * delta < 2 ^ 314) by nia.
  rewrite (proj2 (dec_fits_spec (b * delta))) by lia. simpl. unfold dec_quo_int.
  rewrite (proj2 (Z.eqb_neq target 0)) by lia. simpl. rewrite (proj2 (Z.eqb_neq denom 0)) by lia. simpl.
  assert (Hq : 0 <= b * delta / target <= b * delta).
  { split; [apply Z.div_pos; lia|]. apply Z.div_le_upper_bound; nia. }
  assert (Hq2 : 0 <= b * delta / target / denom <= b * delta / target).
  { split; [apply Z.div_pos; lia|]. apply Z.div_le_upper_bound; nia. }
  rewrite (Z.quot_div_nonneg (b * delta) target) by lia. rewrite Z.quot_div_nonneg by lia.
  unfold dec_add, dec_sub, dec_result.
  destruct (target <? used) eqn:E3; bool_prop.
  - rewrite (proj2 (dec_fits_spec _)); [done|]. lia.
  - rewrite (proj2 (dec_fits_spec _)); [done|]. lia.
Qed.

(** How far one step moves the fee when a block uses at most [E] times its target. *)
Lemma fee_step_bounds b delta target denom k :
  0 <= b -> 0 < target -> 0 < denom -> 0 <= delta <= k * target -> 0 <= fee_step b delta target denom <= b * k / denom.
Proof.
  intros Hb Ht Hd Hk. unfold fee_step.
  assert (Hq : 0 <= b * delta / target <= b * k).
  { split; [apply Z.div_pos; nia|]. apply Z.div_le_upper_bound; nia. }
  split; [apply Z.div_pos; lia|]. apply Z.div_le_mono; lia.
Qed.

(** The fee [b'] that follows the fee [b] after a block that used [used] gas. *)
Record adjusted (used target E denom unit b m b' : Z) : Prop := {
  ad_kept : used = target -> b' = b;
  ad_no_target : target = 0 -> used <> 0 -> b' = 0;
  ad_raised : 0 < target < used -> b < b' /\ b' = b + Z.max (fee_step b (used - target) target denom) unit;
  ad_lowered : used < target -> b' = Z.max (b - fee_step b (target - used) target denom) m /\ m <= b' <= Z.max b m /\ b - b / denom <= b';
  ad_bounded : 0 < target < used /\ used <= E * target -> b' <= b + Z.max (b * (E - 1) / denom) unit
}.

Lemma CalcGasBaseFee_adjusts used target E denom b unit m :
  0 <= used < 2 ^ 64 -> 0 <= target < 2 ^ 64 -> 0 < denom -> 0 <= b -> 1 <= unit -> b + unit < 2 ^ 250 -> 0 <= m ->
  exists b', CalcGasBaseFee used target denom b unit (Some m) = Ret b' /\ 0 <= b' /\ adjusted used target E denom unit b m b'.
Proof.
  intros Hu Ht Hd Hb Hunit Hfit Hm. rewrite CalcGasBaseFee_run by (done || lia). eexists. split; [reflexivity|].
  destruct (Z.eqb_spec used target) as [Heq|Hne]; [split; [done|]; split; lia|].
  destruct (Z.eqb_spec target 0) as [Hz|Hnz]; [split; [done|]; split; lia|]. cbv zeta.
  pose proof (fee_step_bounds b (Z.abs (used - target)) target denom 1 Hb ltac:(lia) ltac:(lia)) as Hdown.
  pose proof (fee_step_bounds b (Z.abs (used - target)) target denom (E - 1) Hb ltac:(lia) ltac:(lia)) as Hup.
  assert (Hstep : 0 <= fee_step b (Z.abs (used - target)) target denom).
  { unfold fee_step. apply Z.div_pos; [apply Z.div_pos|]; nia. }
  assert (Hbd : b / denom <= b) by (apply Z.div_le_upper_bound; nia).
  rewrite Z.mul_1_r in Hdown. destruct (Z.ltb_spec target used) as [Hlt|Hge].
  - rewrite Z.abs_eq in * by lia. split; [lia|]. split; lia.
  - rewrite Z.abs_neq in * by lia. replace (- (used - target)) with (target - used) in * by lia.
    specialize (Hdown ltac:(lia)). split; [lia|]. split; lia.
Qed.

End adjustment.

(** ** The begin block *)
Section begin_block.
Context {B : Type} `{MathIntLaws} `{LegacyDecLaws} `{ParamsProtoLaws}.
Implicit Types w : World B.

(** What [Validate] accepts. *)
Lemma Validate_inv p :
  Validate p = Ret tt -> exists b m x, BaseFee p = Some b /\ 0 <= b /\ MinGasPrice p = Some m /\ 0 <= m /\
    MinGasMultiplier p = Some x /\ 0 <= x <= dec_one /\ 0 <= EnableHeight p /\
    BaseFeeChangeDenominator p <> 0 /\ ElasticityMultiplier p <> 0.
Proof.
  unfold Validate. destruct (BaseFeeChangeDenominator p =? 0) eqn:E1; [done|]. destruct (BaseFee p) as [b|]; [|done].
  destruct (b <? 0) eqn:E2; [done|]. destruct (EnableHeight p <? 0) eqn:E3; [done|].
  destruct (ElasticityMultiplier p =? 0) eqn:E4; [done|]. unfold validateMinGasMultiplier, validateMinGasPrice.
  destruct (MinGasMultiplier p) as [x|]; [|done]. destruct (x <? 0) eqn:E5; [done|]. destruct (dec_one <? x) eqn:E6; [done|].
  simpl. destruct (MinGasPrice p) as [m|]; [|done]. destruct (m <? 0) eqn:E7; [done|]. intros _. bool_prop.
  exists b, m, x. by split_and!.
Qed.

Lemma Validate_base_fee p b : Validate p = Ret tt -> 0 <= b -> Validate (with_base_fee p b) = Ret tt.
Proof.
  intros Hv Hb. destruct (Validate_inv p Hv) as (b0 & _ & _ & E & _). unfold Validate in *. rewrite E in Hv. simpl.
  destruct (BaseFeeChangeDenominator p =? 0); [done|]. destruct (b0 <? 0); [done|].
  by rewrite (proj2 (Z.ltb_ge b 0) Hb).
Qed.

Lemma stored_valid p : Validate p = Ret tt -> stored p = p.
Proof.
  intros (b & m & x & Eb & _ & Em & _ & Ex & _)%Validate_inv. destruct p. simpl in *. unfold stored. simpl. by subst.
Qed.

Lemma CalculateBaseFee_run w p b b' height maxGas factor :
  GetParams w = (Ret p, w) -> NoBaseFee p = false -> EnableHeight p < height -> BaseFee p = Some b ->
  0 < ElasticityMultiplier p -> 0 <= gas_limit maxGas < 2 ^ 64 -> 0 < factor ->
  CalcGasBaseFee (GetBlockGasWanted w) (gas_limit maxGas / ElasticityMultiplier p) (BaseFeeChangeDenominator p) b
    (dec_one / factor) (MinGasPrice p) = Ret b' ->
  CalculateBaseFee height maxGas factor w = (Ret (Some b'), w).
Proof.
  intros Hp Hno Hh Hb HE Hl Hf R. unfold CalculateBaseFee.
  set (target := gas_limit maxGas / ElasticityMultiplier p) in *.
  assert (Ht : 0 <= target < 2 ^ 64).
  { unfold target. split; [apply Z.div_pos; lia|]. apply Z.div_lt_upper_bound; nia. }
  run_seq Hp. unfold IsBaseFeeEnabled. rewrite Hno, (proj2 (Z.leb_le _ _)) by lia. cbn [negb andb].
  rewrite (proj2 (Z.eqb_neq height _)) by lia. rewrite Hb. run_gets.
  assert (Hq : Z.quot (gas_limit maxGas) (ElasticityMultiplier p) = target) by (rewrite Z.quot_div_nonneg by lia; done).
  assert (Hfit : int_fits (Z.quot (gas_limit maxGas) (ElasticityMultiplier p)) = true) by (apply int_fits_spec; lia).
  run_seq (int_quo_run (gas_limit maxGas) (ElasticityMultiplier p) w ltac:(lia) Hfit). rewrite Hq.
  rewrite (proj2 (Z.leb_le 0 target)), (proj2 (Z.ltb_lt target _)) by lia. cbn [negb andb].
  unfold dec_quo_int. rewrite (proj2 (Z.eqb_neq factor 0)) by lia. rewrite Z.quot_div_nonneg by (unfold dec_one; lia).
  erewrite bind_Ret by reflexivity. erewrite bind_Ret by (unfold lift_outcome; rewrite R; reflexivity). done.
Qed.

Lemma BeginBlock_run w p b' height maxGas factor :
  GetParams w = (Ret p, w) -> Validate (with_base_fee p b') = Ret tt ->
  CalculateBaseFee height maxGas factor w = (Ret (Some b'), w) ->
  exists w', BeginBlock height maxGas factor w = (Ret tt, w') /\ GetParams w' = (Ret (with_base_fee p b'), w').
Proof.
  intros Hp Hv HC. unfold BeginBlock. run_seq HC. unfold SetBaseFee.
  eexists. split; [erewrite bind_Ret by (run_seq Hp; reflexivity); reflexivity|].
  unfold GetParams. kv_simp. rewrite pb_roundtrip, stored_valid by done. done.
Qed.

(** C25: after the enabling height a begin block with valid parameters never fails, for
    base fees below [2^249] units and a conversion factor of at most [10^18]; it stores a
    base fee [b'] that is again valid.  It is unchanged if the last block used exactly its
    gas target, and zero if the target is zero and gas was used.  Otherwise it is higher
    by the proportional step, and by at least the smallest unit, if the block used more
    than the target; and lower by that step, but never below the minimum gas price, if it
    used less: then it falls by at most [b/denom], and it exceeds [b] only when [b] is
    below the minimum gas price, to which it is raised.  A block that used at most [E]
    times its target raises the fee by at most [b*(E-1)/denom] or one unit. *)
Theorem base_fee_adjusted w p b m height maxGas factor :
  let used := GetBlockGasWanted w in
  let E := ElasticityMultiplier p in
  let target := gas_limit maxGas / E in
  let denom := BaseFeeChangeDenominator p in
  let unit := dec_one / factor in
  GetParams w = (Ret p, w) -> Validate p = Ret tt -> NoBaseFee p = false -> EnableHeight p < height ->
  BaseFee p = Some b -> MinGasPrice p = Some m -> 0 <= denom -> 0 <= E < 2 ^ 32 -> is_u64 used -> 0 <= gas_limit maxGas < 2 ^ 64 ->
  0 < factor <= dec_one -> b < 2 ^ 249 ->
  exists b' w', BeginBlock height maxGas factor w = (Ret tt, w') /\ GetParams w' = (Ret (with_base_fee p b'), w') /\
    Validate (with_base_fee p b') = Ret tt /\ adjusted used target E denom unit b m b'.
Proof.
  intros used E target denom unit Hp Hv Hno Hh Hb Hm Hd HE Hu Hlim Hf Hbf.
  destruct (Validate_inv p Hv) as (b0 & m0 & x & Eb & Hb0 & Em & Hm0 & _ & _ & _ & Hd0 & HE0). simplify_eq.
  assert (Hunit : 1 <= unit <= dec_one).
  { unfold unit. split; [apply Z.div_le_lower_bound; lia|]. apply Z.div_le_upper_bound; nia. }
  assert (Ht : 0 <= target < 2 ^ 64).
  { unfold target. split; [apply Z.div_pos; unfold E in *; lia|]. apply Z.div_lt_upper_bound; [unfold E in *; lia|]. unfold E in *. nia. }
  destruct (CalcGasBaseFee_adjusts used target E denom b unit m) as (b' & R & Hb' & Ha);
    [done|done|unfold denom; lia|done|lia|unfold dec_one in *; lia|done|].
  assert (Hv' : Validate (with_base_fee p b') = Ret tt) by by apply Validate_base_fee.
  destruct (BeginBlock_run w p b' height maxGas factor) as (w' & RB & GP); [done|done| |by exists b', w'].
  apply (CalculateBaseFee_run w p b); try done; [unfold E in *; lia|lia|]. by rewrite Hm.
Qed.

End begin_block.

(** ** A concrete block *)
Module Example.
#[local] Existing Instance decimal_MathInt.
#[local] Existing Instance decimal_MathIntLaws.
#[local] Instance decimals : LegacyDec := {| dec_fits z := Z.abs z <? 2 ^ 315; Dec_String := Int_String |}.
#[local] Instance decimals_laws : LegacyDecLaws.
Proof. split. intros z. apply Z.ltb_lt. Qed.

Definition fields (p : Params) :=
  (NoBaseFee p, BaseFeeChangeDenominator p, ElasticityMultiplier p, EnableHeight p,
   default 0 (BaseFee p), default 0 (MinGasPrice p), default 0 (MinGasMultiplier p)).
Definition of_fields (x : bool * Z * Z * Z * Z * Z * Z) : Params :=
  let '(n, d, e, h, b, m, g) := x in mkParams n d e h (Some b) (Some m) (Some g).
#[local] Instance protobuf : ParamsProto :=
  {| pb_Marshal p := enc (fields p);
     pb_Unmarshal s := match dec s with Some (x, EmptyString) => Some (of_fields x) | _ => None end |}.
#[local] Instance protobuf_laws : ParamsProtoLaws.
Proof.
  split. intros p. unfold pb_Unmarshal, pb_Marshal, protobuf.
  rewrite <- (str_app_nil_r (enc (fields p))). by rewrite dec_enc.
Qed.

Definition p : Params := mkParams false 8 2 0 (Some (1000 * dec_one)) (Some dec_one) (Some (dec_one / 2)).
Definition world (used : Z) : World ledger :=
  mkWorld (mkLedger ∅ ∅) {[ StoreKey := {[ ParamsKey := pb_Marshal p; KeyPrefixBlockGasWanted := be64 used ]} ]} [].

(** A full block of twice its target raises the fee by an eighth. *)
Lemma base_fee_adjusted_witness : exists b' w',
  BeginBlock 5 (Some 200) 1 (world 200) = (Ret tt, w') /\ b' <= 1125 * dec_one /\
  GetParams w' = (Ret (with_base_fee p b'), w') /\ 1000 * dec_one < b'.
Proof.
  assert (Hp : GetParams (world 200) = (Ret p, world 200)) by (vm_compute; reflexivity).
  assert (Hu : GetBlockGasWanted (world 200) = 200) by (vm_compute; reflexivity).
  assert (Hu64 : is_u64 (GetBlockGasWanted (world 200))) by (rewrite Hu; unfold is_u64; lia).
  destruct (base_fee_adjusted (world 200) p (1000 * dec_one) dec_one 5 (Some 200) 1 Hp eq_refl eq_refl eq_refl eq_refl eq_refl
    ltac:(simpl; lia) ltac:(simpl; lia) Hu64 ltac:(simpl; lia) ltac:(unfold dec_one; lia) ltac:(unfold dec_one; lia))
    as (b' & w' & R & G & _ & [_ _ Hup _ Hmax]).
  exists b', w'. rewrite Hu in Hup, Hmax. split; [exact R|]. split; [|split; [exact G|]].
  - refine (Z.le_trans _ _ _ (Hmax _) _); vm_compute; [split; [split; reflexivity|discriminate]|discriminate].
  - apply Hup. vm_compute. split; reflexivity.
Defined.

End Example.
End FeeMarket.
