(* ===== verification/ValGrant.v ===== *)
(** * x/valgrant: locked validator grants

    Models x/valgrant/types, x/valgrant/keeper, the module's end block (module.go)
    and the transactions of precompiles/valgrant: an admin funds a fresh, permanently
    locked account from the reserve pool, claws the principal back (at once for what
    is in the account, by a deferred sweep for what is bonded) and burns the pool;
    every end block records decentralization figures.  x/auth, x/bank and x/staking
    are interfaces over one state. *)
From S2P Require Import Prelude Codec Bank.
From stdpp Require Import gmap strings list sorting.
From Stdlib Require Import ZArith Lia.

#[local] Set Default Goal Selector "!".
Open Scope Z_scope.

Module ValGrant.

Definition ModuleName : string := "valgrant".
Definition StoreKey : string := ModuleName.
Definition ParamsKey : string := byte_prefix 1.
Definition GrantsPrefix : string := byte_prefix 2.
Definition PendingClawbackPref : string := byte_prefix 3.
Definition KPISnapshotKey : string := byte_prefix 4.
Definition GovModuleName : string := "gov".

Record Grant := mkGrant {
  Grantee : string;
  LockedAmount : string;
  GasAllowance : string;
  ValidatorOp : string;
  IssuedHeight : Z;
  IssuedTime : Z;
  Status : string
}.
Record PendingClawbackEntry := mkEntry { Validator : string; Amount : string; CompletionUnix : Z }.
Record PendingClawback := mkPending {
  pc_Grantee : string;
  Entries : list PendingClawbackEntry;
  SweepAmount : string;
  InitiatedAt : Z
}.
Record Params := mkParams { Admin : string; FoundationValidators : list string }.
Record KPISnapshot := mkKPI {
  Height : Z;
  Unix : Z;
  ActiveValidators : Z;
  NakamotoCoefficient : Z;
  FoundationVPBps : Z;
  TopValidatorVPBps : Z;
  TotalPower : Z
}.
Record GenesisState := mkGenesis { gs_Params : Params; gs_Grants : list Grant }.

#[export] Instance Grant_codec : Codec Grant :=
  Codec_iso (fun g => (Grantee g, LockedAmount g, GasAllowance g, ValidatorOp g, IssuedHeight g, IssuedTime g, Status g))
    (fun t => mkGrant t.1.1.1.1.1.1 t.1.1.1.1.1.2 t.1.1.1.1.2 t.1.1.1.2 t.1.1.2 t.1.2 t.2)
    (fun g => match g with mkGrant _ _ _ _ _ _ _ => eq_refl end).
#[export] Instance Entry_codec : Codec PendingClawbackEntry :=
  Codec_iso (fun e => (Validator e, Amount e, CompletionUnix e)) (fun t => mkEntry t.1.1 t.1.2 t.2)
    (fun e => match e with mkEntry _ _ _ => eq_refl end).
#[export] Instance Pending_codec : Codec PendingClawback :=
  Codec_iso (fun p => (pc_Grantee p, Entries p, SweepAmount p, InitiatedAt p)) (fun t => mkPending t.1.1.1 t.1.1.2 t.1.2 t.2)
    (fun p => match p with mkPending _ _ _ _ => eq_refl end).
#[export] Instance Params_codec : Codec Params :=
  Codec_iso (fun p => (Admin p, FoundationValidators p)) (fun t => mkParams t.1 t.2)
    (fun p => match p with mkParams _ _ => eq_refl end).
#[export] Instance KPI_codec : Codec KPISnapshot :=
  Codec_iso (fun s => (Height s, Unix s, ActiveValidators s, NakamotoCoefficient s, FoundationVPBps s, TopValidatorVPBps s, TotalPower s))
    (fun t => mkKPI t.1.1.1.1.1.1 t.1.1.1.1.1.2 t.1.1.1.1.2 t.1.1.1.2 t.1.1.2 t.1.2 t.2)
    (fun s => match s with mkKPI _ _ _ _ _ _ _ => eq_refl end).

Definition DefaultParams : Params := mkParams EmptyString [].
Definition DefaultGenesisState : GenesisState := mkGenesis DefaultParams [].

(** [GenesisState.Validate]. *)
Definition validate_grant `{MathInt} (g : Grant) : outcome unit :=
  match NewIntFromString (LockedAmount g), NewIntFromString (GasAllowance g) with
  | None, _ => Err "invalid locked_amount"
  | _, None => Err "invalid gas_allowance"
  | _, _ => if String.eqb (Status g) "active" || String.eqb (Status g) "revoked" then Ret tt else Err "invalid status"
  end.
Definition Validate `{MathInt} (gs : GenesisState) : outcome unit := fold_ok (fun _ g => validate_grant g) tt (gs_Grants gs).

(** ** What the module uses of the Cosmos SDK

    An account is a plain one, a permanently locked one with its original vesting,
    or of another type. *)
Inductive AccountKind := BaseAccount | PermanentLockedAccount (original : Coins) | OtherAccount (type_url : string).
Record AccountI := mkAccount {
  GetAddress : string;
  GetPubKey : option string;
  GetAccountNumber : Z;
  GetSequence : Z;
  kind : AccountKind
}.

(** x/auth; [StringToBytes] decodes a bech32 address. *)
Class AccountKeeper (B : Type) : Type := {
  StringToBytes : string -> option string;
  GetAccount : B -> string -> option AccountI;
  NewAccount : AccountI -> B -> AccountI * B;
  SetAccount : AccountI -> B -> B;
  NewPermanentLockedAccount : AccountI -> Coins -> outcome AccountI
}.

(** x/staking.  A delegation is the validator's operator address with its shares,
    [Undelegate] returns the completion time in nanoseconds and the amount, a bonded
    validator is its operator address with [GetConsensusPower(PowerReduction)]. *)
Class StakingKeeper (B : Type) : Type := {
  BondDenom : B -> outcome string;
  ValAddress_StringToBytes : string -> option string;
  GetDelegatorDelegations : B -> string -> Z -> outcome (list (string * Z));
  Undelegate : string -> string -> Z -> M B (Z * Z);
  GetBondedValidatorsByPower : B -> outcome (list (string * Z))
}.

(** sdk.Coin: the denomination check and the printer of a list of coins. *)
Class CoinFormat : Type := { ValidateDenom : string -> bool; Coins_String : Coins -> string }.

(** [sdk.NewCoins(sdk.NewCoin(d, x))]. *)
Definition NewCoins `{CoinFormat} (d : string) (x : Z) : outcome Coins :=
  if negb (ValidateDenom d) then Panic "invalid denom" else
  if x <? 0 then Panic "negative coin amount" else
  Ret (if x =? 0 then [] else [(d, x)]).

Definition coin_le (a b : string * Z) : Prop := str_le a.1 b.1.
#[export] Instance coin_le_dec a b : Decision (coin_le a b) := decide (str_le a.1 b.1).
Definition Coins_Sort (cs : Coins) : Coins := merge_sort coin_le cs.

(** [Coins.IsValid]: valid denominations, strictly increasing, positive amounts. *)
Fixpoint coins_above `{CoinFormat} (low : string) (cs : Coins) : bool :=
  match cs with
  | [] => true
  | (d, x) :: cs' => ValidateDenom d && negb (bool_decide (str_le d low)) && (0 <? x) && coins_above d cs'
  end.
Definition Coins_IsValid `{CoinFormat} (cs : Coins) : bool :=
  match cs with
  | [] => true
  | (d, x) :: cs' => ValidateDenom d && (0 <? x) && coins_above d cs'
  end.
Definition Coins_IsAllPositive (cs : Coins) : bool :=
  negb (match cs with [] => true | _ => false end) && forallb (fun c => 0 <? c.2) cs.

Definition grantKey (grantee : string) : string := GrantsPrefix +:+ grantee.
Definition pendingKey (grantee : string) : string := PendingClawbackPref +:+ grantee.

(** ** Decentralization figures (kpi.go) *)

(** The counting loop: [n] validators seen with power [cum], until a third of the
    total is exceeded. *)
Fixpoint nakamoto_loop (total n cum : Z) (powers : list Z) : Z :=
  match powers with
  | [] => n
  | p :: ps => let cum' := i64 (cum + p) in
               if total <? i64 (cum' * 3) then n + 1 else nakamoto_loop total (n + 1) cum' ps
  end.
Definition foundation_power (powers : list Z) (isFoundation : list bool) : Z :=
  foldl (fun acc e => if (e.2 : bool) then i64 (acc + e.1) else acc) 0 (zip powers isFoundation).

(** [(active, nakamoto, foundationBps, topBps, total)]. *)
Definition computeKPIs (powersDesc : list Z) (isFoundation : list bool) : Z * Z * Z * Z * Z :=
  let active := Z.of_nat (length powersDesc) in
  let total := foldl (fun acc p => i64 (acc + p)) 0 powersDesc in
  if total <=? 0 then (active, 0, 0, 0, 0) else
  let nakamoto := nakamoto_loop total 0 0 powersDesc in
  let fpow := foundation_power powersDesc isFoundation in
  (active, nakamoto, Z.quot (i64 (fpow * 10000)) total, Z.quot (i64 (hd 0 powersDesc * 10000)) total, total).

Section keeper.
Context {B : Type} `{BankKeeper B} `{AccountKeeper B} `{StakingKeeper B} `{CoinFormat} `{Bech32} `{MathInt}.
Context `{JSON Params} `{JSON Grant} `{JSON PendingClawback} `{JSON KPISnapshot}.
Implicit Types w : World B.

(** ** State (keeper.go, genesis.go) *)

Definition SetParams (p : Params) : M (World B) unit := modify (kv_set StoreKey ParamsKey (json_Marshal p)).
Definition GetParams w : Params :=
  match kv_get StoreKey ParamsKey w with
  | None => DefaultParams
  | Some bz => default DefaultParams (json_Unmarshal bz)
  end.

Definition SetKPISnapshot (s : KPISnapshot) : M (World B) unit := modify (kv_set StoreKey KPISnapshotKey (json_Marshal s)).
Definition GetKPISnapshot w : option KPISnapshot := kv_get StoreKey KPISnapshotKey w ≫= json_Unmarshal.

Definition SetGrant (g : Grant) : M (World B) unit := modify (kv_set StoreKey (grantKey (Grantee g)) (json_Marshal g)).
Definition DeleteGrant (grantee : string) : M (World B) unit := modify (kv_delete StoreKey (grantKey grantee)).
Definition GetGrant (grantee : string) w : option Grant := kv_get StoreKey (grantKey grantee) w ≫= json_Unmarshal.
Definition IterateGrants w : list Grant := omap (fun e => json_Unmarshal e.2) (kv_iter StoreKey GrantsPrefix w).

Definition SetPendingClawback (pc : PendingClawback) : M (World B) unit :=
  modify (kv_set StoreKey (pendingKey (pc_Grantee pc)) (json_Marshal pc)).
Definition DeletePendingClawback (grantee : string) : M (World B) unit := modify (kv_delete StoreKey (pendingKey grantee)).
Definition IteratePendingClawbacks w : list PendingClawback :=
  omap (fun e => json_Unmarshal e.2) (kv_iter StoreKey PendingClawbackPref w).

Definition InitGenesis (gs : GenesisState) : M (World B) unit := SetParams (gs_Params gs);; for_each SetGrant (gs_Grants gs).
Definition ExportGenesis w : GenesisState := mkGenesis (GetParams w) (IterateGrants w).

(** ** Issuing (grant.go) *)
Definition IssueGrant (granteeStr : string) (lockedCoins gasCoins : Coins) : M (World B) unit :=
  match StringToBytes granteeStr with
  | None => fail "invalid grantee address"
  | Some grantee =>
      let lockedCoins := Coins_Sort lockedCoins in
      if negb (Coins_IsValid lockedCoins) || negb (Coins_IsAllPositive lockedCoins) then fail "invalid locked amount" else
      let gasCoins := if Coins_IsZero gasCoins then gasCoins else Coins_Sort gasCoins in
      if negb (Coins_IsZero gasCoins) && (negb (Coins_IsValid gasCoins) || negb (Coins_IsAllPositive gasCoins))
      then fail "invalid gas allowance" else
      existing ← gets (fun w => GetAccount (w_bank w) grantee);
      match existing with
      | Some _ => fail "account already exists; grant requires a fresh account"
      | None =>
          if BlockedAddr grantee then fail "grantee address is blocked from receiving funds" else
          baseAcc ← on_bank (fun b => let r := NewAccount (mkAccount grantee None 0 0 BaseAccount) b in (Ret r.1, r.2));
          match kind baseAcc with
          | BaseAccount =>
              plva ← lift_outcome (NewPermanentLockedAccount baseAcc lockedCoins);
              on_bank (modify (SetAccount plva));;
              on_bank (SendCoinsFromModuleToAccount ModuleName grantee lockedCoins);;
              (if Coins_IsZero gasCoins then mret tt else on_bank (SendCoinsFromModuleToAccount ModuleName grantee gasCoins));;
              modify (emit (mkEvent "valgrant_issued" [("grantee", granteeStr); ("locked_amount", Coins_String lockedCoins);
                ("gas_allowance", Coins_String gasCoins)]))
          | _ => panic "interface conversion"
          end
      end
  end.

(** ** Clawing back (clawback.go) *)

(** A permanently locked account becomes a plain one. *)
Definition unlockAccount (grantee : string) : M (World B) unit :=
  acc ← gets (fun w => GetAccount (w_bank w) grantee);
  match acc with
  | Some (mkAccount a pk num sq (PermanentLockedAccount _)) => on_bank (modify (SetAccount (mkAccount a pk num sq BaseAccount)))
  | _ => mret tt
  end.

Fixpoint undelegate_all (grantee : string) (delegations : list (string * Z)) (undelegated : Z) (entries : list PendingClawbackEntry)
    : M (World B) (Z * list PendingClawbackEntry) :=
  match delegations with
  | [] => mret (undelegated, entries)
  | (validator, shares) :: rest =>
      match ValAddress_StringToBytes validator with
      | None => fail "invalid validator address"
      | Some valAddr =>
          r ← on_bank (Undelegate grantee valAddr shares);
          undelegated' ← int_add undelegated r.2;
          undelegate_all grantee rest undelegated' (entries ++ [mkEntry validator (Int_String r.2) (r.1 / 10 ^ 9)])
      end
  end.

(** Send at most [amount] of the account's coins to the pool. *)
Definition capped (grantee denom : string) (amount : Z) w : Z :=
  let bal := GetBalance (w_bank w) grantee denom in if bal <? amount then bal else amount.
Definition sweep_to_pool (grantee denom : string) (sweep : Z) : M (World B) unit :=
  coins ← lift_outcome (NewCoins denom sweep);
  on_bank (SendCoinsFromAccountToModule grantee ModuleName coins).

(** [grant.Status = "revoked"]. *)
Definition revoked (g : Grant) : Grant :=
  mkGrant (Grantee g) (LockedAmount g) (GasAllowance g) (ValidatorOp g) (IssuedHeight g) (IssuedTime g) "revoked".

(** [(undelegated, sweptNow, pending)]. *)
Definition Clawback (ctx : Ctx) (granteeStr : string) : M (World B) (Z * Z * Z) :=
  match StringToBytes granteeStr with
  | None => fail "invalid grantee address"
  | Some grantee =>
      found ← gets (GetGrant granteeStr);
      match found with
      | None => fail "grant not found"
      | Some grant =>
          if String.eqb (Status grant) "revoked" then fail "grant is already revoked" else
          denomR ← gets (fun w => BondDenom (w_bank w));
          bondDenom ← lift_outcome denomR;
          match NewIntFromString (LockedAmount grant) with
          | None => fail "grant has invalid locked_amount"
          | Some lockedPrincipal =>
              delsR ← gets (fun w => GetDelegatorDelegations (w_bank w) grantee 255);
              delegations ← lift_outcome delsR;
              u ← undelegate_all grantee delegations 0 [];
              let undelegated := u.1 in
              let pendingPrincipal := if lockedPrincipal <? undelegated then lockedPrincipal else undelegated in
              immediatePrincipal ← int_sub lockedPrincipal pendingPrincipal;
              sweptNow ←
                (if 0 <? immediatePrincipal then
                   unlockAccount grantee;;
                   sweep ← gets (capped grantee bondDenom immediatePrincipal);
                   if 0 <? sweep then sweep_to_pool grantee bondDenom sweep;; mret sweep else mret 0
                 else mret 0);
              pending ←
                (if 0 <? pendingPrincipal then
                   SetPendingClawback (mkPending granteeStr u.2 (Int_String pendingPrincipal) (BlockTime ctx));; mret pendingPrincipal
                 else mret 0);
              SetGrant (revoked grant);;
              modify (emit (mkEvent "valgrant_clawed_back" [("grantee", granteeStr); ("locked_amount", LockedAmount grant);
                ("undelegated", Int_String undelegated); ("swept_now", Int_String sweptNow); ("pending", Int_String pending)]));;
              mret (undelegated, sweptNow, pending)
          end
      end
  end.

Record ready := mkReady { r_pc : PendingClawback; r_addr : string; r_sweep : Z }.

(** [time.Unix(c, 0).After(now)] compares whole seconds with a time of the same
    second or later: it is [c > now.Unix()]. *)
Definition ready_of (ctx : Ctx) (pc : PendingClawback) : option ready :=
  if existsb (fun e => BlockTime ctx <? CompletionUnix e) (Entries pc) then None else
  match StringToBytes (pc_Grantee pc), NewIntFromString (SweepAmount pc) with
  | Some addr, Some sweep => Some (mkReady pc addr sweep)
  | _, _ => None
  end.

(** [if err := m; err != nil { ... }], keeping what was written before the error. *)
Definition tried (m : M (World B) unit) : M (World B) bool := fun w =>
  match m w with
  | (Ret _, w') => (Ret true, w')
  | (Err _, w') => (Ret false, w')
  | (Panic e, w') => (Panic e, w')
  end.

(** One pass of the sweeping loop; the result, which the code does not keep, lists
    what was swept.  A failed transfer is logged and the loop goes on. *)
Definition sweep_one (bondDenom : string) (r : ready) : M (World B) (list (string * Z)) :=
  unlockAccount (r_addr r);;
  sweep ← gets (capped (r_addr r) bondDenom (r_sweep r));
  ok ← tried (if 0 <? sweep then sweep_to_pool (r_addr r) bondDenom sweep else mret tt);
  if negb ok then mret [] else
  DeletePendingClawback (pc_Grantee (r_pc r));;
  modify (emit (mkEvent "valgrant_clawback_swept" [("grantee", pc_Grantee (r_pc r)); ("swept", Int_String sweep)]));;
  mret (if 0 <? sweep then [(pc_Grantee (r_pc r), sweep)] else []).

Fixpoint sweep_all (bondDenom : string) (rs : list ready) : M (World B) (list (string * Z)) :=
  match rs with
  | [] => mret []
  | r :: rs' => l ← sweep_one bondDenom r; l' ← sweep_all bondDenom rs'; mret (l' ++ l)
  end.

Definition swept_matured (ctx : Ctx) : M (World B) (list (string * Z)) :=
  denomR ← gets (fun w => BondDenom (w_bank w));
  bondDenom ← lift_outcome denomR;
  readyList ← gets (fun w => omap (ready_of ctx) (IteratePendingClawbacks w));
  sweep_all bondDenom readyList.
Definition SweepMaturedClawbacks (ctx : Ctx) : M (World B) unit := swept_matured ctx;; mret tt.

(** ** Burning (burn.go) *)
Definition BurnPool (amountStr : string) : M (World B) Z :=
  denomR ← gets (fun w => BondDenom (w_bank w));
  bondDenom ← lift_outcome denomR;
  if negb (is_macc ModuleName) then fail "valgrant module account not found" else
  poolBal ← gets (fun w => GetBalance (w_bank w) (NewModuleAddress ModuleName) bondDenom);
  burnAmt ←
    (if String.eqb amountStr EmptyString || String.eqb amountStr "0" then mret poolBal else
     match NewIntFromString amountStr with
     | None => fail "invalid burn amount"
     | Some amt => if amt <=? 0 then fail "burn amount must be positive" else mret amt
     end);
  if burnAmt <=? 0 then fail "nothing to burn: valgrant pool balance is zero" else
  if poolBal <? burnAmt then fail "burn amount exceeds valgrant pool balance" else
  coins ← lift_outcome (NewCoins bondDenom burnAmt);
  on_bank (BurnCoins ModuleName coins);;
  modify (emit (mkEvent "valgrant_pool_burned" [("amount", Coins_String coins)]));;
  mret burnAmt.

(** ** The snapshot *)
Definition ComputeKPIs (ctx : Ctx) w : outcome KPISnapshot :=
  vals ← GetBondedValidatorsByPower (w_bank w);
  let fset := FoundationValidators (GetParams w) in
  let '(active, nakamoto, fbps, topbps, total) := computeKPIs (vals.*2) (contains fset <$> vals.*1) in
  Ret (mkKPI (BlockHeight ctx) (BlockTime ctx) active nakamoto fbps topbps total).

Definition RecordKPISnapshot (ctx : Ctx) : M (World B) unit :=
  snapR ← gets (ComputeKPIs ctx);
  snap ← lift_outcome snapR;
  SetKPISnapshot snap;;
  modify (emit (mkEvent "valgrant_kpi" [("active_validators", Int_String (ActiveValidators snap)); ("nakamoto", Int_String (NakamotoCoefficient snap));
    ("foundation_vp_bps", Int_String (FoundationVPBps snap)); ("top_validator_vp_bps", Int_String (TopValidatorVPBps snap))])).

(** module.go *)
Definition EndBlock (ctx : Ctx) : M (World B) unit := SweepMaturedClawbacks ctx;; RecordKPISnapshot ctx.

(** ** Messages (msg_server.go) *)
Definition requireAdmin (signer : string) : M (World B) unit :=
  admin ← gets (fun w => Admin (GetParams w));
  if String.eqb admin EmptyString then fail "valgrant admin is not configured" else
  if negb (String.eqb signer admin) then fail "signer is not the valgrant admin" else mret tt.
Definition gov_authority : string := AccAddress_String (NewModuleAddress GovModuleName).
Definition requireBurnAuthority (signer : string) : M (World B) unit :=
  if String.eqb signer gov_authority then mret tt else requireAdmin signer.

Definition IssueLocked (ctx : Ctx) (admin grantee locked gas validatorOperator : string) : M (World B) unit :=
  requireAdmin admin;;
  denomR ← gets (fun w => BondDenom (w_bank w));
  bondDenom ← lift_outcome denomR;
  match parse_positive locked with
  | None => fail "invalid locked_amount"
  | Some lockedAmt =>
      match NewIntFromString gas with
      | None => fail "invalid gas_allowance"
      | Some gasAmt =>
          if gasAmt <? 0 then fail "invalid gas_allowance" else
          lockedCoins ← lift_outcome (NewCoins bondDenom lockedAmt);
          gasCoins ← (if 0 <? gasAmt then lift_outcome (NewCoins bondDenom gasAmt) else mret []);
          IssueGrant grantee lockedCoins gasCoins;;
          SetGrant (mkGrant grantee (Int_String lockedAmt) (Int_String gasAmt) validatorOperator (u64 (BlockHeight ctx)) (BlockTime ctx) "active")
      end
  end.

Definition Msg_Clawback (ctx : Ctx) (admin grantee : string) : M (World B) (string * string * string) :=
  requireAdmin admin;;
  r ← Clawback ctx grantee;
  mret (Int_String r.1.1, Int_String r.1.2, Int_String r.2).

Definition Msg_BurnPool (admin amount : string) : M (World B) string :=
  requireBurnAuthority admin;;
  burned ← BurnPool amount;
  mret (Int_String burned).

Definition UpdateParams (authority admin : string) : M (World B) unit :=
  if negb (String.eqb authority gov_authority) then fail "expected gov authority" else
  p ← gets GetParams;
  SetParams (mkParams admin (FoundationValidators p)).

(** ** The precompile (precompiles/valgrant/tx.go)

    [code] is the caller's code and [delegated] whether it is an EIP-7702
    delegation; addresses and amounts are the decoded arguments. *)
Definition requireDirectEOACall (code : string) (delegated : bool) : M (World B) unit :=
  if (0 <? Z.of_nat (String.length code)) && negb delegated then fail "cannot be called from a contract" else mret tt.
Definition Precompile_IssueGrant (ctx : Ctx) (code : string) (delegated : bool) (caller grantee : string) (locked gas : Z) : M (World B) bool :=
  requireDirectEOACall code delegated;;
  IssueLocked ctx (AccAddress_String caller) (AccAddress_String grantee) (Int_String locked) (Int_String gas) EmptyString;;
  mret true.
Definition Precompile_Clawback (ctx : Ctx) (code : string) (delegated : bool) (caller grantee : string) : M (World B) bool :=
  requireDirectEOACall code delegated;;
  _ ← Msg_Clawback ctx (AccAddress_String caller) (AccAddress_String grantee);
  mret true.
Definition Precompile_BurnPool (code : string) (delegated : bool) (caller : string) (amount : Z) : M (World B) Z :=
  requireDirectEOACall code delegated;;
  burned ← Msg_BurnPool (AccAddress_String caller) (Int_String amount);
  mret (default 0 (NewIntFromString burned)).

End keeper.

(** ** What the module relies on *)

(** The accounts of [b] are still there in [b'].  Asked only of the calls the module
    makes itself. *)
Definition keeps `{AccountKeeper B} (b b' : B) : Prop := forall x, is_Some (GetAccount b x) -> is_Some (GetAccount b' x).

(** x/auth keeps one account per address; transfers, burns and undelegations never
    remove one.  A failed transfer of one coin moves nothing.  An undelegation
    returns a nonnegative amount and takes nothing from an account other than the
    delegator's. *)
Class GrantLaws (B : Type) `{BankKeeper B} `{AccountKeeper B} `{StakingKeeper B} : Prop := {
  GetAccount_address b x a : GetAccount b x = Some a -> GetAddress a = x;
  GetAccount_set a b x : GetAccount (SetAccount a b) x = if decide (GetAddress a = x) then Some a else GetAccount b x;
  SetAccount_balance a b x d : GetBalance (SetAccount a b) x d = GetBalance b x d;
  NewAccount_address a b : GetAddress (NewAccount a b).1 = GetAddress a;
  NewAccount_keeps a b : keeps b (NewAccount a b).2;
  NewPermanentLockedAccount_address a cs a' : NewPermanentLockedAccount a cs = Ret a' -> GetAddress a' = GetAddress a;
  m2a_keeps m a cs b o b' : SendCoinsFromModuleToAccount m a cs b = (o, b') -> keeps b b';
  a2m_keeps a m cs b o b' : SendCoinsFromAccountToModule a m cs b = (o, b') -> keeps b b';
  burn_keeps m cs b o b' : BurnCoins m cs b = (o, b') -> keeps b b';
  a2m_err a m d x b e b' a' d' :
    SendCoinsFromAccountToModule a m [(d, x)] b = (Err e, b') -> GetBalance b' a' d' = GetBalance b a' d';
  Undelegate_keeps a v s b o b' : Undelegate a v s b = (o, b') -> keeps b b';
  Undelegate_others a v s b r b' a' d : Undelegate a v s b = (Ret r, b') -> a' <> a -> GetBalance b a' d <= GetBalance b' a' d;
  Undelegate_amount a v s b r b' : Undelegate a v s b = (Ret r, b') -> 0 <= r.2
}.

Section accounting.
Context {B : Type} `{BankLaws B} `{AccountKeeper B} `{StakingKeeper B} `{!GrantLaws B} `{CoinFormat} `{Bech32} `{MathIntLaws}.
Context `{JSON Params} `{JSONLaws Grant} `{JSONLaws PendingClawback} `{JSON KPISnapshot}.
Implicit Types (w : World B) (log : list (string * Z)).

Definition pool : string := NewModuleAddress ModuleName.
Definition pool_balance (d : string) w : Z := GetBalance (w_bank w) pool d.

Lemma keeps_refl b : keeps b b.
Proof. by intros x. Qed.
Lemma keeps_trans b1 b2 b3 : keeps b1 b2 -> keeps b2 b3 -> keeps b1 b3.
Proof. intros K1 K2 x Hx. by apply K2, K1. Qed.
#[local] Hint Resolve keeps_refl : core.

Lemma SetAccount_keeps a b : keeps b (SetAccount a b).
Proof. intros x Hx. rewrite GetAccount_set. by case_decide. Qed.

Lemma unlockAccount_run a w : exists b, unlockAccount a w = (Ret tt, set_bank b w) /\ keeps (w_bank w) b /\
  forall x d, GetBalance b x d = GetBalance (w_bank w) x d.
Proof.
  unfold unlockAccount. run_gets.
  assert (Hid : exists b, (mret tt : M (World B) unit) w = (Ret tt, set_bank b w) /\ keeps (w_bank w) b /\
    forall x d, GetBalance b x d = GetBalance (w_bank w) x d) by (exists (w_bank w); rewrite set_bank_id; eauto).
  destruct (GetAccount (w_bank w) a) as [[? ? ? ? []]|]; [exact Hid| |exact Hid|exact Hid].
  eexists. split; [by apply on_bank_run|]. split; [apply SetAccount_keeps|]. intros. apply SetAccount_balance.
Qed.

(** A transfer to the pool keeps the accounts; it moves the amount or nothing. *)
Lemma sweep_to_pool_run a d x w o w' :
  0 < x -> a <> pool -> sweep_to_pool a d x w = (o, w') -> (forall e, o <> Panic e) ->
  exists b, w' = set_bank b w /\ keeps (w_bank w) b /\
    GetBalance b pool d = pool_balance d w + match o with Ret _ => x | _ => 0 end.
Proof.
  intros Hx Ha R Hp. unfold sweep_to_pool, NewCoins in R. destruct (ValidateDenom d); [|by injection R as <- _; destruct (Hp "invalid denom")].
  simpl in R. rewrite (proj2 (Z.ltb_ge x 0)), (proj2 (Z.eqb_neq x 0)) in R by lia.
  erewrite bind_Ret in R by reflexivity. apply on_bank_inv in R as (b & R & ->). exists b. split; [done|].
  split; [by eapply a2m_keeps|]. unfold pool_balance, pool. destruct o as [[]|e|e].
  - rewrite (moved_balance _ _ _ _ _ _ _ _ (a2m_moved _ _ _ _ _ R)). bank_lia.
  - rewrite (a2m_err _ _ _ _ _ _ _ _ _ R). lia.
  - by destruct (Hp e).
Qed.

Lemma undelegate_all_inv a dels u0 es0 w u es w' :
  a <> pool -> undelegate_all a dels u0 es0 w = (Ret (u, es), w') ->
  u0 <= u /\ exists b, w' = set_bank b w /\ keeps (w_bank w) b /\ forall d, pool_balance d w <= GetBalance b pool d.
Proof.
  intros Ha. revert u0 es0 w. induction dels as [|[v s] dels IH]; intros u0 es0 w R.
  - injection R as <- <- <-. split; [lia|]. exists (w_bank w). rewrite set_bank_id. split_and!; [done|done|unfold pool_balance; lia].
  - cbn [undelegate_all] in R. destruct (ValAddress_StringToBytes v); [|done].
    run_inv R. match goal with X : on_bank _ _ = _ |- _ => apply on_bank_inv in X as (b1 & RU & ->) end.
    pose proof (Undelegate_amount _ _ _ _ _ _ RU). apply IH in R as (Hu & b & -> & Hk & Hp).
    split; [lia|]. exists b. split_and!; [done| |].
    + eapply keeps_trans; [by eapply Undelegate_keeps|done].
    + intros d. pose proof (Undelegate_others _ _ _ _ _ _ pool d RU ltac:(congruence)). specialize (Hp d). unfold pool_balance in *. simpl in *. lia.
Qed.

Definition locked (gr : Grant) : Z := default 0 (NewIntFromString (LockedAmount gr)).
Definition pending_of (pc : PendingClawback) : Z := default 0 (NewIntFromString (SweepAmount pc)).

(** The two parts of the sweep, in [Clawback]. *)
Lemma immediate_inv a d imm w s w' :
  a <> pool ->
  (if 0 <? imm then
     unlockAccount a;;
     sweep ← gets (capped a d imm);
     if 0 <? sweep then sweep_to_pool a d sweep;; mret sweep else mret 0
   else mret 0) w = (Ret s, w') ->
  0 <= s <= Z.max 0 imm /\ exists b, w' = set_bank b w /\ keeps (w_bank w) b /\ GetBalance b pool d = pool_balance d w + s.
Proof.
  intros Ha R. destruct (0 <? imm) eqn:E; bool_prop.
  2: { injection R as <- <-. split; [lia|]. exists (w_bank w). rewrite set_bank_id. split_and!; [done|done|unfold pool_balance; lia]. }
  destruct (unlockAccount_run a w) as (b1 & R1 & K1 & G1). rewrite (bind_Ret _ _ _ _ _ R1) in R. rewrite (bind_Ret _ _ _ _ _ (gets_run _ _)) in R.
  set (sw := capped a d imm _) in R. assert (Hsw : sw <= imm) by (unfold sw, capped; cbv zeta; match goal with |- context [?x <? imm] => destruct (Z.ltb_spec x imm) end; lia).
  destruct (0 <? sw) eqn:E2; bool_prop.
  - apply bind_Ret_inv in R as ([] & w2 & R2 & R). injection R as <- <-.
    apply sweep_to_pool_run in R2 as (b & -> & K2 & G2); [|lia|done|done].
    split; [lia|]. exists b. split_and!; [done|by eapply keeps_trans|]. rewrite G2. unfold pool_balance. simpl. by rewrite G1.
  - injection R as <- <-. split; [lia|]. exists b1. split_and!; [done|done|]. rewrite G1. unfold pool_balance. lia.
Qed.

Lemma Clawback_inv ctx g w u s p w' a d gr :
  StringToBytes g = Some a -> a <> pool -> GetGrant g w = Some gr -> BondDenom (w_bank w) = Ret d ->
  Clawback ctx g w = (Ret (u, s, p), w') ->
  Status gr <> "revoked" /\ 0 <= s /\ 0 <= p /\ s + p <= Z.max 0 (locked gr) /\ keeps (w_bank w) (w_bank w') /\
  pool_balance d w + s <= pool_balance d w' /\
  exists pc, pc_Grantee pc = g /\ (0 < p -> NewIntFromString (SweepAmount pc) = Some p) /\
    forall k, kv_get StoreKey k w' = kv_get StoreKey k (kv_set StoreKey (grantKey (Grantee gr)) (json_Marshal (revoked gr))
      (if 0 <? p then kv_set StoreKey (pendingKey g) (json_Marshal pc) w else w)).
Proof.
  intros Hg Ha Hgr Hd R. unfold Clawback in R. rewrite Hg in R. rewrite (bind_Ret _ _ _ _ _ (gets_run _ _)), Hgr in R.
  destruct (String.eqb_spec (Status gr) "revoked") as [|Hs]; [done|]. split; [done|].
  rewrite (bind_Ret _ _ _ _ _ (gets_run _ _)), Hd in R. erewrite bind_Ret in R by reflexivity.
  unfold locked. destruct (NewIntFromString (LockedAmount gr)) as [L|] eqn:EL; [|done].
  apply bind_Ret_inv in R as (delsR & w0 & R0 & R). injection R0 as <- <-. apply bind_Ret_inv in R as (dels & w0 & R0 & R).
  injection R0 as _ <-. apply bind_Ret_inv in R as ([u' es] & w1 & R1 & R).
  apply undelegate_all_inv in R1 as (Hu & b1 & -> & K1 & P1); [|done]. cbn [fst snd] in R.
  set (pp := if L <? u' then L else u') in R. assert (Hpp : pp <= L /\ (pp < 0 -> pp = L)) by (unfold pp; destruct (L <? u') eqn:E; bool_prop; lia).
  run_step R. apply bind_Ret_inv in R as (s' & w2 & R2 & R). apply immediate_inv in R2 as (Hs' & b2 & -> & K2 & P2); [|done].
  apply bind_Ret_inv in R as (p' & w3 & R3 & R). unfold SetGrant in R. rewrite (bind_Ret _ _ _ _ _ (modify_run _ _)) in R.
  rewrite (bind_Ret _ _ _ _ _ (modify_run _ _)) in R. injection R as -> -> -> <-.
  unfold SetPendingClawback in R3. set (pc := mkPending g es (Int_String pp) (BlockTime ctx)) in R3.
  assert (HP3 : p = Z.max 0 pp /\ w3 = if 0 <? p then kv_set StoreKey (pendingKey g) (json_Marshal pc) (set_bank b2 w) else set_bank b2 w).
  { destruct (0 <? pp) eqn:E; bool_prop.
    - injection R3 as <- <-. split; [lia|]. by rewrite (proj2 (Z.ltb_lt 0 pp)).
    - injection R3 as <- <-. by split; [lia|]. }
  destruct HP3 as [Hp ->]. clear R3. change (default 0 (Some L)) with L.
  split_and!; try lia.
  - kv_simp. apply (keeps_trans _ b1); [done|]. by destruct (0 <? p); kv_simp.
  - unfold pool_balance in *. kv_simp. specialize (P1 d). destruct (0 <? p); kv_simp; rewrite P2; simpl; lia.
  - exists pc. split_and!; [done| |].
    + intros Hpos. simpl. rewrite NewIntFromString_String; [f_equal; lia|].
      apply (int_fits_nonneg_le _ L); [lia|]. by eapply NewIntFromString_fits.
    + intros k. kv_simp. rewrite !kv_get_set. destruct (0 <? p); [by rewrite !kv_get_set|done].
Qed.

Definition kv_same w w' : Prop := forall k, kv_get StoreKey k w' = kv_get StoreKey k w.

Lemma sweep_one_inv d r w l w' :
  r_addr r <> pool -> sweep_one d r w = (Ret l, w') ->
  exists x, 0 <= x <= Z.max 0 (r_sweep r) /\ l = (if 0 <? x then [(pc_Grantee (r_pc r), x)] else []) /\
    keeps (w_bank w) (w_bank w') /\ pool_balance d w' = pool_balance d w + x /\
    (x = 0 /\ kv_same w w' \/ kv_same (kv_delete StoreKey (pendingKey (pc_Grantee (r_pc r))) w) w').
Proof.
  intros Ha R. unfold sweep_one in R. destruct (unlockAccount_run (r_addr r) w) as (b1 & R1 & K1 & G1).
  rewrite (bind_Ret _ _ _ _ _ R1) in R. rewrite (bind_Ret _ _ _ _ _ (gets_run _ _)) in R.
  set (sw := capped _ _ _ _) in R. assert (Hsw : sw <= r_sweep r)
    by (unfold sw, capped; cbv zeta; match goal with |- context [?x <? r_sweep r] => destruct (Z.ltb_spec x (r_sweep r)) end; lia).
  apply bind_Ret_inv in R as (ok & w2 & R2 & R). unfold tried in R2.
  match type of R2 with (let (_, _) := ?m in _) = _ => destruct m as [o w2'] eqn:E2 end.
  assert (HS : exists b, w2' = set_bank b w /\ keeps (w_bank w) b /\ (forall e, o <> Panic e) /\
    GetBalance b pool d = pool_balance d w + match o with Ret _ => Z.max 0 sw | _ => 0 end).
  { assert (Hnp : forall e, o <> Panic e) by (intros e ->; done).
    destruct (0 <? sw) eqn:E; bool_prop.
    - apply sweep_to_pool_run in E2 as (b & -> & K2 & G2); [|lia|done|done]. exists b.
      split_and!; [done|by apply (keeps_trans _ b1)|done|]. rewrite G2. unfold pool_balance at 1. simpl. rewrite G1.
      unfold pool_balance. destruct o; lia.
    - injection E2 as <- <-. exists b1. split_and!; [done|done|done|]. rewrite G1. unfold pool_balance. lia. }
  destruct HS as (b & -> & K2 & Hnp & G2). exists (match o with Ret _ => Z.max 0 sw | _ => 0 end). destruct o as [[]|e|e]; [| |done].
  - injection R2 as <- <-. cbn [negb] in R. unfold DeletePendingClawback in R. do 2 rewrite (bind_Ret _ _ _ _ _ (modify_run _ _)) in R.
    injection R as <- <-. split_and!; try done; try lia.
    + destruct (Z.ltb_spec 0 sw); [rewrite (proj2 (Z.ltb_lt _ _)), Z.max_r by lia|rewrite (proj2 (Z.ltb_ge _ _)) by lia]; done.
    + right. intros k. kv_simp. by rewrite !kv_get_delete.
  - injection R2 as <- <-. injection R as <- <-. split_and!; try done; try lia. left. by split.
Qed.

(** ** The invariant of the grants *)

(** What a log lists under a name: of what was swept, or of what was issued. *)
Definition swept (g : string) log : Z := sumZ (fun e => if String.eqb e.1 g then e.2 else 0) log.
Definition issued : string -> list (string * Z) -> Z := swept.
Definition pending_rec (g : string) w : option PendingClawback := kv_get StoreKey (pendingKey g) w ≫= json_Unmarshal.
Definition pending (g : string) w : Z := from_option pending_of 0 (pending_rec g w).

(** The principal of a grant that is not clawed back. *)
Definition principal (gr : Grant) : Z := Z.max 0 (locked gr).
Definition outstanding (g : string) w : Z :=
  match GetGrant g w with Some gr => if String.eqb (Status gr) "revoked" then 0 else principal gr | None => 0 end.

Record inv (issues log : list (string * Z)) (inflow : Z) w : Prop := mkInv {
  inv_pool : is_Some (GetAccount (w_bank w) pool);
  inv_grant g gr a : GetGrant g w = Some gr -> Grantee gr = g /\ (StringToBytes g = Some a -> a <> pool);
  inv_pending g bz : kv_get StoreKey (pendingKey g) w = Some bz ->
    exists pc gr, bz = json_Marshal pc /\ pc_Grantee pc = g /\ GetGrant g w = Some gr /\ 0 < pending_of pc;
  inv_bound g : swept g log + pending g w + outstanding g w <= issued g issues;
  inv_log : Forall (fun e => 0 <= e.2) log /\ sumZ snd log <= inflow
}.

Lemma outstanding_nonneg g w : 0 <= outstanding g w.
Proof. unfold outstanding, principal. destruct (GetGrant g w) as [gr|]; [|lia]. destruct (String.eqb _ _); lia. Qed.
Lemma pending_nonneg issues log i w g : inv issues log i w -> 0 <= pending g w.
Proof.
  intros I. unfold pending, pending_rec. destruct (kv_get StoreKey (pendingKey g) w) as [bz|] eqn:E; [|done].
  destruct (inv_pending _ _ _ _ I _ _ E) as (pc & gr & -> & _ & _ & Hp). simpl. rewrite json_roundtrip. simpl. lia.
Qed.
Lemma pending_kv g w w' : kv_get StoreKey (pendingKey g) w' = kv_get StoreKey (pendingKey g) w -> pending g w' = pending g w.
Proof. intros E. unfold pending, pending_rec. by rewrite E. Qed.
Lemma outstanding_grant g w w' : GetGrant g w' = GetGrant g w -> outstanding g w' = outstanding g w.
Proof. intros E. unfold outstanding. by rewrite E. Qed.

Lemma Marshal_inj {A : Type} `{JSONLaws A} (x y : A) : json_Marshal x = json_Marshal y -> x = y.
Proof. intros E. apply (f_equal json_Unmarshal) in E. rewrite !json_roundtrip in E. by injection E. Qed.

Lemma GetGrant_ext w w' : kv_same w w' -> forall g, GetGrant g w' = GetGrant g w.
Proof. intros Hk g. unfold GetGrant. by rewrite Hk. Qed.

Lemma inv_records issues log i w w' :
  (forall g, GetGrant g w' = GetGrant g w) -> (forall g, kv_get StoreKey (pendingKey g) w' = kv_get StoreKey (pendingKey g) w) ->
  is_Some (GetAccount (w_bank w') pool) -> inv issues log i w -> inv issues log i w'.
Proof.
  intros Hg Hk K [I1 I2 I3 I4 I5]. split; [done| | | |done].
  - intros g gr a. rewrite Hg. apply I2.
  - intros g bz. rewrite Hk, Hg. apply I3.
  - intros g. rewrite (pending_kv g w w'), (outstanding_grant g w w') by done. apply I4.
Qed.

Lemma inv_ext issues log i w w' : kv_same w w' -> is_Some (GetAccount (w_bank w') pool) -> inv issues log i w -> inv issues log i w'.
Proof. intros Hk. apply inv_records; [by apply GetGrant_ext|intros; apply Hk]. Qed.

(** Writing the parameters or the snapshot. *)
Lemma byte_prefix_key p q t : 0 <= p < 256 -> 0 <= q < 256 -> p <> q -> byte_prefix p <> byte_prefix q +:+ t.
Proof. intros. rewrite <- (str_app_nil_r (byte_prefix p)). by apply byte_prefix_ne. Qed.

Lemma inv_set p v issues log i w : 3 < p < 256 \/ p = 1 -> inv issues log i w -> inv issues log i (kv_set StoreKey (byte_prefix p) v w).
Proof.
  intros Hp I. apply (inv_records issues log i w); [| |rewrite w_bank_set; apply I|done].
  - intros g. unfold GetGrant. rewrite kv_get_set_ne; [done|right; apply byte_prefix_key; lia].
  - intros g. rewrite kv_get_set_ne; [done|right; apply byte_prefix_key; lia].
Qed.

Lemma grantKey_pendingKey g g' : grantKey g <> pendingKey g'.
Proof. apply byte_prefix_ne; lia. Qed.
Lemma grantKey_inj g g' : grantKey g = grantKey g' -> g = g'.
Proof. apply byte_prefix_inj. Qed.
Lemma pendingKey_inj g g' : pendingKey g = pendingKey g' -> g = g'.
Proof. apply byte_prefix_inj. Qed.

Lemma swept_cons g h x l : swept g ((h, x) :: l) = (if String.eqb h g then x else 0) + swept g l.
Proof. done. Qed.
Lemma swept_app g l1 l2 : swept g (l1 ++ l2) = swept g l1 + swept g l2.
Proof. apply sumZ_app. Qed.
Lemma swept_some g h x : 0 <= x -> swept g (if 0 <? x then [(h, x)] else []) = if decide (h = g) then x else 0.
Proof.
  intros Hx. destruct (Z.ltb_spec 0 x); unfold swept; simpl; [destruct (String.eqb_spec h g)|]; repeat case_decide; try lia; done.
Qed.
Lemma sum_some (h : string) x : 0 <= x -> sumZ snd (if 0 <? x then [(h, x)] else []) = x.
Proof. intros Hx. destruct (Z.ltb_spec 0 x); simpl; lia. Qed.
Lemma Forall_some (h : string) x : 0 <= x -> Forall (fun e => 0 <= e.2) (if 0 <? x then [(h, x)] else []).
Proof. intros Hx. destruct (0 <? x); repeat constructor; done. Qed.

Definition ready_of_pending (r : ready) : Prop :=
  StringToBytes (pc_Grantee (r_pc r)) = Some (r_addr r) /\ NewIntFromString (SweepAmount (r_pc r)) = Some (r_sweep r).

(** One deferred sweep. *)
Lemma sweep_one_step d issues log i w r l w' :
  inv issues log i w -> kv_get StoreKey (pendingKey (pc_Grantee (r_pc r))) w = Some (json_Marshal (r_pc r)) ->
  ready_of_pending r -> sweep_one d r w = (Ret l, w') ->
  inv issues (l ++ log) (i + (pool_balance d w' - pool_balance d w)) w' /\
  forall g, g <> pc_Grantee (r_pc r) -> kv_get StoreKey (pendingKey g) w' = kv_get StoreKey (pendingKey g) w.
Proof.
  intros I Hkv [Hdec Hint] R. set (h := pc_Grantee (r_pc r)) in *.
  destruct (inv_pending _ _ _ _ I h _ Hkv) as (pc & gr & Epc%Marshal_inj & _ & Hgr & Hpos). subst pc.
  assert (Es : pending h w = r_sweep r) by (unfold pending, pending_rec; rewrite Hkv; simpl; rewrite json_roundtrip; simpl; unfold pending_of; by rewrite Hint).
  assert (Hsw : 0 < r_sweep r) by (unfold pending_of in Hpos; by rewrite Hint in Hpos).
  destruct (inv_grant _ _ _ _ I h gr (r_addr r) Hgr) as [_ Ha]. specialize (Ha Hdec).
  apply sweep_one_inv in R as (x & Hx & -> & K & P & D); [|done]. fold h in D |- *.
  assert (HG : forall g, GetGrant g w' = GetGrant g w).
  { intros g. unfold GetGrant. destruct D as [[_ D]|D]; rewrite D; [done|]. rewrite kv_get_delete_ne; [done|]. right.
    intros E. by apply (grantKey_pendingKey g h). }
  assert (HP : forall g, g <> h -> kv_get StoreKey (pendingKey g) w' = kv_get StoreKey (pendingKey g) w).
  { intros g Hg. destruct D as [[_ D]|D]; rewrite D; [done|]. rewrite kv_get_delete_ne; [done|]. right. by intros ->%pendingKey_inj. }
  assert (Hh : x + pending h w' <= pending h w).
  { destruct D as [[-> D]|D]; [rewrite (pending_kv h w w') by apply D; lia|]. unfold pending at 1, pending_rec. rewrite D, kv_get_delete_eq. simpl. lia. }
  split; [|done]. destruct I as [I1 I2 I3 I4 I5]. split.
  - by apply K.
  - intros g gr' a. rewrite HG. apply I2.
  - intros g bz Hbz. rewrite HG. destruct (decide (g = h)) as [->|E].
    + destruct D as [[_ D]|D]; rewrite D in Hbz; [by apply I3|]. by rewrite kv_get_delete_eq in Hbz.
    + rewrite HP in Hbz by done. by apply I3.
  - intros g. rewrite (outstanding_grant g w w'), swept_app, swept_some by (done || lia). specialize (I4 g). case_decide as E; [subst g; lia|].
    rewrite (pending_kv g w w'); [lia|]. apply HP. congruence.
  - destruct I5 as [I5 I6]. rewrite sumZ_app, sum_some by lia. split; [|lia]. apply Forall_app. split; [by apply Forall_some; lia|done].
Qed.

Lemma sweep_all_step d issues rs : forall log i w l w',
  inv issues log i w -> Forall (fun r => kv_get StoreKey (pendingKey (pc_Grantee (r_pc r))) w = Some (json_Marshal (r_pc r)) /\ ready_of_pending r) rs ->
  NoDup (pc_Grantee ∘ r_pc <$> rs) -> sweep_all d rs w = (Ret l, w') ->
  inv issues (l ++ log) (i + (pool_balance d w' - pool_balance d w)) w'.
Proof.
  induction rs as [|r rs IH]; intros log i w l w' I Hr Hnd R.
  - injection R as <- <-. replace (i + _) with i by lia. done.
  - cbn [sweep_all] in R. apply bind_Ret_inv in R as (l1 & w1 & R1 & R). apply bind_Ret_inv in R as (l2 & w2 & R2 & R).
    injection R as <- <-. apply Forall_cons in Hr as [[Hk Hr1] Hr]. rewrite fmap_cons in Hnd. apply NoDup_cons in Hnd as [Hni Hnd].
    destruct (sweep_one_step _ _ _ _ _ _ _ _ I Hk Hr1 R1) as [I1 HP].
    apply (IH _ _ _ _ _ I1) in R2; [| |done].
    + rewrite app_assoc in R2. replace (i + (pool_balance d w2 - pool_balance d w)) with
        (i + (pool_balance d w1 - pool_balance d w) + (pool_balance d w2 - pool_balance d w1)) by lia. done.
    + rewrite Forall_forall in Hr |- *. intros r' Hr'. destruct (Hr r' Hr') as [Hk' Hr1']. split; [|done].
      rewrite HP; [done|]. intros E. apply Hni. apply list_elem_of_fmap. exists r'. split; [by symmetry|done].
Qed.

Lemma NoDup_omap_key {A C K K' : Type} (f : A -> option C) (ka : A -> K) (kc : C -> K') (h : K' -> K) (l : list A) :
  NoDup (ka <$> l) -> (forall x y, x ∈ l -> f x = Some y -> ka x = h (kc y)) -> NoDup (kc <$> omap f l).
Proof.
  induction l as [|x l IH]; [constructor|]. rewrite fmap_cons. intros [Hni Hnd]%NoDup_cons Hf.
  assert (IH' : NoDup (kc <$> omap f l)) by (apply IH; [done|]; intros; apply Hf; [by right|done]).
  cbn [omap list_omap]. destruct (f x) as [y|] eqn:E; [|done]. rewrite fmap_cons. apply NoDup_cons. split; [|done].
  intros (z & Ez & (x' & Hx' & E')%list_elem_of_omap)%list_elem_of_fmap. apply Hni, list_elem_of_fmap. exists x'. split; [|done].
  rewrite (Hf x y) by (done || by left). rewrite Ez. symmetry. apply Hf; [by right|done].
Qed.

(** What the iteration over the pending records returns. *)
Lemma IteratePending_spec issues log i w :
  inv issues log i w -> NoDup (pc_Grantee <$> IteratePendingClawbacks w) /\
  forall pc, pc ∈ IteratePendingClawbacks w -> kv_get StoreKey (pendingKey (pc_Grantee pc)) w = Some (json_Marshal pc).
Proof.
  intros I. unfold IteratePendingClawbacks.
  assert (He : forall e pc, e ∈ kv_iter StoreKey PendingClawbackPref w -> json_Unmarshal e.2 = Some pc ->
    e.1 = pendingKey (pc_Grantee pc) /\ kv_get StoreKey (pendingKey (pc_Grantee pc)) w = Some (json_Marshal pc)).
  { intros [k bz] pc He E. simpl in E. apply elem_of_kv_iter in He as (Hk & t & ->); [|by eexists].
    destruct (inv_pending _ _ _ _ I t bz Hk) as (pc' & gr & -> & <- & _). rewrite json_roundtrip in E. injection E as <-. done. }
  split.
  - apply (NoDup_omap_key _ fst pc_Grantee pendingKey); [apply (NoDup_kv_range StoreKey)|]. intros e pc H1e H2e. by apply (He e pc).
  - intros pc (e & H1e & H2e)%list_elem_of_omap. by apply (He e pc).
Qed.

Lemma swept_matured_step d ctx issues log i w l w' :
  inv issues log i w -> BondDenom (w_bank w) = Ret d -> swept_matured ctx w = (Ret l, w') ->
  inv issues (l ++ log) (i + (pool_balance d w' - pool_balance d w)) w'.
Proof.
  intros I Hd R. unfold swept_matured in R. rewrite (bind_Ret _ _ _ _ _ (gets_run _ _)), Hd in R. erewrite bind_Ret in R by reflexivity.
  rewrite (bind_Ret _ _ _ _ _ (gets_run _ _)) in R. destruct (IteratePending_spec _ _ _ _ I) as [Hnd Hkv].
  assert (Hr : forall pc r, ready_of ctx pc = Some r -> r_pc r = pc /\ ready_of_pending r).
  { intros pc r. unfold ready_of, ready_of_pending. destruct (existsb _ _); [done|].
    destruct (StringToBytes (pc_Grantee pc)) eqn:E1; [|done]. destruct (NewIntFromString (SweepAmount pc)) eqn:E2; [|done].
    intros [= <-]. by simpl. }
  eapply sweep_all_step; [done| | |exact R].
  - apply Forall_forall. intros r (pc & Hpc & E)%list_elem_of_omap. destruct (Hr pc r E) as [<- ?]. split; [by apply Hkv|done].
  - apply (NoDup_omap_key _ pc_Grantee (pc_Grantee ∘ r_pc) id); [done|]. intros pc r _ E. by destruct (Hr pc r E) as [<- _].
Qed.

(** ** The other steps *)

Lemma Clawback_step d ctx issues log i w g u s p w' :
  inv issues log i w -> BondDenom (w_bank w) = Ret d -> Clawback ctx g w = (Ret (u, s, p), w') ->
  inv issues ((g, s) :: log) (i + (pool_balance d w' - pool_balance d w)) w'.
Proof.
  intros I Hd R. assert (exists a gr, StringToBytes g = Some a /\ GetGrant g w = Some gr) as (a & gr & Ha & Hgr).
  { unfold Clawback in R. destruct (StringToBytes g) as [a|]; [|done]. rewrite (bind_Ret _ _ _ _ _ (gets_run _ _)) in R.
    destruct (GetGrant g w) as [gr|]; [eauto|done]. }
  destruct (inv_grant _ _ _ _ I g gr a Hgr) as [Eg Hacc]. specialize (Hacc Ha).
  apply (Clawback_inv ctx g w u s p w' a d gr) in R as (Hst & Hs & Hp & Hsp & K & P & pc & Epc & Hpc & HK); try done. rewrite Eg in HK.
  assert (HG : forall g', GetGrant g' w' = if decide (g = g') then Some (revoked gr) else GetGrant g' w).
  { intros g'. unfold GetGrant. rewrite HK. case_decide as E; [subst; by rewrite kv_get_set_eq; simpl; rewrite json_roundtrip|].
    rewrite kv_get_set_ne by (right; by intros ->%grantKey_inj). destruct (0 <? p); [|done].
    rewrite kv_get_set_ne; [done|right]. intros E'. symmetry in E'. by apply grantKey_pendingKey in E'. }
  assert (HP : forall g', kv_get StoreKey (pendingKey g') w' =
    if decide (g = g' /\ 0 < p) then Some (json_Marshal pc) else kv_get StoreKey (pendingKey g') w).
  { intros g'. rewrite HK, kv_get_set_ne by (right; apply grantKey_pendingKey). destruct (Z.ltb_spec 0 p).
    - rewrite kv_get_set. destruct (decide (g = g')) as [->|Hne]; [by rewrite !decide_True|].
      rewrite !decide_False; [done|tauto|]. by intros [_ ->%pendingKey_inj].
    - rewrite decide_False by lia. done. }
  pose proof (pending_nonneg _ _ _ _ g I) as Hnn. assert (Hpend : pending g w' <= Z.max p (pending g w)).
  { specialize (HP g). destruct (decide (g = g /\ 0 < p)) as [E|E]; [|rewrite (pending_kv g w w') by done; lia].
    unfold pending at 1, pending_rec. rewrite HP. simpl. rewrite json_roundtrip. simpl. unfold pending_of. rewrite Hpc by tauto. simpl. unfold id. lia. }
  destruct I as [I1 I2 I3 I4 [I5 I6]]. split; [by apply K| | | |].
  - intros g' gr' a'. rewrite HG. destruct (decide (g = g')) as [<-|E]; [intros [= <-]|apply I2]. exact (I2 g gr a' Hgr).
  - intros g' bz. rewrite HP, HG. destruct (decide (g = g' /\ 0 < p)) as [E|E].
    + destruct E as [<- Hpos]. intros [= <-]. exists pc, (revoked gr). rewrite decide_True by done. split_and!; try done. unfold pending_of. by rewrite Hpc.
    + intros (pc' & gr' & ? & ? & Hgr' & ?)%I3. destruct (decide (g = g')) as [<-|]; [by exists pc', (revoked gr)|by exists pc', gr'].
  - intros g'. specialize (I4 g'). rewrite swept_cons. destruct (String.eqb_spec g g') as [<-|Hne].
    + assert (outstanding g w = Z.max 0 (locked gr)) as Ho by (unfold outstanding; rewrite Hgr; by destruct (String.eqb_spec (Status gr) "revoked")).
      assert (outstanding g w' = 0) as -> by (unfold outstanding; by rewrite HG, decide_True). lia.
    + rewrite (pending_kv g' w w') by (rewrite HP, decide_False; tauto). rewrite (outstanding_grant g' w w') by by rewrite HG, decide_False. exact I4.
  - split; [by constructor|]. simpl. lia.
Qed.

Lemma IssueGrant_inv g lc gc w w' :
  IssueGrant g lc gc w = (Ret tt, w') ->
  exists a, StringToBytes g = Some a /\ GetAccount (w_bank w) a = None /\ is_Some (GetAccount (w_bank w') a) /\
    keeps (w_bank w) (w_bank w') /\ kv_same w w'.
Proof.
  unfold IssueGrant. destruct (StringToBytes g) as [a|]; [|done]. cbv zeta. intros R. exists a. split; [done|].
  destruct (negb _ || negb _) in R; [done|]. destruct (negb _ && _) in R; [done|].
  rewrite (bind_Ret _ _ _ _ _ (gets_run _ _)) in R. destruct (GetAccount (w_bank w) a) eqn:Eacc; [done|]. split; [done|].
  destruct (BlockedAddr a); [done|]. apply bind_Ret_inv in R as (base & w1 & R1 & R). apply on_bank_inv in R1 as (b1 & R1 & ->).
  set (acc := mkAccount a None 0 0 BaseAccount) in R1. injection R1 as Eb E1.
  pose proof (NewAccount_address acc (w_bank w)) as Aa. pose proof (NewAccount_keeps acc (w_bank w)) as K1. rewrite Eb in Aa. rewrite E1 in K1.
  destruct (kind base); [|done|done]. apply bind_Ret_inv in R as (plva & w2 & R2 & R). injection R2 as R2 <-.
  apply NewPermanentLockedAccount_address in R2. rewrite (bind_Ret _ _ _ _ _ (on_bank_run _ _ _ _ (modify_run _ _))) in R.
  apply bind_Ret_inv in R as ([] & w3 & R3 & R). apply on_bank_inv in R3 as (b3 & R3 & ->). apply m2a_keeps in R3.
  apply bind_Ret_inv in R as ([] & w4 & R4 & R). injection R as <-.
  assert (exists b4, w4 = set_bank b4 (set_bank b3 (set_bank (SetAccount plva b1) (set_bank b1 w))) /\ keeps b3 b4) as (b4 & -> & K4).
  { destruct (Coins_IsZero _) in R4; [injection R4 as <-; by exists b3|]. apply on_bank_inv in R4 as (b4 & R4 & ->).
    exists b4. split; [done|]. by eapply m2a_keeps. }
  assert (K2 : keeps b1 (SetAccount plva b1)) by apply SetAccount_keeps. simpl in *. split_and!; [|by intros x Hx; apply K4, R3, K2, K1|done].
  apply K4, R3. rewrite GetAccount_set, decide_True by (by rewrite R2, Aa). by eexists.
Qed.

(** A new grant adds its principal; it replaces the record of an earlier one, if the
    account of that one is gone. *)
Lemma issue_step issues log i w w' g gr a :
  inv issues log i w -> StringToBytes g = Some a -> GetAccount (w_bank w) a = None ->
  keeps (w_bank w) (w_bank w') -> kv_same w w' -> Grantee gr = g -> Status gr <> "revoked" ->
  inv ((g, principal gr) :: issues) log i (kv_set StoreKey (grantKey g) (json_Marshal gr) w').
Proof.
  intros [I1 I2 I3 I4 I5] Ha Hno K Hk Eg Hst.
  assert (HG : forall g', GetGrant g' (kv_set StoreKey (grantKey g) (json_Marshal gr) w') = if decide (g = g') then Some gr else GetGrant g' w).
  { intros g'. unfold GetGrant. case_decide as E; [subst g'; rewrite kv_get_set_eq; simpl; apply json_roundtrip|].
    rewrite kv_get_set_ne by (right; by intros ->%grantKey_inj). by rewrite Hk. }
  assert (HP : forall g', kv_get StoreKey (pendingKey g') (kv_set StoreKey (grantKey g) (json_Marshal gr) w') = kv_get StoreKey (pendingKey g') w).
  { intros g'. by rewrite kv_get_set_ne, Hk by (right; apply grantKey_pendingKey). }
  split; [rewrite w_bank_set; by apply K| | | |done].
  - intros g' gr' a'. rewrite HG. case_decide as E; [subst g'; intros [= <-]|apply I2].
    split; [done|]. intros Ea'. assert (a' = a) as -> by congruence. intros ->. destruct I1 as [x Hx]. congruence.
  - intros g' bz. rewrite HP, HG. intros (pc & gr' & ? & ? & Hgr' & ?)%I3. case_decide; [by exists pc, gr|by exists pc, gr'].
  - intros g'. specialize (I4 g'). rewrite (pending_kv g' w _) by apply HP. unfold issued in *. rewrite swept_cons.
    unfold outstanding at 1. rewrite HG. destruct (String.eqb_spec g g') as [<-|Hne].
    + rewrite decide_True by done. rewrite (proj2 (String.eqb_neq _ _) Hst). pose proof (outstanding_nonneg g w). lia.
    + rewrite decide_False by done. fold (outstanding g' w). lia.
Qed.

Lemma IssueLocked_step ctx admin g lk gas op issues log i w w' amt :
  inv issues log i w -> IssueLocked ctx admin g lk gas op w = (Ret tt, w') -> NewIntFromString lk = Some amt -> inv ((g, amt) :: issues) log i w'.
Proof.
  intros I R Hamt. unfold IssueLocked in R. apply bind_Ret_inv in R as ([] & w0 & R0 & R).
  assert (w0 = w) as -> by (unfold requireAdmin in R0; run_inv R0; congruence).
  rewrite (bind_Ret _ _ _ _ _ (gets_run _ _)) in R. apply bind_Ret_inv in R as (d & w0 & R1 & R). injection R1 as _ <-.
  unfold parse_positive in R. rewrite Hamt in R. destruct (Z.ltb_spec 0 amt) as [Hpos|]; [|done].
  destruct (NewIntFromString gas) as [ga|]; [|done]. destruct (ga <? 0); [done|].
  apply bind_Ret_inv in R as (lc & w1 & R1 & R). injection R1 as _ <-. apply bind_Ret_inv in R as (gc & w1 & R1 & R).
  assert (w1 = w) as -> by (destruct (0 <? ga); by injection R1).
  apply bind_Ret_inv in R as ([] & w2 & R2 & R). apply IssueGrant_inv in R2 as (a & ? & ? & ? & ? & ?). injection R as <-.
  match goal with |- context [json_Marshal ?x] => set (gr := x) end.
  assert (Ep : principal gr = amt).
  { unfold principal, locked. cbn [LockedAmount gr]. rewrite NewIntFromString_String by (by eapply NewIntFromString_fits). simpl. unfold id. lia. }
  rewrite <- Ep. by eapply issue_step.
Qed.

Lemma for_each_SetGrant gs : forall w,
  exists w', for_each SetGrant gs w = (Ret tt, w') /\ w_bank w' = w_bank w /\
    (forall g, kv_get StoreKey (pendingKey g) w' = kv_get StoreKey (pendingKey g) w) /\
    forall g gr, GetGrant g w' = Some gr -> GetGrant g w = Some gr \/ gr ∈ gs /\ Grantee gr = g.
Proof.
  induction gs as [|x gs IH]; intros w; [exists w; split_and!; auto|].
  destruct (IH (kv_set StoreKey (grantKey (Grantee x)) (json_Marshal x) w)) as (w' & R & HB & HP & HG).
  exists w'. split_and!; [exact R|done| |].
  - intros g. rewrite HP, kv_get_set_ne; [done|right; apply grantKey_pendingKey].
  - intros g gr Hgr. destruct (HG g gr Hgr) as [Hg|[? ?]]; [|right; split; [by right|done]]. unfold GetGrant in Hg.
    rewrite kv_get_set in Hg. case_decide as E; [|by left]. destruct E as [_ E%grantKey_inj]. simpl in Hg. rewrite json_roundtrip in Hg.
    injection Hg as <-. right. split; [left|done].
Qed.

Lemma EndBlock_step d ctx issues log i w l w' :
  inv issues log i w -> BondDenom (w_bank w) = Ret d -> (swept_matured ctx w).1 = Ret l -> EndBlock ctx w = (Ret tt, w') ->
  inv issues (l ++ log) (i + (pool_balance d w' - pool_balance d w)) w'.
Proof.
  intros I Hd Hl R. destruct (swept_matured ctx w) as [o w1] eqn:R1. simpl in Hl. subst o. unfold EndBlock, SweepMaturedClawbacks in R.
  rewrite (bind_Ret _ _ _ _ _ (bind_Ret _ _ _ _ _ R1)) in R. cbv beta in R. change ((mret tt : M (World B) unit) w1) with (Ret tt, w1) in R.
  apply (swept_matured_step d ctx issues log i) in R1; [|done|done]. unfold RecordKPISnapshot in R.
  rewrite (bind_Ret _ _ _ _ _ (gets_run _ _)) in R. apply bind_Ret_inv in R as (snap & w2 & R2 & R). injection R2 as _ <-.
  unfold SetKPISnapshot in R. rewrite (bind_Ret _ _ _ _ _ (modify_run _ _)) in R. injection R as <-.
  apply inv_ext with (kv_set StoreKey KPISnapshotKey (json_Marshal snap) w1); [done|apply R1|]. apply inv_set; [lia|]. exact R1.
Qed.

Lemma BurnPool_step amount issues log i w x w' : inv issues log i w -> BurnPool amount w = (Ret x, w') -> inv issues log i w'.
Proof.
  intros I R. unfold BurnPool in R. rewrite (bind_Ret _ _ _ _ _ (gets_run _ _)) in R. apply bind_Ret_inv in R as (d & w0 & R0 & R).
  injection R0 as _ <-. destruct (negb _) in R; [done|]. rewrite (bind_Ret _ _ _ _ _ (gets_run _ _)) in R.
  apply bind_Ret_inv in R as (amt & w0 & R0 & R). assert (w0 = w) as ->.
  { destruct (_ || _) in R0; [by injection R0|]. destruct (NewIntFromString amount) as [z|]; [|done]. destruct (z <=? 0); [done|by injection R0]. }
  destruct (amt <=? 0); [done|]. destruct (_ <? amt) in R; [done|]. apply bind_Ret_inv in R as (cs & w0 & R1 & R). injection R1 as _ <-.
  apply bind_Ret_inv in R as ([] & w1 & R1 & R). apply on_bank_inv in R1 as (b & R1 & ->). injection R as _ <-.
  eapply inv_ext; [| |exact I]; [done|]. apply (burn_keeps _ _ _ _ _ R1), I.
Qed.

Lemma UpdateParams_step authority admin issues log i w w' : inv issues log i w -> UpdateParams authority admin w = (Ret tt, w') -> inv issues log i w'.
Proof.
  intros I R. unfold UpdateParams in R. destruct (negb _) in R; [done|]. rewrite (bind_Ret _ _ _ _ _ (gets_run _ _)) in R. injection R as <-.
  apply inv_set; [lia|done].
Qed.

(** ** Runs

    The module's transactions and end blocks in any order, between them anything
    that leaves the module's store alone and does not remove the module's own account;
    other accounts may go, as those of contracts do when they self-destruct, and a
    grant can then be issued again to the same address.  [issues] lists the principal
    of every grant, [log] what each clawback and each deferred sweep took under which
    name, [inflow] adds up what these steps brought into the pool. *)
Definition genesis_issues (gs : GenesisState) : list (string * Z) := (fun gr => (Grantee gr, principal gr)) <$> gs_Grants gs.

Inductive run (d : string) : list (string * Z) -> list (string * Z) -> Z -> World B -> Prop :=
| run_genesis gs w0 w :
    (forall k, kv_get StoreKey k w0 = None) -> is_Some (GetAccount (w_bank w0) pool) ->
    (forall gr, gr ∈ gs_Grants gs -> StringToBytes (Grantee gr) <> Some pool) ->
    InitGenesis gs w0 = (Ret tt, w) -> run d (genesis_issues gs) [] 0 w
| run_issue issues log i w ctx admin g lk gas op amt w' :
    run d issues log i w -> IssueLocked ctx admin g lk gas op w = (Ret tt, w') -> NewIntFromString lk = Some amt ->
    run d ((g, amt) :: issues) log i w'
| run_clawback issues log i w ctx g u s p w' :
    run d issues log i w -> BondDenom (w_bank w) = Ret d -> Clawback ctx g w = (Ret (u, s, p), w') ->
    run d issues ((g, s) :: log) (i + (pool_balance d w' - pool_balance d w)) w'
| run_end issues log i w ctx l w' :
    run d issues log i w -> BondDenom (w_bank w) = Ret d -> (swept_matured ctx w).1 = Ret l -> EndBlock ctx w = (Ret tt, w') ->
    run d issues (l ++ log) (i + (pool_balance d w' - pool_balance d w)) w'
| run_burn issues log i w amount x w' : run d issues log i w -> BurnPool amount w = (Ret x, w') -> run d issues log i w'
| run_params issues log i w authority admin w' :
    run d issues log i w -> UpdateParams authority admin w = (Ret tt, w') -> run d issues log i w'
| run_other issues log i w w' :
    run d issues log i w -> kv_same w w' -> is_Some (GetAccount (w_bank w') pool) -> run d issues log i w'.

(** The last grant of a list to a name is one of the list. *)
Lemma issued_in gr gs : gr ∈ gs_Grants gs -> principal gr <= issued (Grantee gr) (genesis_issues gs).
Proof.
  unfold genesis_issues, issued, swept. intros Hin. rewrite sumZ_map.
  pose proof (sumZ_elem_le (fun x => if String.eqb (Grantee x) (Grantee gr) then principal x else 0) (gs_Grants gs) gr) as Hle.
  cbv beta in Hle. rewrite String.eqb_refl in Hle. apply Hle; [|done]. apply Forall_true. intros x. unfold principal. destruct (String.eqb _ _); lia.
Qed.
Lemma issued_nonneg g gs : 0 <= issued g (genesis_issues gs).
Proof.
  unfold genesis_issues, issued, swept. rewrite sumZ_map. apply sumZ_nonneg, Forall_true. intros x. cbn [fst snd]. unfold principal.
  destruct (String.eqb _ _); lia.
Qed.

Lemma genesis_inv gs w0 w :
  (forall k, kv_get StoreKey k w0 = None) -> is_Some (GetAccount (w_bank w0) pool) ->
  (forall gr, gr ∈ gs_Grants gs -> StringToBytes (Grantee gr) <> Some pool) ->
  InitGenesis gs w0 = (Ret tt, w) -> inv (genesis_issues gs) [] 0 w.
Proof.
  intros He Hpool Hgr R. unfold InitGenesis, SetParams in R. rewrite (bind_Ret _ _ _ _ _ (modify_run _ _)) in R.
  destruct (for_each_SetGrant (gs_Grants gs) (kv_set StoreKey ParamsKey (json_Marshal (gs_Params gs)) w0)) as (w' & R' & HB & HP & HG).
  rewrite R' in R. injection R as ->. rewrite w_bank_set in HB.
  assert (Hkey : forall p t, p <> 1 -> 0 <= p < 256 -> kv_get StoreKey (byte_prefix p +:+ t) (kv_set StoreKey ParamsKey (json_Marshal (gs_Params gs)) w0) = None).
  { intros p t Hp Hr. rewrite kv_get_set_ne, He; [done|right; apply byte_prefix_key; lia]. }
  assert (HG' : forall g gr, GetGrant g w = Some gr -> gr ∈ gs_Grants gs /\ Grantee gr = g).
  { intros g gr E. destruct (HG g gr E) as [Hg|?]; [|done]. unfold GetGrant, grantKey, GrantsPrefix in Hg. by rewrite Hkey in Hg by lia. }
  assert (HP' : forall g, kv_get StoreKey (pendingKey g) w = None) by (intros g; rewrite HP; unfold pendingKey, PendingClawbackPref; by apply Hkey).
  split; [by rewrite HB| | | |by split; [constructor|]].
  - intros g gr a [Hin <-]%HG'. split; [done|]. intros E ->. by apply (Hgr gr Hin).
  - intros g bz. by rewrite HP'.
  - intros g. unfold pending, pending_rec. rewrite HP'. change (0 + 0 + outstanding g w <= issued g (genesis_issues gs)). unfold outstanding. pose proof (issued_nonneg g gs).
    destruct (GetGrant g w) as [gr|] eqn:E; [|lia]. destruct (String.eqb _ _); [lia|]. apply HG' in E as [Hin <-]. pose proof (issued_in gr gs Hin). lia.
Qed.

Lemma run_inv_holds d issues log i w : run d issues log i w -> inv issues log i w.
Proof.
  induction 1; [by eapply genesis_inv|by eapply IssueLocked_step|by eapply Clawback_step|by eapply EndBlock_step|by eapply BurnPool_step|
    by eapply UpdateParams_step|by eapply inv_ext].
Qed.


End accounting.

(** ** The figures of the snapshot *)
Section kpis.

Definition sum (l : list Z) : Z := sumZ (fun x => x) l.

Lemma foldl_i64 l : forall acc, Forall (Z.le 0) l -> 0 <= acc -> acc + sum l < 2 ^ 63 -> foldl (fun a p => i64 (a + p)) acc l = acc + sum l.
Proof.
  induction l as [|p l IH]; intros acc Hl Ha Hs; unfold sum in *; simpl in *; [lia|]. apply Forall_cons in Hl as [Hp Hl].
  pose proof (sumZ_nonneg (fun x => x) l Hl). rewrite i64_id by (unfold is_i64; lia). rewrite IH by (done || lia). lia.
Qed.

(** The masked power, without overflow. *)
Definition flagged (powers : list Z) (mask : list bool) : Z := sumZ (fun e => if (e.2 : bool) then e.1 else 0) (zip powers mask).

Lemma foundation_run powers mask : Forall (Z.le 0) powers -> sum powers < 2 ^ 63 ->
  foundation_power powers mask = flagged powers mask /\ 0 <= flagged powers mask <= sum powers.
Proof.
  intros Hp Hs. unfold foundation_power, flagged.
  enough (forall acc, 0 <= acc -> acc + sum powers < 2 ^ 63 ->
    foldl (fun a e => if (e.2 : bool) then i64 (a + e.1) else a) acc (zip powers mask) =
      acc + sumZ (fun e => if (e.2 : bool) then e.1 else 0) (zip powers mask) /\
    0 <= sumZ (fun e => if (e.2 : bool) then e.1 else 0) (zip powers mask) <= sum powers) as HE
    by (apply (HE 0); lia).
  clear Hs. revert mask. induction Hp as [|p l Hp Hl IH]; intros [|b mask] acc Ha Hs; unfold sum in *; simpl in *;
    [lia|lia|pose proof (sumZ_nonneg (fun x => x) l Hl); lia|]. pose proof (sumZ_nonneg (fun x => x) l Hl). destruct b.
  - rewrite i64_id by (unfold is_i64; lia). destruct (IH mask (acc + p)); lia.
  - destruct (IH mask acc); lia.
Qed.

(** The loop stops at the first prefix that exceeds a third. *)
Lemma nakamoto_loop_run T l : forall n c, Forall (Z.le 0) l -> 0 <= c -> 3 * (c + sum l) < 2 ^ 63 -> T < 3 * (c + sum l) -> 3 * c <= T ->
  exists k, (k <= length l)%nat /\ nakamoto_loop T n c l = n + Z.of_nat k /\ T < 3 * (c + sum (take k l)) /\
    forall j, (j < k)%nat -> 3 * (c + sum (take j l)) <= T.
Proof.
  induction l as [|p l IH]; intros n c Hl Hc Hb HT Hc3; unfold sum in *; simpl in *; [lia|]. apply Forall_cons in Hl as [Hp Hl].
  pose proof (sumZ_nonneg (fun x => x) l Hl). rewrite !i64_id by (unfold is_i64; try rewrite i64_id; unfold is_i64; lia).
  destruct (Z.ltb_spec T ((c + p) * 3)) as [Hlt|Hge].
  - exists 1%nat. simpl. split_and!; [lia|lia|lia|]. intros j Hj. assert (j = 0%nat) as -> by lia. simpl. lia.
  - destruct (IH (n + 1) (c + p) Hl ltac:(lia) ltac:(lia) ltac:(lia) ltac:(lia)) as (k & Hk & -> & HTk & Hj).
    exists (S k). split_and!; [simpl; lia|lia|simpl; lia|]. intros [|j] Hjk; simpl; [lia|]. specialize (Hj j ltac:(lia)). lia.
Qed.

(** No group of validators has more power than as many of the largest. *)
Lemma top_heaviest l : forall sub, StronglySorted Z.ge l -> sub ⊆+ l -> sum sub <= sum (take (length sub) l).
Proof.
  unfold sum. induction l as [|p l IH]; intros sub Hs Hsub.
  - by apply submseteq_nil_r in Hsub as ->.
  - apply StronglySorted_inv in Hs as [Hs Hp]. apply submseteq_cons_r in Hsub as [Hsub|(sub' & Hperm & Hsub)].
    + destruct sub as [|x sub]; [done|]. simpl.
      assert (Hx : x ∈ l) by (eapply elem_of_submseteq; [|exact Hsub]; by left). rewrite Forall_forall in Hp. specialize (Hp x Hx).
      specialize (IH sub Hs ltac:(etransitivity; [by apply submseteq_cons|exact Hsub])). lia.
    + rewrite (sumZ_perm _ _ _ Hperm), (Permutation_length Hperm). simpl. specialize (IH sub' Hs Hsub). lia.
Qed.

(** For the bonded powers in descending order, [computeKPIs] reports the
    Nakamoto coefficient exactly: the [n] largest validators hold more than a third
    of the power and no smaller group of any validators does.  The other figures
    are the exact totals and the shares in basis points, rounded down. *)
Theorem nakamoto_minimal powers mask :
  StronglySorted Z.ge powers -> Forall (Z.le 0) powers -> 0 < sum powers -> sum powers * 10000 < 2 ^ 63 ->
  exists n, (n <= length powers)%nat /\
    computeKPIs powers mask = (Z.of_nat (length powers), Z.of_nat n, flagged powers mask * 10000 / sum powers,
      hd 0 powers * 10000 / sum powers, sum powers) /\
    0 <= flagged powers mask <= sum powers /\ sum powers < 3 * sum (take n powers) /\
    forall sub, sub ⊆+ powers -> sum powers < 3 * sum sub -> (n <= length sub)%nat.
Proof.
  intros Hs Hp H0 Hb. destruct (foundation_run powers mask Hp ltac:(lia)) as [Ef Hf].
  destruct (nakamoto_loop_run (sum powers) powers 0 0 Hp ltac:(lia) ltac:(lia) ltac:(lia) ltac:(lia)) as (n & Hn & En & HT & Hj).
  exists n. split_and!; [done| |lia|lia|lia|].
  - unfold computeKPIs. rewrite foldl_i64, Z.add_0_l by (done || lia). rewrite (proj2 (Z.leb_gt _ _)) by lia.
    assert (Hhd : 0 <= hd 0 powers <= sum powers).
    { destruct Hp as [|x l Hx Hl]; unfold sum; simpl; [lia|]. pose proof (sumZ_nonneg (fun x => x) l Hl). lia. }
    rewrite En, Ef, !i64_id by (unfold is_i64; lia). by rewrite !Z.quot_div_nonneg by lia.
  - intros sub Hsub Hsum. destruct (decide (n <= length sub)%nat) as [|Hlt]; [done|]. specialize (Hj (length sub) ltac:(lia)).
    pose proof (top_heaviest powers sub Hs Hsub). lia.
Qed.

End kpis.

(** ** A concrete chain

    The ledger with accounts, delegations and an unbonding queue.  A transfer out of
    a locked account needs coins that are neither locked nor delegated. *)
Module Example.
#[local] Existing Instance decimal_MathInt.
#[local] Existing Instance decimal_MathIntLaws.
#[local] Instance Params_J : JSON Params := codec_JSON Params.
#[local] Instance Grant_J : JSON Grant := codec_JSON Grant.
#[local] Instance Grant_JL : JSONLaws Grant := codec_JSONLaws Grant.
#[local] Instance Pending_J : JSON PendingClawback := codec_JSON PendingClawback.
#[local] Instance Pending_JL : JSONLaws PendingClawback := codec_JSONLaws PendingClawback.
#[local] Instance KPI_J : JSON KPISnapshot := codec_JSON KPISnapshot.
#[local] Instance addresses : Bech32 := {| AccAddress_String x := x |}.
#[local] Instance coins : CoinFormat := {| ValidateDenom d := negb (String.eqb d EmptyString); Coins_String _ := "coins" |}.

Record sdk := mkSdk {
  s_bank : ledger;
  s_accounts : gmap string AccountI;
  s_delegated : gmap (string * string) Z;
  s_unbonding : list (string * Z * Z);   (** delegator, amount, completion in nanoseconds *)
  s_now : Z                              (** the block time in nanoseconds *)
}.
Definition with_bank (l : ledger) (b : sdk) : sdk := mkSdk l (s_accounts b) (s_delegated b) (s_unbonding b) (s_now b).
Definition on_ledger {A : Type} (m : M ledger A) : M sdk A := fun b => let r := m (s_bank b) in (r.1, with_bank r.2 b).

Definition delegated_by (a : string) (b : sdk) : Z := sumZ (fun e => if String.eqb e.1.1 a then e.2 else 0) (map_to_list (s_delegated b)).
Definition locked_coins (a d : string) (b : sdk) : Z :=
  match s_accounts b !! a with
  | Some (mkAccount _ _ _ _ (PermanentLockedAccount cs)) => Z.max 0 (AmountOf cs d - delegated_by a b)
  | _ => 0
  end.
Definition spendable (a : string) (cs : Coins) (b : sdk) : bool :=
  forallb (fun c => c.2 <=? l_get (s_bank b) a c.1 - locked_coins a c.1 b) cs.

#[local] Instance sdk_Bank : BankKeeper sdk := {|
  NewModuleAddress := l_module_address;
  BlockedAddr := @BlockedAddr ledger _;
  GetBalance b := l_get (s_bank b);
  GetSupply b := l_supply (s_bank b);
  bank_valid b := bank_valid (s_bank b);
  SendCoinsFromModuleToModule m1 m2 cs := on_ledger (SendCoinsFromModuleToModule m1 m2 cs);
  SendCoinsFromAccountToModule a m cs := fun b =>
    if spendable a cs b then on_ledger (SendCoinsFromAccountToModule a m cs) b else (Err "insufficient funds", b);
  SendCoinsFromModuleToAccount m a cs := on_ledger (SendCoinsFromModuleToAccount m a cs);
  MintCoins m cs := on_ledger (MintCoins m cs);
  BurnCoins m cs := on_ledger (BurnCoins m cs)
|}.

Lemma on_ledger_inv {A : Type} (m : M ledger A) b o b' : on_ledger m b = (o, b') -> m (s_bank b) = (o, s_bank b') /\ b' = with_bank (s_bank b') b.
Proof. unfold on_ledger. intros [= <- <-]. simpl. by destruct (m (s_bank b)). Qed.

Lemma on_ledger_run {A : Type} (m : M ledger A) b o l : m (s_bank b) = (o, l) -> on_ledger m b = (o, with_bank l b).
Proof. unfold on_ledger. by intros ->. Qed.

#[local] Instance sdk_BankLaws : BankLaws sdk.
Proof.
  split.
  - exact (@NewModuleAddress_inj ledger _ _).
  - intros b a d Hv. exact (GetBalance_range (s_bank b) a d Hv).
  - intros m1 m2 cs b o b' Hv [R _]%on_ledger_inv. exact (@m2m_valid ledger _ _ _ _ _ _ _ _ Hv R).
  - intros a m cs b o b' Hv R. simpl in R. destruct (spendable a cs b); [|by injection R as <- <-].
    apply on_ledger_inv in R as [R _]. exact (@a2m_valid ledger _ _ _ _ _ _ _ _ Hv R).
  - intros m a cs b o b' Hv [R _]%on_ledger_inv. exact (@m2a_valid ledger _ _ _ _ _ _ _ _ Hv R).
  - intros m cs b o b' Hv [R _]%on_ledger_inv. exact (@mint_valid ledger _ _ _ _ _ _ _ Hv R).
  - intros m cs b o b' Hv [R _]%on_ledger_inv. exact (@burn_valid ledger _ _ _ _ _ _ _ Hv R).
  - intros m1 m2 cs b b' [R _]%on_ledger_inv. exact (@m2m_moved ledger _ _ _ _ _ _ _ R).
  - intros a m cs b b' R. simpl in R. destruct (spendable a cs b); [|done]. apply on_ledger_inv in R as [R _]. exact (@a2m_moved ledger _ _ _ _ _ _ _ R).
  - intros m a cs b b' [R _]%on_ledger_inv. exact (@m2a_moved ledger _ _ _ _ _ _ _ R).
  - intros m cs b b' [R _]%on_ledger_inv. exact (@mint_created ledger _ _ _ _ _ _ R).
  - intros m cs b b' [R _]%on_ledger_inv. exact (@burn_destroyed ledger _ _ _ _ _ _ R).
  - intros m1 m2 d a b Hv E1 E2 Ha Hr. destruct (m2m_enough m1 m2 d a (s_bank b) Hv E1 E2 Ha Hr) as [l R]. eexists. by apply on_ledger_run.
  - intros m d a b Hv E Ha Hr Hs. destruct (mint_enough m d a (s_bank b) Hv E Ha Hr Hs) as [l R]. eexists. by apply on_ledger_run.
  - intros m d a b Hv E Ha. destruct (burn_enough m d a (s_bank b) Hv E Ha) as [l R]. eexists. by apply on_ledger_run.
  - intros m addr d a b Hv E1 E2 Ha Hr. destruct (m2a_enough m addr d a (s_bank b) Hv E1 E2 Ha Hr) as [l R]. eexists. by apply on_ledger_run.
  - intros m addr d a b e b' a' d' [R _]%on_ledger_inv. exact (m2a_err _ _ _ _ _ _ _ a' d' R).
Qed.

Definition with_accounts (f : gmap string AccountI -> gmap string AccountI) (b : sdk) : sdk :=
  mkSdk (s_bank b) (f (s_accounts b)) (s_delegated b) (s_unbonding b) (s_now b).

(** Accounts are only ever stored under their own address. *)
#[local] Instance sdk_Accounts : AccountKeeper sdk := {|
  StringToBytes x := if String.eqb x EmptyString then None else Some x;
  GetAccount b x := match s_accounts b !! x with
                    | Some (mkAccount _ pk n q k) => Some (mkAccount x pk n q k)
                    | None => None
                    end;
  NewAccount a b := (mkAccount (GetAddress a) (GetPubKey a) (Z.of_nat (size (s_accounts b))) (GetSequence a) (kind a), b);
  SetAccount a := with_accounts (insert (GetAddress a) a);
  NewPermanentLockedAccount a cs := Ret (mkAccount (GetAddress a) (GetPubKey a) (GetAccountNumber a) (GetSequence a) (PermanentLockedAccount cs))
|}.

Definition period : Z := 100 * 10 ^ 9.
#[local] Instance sdk_Staking : StakingKeeper sdk := {|
  BondDenom _ := Ret "aLIMO";
  ValAddress_StringToBytes x := Some x;
  GetDelegatorDelegations b a n := Ret (take (Z.to_nat n) (omap (fun e => if String.eqb e.1.1 a then Some (e.1.2, e.2) else None) (map_to_list (s_delegated b))));
  Undelegate a v shares := fun b =>
    match s_delegated b !! (a, v) with
    | Some x => (Ret (s_now b + period, Z.abs x),
                 mkSdk (s_bank b) (s_accounts b) (delete (a, v) (s_delegated b)) (s_unbonding b ++ [(a, Z.abs x, s_now b + period)]) (s_now b))
    | None => (Err "no delegation", b)
    end;
  GetBondedValidatorsByPower _ := Ret [("val", 10)]
|}.

#[local] Instance sdk_laws : GrantLaws sdk.
Proof.
  assert (Hsend : forall {A} (m : M ledger A) b o b', on_ledger m b = (o, b') -> keeps b b').
  { intros A m b o b' [_ ->]%on_ledger_inv x Hx. exact Hx. }
  split.
  - intros b x a. simpl. destruct (s_accounts b !! x) as [[]|]; [|done]. by intros [= <-].
  - intros a b x. simpl. case_decide as E; [subst; rewrite lookup_insert_eq; by destruct a|by rewrite lookup_insert_ne].
  - done.
  - done.
  - by intros a b x.
  - by intros a cs a' [= <-].
  - intros m a cs b o b'. apply Hsend.
  - intros a m cs b o b' R. simpl in R. destruct (spendable a cs b); [by eapply Hsend|]. injection R as <- <-. by intros x.
  - intros m cs b o b'. apply Hsend.
  - intros a m d x b e b' a' d' R. simpl in R. destruct (_ && _) in R; [|by injection R as <- <-].
    apply on_ledger_inv in R as [R _]. unfold l_send, one_coin in R. destruct (_ && _) in R; [done|].
    injection R as _ E. change (l_get (s_bank b') a' d' = l_get (s_bank b) a' d'). by rewrite E.
  - intros a v s b o b' R. simpl in R. destruct (s_delegated b !! (a, v)); injection R as <- <-; by intros x.
  - intros a v s b r b' a' d R _. simpl in R. destruct (s_delegated b !! (a, v)); [|done]. injection R as <- <-. simpl. lia.
  - intros a v s b r b' R. simpl in R. destruct (s_delegated b !! (a, v)); [|done]. injection R as <- <-. simpl. lia.
Qed.

(** What delegators and the staking module do between the steps. *)
Definition stakers : string := "module/bonded".
Definition delegate (a v : string) (x : Z) (b : sdk) : sdk :=
  mkSdk (l_transfer a stakers "aLIMO" x (s_bank b)) (s_accounts b) (<[(a, v) := x]> (s_delegated b)) (s_unbonding b) (s_now b).
Definition at_time (t : Z) (b : sdk) : sdk := mkSdk (s_bank b) (s_accounts b) (s_delegated b) (s_unbonding b) t.
Definition complete (b : sdk) : sdk :=
  let due := filter (fun e => e.2 <= s_now b) (s_unbonding b) in
  mkSdk (foldl (fun l e => l_transfer stakers e.1.1 "aLIMO" e.1.2 l) (s_bank b) due) (s_accounts b) (s_delegated b)
    (filter (fun e => ~ e.2 <= s_now b) (s_unbonding b)) (s_now b).

Definition other (f : sdk -> sdk) (w : World sdk) : World sdk := set_bank (f (w_bank w)) w.
Lemma run_foreign d issues log i w f :
  run d issues log i w -> (forall b, s_accounts (f b) !! pool = s_accounts b !! pool) -> run d issues log i (other f w).
Proof.
  intros R Hf. apply (run_other _ _ _ _ w); [exact R|by intros k|]. pose proof (inv_pool _ _ _ _ (run_inv_holds _ _ _ _ _ R)) as Hp.
  unfold GetAccount, sdk_Accounts, other, set_bank in *. cbn [w_bank] in *. rewrite Hf. exact Hp.
Qed.

Definition ctx_at (w : World sdk) : Ctx := mkCtx (s_now (w_bank w) / 10 ^ 9) 1 false false.

Definition gs : GenesisState := mkGenesis (mkParams "admin" []) [].
Definition w0 : World sdk :=
  mkWorld (mkSdk (mkLedger {[ (pool, "aLIMO") := 1000 ]} {[ "aLIMO" := 1000 ]}) {[ pool := mkAccount pool None 0 0 (OtherAccount "module") ]} ∅ [] (10 ^ 9))
    ∅ [].
Definition w1 := (InitGenesis gs w0).2.
Definition w2 := (IssueLocked (ctx_at w1) "admin" "vera" "100" "10" "val" w1).2.
Definition w3 := other (delegate "vera" "val" 60) w2.

(** Clawback of a grant of 100 with 60 bonded: 40 come back at once, 60 when the
    unbonding has completed; the gas allowance stays with the grantee. *)
Definition w4 := (Clawback (ctx_at w3) "vera" w3).2.
Definition w5 := other complete (other (at_time (101 * 10 ^ 9)) w4).
Definition w6 := (EndBlock (ctx_at w5) w5).2.

(** The account is removed and granted again: the record of the first grant is
    replaced, and the two principals are the bound. *)
Definition removed (b : sdk) : sdk := mkSdk (s_bank b) (delete "vera" (s_accounts b)) (s_delegated b) (s_unbonding b) (s_now b).
Definition w7 := other removed w6.
Definition w8 := (IssueLocked (ctx_at w7) "admin" "vera" "70" "0" "val" w7).2.

Lemma run_w6 : run "aLIMO" [("vera", 100)] [("vera", 60); ("vera", 40)] 100 w6.
Proof.
  assert (R1 : run "aLIMO" [] [] 0 w1).
  { apply (run_genesis _ gs w0); [by intros k; vm_compute|by eexists|by intros gr Hgr%not_elem_of_nil|vm_compute; reflexivity]. }
  assert (E2 : IssueLocked (ctx_at w1) "admin" "vera" "100" "10" "val" w1 = (Ret tt, w2)) by (vm_compute; reflexivity).
  pose proof (run_issue _ _ _ _ _ _ _ _ _ _ _ 100 _ R1 E2 eq_refl) as R2.
  pose proof (run_foreign _ _ _ _ _ (delegate "vera" "val" 60) R2 (fun _ => eq_refl)) as R3. fold w3 in R3.
  assert (E4 : Clawback (ctx_at w3) "vera" w3 = (Ret (60, 40, 60), w4)) by (vm_compute; reflexivity).
  pose proof (run_clawback _ _ _ _ _ _ _ _ _ _ _ R3 eq_refl E4) as R4.
  replace (0 + _) with 40 in R4 by (vm_compute; reflexivity).
  pose proof (run_foreign _ _ _ _ _ (at_time (101 * 10 ^ 9)) R4 (fun _ => eq_refl)) as R5.
  apply (fun R => run_foreign _ _ _ _ _ complete R (fun _ => eq_refl)) in R5. fold w5 in R5.
  assert (L6 : (swept_matured (ctx_at w5) w5).1 = Ret [("vera", 60)]) by (vm_compute; reflexivity).
  assert (E6 : EndBlock (ctx_at w5) w5 = (Ret tt, w6)) by (vm_compute; reflexivity).
  pose proof (run_end _ _ _ _ _ _ _ _ R5 eq_refl L6 E6) as R6.
  replace (40 + _) with 100 in R6 by (vm_compute; reflexivity). exact R6.
Qed.

Lemma run_w8 : run "aLIMO" [("vera", 70); ("vera", 100)] [("vera", 60); ("vera", 40)] 100 w8.
Proof.
  assert (Hf : forall b, s_accounts (removed b) !! pool = s_accounts b !! pool) by (intros b; apply lookup_delete_ne; vm_compute; discriminate).
  pose proof (run_foreign _ _ _ _ _ removed run_w6 Hf) as R7. fold w7 in R7.
  assert (E8 : IssueLocked (ctx_at w7) "admin" "vera" "70" "0" "val" w7 = (Ret tt, w8)) by (vm_compute; reflexivity).
  exact (run_issue _ _ _ _ _ _ _ _ _ _ _ 70 _ R7 E8 eq_refl).
Qed.


(** The principal can escape: coins that are already unbonding when the grant is
    clawed back are neither swept nor recorded.  The sweep takes the gas allowance
    in their place and unlocks the account, the unbonded coins arrive there
    unlocked, and a second clawback is refused. *)
Definition self_undelegate (b : sdk) : sdk := (Undelegate "vera" "val" 60 b).2.
Definition e4 := (Clawback (ctx_at w3) "vera" (other self_undelegate w3)).2.
Definition e6 := (EndBlock (ctx_at w5) (other complete (other (at_time (101 * 10 ^ 9)) e4))).2.
Lemma principal_escapes :
  (Clawback (ctx_at w3) "vera" (other self_undelegate w3)).1 = Ret (0, 50, 0) /\ pending "vera" e4 = 0 /\
  GetBalance (w_bank e6) "vera" "aLIMO" = 60 /\ locked_coins "vera" "aLIMO" (w_bank e6) = 0 /\
  (Clawback (ctx_at e6) "vera" e6).1 = Err "grant is already revoked".
Proof. split_and!; vm_compute; reflexivity. Qed.

(** The completion time is cut to whole seconds: an end block in the same second
    but before the unbonding completes sweeps nothing of the bonded part, only the
    gas allowance, drops the record and leaves the account unlocked. *)
Definition c3 := other (at_time (10 ^ 9 + 9 * 10 ^ 8)) w3.
Definition c4 := (Clawback (ctx_at c3) "vera" c3).2.
Definition c5 := other complete (other (at_time (101 * 10 ^ 9 + 10 ^ 8)) c4).
Definition c6 := (EndBlock (ctx_at c5) c5).2.
Definition c7 := other complete (other (at_time (102 * 10 ^ 9)) c6).
Lemma sweep_too_early :
  pending "vera" c4 = 60 /\ (swept_matured (ctx_at c5) c5).1 = Ret [("vera", 10)] /\ pending "vera" c6 = 0 /\
  GetBalance (w_bank c7) "vera" "aLIMO" = 60 /\ locked_coins "vera" "aLIMO" (w_bank c7) = 0.
Proof. split_and!; vm_compute; reflexivity. Qed.

Lemma nakamoto_minimal_witness : exists n, (n <= 4)%nat /\
  computeKPIs [40; 30; 20; 10] [false; true] = (4, Z.of_nat n, 3000, 4000, 100) /\
  forall sub, sub ⊆+ [40; 30; 20; 10] -> 100 < 3 * sum sub -> (n <= length sub)%nat.
Proof.
  assert (Hs : StronglySorted Z.ge [40; 30; 20; 10]) by (repeat constructor; lia).
  assert (Hp : Forall (Z.le 0) [40; 30; 20; 10]) by (repeat constructor; lia).
  destruct (nakamoto_minimal [40; 30; 20; 10] [false; true] Hs Hp ltac:(vm_compute; reflexivity) ltac:(vm_compute; reflexivity))
    as (n & Hn & E & _ & _ & Hmin). exists n. split; [exact Hn|]. split; [exact E|exact Hmin].
Defined.

End Example.

End ValGrant.
