(* ===== verification/Paymaster.v ===== *)
(** * x/paymaster and the fees of Cosmos transactions

    Models x/paymaster (the sponsorship policies and the decorator that deducts the
    fee from whoever pays it), the minimum gas price decorator of ante/cosmos and
    the EIP-1559 fee checker of ante/evm. *)
From S2P Require Import Prelude Codec Bank FeeMarket.
From stdpp Require Import gmap strings list.
From Stdlib Require Import ZArith Lia.

#[local] Set Default Goal Selector "!".
Open Scope Z_scope.

Module Paymaster.

Definition ModuleName : string := "paymaster".
Definition StoreKey : string := ModuleName.
Definition PoliciesKey : string := byte_prefix 1.

Record Policy := mkPolicy { Sponsor : string; AllowedSender : string; MsgTypeURL : string; PerTxCap : string }.

#[export] Instance Policy_codec : Codec Policy :=
  Codec_iso (fun p => (Sponsor p, AllowedSender p, MsgTypeURL p, PerTxCap p)) (fun t => mkPolicy t.1.1.1 t.1.1.2 t.1.2 t.2)
    (fun p => match p with mkPolicy _ _ _ _ => eq_refl end).

(** What the module uses of the SDK's parsers. *)
Class Parsers : Type := { AccAddressFromBech32 : string -> option string; ParseCoinsNormalized : string -> option Coins }.

(** x/auth and x/feegrant. *)
Class FeeKeepers (B : Type) : Type := {
  HasAccount : B -> string -> bool;
  UseGrantedFees : string -> string -> Coins -> list string -> M B unit
}.

(** sdk.Coins: the comparisons the code uses. *)
Definition IsAllGTE (coins coinsB : Coins) : bool :=
  match coinsB, coins with
  | [], _ => true
  | _, [] => false
  | _, _ => forallb (fun c => negb (AmountOf coins c.1 <? c.2)) coinsB
  end.
Definition IsAllLTE (coins coinsB : Coins) : bool := IsAllGTE coinsB coins.
Definition IsAnyGTE (coins coinsB : Coins) : bool :=
  match coinsB with
  | [] => false
  | _ => existsb (fun c => (AmountOf coinsB c.1 <=? c.2) && negb (AmountOf coinsB c.1 =? 0)) coins
  end.

(** A transaction as the decorators see it.  [GetFee] is [None] for a nil slice,
    [MaxPriorityPrice] the value of the dynamic-fee extension if there is one. *)
Record FeeTx := mkFeeTx {
  GetGas : Z;
  GetFee : option Coins;
  FeePayer : string;
  FeeGranter : option string;
  GetMsgs : list string;
  MaxPriorityPrice : option (option Z)
}.
Definition fee_of (tx : FeeTx) : Coins := default [] (GetFee tx).

(** [GenesisState.Validate]. *)
Definition validate_policy `{Parsers} (p : Policy) : outcome unit :=
  match AccAddressFromBech32 (Sponsor p) with
  | None => Err "invalid sponsor"
  | Some _ =>
      if negb (String.eqb (AllowedSender p) EmptyString) && negb (bool_decide (is_Some (AccAddressFromBech32 (AllowedSender p))))
      then Err "invalid allowed_sender" else
      if negb (String.eqb (PerTxCap p) EmptyString) && negb (bool_decide (is_Some (ParseCoinsNormalized (PerTxCap p))))
      then Err "invalid per_tx_cap" else Ret tt
  end.
Definition Validate `{Parsers} (policies : list Policy) : outcome unit := fold_ok (fun _ p => validate_policy p) tt policies.

(** ** The fee checker (ante/evm/fee_checker.go) *)

(** [sdk.DefaultPowerReduction], read when x/vm/types is initialised, before evmd
    replaces it. *)
Definition DefaultPriorityReduction : Z := 10 ^ 6.
Definition int64_or_max (z : Z) : Z := if (- 2 ^ 63 <=? z) && (z <? 2 ^ 63) then z else 2 ^ 63 - 1.

(** [Dec.Ceil().RoundInt()] and [Dec.MulInt]. *)
Definition dec_ceil_int (a : Z) : Z := - ((- a) / dec_one).
Definition dec_mul_int `{LegacyDec} (a z : Z) : outcome Z := dec_result (a * z).

Definition effectiveGasPriceLegacyDec `{LegacyDec} (baseFee feeCap tipCap : Z) : outcome Z :=
  s ← dec_add tipCap baseFee; Ret (Z.min s feeCap).

Definition priority_step (gas : Z) (priority : Z) (fee : string * Z) : outcome Z :=
  if gas =? 0 then Panic "division by zero" else
  let p := int64_or_max (Z.quot (Z.quot fee.2 gas) DefaultPriorityReduction) in
  Ret (if (priority =? 0) || (p <? priority) then p else priority).
Definition getTxPriority (fees : Coins) (gas : Z) : outcome Z := fold_ok (priority_step gas) 0 fees.

Section checker.
Context `{LegacyDec}.
(** [ctx.MinGasPrices()] and [GetEVMCoinDenom()]. *)
Variable minGasPrices : list (string * Z).
Variable evmDenom : string.

Definition required_fee (gas : Z) (gp : string * Z) : outcome (string * Z) :=
  f ← dec_mul gp.2 (gas * dec_one); Ret (gp.1, dec_ceil_int f).
Definition checkTxFeeWithValidatorMinGasPrices (ctx : Ctx) (tx : FeeTx) : outcome (Coins * Z) :=
  let gas := i64 (GetGas tx) in
  enough ← (if IsCheckTx ctx && negb (forallb (fun gp => gp.2 =? 0) minGasPrices) then
              req ← map_ok (required_fee gas) minGasPrices; Ret (IsAnyGTE (fee_of tx) req)
            else Ret true);
  if negb enough then Err "insufficient fees" else
  priority ← getTxPriority (fee_of tx) gas;
  Ret (fee_of tx, priority).

(** [london] says whether the fork is active at the height. *)
Definition FeeChecker (london : bool) (ctx : Ctx) (p : FeeMarket.Params) (tx : FeeTx) : outcome (Coins * Z) :=
  if negb london then checkTxFeeWithValidatorMinGasPrices ctx tx else
  let baseFee := match FeeMarket.BaseFee p with
                 | Some b => if FeeMarket.IsBaseFeeEnabled p (BlockHeight ctx) then b else 0
                 | None => 0
                 end in
  let maxPriorityPrice := match MaxPriorityPrice tx with
                          | None => (2 ^ 63 - 1) * dec_one
                          | Some d => default 0 d
                          end in
  if maxPriorityPrice <? 0 then Err "max priority price cannot be negative" else
  let gas := GetGas tx in
  if gas =? 0 then Err "gas cannot be zero" else
  feeCap ← dec_quo_int (AmountOf (fee_of tx) evmDenom * dec_one) gas;
  if feeCap <? baseFee then Err "gas prices too low" else
  effectivePrice ← effectiveGasPriceLegacyDec baseFee feeCap maxPriorityPrice;
  total ← dec_mul_int effectivePrice gas;
  tip ← dec_sub effectivePrice baseFee;
  red ← dec_quo_int tip DefaultPriorityReduction;
  Ret ([(evmDenom, dec_ceil_int total)], int64_or_max (dec_truncate red)).

Definition NewDynamicFeeChecker (london : bool) (p : FeeMarket.Params) (ctx : Ctx) (tx : FeeTx) : outcome (Coins * Z) :=
  if BlockHeight ctx =? 0 then checkTxFeeWithValidatorMinGasPrices ctx tx else FeeChecker london ctx p tx.

End checker.

Section keeper.
Context {B : Type} `{BankKeeper B} `{FeeKeepers B} `{Parsers} `{Bech32} `{JSON (list Policy)}.
Implicit Types w : World B.

Definition SetPolicies (ps : list Policy) : M (World B) unit := modify (kv_set StoreKey PoliciesKey (json_Marshal ps)).
(** [None] is an error. *)
Definition GetPolicies w : option (list Policy) :=
  match kv_get StoreKey PoliciesKey w with
  | None => Some []
  | Some bz => json_Unmarshal bz
  end.
Definition InitGenesis (ps : list Policy) : M (World B) unit := SetPolicies ps.
Definition ExportGenesis w : list Policy := default [] (GetPolicies w).

Definition msgMatches (msgs : list string) (typeURL : string) : bool := existsb (fun m => String.eqb m typeURL) msgs.

(** The body of the loop: the sponsor if the policy matches. *)
Definition policy_sponsor (msgs : list string) (feePayer : string) (fee : Coins) (p : Policy) : option string :=
  if negb (String.eqb (AllowedSender p) EmptyString) && negb (String.eqb (AllowedSender p) (AccAddress_String feePayer)) then None else
  if negb (String.eqb (MsgTypeURL p) EmptyString) && negb (msgMatches msgs (MsgTypeURL p)) then None else
  if negb (String.eqb (PerTxCap p) EmptyString) &&
     match ParseCoinsNormalized (PerTxCap p) with None => true | Some capCoins => negb (IsAllLTE fee capCoins) end then None else
  AccAddressFromBech32 (Sponsor p).
Definition ResolveSponsor (msgs : list string) (feePayer : string) (fee : Coins) w : option string :=
  match GetPolicies w with
  | None => None
  | Some policies => head (omap (policy_sponsor msgs feePayer fee) policies)
  end.

(** ** Deducting the fee (x/paymaster/ante/fee.go)

    [pm], [fk] say whether a paymaster and a feegrant keeper are configured, [tfc]
    is the fee checker. *)
Definition resolveSponsor (pm : bool) (tx : FeeTx) (fee : Coins) w : option string :=
  match FeeGranter tx with
  | Some _ => None
  | None => if negb pm then None else ResolveSponsor (GetMsgs tx) (FeePayer tx) fee w
  end.

Definition deduct (fk : bool) (tx : FeeTx) (fee : Coins) (sponsor : option string) (fee_str : string) : M (World B) unit :=
  if negb (is_macc FeeCollectorName) then fail "fee collector module account has not been set" else
  deductFrom ←
    match sponsor, FeeGranter tx with
    | Some s, _ => mret s
    | None, None => mret (FeePayer tx)
    | None, Some fg =>
        if negb fk then fail "fee grants are not enabled" else
        (if String.eqb fg (FeePayer tx) then mret tt else on_bank (UseGrantedFees fg (FeePayer tx) fee (GetMsgs tx)));;
        mret fg
    end;
  known ← gets (fun w => HasAccount (w_bank w) deductFrom);
  if negb known then fail "fee payer address does not exist" else
  (if Coins_IsZero fee then mret tt else on_bank (SendCoinsFromAccountToModule deductFrom FeeCollectorName fee));;
  modify (emit (mkEvent "tx" [("fee", fee_str); ("fee_payer", AccAddress_String deductFrom)])).

(** The result is the priority handed on with the context. *)
Definition AnteHandle (pm fk : bool) (tfc : option (Ctx -> FeeTx -> outcome (Coins * Z))) (Coins_String : Coins -> string)
    (ctx : Ctx) (tx : option FeeTx) (simulate : bool) : M (World B) Z :=
  match tx with
  | None => fail "Tx must be a FeeTx"
  | Some tx =>
      if negb simulate && (0 <? BlockHeight ctx) && (GetGas tx =? 0) then fail "must provide positive gas" else
      let fee := fee_of tx in
      sponsor ← gets (resolveSponsor pm tx fee);
      r ← (match tfc, sponsor with
           | Some check, None => if simulate then mret (fee, 0) else lift_outcome (check ctx tx)
           | _, _ => mret (fee, 0)
           end);
      deduct fk tx r.1 sponsor (Coins_String r.1);;
      mret r.2
  end.

(** ** The minimum gas price (ante/cosmos/min_gas_price.go) *)
Section min_gas_price.
Context `{LegacyDec}.
Variable evmDenom bondDenom : string.

Definition sponsored (pm : bool) (tx : FeeTx) w : bool :=
  if negb pm then false else bool_decide (is_Some (ResolveSponsor (GetMsgs tx) (FeePayer tx) (fee_of tx) w)).

Definition MinGasPrice_AnteHandle (pm : bool) (p : FeeMarket.Params) (tx : option FeeTx) (simulate : bool) : M (World B) unit :=
  match tx with
  | None => fail "invalid transaction type"
  | Some tx =>
      let feeCoins := fee_of tx in
      let validFees := match feeCoins with
                       | [] => true
                       | [(d, _)] => String.eqb d evmDenom || String.eqb d bondDenom
                       | _ => false
                       end in
      if negb validFees && negb simulate then fail "expected only native token for fee" else
      match FeeMarket.MinGasPrice p with
      | None => panic "nil pointer dereference"
      | Some minGasPrice =>
          if (minGasPrice =? 0) || simulate then mret tt else
          f ← lift_outcome (dec_mul minGasPrice (GetGas tx * dec_one));
          let fee := dec_ceil_int f in
          let requiredFees := if 0 <? fee then [(evmDenom, fee)] else [] in
          ok ← gets (sponsored pm tx);
          match GetFee tx with
          | None => if ok : bool then mret tt else fail "fee not provided"
          | Some _ => if IsAnyGTE feeCoins requiredFees || ok then mret tt else fail "provided fee < minimum global fee"
          end
      end
  end.

End min_gas_price.
End keeper.

(** ** Who pays, and how much *)

(** An allowance changes no balance. *)
Class FeeKeepersLaws (B : Type) `{BankKeeper B} `{FeeKeepers B} : Prop := {
  UseGrantedFees_balance g p fee msgs b b' a d :
    UseGrantedFees g p fee msgs b = (Ret tt, b') -> GetBalance b' a d = GetBalance b a d
}.

(** The price per gas a transaction must reach, and what it declared to pay. *)
Definition base_fee (ctx : Ctx) (p : FeeMarket.Params) : Z :=
  if FeeMarket.IsBaseFeeEnabled p (BlockHeight ctx) then default 0 (FeeMarket.BaseFee p) else 0.
Definition declared (evmDenom : string) (tx : FeeTx) : Z := AmountOf (fee_of tx) evmDenom.

Lemma dec_ceil_int_spec a : dec_ceil_int a * dec_one - dec_one < a <= dec_ceil_int a * dec_one.
Proof.
  unfold dec_ceil_int. pose proof (Z.div_mod (- a) dec_one ltac:(unfold dec_one; lia)). pose proof (Z.mod_pos_bound (- a) dec_one ltac:(unfold dec_one; lia)).
  unfold dec_one in *. lia.
Qed.

(** The checker charges between the base fee and the declared fee. *)
Lemma FeeChecker_bounds `{LegacyDec} mgp evmDenom ctx p tx cs prio :
  0 <= base_fee ctx p -> 0 <= GetGas tx -> 0 <= declared evmDenom tx -> FeeChecker mgp evmDenom true ctx p tx = Ret (cs, prio) ->
  exists x, cs = [(evmDenom, x)] /\ base_fee ctx p * GetGas tx <= x * dec_one /\ 0 <= x <= declared evmDenom tx.
Proof.
  intros Hb Hg Hd R. unfold FeeChecker in R. cbn [negb] in R.
  set (bf := match FeeMarket.BaseFee p with Some _ => _ | None => _ end) in R.
  assert (Ebf : bf = base_fee ctx p) by (unfold bf, base_fee; destruct (FeeMarket.BaseFee p); [done|by destruct (FeeMarket.IsBaseFeeEnabled _ _)]).
  rewrite Ebf in R. cbv zeta in R. set (mp := match MaxPriorityPrice tx with Some _ => _ | None => _ end) in R.
  destruct (Z.ltb_spec mp 0) as [|Hmp]; [done|]. destruct (Z.eqb_spec (GetGas tx) 0) as [|Hg0]; [done|].
  unfold dec_quo_int in R. rewrite (proj2 (Z.eqb_neq _ _) Hg0) in R. cbn [mbind outcome_bind] in R.
  fold (declared evmDenom tx) in R. rewrite Z.quot_div_nonneg in R by (unfold dec_one; lia).
  set (cap := declared evmDenom tx * dec_one / GetGas tx) in R. destruct (Z.ltb_spec cap (base_fee ctx p)) as [|Hcap]; [done|].
  unfold effectiveGasPriceLegacyDec, dec_add, dec_mul_int, dec_sub, dec_result in R.
  destruct (dec_fits (mp + base_fee ctx p)); [|done]. cbn [mbind outcome_bind] in R. set (price := Z.min _ cap) in R.
  destruct (dec_fits (price * GetGas tx)); [|done]. cbn [mbind outcome_bind] in R.
  destruct (dec_fits (price - base_fee ctx p)); [|done]. cbn [mbind outcome_bind] in R. injection R as <- _.
  exists (dec_ceil_int (price * GetGas tx)). split; [done|]. pose proof (dec_ceil_int_spec (price * GetGas tx)) as [Hc1 Hc2].
  assert (Hp : base_fee ctx p <= price <= cap) by (unfold price; lia).
  assert (Hcg : cap * GetGas tx <= declared evmDenom tx * dec_one) by (unfold cap; rewrite Z.mul_comm; apply Z.mul_div_le; lia).
  assert (0 <= price * GetGas tx <= declared evmDenom tx * dec_one) by nia. unfold dec_one in *. split; [nia|]. lia.
Qed.

Section payer.
Context {B : Type} `{BankLaws B} `{FeeKeepers B} `{!FeeKeepersLaws B} `{Parsers} `{Bech32} `{JSON (list Policy)}.
Implicit Types w : World B.

Definition covers (msgs : list string) (payer : string) (fee : Coins) (p : Policy) : Prop :=
  (AllowedSender p = EmptyString \/ AllowedSender p = AccAddress_String payer) /\
  (MsgTypeURL p = EmptyString \/ MsgTypeURL p ∈ msgs) /\
  (PerTxCap p = EmptyString \/ exists cap, ParseCoinsNormalized (PerTxCap p) = Some cap /\ IsAllLTE fee cap = true).

Lemma msgMatches_spec msgs u : msgMatches msgs u = true <-> u ∈ msgs.
Proof.
  unfold msgMatches. rewrite existsb_exists. split.
  - intros (x & Hx & ->%String.eqb_eq). by apply list_elem_of_In.
  - intros Hu. exists u. split; [by apply list_elem_of_In|apply String.eqb_refl].
Qed.

Lemma unless_empty (x : string) (b : bool) (P : Prop) :
  (b = true <-> P) -> negb (String.eqb x EmptyString) && negb b = false <-> x = EmptyString \/ P.
Proof. intros Hb. rewrite <- Hb. destruct (String.eqb_spec x EmptyString), b; simpl; intuition congruence. Qed.

Lemma policy_sponsor_Some msgs payer fee p s :
  policy_sponsor msgs payer fee p = Some s <-> AccAddressFromBech32 (Sponsor p) = Some s /\ covers msgs payer fee p.
Proof.
  unfold policy_sponsor, covers. set (capped := match ParseCoinsNormalized (PerTxCap p) with Some _ => _ | None => _ end).
  assert (Hcap : negb capped = true <-> exists cap, ParseCoinsNormalized (PerTxCap p) = Some cap /\ IsAllLTE fee cap = true).
  { unfold capped. destruct (ParseCoinsNormalized (PerTxCap p)) as [cap|]; [|by split; [done|intros (? & ? & _)]].
    rewrite negb_involutive. split; [by exists cap|]. by intros (? & [= <-] & ?). }
  pose proof (unless_empty (AllowedSender p) _ _ (String.eqb_eq (AllowedSender p) (AccAddress_String payer))) as P1.
  pose proof (unless_empty (MsgTypeURL p) _ _ (msgMatches_spec msgs (MsgTypeURL p))) as P2.
  pose proof (unless_empty (PerTxCap p) _ _ Hcap) as P3. rewrite negb_involutive in P3. rewrite <- P1, <- P2, <- P3.
  repeat match goal with |- context [if ?b then _ else _] => destruct b end; intuition congruence.
Qed.

(** The first covering policy with a valid sponsor decides. *)
Lemma head_omap_Some {A C : Type} (f : A -> option C) l c :
  head (omap f l) = Some c -> exists l1 x l2, l = l1 ++ x :: l2 /\ f x = Some c /\ Forall (fun y => f y = None) l1.
Proof.
  induction l as [|y l IH]; [done|]. cbn [omap list_omap]. destruct (f y) as [z|] eqn:E.
  - intros [= ->]. by exists [], y, l.
  - intros (l1 & x & l2 & -> & Hx & Hl)%IH. exists (y :: l1), x, l2. split_and!; [done|done|by constructor].
Qed.

Definition charged w w' (payer : string) (fee : Coins) : Prop :=
  forall a d, GetBalance (w_bank w') a d = GetBalance (w_bank w) a d
    - (if decide (a = payer) then AmountOf fee d else 0)
    + (if decide (a = NewModuleAddress FeeCollectorName) then AmountOf fee d else 0).

Lemma AmountOf_zero cs d : Coins_IsZero cs = true -> AmountOf cs d = 0.
Proof.
  unfold Coins_IsZero, AmountOf. induction cs as [|[e x] cs IH]; simpl; [done|]. intros [E%Z.eqb_eq IHc%IH]%andb_true_iff.
  simpl in E. destruct (String.eqb e d); lia.
Qed.

Definition payer_of (tx : FeeTx) (sponsor : option string) : string := default (default (FeePayer tx) (FeeGranter tx)) sponsor.

Lemma deduct_charges fk tx fee sponsor str w w' :
  deduct fk tx fee sponsor str w = (Ret tt, w') -> charged w w' (payer_of tx sponsor) fee.
Proof.
  intros R. unfold deduct in R. destruct (negb _) in R; [done|]. apply bind_Ret_inv in R as (from & w1 & R1 & R).
  assert (from = payer_of tx sponsor /\ forall a d, GetBalance (w_bank w1) a d = GetBalance (w_bank w) a d) as [-> HB].
  { unfold payer_of. destruct sponsor as [s|]; [by injection R1 as <- <-|]. destruct (FeeGranter tx) as [fg|]; [|by injection R1 as <- <-].
    destruct (negb fk); [done|]. apply bind_Ret_inv in R1 as ([] & w2 & R2 & R1). injection R1 as <- <-.
    split; [done|]. intros a d. destruct (String.eqb fg (FeePayer tx)); [by injection R2 as <-|].
    apply on_bank_inv in R2 as (b & R2 & ->). by eapply UseGrantedFees_balance. }
  rewrite (bind_Ret _ _ _ _ _ (gets_run _ _)) in R. destruct (negb _) in R; [done|].
  apply bind_Ret_inv in R as ([] & w2 & R2 & R). injection R as <-. intros a d. rewrite w_bank_emit, <- HB.
  destruct (Coins_IsZero fee) eqn:Ez.
  - injection R2 as <-. rewrite (AmountOf_zero fee d Ez). repeat case_decide; lia.
  - apply on_bank_inv in R2 as (b & R2 & ->). exact (proj1 (a2m_moved _ _ _ _ _ R2) a d).
Qed.

(** C19: a transaction that passes the fee decorator is paid for exactly once.
    Without an explicit granter the first policy that covers sender, messages and
    declared fee pays that fee; otherwise the granter, else the payer, pays the fee
    of the checker: at least the base fee for its gas and never more than it
    declared.  The coins go to the fee collector and no other balance changes. *)
Theorem fee_charged_once `{LegacyDec} pm fk mgp evmDenom fmp str ctx tx w prio w' :
  0 < BlockHeight ctx -> 0 <= base_fee ctx fmp -> 0 <= GetGas tx -> 0 <= declared evmDenom tx ->
  AnteHandle pm fk (Some (NewDynamicFeeChecker mgp evmDenom true fmp)) str ctx (Some tx) false w = (Ret prio, w') ->
  let sponsor := resolveSponsor pm tx (fee_of tx) w in
  exists fee, charged w w' (payer_of tx sponsor) fee /\
    match sponsor with
    | Some s => fee = fee_of tx /\ FeeGranter tx = None /\
        exists l1 p l2, GetPolicies w = Some (l1 ++ p :: l2) /\ AccAddressFromBech32 (Sponsor p) = Some s /\
          covers (GetMsgs tx) (FeePayer tx) fee p /\ Forall (fun q => policy_sponsor (GetMsgs tx) (FeePayer tx) fee q = None) l1
    | None => exists x, fee = [(evmDenom, x)] /\ base_fee ctx fmp * GetGas tx <= x * dec_one /\ 0 <= x <= declared evmDenom tx
    end.
Proof.
  intros Hh Hb Hg Hd R sponsor. unfold AnteHandle in R. destruct (_ && _) in R; [done|]. cbv zeta in R.
  rewrite (bind_Ret _ _ _ _ _ (gets_run _ _)) in R. fold sponsor in R. apply bind_Ret_inv in R as ([fee pr] & w1 & R1 & R).
  apply bind_Ret_inv in R as ([] & w2 & R2 & R). injection R as _ <-. cbn [fst snd] in R2. exists fee.
  assert (w1 = w) as -> by (destruct sponsor; by injection R1). split; [by eapply deduct_charges|].
  unfold sponsor in *. clear sponsor. destruct (resolveSponsor pm tx (fee_of tx) w) as [s|] eqn:Es.
  - injection R1 as <- <-. split; [done|]. unfold resolveSponsor in Es. destruct (FeeGranter tx); [done|]. split; [done|].
    destruct (negb pm); [done|]. unfold ResolveSponsor in Es. destruct (GetPolicies w) as [ps|]; [|done].
    apply head_omap_Some in Es as (l1 & p & l2 & -> & [? ?]%policy_sponsor_Some & ?). by exists l1, p, l2.
  - injection R1 as R1. unfold NewDynamicFeeChecker in R1. rewrite (proj2 (Z.eqb_neq _ _)) in R1 by lia. by eapply FeeChecker_bounds.
Qed.

End payer.

(** ** Concrete transactions *)
Module Example.
#[local] Existing Instance decimal_MathInt.
#[local] Instance decimals : LegacyDec := {| dec_fits z := Z.abs z <? 2 ^ 315; Dec_String := Int_String |}.
#[local] Instance policies_J : JSON (list Policy) := codec_JSON (list Policy).
#[local] Instance addresses : Bech32 := {| AccAddress_String a := a |}.
#[local] Instance parsers : Parsers := {|
  AccAddressFromBech32 a := if String.eqb a EmptyString then None else Some a;
  ParseCoinsNormalized c := option_map (fun z => [("aLIMO", z)]) (NewIntFromString c)
|}.
#[local] Instance keepers : FeeKeepers ledger := {| HasAccount _ _ := true; UseGrantedFees _ _ _ _ := mret tt |}.
#[local] Instance keepers_laws : FeeKeepersLaws ledger.
Proof. split. by intros g p fee msgs b b' a d [= <-]. Qed.

Definition fmp : FeeMarket.Params := FeeMarket.mkParams false 8 2 0 (Some (2 * dec_one)) (Some dec_one) (Some (dec_one / 2)).
Definition world (ps : list Policy) : World ledger :=
  mkWorld (mkLedger {[ ("user", "aLIMO") := 1000; ("sponsor", "aLIMO") := 1000 ]} {[ "aLIMO" := 2000 ]})
    {[ StoreKey := {[ PoliciesKey := json_Marshal ps ]} ]} [].
Definition policies : list Policy :=
  [mkPolicy "other" "bob" EmptyString EmptyString; mkPolicy "sponsor" EmptyString "send" "50"].
Definition ctx : Ctx := mkCtx 1000 5 false false.
Definition tx (granter : option string) (fee : Z) : FeeTx := mkFeeTx 10 (Some [("aLIMO", fee)]) "user" granter ["send"] (Some (Some dec_one)).
Definition checker := NewDynamicFeeChecker [] "aLIMO" true fmp.
Definition w1 : World ledger := (AnteHandle true true (Some checker) (fun _ => "fee") ctx (Some (tx None 60)) false (world policies)).2.

(** Above the cap of the policy the sender pays: 30 of the 60 declared. *)
Lemma fee_charged_once_witness :
  resolveSponsor true (tx None 60) (fee_of (tx None 60)) (world policies) = None /\
  exists x, charged (world policies) w1 "user" [("aLIMO", x)] /\ 2 * dec_one * 10 <= x * dec_one /\ x <= 60.
Proof.
  assert (Hs : resolveSponsor true (tx None 60) (fee_of (tx None 60)) (world policies) = None) by (vm_compute; reflexivity).
  split; [exact Hs|].
  assert (R : AnteHandle true true (Some checker) (fun _ => "fee") ctx (Some (tx None 60)) false (world policies) = (Ret 0, w1))
    by (vm_compute; reflexivity).
  assert (Hb : base_fee ctx fmp = 2 * dec_one) by (vm_compute; reflexivity).
  assert (Hd : declared "aLIMO" (tx None 60) = 60) by (vm_compute; reflexivity).
  pose proof (fee_charged_once true true [] "aLIMO" fmp (fun _ => "fee") ctx (tx None 60) (world policies) 0 w1
    ltac:(vm_compute; reflexivity) ltac:(rewrite Hb; vm_compute; discriminate) ltac:(vm_compute; discriminate)
    ltac:(rewrite Hd; lia) R) as HT. cbv zeta in HT. rewrite Hs in HT. destruct HT as (fee & HC & x & -> & H1 & H2).
  rewrite Hb in H1. rewrite Hd in H2. exists x. split; [exact HC|]. split; [exact H1|lia].
Defined.

(** The minimum gas price decorator resolves the sponsor without looking at the
    granter: a transaction that names its own sender as granter skips the floor,
    although no sponsor pays for it. *)
Lemma granter_skips_floor :
  let self := tx (Some "user") 0 in
  (MinGasPrice_AnteHandle "aLIMO" "stake" true fmp (Some self) false (world policies)).1 = Ret tt /\
  resolveSponsor true self (fee_of self) (world policies) = None /\
  (AnteHandle true true None (fun _ => "fee") ctx (Some self) false (world policies)).1 = Ret 0 /\
  (MinGasPrice_AnteHandle "aLIMO" "stake" true fmp (Some self) false (world [])).1 = Err "provided fee < minimum global fee".
Proof. cbv zeta. split_and!; vm_compute; reflexivity. Qed.

End Example.

End Paymaster.
