(* ===== verification/Proth.v ===== *)
(** * A prime of the size of the secp256k1 group order

    Proth's criterion, with a reduction that suits primes of the form k 2^n + 1; the
    concrete group of [CurveModel] uses the prime it certifies. *)
From S2P Require Import Prelude.
From stdpp Require Import base list.
From Stdlib Require Import ZArith Lia Znumtheory Zpow_facts.

#[local] Set Default Goal Selector "!".
Open Scope Z_scope.

Module Proth.

#[local] Ltac pw := first [lia | apply Z.pow_nonneg; lia | apply Z.pow_pos_nonneg; lia].

Lemma odd_part d : 0 < d -> exists m o, 0 <= m /\ 0 <= o /\ d = 2 ^ m * (2 * o + 1).
Proof.
  intros Hd. destruct d as [|d|d]; [lia| |lia]. clear Hd. induction d as [d _|d (m & o & Hm & Ho & E)|].
  - exists 0, (Z.pos d). split_and!; lia.
  - exists (m + 1), o. split_and!; [lia|lia|]. rewrite Pos2Z.inj_xO, E, Z.pow_add_r by lia. lia.
  - by exists 0, 0.
Qed.

(** *** Congruences modulo a divisor *)
Section divisor.
Context (q b n : Z) (Hq : 2 < q) (Hn : 0 < n) (Hb : (b ^ 2 ^ (n - 1)) mod q = (- 1) mod q).

Lemma full_order : (b ^ 2 ^ n) mod q = 1.
Proof.
  replace (2 ^ n) with (2 ^ (n - 1) * 2) by (rewrite Z.mul_comm, <- Z.pow_succ_r by lia; f_equal; lia).
  rewrite Z.pow_mul_r, Z.pow_2_r, Zmult_mod, Hb, <- Zmult_mod by pw. apply Z.mod_1_l. lia.
Qed.

Lemma no_shorter d : 0 < d < 2 ^ n -> (b ^ d) mod q <> 1.
Proof.
  intros Hd E. destruct (odd_part d) as (m & o & Hm & Ho & Ed); [lia|].
  assert (m < n). { apply (Z.pow_lt_mono_r_iff 2); [lia|lia|]. pose proof (Z.pow_pos_nonneg 2 m). nia. }
  assert (E1 : (b ^ (2 ^ (n - 1) * (2 * o + 1))) mod q = 1).
  { replace (2 ^ (n - 1) * (2 * o + 1)) with (d * 2 ^ (n - 1 - m)).
    - rewrite Z.pow_mul_r, Zpower_mod, E, Z.pow_1_l by pw. apply Z.mod_1_l. lia.
    - rewrite Ed. replace (n - 1) with (m + (n - 1 - m)) at 2 by lia. rewrite Z.pow_add_r by lia. lia. }
  rewrite Z.pow_mul_r, Zpower_mod, Hb, <- Zpower_mod in E1 by pw.
  rewrite Z.pow_add_r, Z.pow_mul_r, Z.pow_1_r in E1 by lia. change ((- 1) ^ 2) with 1 in E1. rewrite Z.pow_1_l in E1 by lia.
  change (1 * -1) with (- (1)) in E1. rewrite Z_mod_nz_opp_full, Z.mod_1_l in E1; rewrite ?Z.mod_1_l; lia.
Qed.

(** The powers of [b] are distinct and not zero, so they need room below [q]. *)
Lemma divisor_large : 2 ^ n < q.
Proof.
  set (f := fun i => (b ^ i) mod q). assert (Hinj : forall i j, 0 <= i < j -> j < 2 ^ n -> f i <> f j).
  { intros i j Hi Hj E. apply (no_shorter (j - i)); [lia|]. unfold f in E.
    transitivity ((b ^ (2 ^ n - i) * b ^ j) mod q).
    - rewrite <- Z.pow_add_r by lia. replace (2 ^ n - i + j) with (2 ^ n + (j - i)) by lia.
      by rewrite Z.pow_add_r, Zmult_mod, full_order, Z.mul_1_l, Zmod_mod by lia.
    - rewrite Zmult_mod, <- E, <- Zmult_mod, <- Z.pow_add_r by lia. replace (2 ^ n - i + i) with (2 ^ n) by lia. apply full_order. }
  assert (Hnd : NoDup (f <$> seqZ 0 (2 ^ n))).
  { apply NoDup_fmap_2_strong; [|apply NoDup_seqZ]. intros i j Hi%elem_of_seqZ Hj%elem_of_seqZ E.
    destruct (Z.lt_trichotomy i j) as [L|[|L]]; [|done|]; exfalso; [apply (Hinj i j)|apply (Hinj j i)]; (done || lia). }
  assert (Hsub : (f <$> seqZ 0 (2 ^ n)) ⊆+ seqZ 1 (q - 1)).
  { apply NoDup_submseteq; [done|]. intros x (i & -> & Hi%elem_of_seqZ)%list_elem_of_fmap. apply elem_of_seqZ.
    pose proof (Z.mod_pos_bound (b ^ i) q ltac:(lia)) as Hr. fold (f i) in Hr. enough (f i <> 0) by lia. intros E0.
    pose proof full_order as E. replace (2 ^ n) with (i + (2 ^ n - i)) in E by lia. rewrite Z.pow_add_r, Zmult_mod in E by lia.
    fold (f i) in E. rewrite E0, Z.mul_0_l, Zmod_0_l in E. done. }
  apply submseteq_length in Hsub. rewrite length_fmap, !length_seqZ in Hsub. pose proof (Z.pow_pos_nonneg 2 n). lia.
Qed.
End divisor.

(** A Proth number that passes the test has no divisor. *)
Theorem proth k n a : 0 < n -> 0 < k < 2 ^ n ->
  let p := k * 2 ^ n + 1 in (a ^ (k * 2 ^ (n - 1))) mod p = (- 1) mod p -> Z.prime p.
Proof.
  intros Hn Hk p E. pose proof (Z.pow_pos_nonneg 2 n). assert (Hp : 1 < p) by (unfold p; nia).
  assert (Ho : exists h, p = 2 * h + 1).
  { exists (k * 2 ^ (n - 1)). unfold p. replace n with (n - 1 + 1) at 1 by lia. rewrite Z.pow_add_r by lia. lia. }
  assert (Hdiv : forall q, 1 < q -> (q | p) -> 2 ^ n < q).
  { intros q Hq [c Ec]. apply (divisor_large q (a ^ k) n).
    - destruct (Z.eq_dec q 2); [|lia]. destruct Ho as [h Ho]. lia.
    - done.
    - rewrite <- Z.pow_mul_r by pw. rewrite <- (Z.mod_mod_divide _ p q), <- (Z.mod_mod_divide (-1) p q) by (by exists c). by rewrite E. }
  split; [done|]. intros q Hq [c Ec]. assert (1 < c) by nia.
  pose proof (Hdiv q ltac:(lia) ltac:(by exists c)). pose proof (Hdiv c ltac:(lia) ltac:(exists q; lia)). unfold p in *. nia.
Qed.

(** *** Evaluating the test *)
Section power.
Context (k n a : Z) (Hk : 0 < k) (Hn : 0 < n).
#[local] Abbreviation p := (k * 2 ^ n + 1).

(** Since k 2^n is -1, a multiple of it is cheap to remove. *)
Definition reduce (x : Z) : Z :=
  let hi := Z.shiftr x n in
  let lo := x - Z.shiftl hi n in
  let u := hi / k in
  Z.shiftl (hi - u * k) n + lo - u.
Fixpoint power (e : positive) : Z :=
  match e with
  | xH => a
  | xO e => let r := power e in reduce (r * r)
  | xI e => let r := power e in reduce (a * reduce (r * r))
  end.

Lemma reduce_mod x : reduce x mod p = x mod p.
Proof.
  unfold reduce. rewrite !Z.shiftl_mul_pow2 by lia. set (hi := Z.shiftr x n). set (u := hi / k).
  replace ((hi - u * k) * 2 ^ n + (x - hi * 2 ^ n) - u) with (x + (- u) * p) by ring. apply Z_mod_plus_full.
Qed.

Lemma power_mod e : power e mod p = (a ^ Z.pos e) mod p.
Proof.
  assert (Hs : forall e, power e mod p = (a ^ Z.pos e) mod p -> reduce (power e * power e) mod p = (a ^ (2 * Z.pos e)) mod p).
  { intros e0 E. rewrite reduce_mod, Zmult_mod, E, <- Zmult_mod, <- Z.pow_2_r, <- Z.pow_mul_r by lia. do 2 f_equal. lia. }
  induction e as [e IH|e IH|]; cbn [power].
  - rewrite reduce_mod, Zmult_mod, Hs, <- Zmult_mod, <- Z.pow_succ_r by (done || lia). do 2 f_equal; lia.
  - by rewrite Hs.
  - by rewrite Z.pow_1_r.
Qed.
End power.

Theorem proth_test k n a : 0 < n -> 0 < k < 2 ^ n ->
  power k n a (Z.to_pos (k * 2 ^ (n - 1))) mod (k * 2 ^ n + 1) = (- 1) mod (k * 2 ^ n + 1) -> Z.prime (k * 2 ^ n + 1).
Proof.
  intros Hn Hk E. apply (proth k n a); [done..|]. pose proof (Z.pow_pos_nonneg 2 (n - 1)).
  rewrite power_mod, Z2Pos.id in E by nia. exact E.
Qed.

(** The prime: 65497 2^240 + 1, within a thousandth of 2^256. *)
Definition order : Z := Eval vm_compute in 65497 * 2 ^ 240 + 1.

Lemma order_prime : Z.prime order.
Proof.
  assert (E : order = 65497 * 2 ^ 240 + 1) by (vm_compute; reflexivity). rewrite E. apply (proth_test 65497 240 3); [done|split; [done|vm_compute; reflexivity]|]. vm_compute. reflexivity.
Qed.

End Proth.
