(* ===== verification/Sha256.v ===== *)
(** * crypto/sha256

    The hash the modules use for commitments, member-set digests and tie-break
    keys, as an executable function on byte strings (FIPS 180-4), with the
    standard's own test vectors. *)
From S2P Require Import Prelude.
From stdpp Require Import strings list.
From Stdlib Require Import ZArith Lia Ascii.

#[local] Set Default Goal Selector "!".
Open Scope Z_scope.

Definition rotr (n x : Z) : Z := Z.lor (Z.shiftr x n) (u32 (Z.shiftl x (32 - n))).

Definition sha_ch (x y z : Z) : Z := Z.lxor (Z.land x y) (Z.land (Z.lxor x (2 ^ 32 - 1)) z).
Definition sha_maj (x y z : Z) : Z := Z.lxor (Z.lxor (Z.land x y) (Z.land x z)) (Z.land y z).
Definition big_sigma0 (x : Z) : Z := Z.lxor (Z.lxor (rotr 2 x) (rotr 13 x)) (rotr 22 x).
Definition big_sigma1 (x : Z) : Z := Z.lxor (Z.lxor (rotr 6 x) (rotr 11 x)) (rotr 25 x).
Definition small_sigma0 (x : Z) : Z := Z.lxor (Z.lxor (rotr 7 x) (rotr 18 x)) (Z.shiftr x 3).
Definition small_sigma1 (x : Z) : Z := Z.lxor (Z.lxor (rotr 17 x) (rotr 19 x)) (Z.shiftr x 10).

(** The constants are the first 32 bits of the fractional parts of the cube and
    square roots of the first primes, computed from that definition. *)
Definition is_prime (n : Z) : bool :=
  forallb (fun d => negb (n mod d =? 0)) (seqZ 2 (Z.sqrt n - 1)).
Definition first_primes (n : nat) : list Z := take n (List.filter is_prime (seqZ 2 400)).

(** The integer cube root of [x], bit by bit from bit [n - 1]. *)
Fixpoint cbrt (n : nat) (acc x : Z) : Z :=
  match n with
  | O => acc
  | S n' =>
      let c := acc + 2 ^ Z.of_nat n' in
      cbrt n' (if c * c * c <=? x then c else acc) x
  end.

Definition sha_k : list Z :=
  Eval vm_compute in map (fun p => u32 (cbrt 40 0 (p * 2 ^ 96))) (first_primes 64).

Definition sha_iv : list Z :=
  Eval vm_compute in map (fun p => u32 (Z.sqrt (p * 2 ^ 64))) (first_primes 8).

(** The message schedule, most recent word first. *)
Fixpoint schedule (n : nat) (w : list Z) : list Z :=
  match n with
  | O => w
  | S n' =>
      let g i := nth i w 0 in
      schedule n' (u32 (small_sigma1 (g 1%nat) + g 6%nat + small_sigma0 (g 14%nat) + g 15%nat) :: w)
  end.

Definition sha_round (st : list Z) (kw : Z * Z) : list Z :=
  match st with
  | [a; b; c; d; e; f; g; h] =>
      let t1 := h + big_sigma1 e + sha_ch e f g + kw.1 + kw.2 in
      let t2 := big_sigma0 a + sha_maj a b c in
      [u32 (t1 + t2); a; b; c; u32 (d + t1); e; f; g]
  | _ => st
  end.

Definition sha_block (st : list Z) (words : list Z) : list Z :=
  let w := rev (schedule 48 (rev words)) in
  zip_with (fun x y => u32 (x + y)) st (foldl sha_round st (zip sha_k w)).

Fixpoint bytes_of (s : string) : list Z :=
  match s with EmptyString => [] | String c s' => byte_to_Z c :: bytes_of s' end.
Fixpoint string_of_bytes (l : list Z) : string :=
  match l with [] => EmptyString | b :: l' => String (byte_of b) (string_of_bytes l') end.

Definition pad (m : list Z) : list Z :=
  let len := Z.of_nat (length m) in
  m ++ [0x80] ++ replicate (Z.to_nat ((55 - len) mod 64)) 0 ++ bytes_of (be64 (8 * len)).

Fixpoint words_of (n : nat) (l : list Z) : list Z :=
  match n, l with
  | S n', a :: b :: c :: d :: l' => (a * 2 ^ 24 + b * 2 ^ 16 + c * 2 ^ 8 + d) :: words_of n' l'
  | _, _ => []
  end.

Fixpoint sha_blocks (n : nat) (st : list Z) (l : list Z) : list Z :=
  match n with
  | O => st
  | S n' => sha_blocks n' (sha_block st (words_of 16 l)) (drop 64 l)
  end.

(** [sha256.Sum256]. *)
Definition sha256 (m : string) : string :=
  let p := pad (bytes_of m) in
  let st := sha_blocks (length p / 64) sha_iv p in
  string_of_bytes (concat ((fun w => bytes_of (be_bytes 4 w)) <$> st)).

(** ** The standard's test vectors *)

Example sha256_abc :
  hex_bytes (sha256 "abc") = "ba7816bf8f01cfea414140de5dae2223b00361a396177a9cb410ff61f20015ad".
Proof. vm_compute. reflexivity. Qed.

Example sha256_empty :
  hex_bytes (sha256 "") = "e3b0c44298fc1c149afbf4c8996fb92427ae41e4649b934ca495991b7852b855".
Proof. vm_compute. reflexivity. Qed.

Example sha256_two_blocks :
  hex_bytes (sha256 "abcdbcdecdefdefgefghfghighijhijkijkljklmklmnlmnomnopnopq") =
  "248d6a61d20638b8e5c026930c3e6039a33ce45964ff2167f6ecedd419db06c1".
Proof. vm_compute. reflexivity. Qed.

(** ** The digest has 32 bytes *)

Lemma sha_round_length st kw : length st = 8%nat -> length (sha_round st kw) = 8%nat.
Proof. intros E. do 9 (destruct st as [|? st]; try done). Qed.

Lemma sha_rounds_length l st : length st = 8%nat -> length (foldl sha_round st l) = 8%nat.
Proof. revert st. induction l as [|x l IH]; intros st E; [done|]. simpl. by apply IH, sha_round_length. Qed.

Lemma sha_blocks_length n st l : length st = 8%nat -> length (sha_blocks n st l) = 8%nat.
Proof.
  revert st l. induction n as [|n IH]; intros st l E; [done|]. simpl. apply IH. unfold sha_block.
  rewrite length_zip_with, sha_rounds_length by done. lia.
Qed.

Lemma bytes_of_length s : length (bytes_of s) = String.length s.
Proof. induction s as [|c s IH]; [done|]. simpl. by rewrite IH. Qed.

Lemma string_of_bytes_length l : String.length (string_of_bytes l) = length l.
Proof. induction l as [|b l IH]; [done|]. simpl. by rewrite IH. Qed.

Lemma sha256_length m : String.length (sha256 m) = 32%nat.
Proof.
  unfold sha256. cbv zeta. rewrite string_of_bytes_length. set (st := sha_blocks _ _ _).
  assert (E : length st = 8%nat) by (by apply sha_blocks_length). clearbody st.
  assert (F : forall l, length (concat ((fun w => bytes_of (be_bytes 4 w)) <$> l)) = (4 * length l)%nat).
  { intros l. induction l as [|x l IH]; [done|]. rewrite fmap_cons. cbn [concat length].
    rewrite length_app, IH, bytes_of_length, be_bytes_length. lia. }
  rewrite F. lia.
Qed.
