(* ===== verification/WebAuthn.v ===== *)
(** * Passkey signatures

    Models x/paymaster/webauthn (the packed assertion, its verification and the
    reference signer) and the decorator of ante/cosmos that accepts such assertions
    in place of the standard signatures.  SHA-256 and base64url are executable;
    P-256 signatures are an interface. *)
From S2P Require Import Prelude Codec Sha256.
From stdpp Require Import gmap strings list.
From Stdlib Require Import ZArith Lia.

#[local] Set Default Goal Selector "!".
Open Scope Z_scope.

Module WebAuthn.

(** ** base64.RawURLEncoding *)
Definition b64_char (n : Z) : Ascii.ascii :=
  byte_of (if n <? 26 then 65 + n else if n <? 52 then 71 + n else if n <? 62 then n - 4 else if n =? 62 then 45 else 95).

Fixpoint EncodeToString (s : string) : string :=
  match s with
  | EmptyString => EmptyString
  | String a EmptyString =>
      let x := byte_to_Z a in
      String (b64_char (x / 4)) (String (b64_char (x mod 4 * 16)) EmptyString)
  | String a (String b EmptyString) =>
      let x := byte_to_Z a in let y := byte_to_Z b in
      String (b64_char (x / 4)) (String (b64_char (x mod 4 * 16 + y / 16)) (String (b64_char (y mod 16 * 4)) EmptyString))
  | String a (String b (String c r)) =>
      let x := byte_to_Z a in let y := byte_to_Z b in let z := byte_to_Z c in
      String (b64_char (x / 4)) (String (b64_char (x mod 4 * 16 + y / 16))
        (String (b64_char (y mod 16 * 4 + z / 64)) (String (b64_char (z mod 64)) (EncodeToString r))))
  end.

(** ** The packed assertion (assertion.go) *)
Definition MagicPrefix : string := "WAS1".
Record Assertion := mkAssertion { AuthenticatorData : string; ClientDataJSON : string; Signature : string }.

Definition strlen (s : string) : Z := Z.of_nat (String.length s).
Definition appendField (out f : string) : string := (out +:+ be_bytes 4 (u32 (strlen f))) +:+ f.
Definition Marshal (a : Assertion) : string :=
  appendField (appendField MagicPrefix (AuthenticatorData a)) (ClientDataJSON a) +:+ Signature a.

Definition IsWebAuthnSig (b : string) : bool := String.prefix MagicPrefix b.

(** [p[n:]]. *)
Definition from (n : nat) (p : string) : string := String.substring n (String.length p - n) p.
Definition readField (p : string) : outcome (string * string) :=
  if strlen p <? 4 then Err "webauthn: truncated assertion" else
  let n := be_decode (String.substring 0 4 p) in
  let p := from 4 p in
  if u32 (strlen p) <? n then Err "webauthn: assertion field overflow" else
  Ret (String.substring 0 (Z.to_nat n) p, from (Z.to_nat n) p).

Definition UnmarshalAssertion (b : string) : outcome Assertion :=
  if negb (IsWebAuthnSig b) then Err "webauthn: not a WebAuthn assertion" else
  ad ← readField (from (String.length MagicPrefix) b);
  cd ← readField ad.2;
  if strlen cd.2 =? 0 then Err "webauthn: empty signature" else
  Ret (mkAssertion ad.1 cd.1 cd.2).

(** ** Verification (verify.go) *)
Record clientData := mkClientData { Type_ : string; Challenge : string; Origin : string }.
#[export] Instance clientData_codec : Codec clientData :=
  Codec_iso (fun c => (Type_ c, Challenge c, Origin c)) (fun t => mkClientData t.1.1 t.1.2 t.2)
    (fun c => match c with mkClientData _ _ _ => eq_refl end).

(** crypto/elliptic and crypto/ecdsa on P-256; a key is its encoding. *)
Class P256 : Type := {
  PublicKey : Type;
  UnmarshalCompressed : string -> option PublicKey;
  UnmarshalUncompressed : string -> option PublicKey;
  VerifyASN1 : PublicKey -> string -> string -> bool
}.

Definition flagUserPresent : Z := 1.
Definition flagUserVerified : Z := 4.
Definition ErrPubKey : string := "webauthn: invalid P-256 public key".

Definition parseP256 `{P256} (b : string) : outcome PublicKey :=
  match (if strlen b =? 33 then UnmarshalCompressed b else if strlen b =? 65 then UnmarshalUncompressed b else None) with
  | None => Err ErrPubKey
  | Some k => Ret k
  end.

(** What the authenticator signs. *)
Definition signed_digest (authenticatorData clientDataJSON : string) : string :=
  sha256 (authenticatorData +:+ sha256 clientDataJSON).
Definition flags_of (authenticatorData : string) : Z := be_decode (String.substring 32 1 authenticatorData).

Definition VerifyAssertion `{P256} `{JSON clientData}
    (pubKey sig authenticatorData clientDataJSON expectedChallenge : string) (requireUserVerified : bool) : outcome unit :=
  match json_Unmarshal clientDataJSON with
  | None => Err "webauthn: invalid clientDataJSON"
  | Some cd =>
      if negb (String.eqb (Type_ cd) "webauthn.get") then Err "webauthn: clientData.type must be webauthn.get" else
      if negb (String.eqb (Challenge cd) (EncodeToString expectedChallenge))
      then Err "webauthn: challenge does not bind to the transaction" else
      if strlen authenticatorData <? 37 then Err "webauthn: authenticatorData too short" else
      let flags := flags_of authenticatorData in
      if Z.land flags flagUserPresent =? 0 then Err "webauthn: user-presence flag not set" else
      if requireUserVerified && (Z.land flags flagUserVerified =? 0) then Err "webauthn: user-verification flag not set" else
      pub ← parseP256 pubKey;
      if negb (VerifyASN1 pub (signed_digest authenticatorData clientDataJSON) sig)
      then Err "webauthn: signature verification failed" else Ret tt
  end.

(** ** The reference signer (authenticator.go)

    The private key and the randomness are in [sign], the signature of a digest;
    the counter is the authenticator's state. *)
Record SimulatedAuthenticator := mkAuthenticator { sign : string -> string; rpID : string; counter : Z }.

Definition Sign `{JSON clientData} (a : SimulatedAuthenticator) (challenge origin : string) (userVerified : bool)
    : Assertion * SimulatedAuthenticator :=
  let clientDataJSON := json_Marshal (mkClientData "webauthn.get" (EncodeToString challenge) origin) in
  let flags := if userVerified then Z.lor flagUserPresent flagUserVerified else flagUserPresent in
  let c := u32 (counter a + 1) in
  let authData := (sha256 (rpID a) +:+ byte_prefix flags) +:+ be_bytes 4 c in
  (mkAssertion authData clientDataJSON (sign a (signed_digest authData clientDataJSON)), mkAuthenticator (sign a) (rpID a) c).

(** ** The decorator (ante/cosmos/webauthn_sigverify.go) *)

(** A signature is single or of another kind. *)
Record SigV2 := mkSig { Sequence : Z; Single : option string }.
Record SigTx := mkSigTx {
  GetSignaturesV2 : outcome (list SigV2);
  GetSigners : outcome (list string);
  adaptable : bool;          (** implements V2AdaptableTx *)
  SigningTxData : string     (** body and auth info, as signed *)
}.
Record PubKey := mkPubKey { TypeUrl : string; Bytes : string }.
Record Account := mkAccount { acc_Address : string; acc_PubKey : option PubKey; acc_Number : Z; acc_Sequence : Z }.
Record SignerData := mkSignerData { sd_Address : string; sd_ChainID : string; sd_AccountNumber : Z; sd_Sequence : Z; sd_PubKey : PubKey }.

Class SigEnv (W : Type) : Type := {
  GetSignerAcc : W -> string -> outcome Account;
  GetSignBytes : SignerData -> string -> outcome string   (** SIGN_MODE_DIRECT *)
}.
(** The SIGN_MODE_DIRECT document carries the chain, the account number and the
    transaction's body and auth info. *)
Class DirectMode (W : Type) `{SigEnv W} : Prop := {
  sign_bytes_bind sd d sd' d' b :
    GetSignBytes sd d = Ret b -> GetSignBytes sd' d' = Ret b ->
    d = d' /\ sd_ChainID sd = sd_ChainID sd' /\ sd_AccountNumber sd = sd_AccountNumber sd'
}.

Definition txHasWebAuthnSig (tx : option SigTx) : bool :=
  match tx with
  | None => false
  | Some tx => match GetSignaturesV2 tx with
               | Ret sigs => existsb (fun s => match Single s with Some b => IsWebAuthnSig b | None => false end) sigs
               | _ => false
               end
  end.

Section decorator.
Context {W : Type} `{P256} `{JSON clientData} `{SigEnv W} `{Bech32}.
Variables (chainID : string) (requireUserVerified : bool).

(** The challenge of a signer of the transaction. *)
Definition signer_data (height : Z) (acc : Account) (pubKey : PubKey) (sequence : Z) : SignerData :=
  mkSignerData (AccAddress_String (acc_Address acc)) chainID (if height =? 0 then 0 else acc_Number acc) sequence pubKey.

Definition verify_sig (ctx : Ctx) (tx : SigTx) (w : W) (sig : SigV2) (signer : string) : outcome unit :=
  acc ← GetSignerAcc w signer;
  match acc_PubKey acc with
  | None => Err "pubkey not set on account"
  | Some pubKey =>
      if negb (Sequence sig =? acc_Sequence acc) then Err "account sequence mismatch" else
      match Single sig with
      | None => Err "webauthn ante: every signature must be a WebAuthn assertion"
      | Some blob =>
          if negb (IsWebAuthnSig blob) then Err "webauthn ante: every signature must be a WebAuthn assertion" else
          signBytes ← GetSignBytes (signer_data (BlockHeight ctx) acc pubKey (Sequence sig)) (SigningTxData tx);
          let challenge := sha256 signBytes in
          assertion ← UnmarshalAssertion blob;
          VerifyAssertion (Bytes pubKey) (Signature assertion) (AuthenticatorData assertion) (ClientDataJSON assertion) challenge requireUserVerified
      end
  end.

Definition verifyWebAuthnTx (ctx : Ctx) (tx : option SigTx) (w : W) : outcome unit :=
  match tx with
  | None => Err "invalid transaction type"
  | Some tx =>
      if negb (adaptable tx) then Err "tx does not implement V2AdaptableTx" else
      sigs ← GetSignaturesV2 tx;
      signers ← GetSigners tx;
      if negb (Z.of_nat (length sigs) =? Z.of_nat (length signers)) then Err "invalid number of signers" else
      fold_ok (fun _ e => verify_sig ctx tx w e.1 e.2) tt (zip sigs signers)
  end.

(** [enabled] is the passkey parameter ([None] for a nil function); [std] and
    [next] are the standard decorator and the rest of the chain. *)
Definition AnteHandle (enabled : option (W -> bool)) (ctx : Ctx) (tx : option SigTx) (simulate : bool) (std next : M W unit) : M W unit := fun w =>
  if simulate || match enabled with None => true | Some f => negb (f w) end || negb (txHasWebAuthnSig tx) then std w else
  match verifyWebAuthnTx ctx tx w with
  | Ret _ => next w
  | Err e => (Err e, w)
  | Panic e => (Panic e, w)
  end.

End decorator.

(** ** base64url is injective *)

Lemma b64_char_inj a b : 0 <= a < 64 -> 0 <= b < 64 -> b64_char a = b64_char b -> a = b.
Proof.
  intros Ha Hb E. unfold b64_char in E. apply (f_equal byte_to_Z) in E.
  repeat match goal with
  | E : context [if ?x <? ?y then _ else _] |- _ => destruct (Z.ltb_spec x y)
  | E : context [if ?x =? ?y then _ else _] |- _ => destruct (Z.eqb_spec x y)
  end; rewrite !byte_to_Z_of in E by lia; lia.
Qed.

Ltac b64_eq :=
  repeat match goal with
  | E : b64_char _ = b64_char _ |- _ => apply b64_char_inj in E; [|div_lia..]
  end.

Lemma byte_to_Z_inj a b : byte_to_Z a = byte_to_Z b -> a = b.
Proof. intros E. by rewrite <- (byte_of_to_Z a), E, byte_of_to_Z. Qed.

Lemma EncodeToString_inj : forall s t, EncodeToString s = EncodeToString t -> s = t.
Proof.
  intros s. remember (String.length s) as n eqn:Hn. revert s Hn. induction n as [n IH] using lt_wf_ind. intros s -> t E.
  destruct s as [|a [|b [|c s]]], t as [|a' [|b' [|c' t]]]; cbn [EncodeToString] in E; try discriminate E; try done.
  all: pose proof (byte_to_Z_range a); pose proof (byte_to_Z_range a').
  - injection E as E1 E2. b64_eq. f_equal. apply byte_to_Z_inj. div_lia.
  - pose proof (byte_to_Z_range b); pose proof (byte_to_Z_range b'). injection E as E1 E2 E3. b64_eq.
    assert (Ea : byte_to_Z a = byte_to_Z a') by div_lia. rewrite Ea in E2. f_equal; [by apply byte_to_Z_inj|].
    f_equal. apply byte_to_Z_inj. div_lia.
  - pose proof (byte_to_Z_range b); pose proof (byte_to_Z_range b'); pose proof (byte_to_Z_range c); pose proof (byte_to_Z_range c').
    injection E as E1 E2 E3 E4 Er. apply (IH (String.length s)) in Er as ->; [|simpl; lia|done]. b64_eq.
    assert (Ea : byte_to_Z a = byte_to_Z a') by div_lia. assert (Eb : byte_to_Z b = byte_to_Z b') by div_lia.
    assert (Ec : byte_to_Z c = byte_to_Z c') by div_lia. by rewrite (byte_to_Z_inj _ _ Ea), (byte_to_Z_inj _ _ Eb), (byte_to_Z_inj _ _ Ec).
Qed.

(** ** The packed assertion *)

Lemma from_app n s t : String.length s = n -> from n (s +:+ t) = t.
Proof.
  intros E. unfold from. rewrite substring_app_r by done. apply substring_all. rewrite str_app_length. lia.
Qed.

Lemma from_split n p : (n <= String.length p)%nat -> String.substring 0 n p +:+ from n p = p.
Proof. intros Hn. unfold from. apply substring_split. lia. Qed.

Lemma readField_append f r :
  strlen f < 2 ^ 32 -> strlen (f +:+ r) < 2 ^ 32 ->
  readField ((be_bytes 4 (u32 (strlen f)) +:+ f) +:+ r) = Ret (f, r).
Proof.
  intros Hf Hr. rewrite str_app_assoc. unfold readField, strlen in *.  cbv zeta.
  rewrite str_app_length, be_bytes_length, substring_app_l, from_app by apply be_bytes_length.
  unfold be_decode. rewrite be_decode_acc_bytes, Z.mul_0_l, Z.add_0_l. change (8 * Z.of_nat 4) with 32. unfold u32.
  rewrite (Z.mod_small (Z.of_nat (String.length (f +:+ r)))), !(Z.mod_small (Z.of_nat (String.length f))) by lia.
  destruct (Z.ltb_spec (Z.of_nat (4 + String.length (f +:+ r))) 4); [lia|].
  destruct (Z.ltb_spec (Z.of_nat (String.length (f +:+ r))) (Z.of_nat (String.length f))) as [Hlt|_];
    [rewrite str_app_length in Hlt; lia|]. rewrite Nat2Z.id.
  by rewrite substring_app_l, from_app by done.
Qed.

Lemma readField_inv p f r :
  strlen p < 2 ^ 32 -> readField p = Ret (f, r) -> p = (be_bytes 4 (u32 (strlen f)) +:+ f) +:+ r.
Proof.
  unfold readField, strlen. cbv zeta. intros Hp E. destruct (Z.ltb_spec (Z.of_nat (String.length p)) 4); [done|].
  pose proof (from_split 4 p ltac:(lia)) as S4. set (h := String.substring 0 4 p) in *. set (q := from 4 p) in *.
  assert (Hh : String.length h = 4%nat) by (apply substring_length; lia).
  pose proof (be_decode_acc_range h 0 ltac:(lia)) as Rh. rewrite Hh in Rh. change (be_decode_acc 0 h) with (be_decode h) in Rh.
  assert (Hq : String.length p = (4 + String.length q)%nat) by (rewrite <- S4, str_app_length; lia).
  unfold u32 in E. rewrite (Z.mod_small (Z.of_nat (String.length q))) in E by lia.
  destruct (Z.ltb_spec (Z.of_nat (String.length q)) (be_decode h)); [done|]. injection E as <- <-.
  assert (Hn : (Z.to_nat (be_decode h) <= String.length q)%nat) by lia.
  rewrite substring_length by lia. rewrite Z2Nat.id by lia. unfold u32. rewrite Z.mod_small by (simpl in Rh; lia).
  rewrite str_app_assoc, from_split by done. rewrite <- S4 at 1. f_equal.
  rewrite <- Hh. symmetry. by apply be_bytes_decode_acc.
Qed.

Lemma Marshal_alt a : Marshal a = MagicPrefix +:+ ((be_bytes 4 (u32 (strlen (AuthenticatorData a))) +:+ AuthenticatorData a) +:+
  ((be_bytes 4 (u32 (strlen (ClientDataJSON a))) +:+ ClientDataJSON a) +:+ Signature a)).
Proof. unfold Marshal, appendField. by rewrite !str_app_assoc. Qed.

Lemma Unmarshal_Marshal a :
  strlen (Marshal a) < 2 ^ 32 -> Signature a <> EmptyString -> UnmarshalAssertion (Marshal a) = Ret a.
Proof.
  rewrite Marshal_alt. unfold strlen at 1. rewrite !str_app_length, !be_bytes_length. intros Hl Hs.
  unfold UnmarshalAssertion, IsWebAuthnSig. rewrite str_prefix_app, from_app by done. cbn [negb].
  rewrite readField_append; [|unfold strlen; rewrite ?str_app_length, ?be_bytes_length; lia..].
  cbn [mbind outcome_bind snd fst]. rewrite readField_append; [|unfold strlen; rewrite ?str_app_length; lia..].
  cbn [mbind outcome_bind snd fst]. destruct a as [d c [|x s]]; [done|]. cbn [Signature].
  by destruct (Z.eqb_spec (strlen (String x s)) 0) as [E|_].
Qed.

Lemma Unmarshal_inv b a :
  strlen b < 2 ^ 32 -> UnmarshalAssertion b = Ret a -> Marshal a = b /\ Signature a <> EmptyString.
Proof.
  intros Hb E. unfold UnmarshalAssertion, IsWebAuthnSig in E. destruct (String.prefix MagicPrefix b) eqn:P; [|done]. cbn [negb] in E.
  apply str_prefix_inv in P as [t ->]. rewrite from_app in E by done. unfold strlen in Hb. rewrite str_app_length in Hb.
  destruct (readField t) as [[d p]| |] eqn:R1; try done. cbn [mbind outcome_bind snd fst] in E.
  apply readField_inv in R1; [|unfold strlen; lia]. rewrite R1, !str_app_length in Hb.
  destruct (readField p) as [[c q]| |] eqn:R2; try done. cbn [mbind outcome_bind snd fst] in E.
  apply readField_inv in R2; [|unfold strlen; lia]. destruct (Z.eqb_spec (strlen q) 0) as [|Hq]; [done|]. injection E as <-.
  rewrite Marshal_alt. cbn [AuthenticatorData ClientDataJSON Signature]. split; [by rewrite R1, R2|by intros ->].
Qed.

(** A packed assertion shorter than 4 GiB is read back exactly, and a blob that
    is read is the packing of what was read: no two blobs carry the same assertion,
    so a signature blob cannot be altered without altering what is verified. *)
Theorem assertion_packing (a : Assertion) (b : string) (Hb : strlen b < 2 ^ 32) :
  UnmarshalAssertion b = Ret a <-> Marshal a = b /\ Signature a <> EmptyString.
Proof. split; [by apply Unmarshal_inv|]. intros [<- Hs]. by apply Unmarshal_Marshal. Qed.

(** ** The bytes a passkey signs *)

Lemma flags_of_authData rp f c :
  0 <= f < 256 -> flags_of ((sha256 rp +:+ byte_prefix f) +:+ be_bytes 4 c) = f.
Proof.
  intros Hf. unfold flags_of. rewrite str_app_assoc, substring_app_r, substring_app_l; [|done|apply sha256_length].
  unfold be_decode, byte_prefix. cbn [be_decode_acc]. by rewrite byte_to_Z_of.
Qed.

Section verification.
Context `{P256} `{JSONLaws clientData}.

(** What an accepted assertion establishes. *)
Lemma VerifyAssertion_Ret pk sig ad cdj ch uv :
  VerifyAssertion pk sig ad cdj ch uv = Ret tt <->
  exists cd pub, json_Unmarshal cdj = Some cd /\ Type_ cd = "webauthn.get" /\ Challenge cd = EncodeToString ch /\
    37 <= strlen ad /\ Z.land (flags_of ad) flagUserPresent <> 0 /\
    (uv = true -> Z.land (flags_of ad) flagUserVerified <> 0) /\
    parseP256 pk = Ret pub /\ VerifyASN1 pub (signed_digest ad cdj) sig = true.
Proof.
  unfold VerifyAssertion. split.
  - intros E. destruct (json_Unmarshal cdj) as [cd|]; [|done]. exists cd.
    destruct (String.eqb_spec (Type_ cd) "webauthn.get"); [|done]. cbn [negb] in E.
    destruct (String.eqb_spec (Challenge cd) (EncodeToString ch)); [|done]. cbn [negb] in E.
    destruct (Z.ltb_spec (strlen ad) 37); [done|]. destruct (Z.eqb_spec (Z.land (flags_of ad) flagUserPresent) 0); [done|].
    destruct (uv && (Z.land (flags_of ad) flagUserVerified =? 0)) eqn:U; [done|].
    destruct (parseP256 pk) as [pub| |]; try done. exists pub. cbn [mbind outcome_bind] in E.
    destruct (VerifyASN1 pub _ sig) eqn:V; [|done]. repeat split; try done.
    intros ->. by apply Z.eqb_neq in U.
  - intros (cd & pub & -> & -> & -> & Hl & Hp & Hv & -> & V). rewrite !String.eqb_refl. cbn [negb].
    destruct (Z.ltb_spec (strlen ad) 37); [lia|]. rewrite (proj2 (Z.eqb_neq _ _) Hp).
    destruct uv; cbn [andb mbind outcome_bind]; [rewrite (proj2 (Z.eqb_neq _ _) (Hv eq_refl))|]; by rewrite V.
Qed.

(** The reference signer's assertion passes, unless verification of the user is
    required and was not done. *)
Lemma Sign_verified auth ch origin uv pk pub :
  parseP256 pk = Ret pub -> (forall d, VerifyASN1 pub d (sign auth d) = true) ->
  let a := (Sign auth ch origin uv).1 in
  VerifyAssertion pk (Signature a) (AuthenticatorData a) (ClientDataJSON a) ch true =
    if uv then Ret tt else Err "webauthn: user-verification flag not set".
Proof.
  intros Hk Hs a. unfold a, Sign, VerifyAssertion. cbn [fst Signature AuthenticatorData ClientDataJSON].
  rewrite json_roundtrip. cbn [Type_ Challenge]. rewrite !String.eqb_refl. cbn [negb].
  set (f := if uv then _ else _). assert (Hf : 0 <= f < 256) by (by destruct uv).
  rewrite flags_of_authData by done. unfold strlen. rewrite !str_app_length, sha256_length, be_bytes_length.
  change (Z.of_nat (32 + String.length (byte_prefix f) + 4) <? 37) with false.
  destruct uv; [|done]. cbv iota. change (Z.land f flagUserPresent =? 0) with false.
  change (Z.land f flagUserVerified =? 0) with false. cbn [andb]. rewrite Hk. cbn [mbind outcome_bind]. by rewrite Hs.
Qed.

End verification.

Section replay.
Context {W : Type} `{P256} `{JSONLaws clientData} `{SigEnv W} `{Bech32}.

Lemma fold_ok_unit {A : Type} (f : A -> outcome unit) (l : list A) :
  fold_ok (fun _ e => f e) tt l = Ret tt <-> Forall (fun e => f e = Ret tt) l.
Proof.
  induction l as [|x l IH]; simpl; [by split|]. rewrite Forall_cons, <- IH.
  destruct (f x) as [[]| |]; cbn; split; (by intros [? ?]) || done.
Qed.

(** What an accepted signature of a transaction establishes: the account it is
    for, and a challenge that is the digest of the transaction's sign bytes. *)
Definition vouches (chainID : string) (ctx : Ctx) (tx : SigTx) (w : W) (sig : SigV2) (signer blob sb : string) : Prop :=
  exists acc pk a cd, GetSignerAcc w signer = Ret acc /\ acc_PubKey acc = Some pk /\ Sequence sig = acc_Sequence acc /\
    GetSignBytes (signer_data chainID (BlockHeight ctx) acc pk (Sequence sig)) (SigningTxData tx) = Ret sb /\
    UnmarshalAssertion blob = Ret a /\ json_Unmarshal (ClientDataJSON a) = Some cd /\ Challenge cd = EncodeToString (sha256 sb).

Lemma verify_sig_vouches chainID uv ctx tx w sig signer :
  verify_sig chainID uv ctx tx w sig signer = Ret tt ->
  exists blob sb, Single sig = Some blob /\ vouches chainID ctx tx w sig signer blob sb.
Proof.
  unfold verify_sig. destruct (GetSignerAcc w signer) as [acc| |] eqn:Ea; try done. cbn [mbind outcome_bind].
  destruct (acc_PubKey acc) as [pk|] eqn:Ep; [|done]. destruct (Z.eqb_spec (Sequence sig) (acc_Sequence acc)) as [Es|]; [|done].
  cbn [negb]. destruct (Single sig) as [blob|]; [|done]. destruct (IsWebAuthnSig blob); [|done]. cbn [negb].
  destruct (GetSignBytes _ _) as [sb| |] eqn:Eb; try done. cbn [mbind outcome_bind].
  destruct (UnmarshalAssertion blob) as [a| |] eqn:Eu; try done. cbn [mbind outcome_bind].
  intros (cd & pub & Ecd & _ & Ec & _)%VerifyAssertion_Ret. exists blob, sb. split; [done|]. by exists acc, pk, a, cd.
Qed.

Lemma verifyWebAuthnTx_vouches chainID uv ctx tx w sigs i sig :
  verifyWebAuthnTx chainID uv ctx (Some tx) w = Ret tt -> GetSignaturesV2 tx = Ret sigs -> sigs !! i = Some sig ->
  exists signers signer blob sb, GetSigners tx = Ret signers /\ signers !! i = Some signer /\
    Single sig = Some blob /\ vouches chainID ctx tx w sig signer blob sb.
Proof.
  unfold verifyWebAuthnTx. intros R Es Hi. destruct (adaptable tx); [|done]. cbn [negb] in R. rewrite Es in R. cbn [mbind outcome_bind] in R.
  destruct (GetSigners tx) as [signers| |]; try done. cbn [mbind outcome_bind] in R.
  destruct (Z.eqb_spec (Z.of_nat (length sigs)) (Z.of_nat (length signers))) as [El|]; [|done]. cbn [negb] in R.
  destruct (lookup_lt_is_Some_2 signers i) as [signer Hs]; [apply lookup_lt_Some in Hi; lia|].
  apply fold_ok_unit in R. rewrite Forall_lookup in R. specialize (R i (sig, signer)).
  rewrite lookup_zip_with, Hi, Hs in R. specialize (R eq_refl). apply verify_sig_vouches in R as (blob & sb & E & V).
  by exists signers, signer, blob, sb.
Qed.

(** The document the [i]-th signature of a transaction signs, and the account it is
    checked for. *)
Definition document (chainID : string) (ctx : Ctx) (tx : SigTx) (w : W) (i : nat) (sig : SigV2) (acc : Account) (sb : string) : Prop :=
  exists signers signer pk, GetSigners tx = Ret signers /\ signers !! i = Some signer /\ GetSignerAcc w signer = Ret acc /\
    acc_PubKey acc = Some pk /\ GetSignBytes (signer_data chainID (BlockHeight ctx) acc pk (Sequence sig)) (SigningTxData tx) = Ret sb.

(** C20: an assertion accepted for a transaction is good for that transaction only.
    When the same signature blob is accepted in two transactions, on any chain, at
    any height and for any signers, then the documents that the two signatures sign
    have the same SHA-256 digest.  Unless these two documents are distinct, and so a
    collision, the transactions have the same body and auth info (which carries the
    sequence) and were checked for the same chain and, after the first block, the same
    account number. *)
Theorem passkey_not_replayable `{!DirectMode W} c c' uv uv' ctx ctx' tx tx' (w w' : W) sigs sigs' i j sig sig'
    (R : verifyWebAuthnTx c uv ctx (Some tx) w = Ret tt) (R' : verifyWebAuthnTx c' uv' ctx' (Some tx') w' = Ret tt)
    (S : GetSignaturesV2 tx = Ret sigs) (S' : GetSignaturesV2 tx' = Ret sigs')
    (I : sigs !! i = Some sig) (I' : sigs' !! j = Some sig') (E : Single sig = Single sig') :
  exists acc acc' sb sb', document c ctx tx w i sig acc sb /\ document c' ctx' tx' w' j sig' acc' sb' /\ sha256 sb = sha256 sb' /\
    (sb = sb' -> SigningTxData tx = SigningTxData tx' /\ c = c' /\
      (BlockHeight ctx <> 0 -> BlockHeight ctx' <> 0 -> acc_Number acc = acc_Number acc')).
Proof.
  destruct (verifyWebAuthnTx_vouches _ _ _ _ _ _ _ _ R S I) as (l & s & b & sb & Gl & Hs & Hb & acc & pk & a & cd & Ga & Gp & _ & Gb & U & J & C).
  destruct (verifyWebAuthnTx_vouches _ _ _ _ _ _ _ _ R' S' I') as (l' & s' & b' & sb' & Gl' & Hs' & Hb' & acc' & pk' & a' & cd' & Ga' & Gp' & _ & Gb' & U' & J' & C').
  assert (b' = b) as -> by congruence. assert (a' = a) as -> by congruence. assert (cd' = cd) as -> by congruence.
  rewrite C in C'. apply EncodeToString_inj in C'. exists acc, acc', sb, sb'. split; [by exists l, s, pk|]. split; [by exists l', s', pk'|].
  split; [done|]. intros <-. destruct (sign_bytes_bind _ _ _ _ _ Gb Gb') as (Ed & Ec & En). cbn in Ec, En. split; [done|]. split; [done|].
  intros N N'. by rewrite !(proj2 (Z.eqb_neq _ _)) in En by done.
Qed.

(** The reference signer and the decorator agree: the assertion it makes for
    the digest of the transaction's sign bytes carries the transaction past the
    decorator when the user was verified, and stops it with the verification error,
    the state untouched, when the user was not. *)
Theorem passkey_accepted c enabled ctx d signer acc pk pub auth origin uv sb (std next : M W unit) (w : W)
    (Hen : enabled w = true) (Ga : GetSignerAcc w signer = Ret acc) (Gp : acc_PubKey acc = Some pk)
    (Hp : parseP256 (Bytes pk) = Ret pub)
    (Hs : forall m, VerifyASN1 pub m (sign auth m) = true /\ sign auth m <> EmptyString)
    (Gb : GetSignBytes (signer_data c (BlockHeight ctx) acc pk (acc_Sequence acc)) d = Ret sb)
    (Hl : strlen (Marshal (Sign auth (sha256 sb) origin uv).1) < 2 ^ 32) :
  let blob := Marshal (Sign auth (sha256 sb) origin uv).1 in
  let tx := mkSigTx (Ret [mkSig (acc_Sequence acc) (Some blob)]) (Ret [signer]) true d in
  AnteHandle c true (Some enabled) ctx (Some tx) false std next w =
    if uv then next w else (Err "webauthn: user-verification flag not set", w).
Proof.
  intros blob tx. assert (Hw : IsWebAuthnSig blob = true) by (unfold blob, IsWebAuthnSig; rewrite Marshal_alt; apply str_prefix_app).
  unfold AnteHandle, txHasWebAuthnSig, verifyWebAuthnTx. subst tx.
  cbn [GetSignaturesV2 GetSigners adaptable existsb Single]. rewrite Hen, Hw. cbn [negb orb mbind outcome_bind length zip zip_with fold_ok fst snd]. rewrite Z.eqb_refl. cbn [negb].
  unfold verify_sig. rewrite Ga. cbn [mbind outcome_bind]. rewrite Gp. cbn [Sequence Single SigningTxData].
  rewrite Z.eqb_refl, Hw. cbn [negb]. rewrite Gb. cbn [mbind outcome_bind].
  unfold blob. rewrite Unmarshal_Marshal by (try apply Hs; done). cbn [mbind outcome_bind].
  rewrite (Sign_verified auth _ _ _ _ pub) by (done || apply Hs). by destruct uv.
Qed.

End replay.

(** ** A concrete passkey *)
Module Example.

(** Keys are 33-byte strings; the signature of a digest is the key followed by it. *)
#[local] Instance toy_P256 : P256 := {|
  PublicKey := string; UnmarshalCompressed b := Some b; UnmarshalUncompressed _ := None;
  VerifyASN1 k d s := String.eqb s (k +:+ d) |}.
#[local] Instance hex_address : Bech32 := {| AccAddress_String := hex_bytes |}.
#[local] Existing Instances codec_JSON codec_JSONLaws.

(** Accounts by address; a sign document is the JSON of its four parts. *)
#[local] Instance toy_env : SigEnv (list (string * Account)) := {|
  GetSignerAcc w a := match list_find (fun e => e.1 = a) w with Some (_, e) => Ret e.2 | None => Err "account does not exist" end;
  GetSignBytes sd d := Ret (json_Marshal (sd_ChainID sd, sd_AccountNumber sd, d)) |}.
#[local] Instance toy_DirectMode : DirectMode (list (string * Account)).
Proof.
  constructor. intros sd d sd' d' b E E'.
  assert (K : json_Marshal (sd_ChainID sd, sd_AccountNumber sd, d) = json_Marshal (sd_ChainID sd', sd_AccountNumber sd', d'))
    by (pose proof (eq_trans E (eq_sym E')) as K; by injection K).
  apply (f_equal (json_Unmarshal (A := string * Z * string))) in K. rewrite !json_roundtrip in K. by injection K as -> -> ->.
Qed.

Definition key : string := "0123456789abcdef0123456789abcdefX".
Definition alice : Account := mkAccount "alice" (Some (mkPubKey "secp256r1" key)) 7 3.
Definition world : list (string * Account) := [("alice", alice)].
Definition auth : SimulatedAuthenticator := mkAuthenticator (fun d => key +:+ d) "limonata.xyz" 0.
Definition ctx : Ctx := mkCtx 0 5 false false.
Definition sb : string := json_Marshal ("limonata-1", 7, "send 1 to bob").
Definition blob : string := Marshal (Sign auth (sha256 sb) "https://limonata.xyz" true).1.
Definition tx : SigTx := mkSigTx (Ret [mkSig 3 (Some blob)]) (Ret ["alice"]) true "send 1 to bob".

Lemma assertion_packing_witness : UnmarshalAssertion blob = Ret (Sign auth (sha256 sb) "https://limonata.xyz" true).1.
Proof.
  apply (assertion_packing _ blob); [by vm_compute|]. split; [done|by vm_compute].
Defined.

Definition std : M (list (string * Account)) unit := fun w => (Err "signature verification failed", w).
Definition next : M (list (string * Account)) unit := fun w => (Ret tt, w).

Lemma passkey_accepted_witness :
  AnteHandle "limonata-1" true (Some (fun _ => true)) ctx (Some tx) false std next world = next world.
Proof.
  apply (passkey_accepted "limonata-1" (fun _ => true) ctx "send 1 to bob" "alice" alice (mkPubKey "secp256r1" key) (key : @PublicKey toy_P256) auth
    "https://limonata.xyz" true sb std next world);
    [done|done|done|by vm_compute|intros m; split; [apply String.eqb_refl|done]|done|by vm_compute].
Defined.

Lemma tx_accepted : verifyWebAuthnTx "limonata-1" true ctx (Some tx) world = Ret tt.
Proof. vm_compute. reflexivity. Qed.

(** The same blob on another transaction is refused. *)
Lemma tx_replayed : verifyWebAuthnTx "limonata-1" true ctx
  (Some (mkSigTx (Ret [mkSig 3 (Some blob)]) (Ret ["alice"]) true "send 9 to eve")) world =
  Err "webauthn: challenge does not bind to the transaction".
Proof. vm_compute. reflexivity. Qed.

Lemma passkey_not_replayable_witness : exists acc acc' sb sb',
  document "limonata-1" ctx tx world 0 (mkSig 3 (Some blob)) acc sb /\ document "limonata-1" ctx tx world 0 (mkSig 3 (Some blob)) acc' sb' /\
  sha256 sb = sha256 sb' /\
  (sb = sb' -> SigningTxData tx = SigningTxData tx /\ "limonata-1" = "limonata-1" /\
    (BlockHeight ctx <> 0 -> BlockHeight ctx <> 0 -> acc_Number acc = acc_Number acc')).
Proof.
  apply (passkey_not_replayable "limonata-1" "limonata-1" true true ctx ctx tx tx world world [mkSig 3 (Some blob)] [mkSig 3 (Some blob)]
    0 0 (mkSig 3 (Some blob)) (mkSig 3 (Some blob))); apply tx_accepted || done.
Defined.

End Example.

End WebAuthn.
