(* ===== verification/AnteMsgs.v ===== *)
(** * Which messages reach which decorators

    Models the routing of ante/ante.go, the start of the Cosmos decorators of
    ante/cosmos.go and the two that look at the messages: ante/cosmos/reject_msgs.go
    and the authz limiter of ante/cosmos/authz.go.  The decorators behind them and the
    EVM decorator are parameters. *)
From S2P Require Import Prelude.
From stdpp Require Import strings list.
From Stdlib Require Import ZArith Lia.

#[local] Set Default Goal Selector "!".
Open Scope Z_scope.

Module AnteMsgs.

(** ** Messages

    The messages the decorators tell apart.  [GetMessages] and [GetAuthorization]
    unpack protobuf values; [None] is their error.  A granted authorization is its
    message type URL. *)
Inductive Msg :=
  | MsgExec (GetMessages : option (list Msg))
  | MsgGrant (GetAuthorization : option string)
  | MsgEthereumTx
  | MsgOther (url : string).

Definition EthereumTxURL : string := "/cosmos.evm.vm.v1.MsgEthereumTx".
Definition CreateVestingAccountURL : string := "/cosmos.vesting.v1beta1.MsgCreateVestingAccount".

(** [sdk.MsgTypeURL]. *)
Definition MsgTypeURL (m : Msg) : string :=
  match m with
  | MsgExec _ => "/cosmos.authz.v1beta1.MsgExec"
  | MsgGrant _ => "/cosmos.authz.v1beta1.MsgGrant"
  | MsgEthereumTx => EthereumTxURL
  | MsgOther url => url
  end.

(** ** The authz limiter *)
Definition maxNestedMsgs : Z := 7.

Section limiter.
Variable disabledMsgTypes : list string.

Definition isDisabledMsg (msgTypeURL : string) : bool := existsb (String.eqb msgTypeURL) disabledMsgTypes.

(** The loop over the messages, with the body's effect on [nestedLvl]. *)
Fixpoint msg_loop (body : Z -> Msg -> outcome Z) (nestedLvl : Z) (msgs : list Msg) : outcome unit :=
  match msgs with
  | [] => Ret tt
  | msg :: rest => lvl ← body nestedLvl msg; msg_loop body lvl rest
  end.
Definition guarded (nestedLvl : Z) (loop : outcome unit) : outcome unit :=
  if maxNestedMsgs <=? nestedLvl then Err "found more nested msgs than permitted" else loop.

(** One message: the level the loop goes on with. *)
Fixpoint check_msg (isAuthzInnerMsg : bool) (nestedLvl : Z) (msg : Msg) : outcome Z :=
  match msg with
  | MsgExec None => Err "unpack"
  | MsgExec (Some innerMsgs) =>
      let nestedLvl := nestedLvl + 1 in
      _ ← guarded nestedLvl (msg_loop (check_msg true) nestedLvl innerMsgs);
      Ret nestedLvl
  | MsgGrant None => Err "unpack"
  | MsgGrant (Some url) => if isDisabledMsg url then Err "found disabled msg type" else Ret nestedLvl
  | msg => if isAuthzInnerMsg && isDisabledMsg (MsgTypeURL msg) then Err "found disabled msg type" else Ret nestedLvl
  end.
Definition checkDisabledMsgs (msgs : list Msg) (isAuthzInnerMsg : bool) (nestedLvl : Z) : outcome unit :=
  guarded nestedLvl (msg_loop (check_msg isAuthzInnerMsg) nestedLvl msgs).

Definition AuthzLimiter_AnteHandle {A : Type} (next : list Msg -> outcome A) (msgs : list Msg) : outcome A :=
  _ ← checkDisabledMsgs msgs false 1;
  next msgs.
End limiter.

(** ** Rejected messages *)
Definition RejectMessages_AnteHandle {A : Type} (next : list Msg -> outcome A) (msgs : list Msg) : outcome A :=
  if existsb (fun m => match m with MsgEthereumTx => true | _ => false end) msgs
  then Err "MsgEthereumTx needs to be contained within a tx with 'ExtensionOptionsEthereumTx' option"
  else next msgs.

(** ** Routing *)
Definition extensionOptionsEthereumTx : string := "/cosmos.evm.vm.v1.ExtensionOptionsEthereumTx".
Definition extensionOptionsDynamicFeeTx : string := "/cosmos.evm.ante.v1.ExtensionOptionDynamicFeeTx".

Section routing.
Context {A : Type}.
(** The decorators after the two above, and those of an Ethereum transaction. *)
Variable rest : list Msg -> outcome A.
Variable newMonoEVMAnteHandler : list Msg -> outcome A.

Definition newCosmosAnteHandler (msgs : list Msg) : outcome A :=
  RejectMessages_AnteHandle (AuthzLimiter_AnteHandle [EthereumTxURL; CreateVestingAccountURL] rest) msgs.

(** [opts] are the type URLs of the extension options. *)
Definition NewAnteHandler (opts : list string) (msgs : list Msg) : outcome A :=
  match opts with
  | typeURL :: _ =>
      if String.eqb typeURL extensionOptionsEthereumTx then newMonoEVMAnteHandler msgs else
      if String.eqb typeURL extensionOptionsDynamicFeeTx then newCosmosAnteHandler msgs else
      Err "rejecting tx with unsupported extension option"
  | [] => newCosmosAnteHandler msgs
  end.
End routing.

(** ** Messages within messages *)

(** [inside k m msgs]: [m] is one of [msgs], or is executed by one of them through
    [k] nested [MsgExec]. *)
Inductive inside : nat -> Msg -> list Msg -> Prop :=
  | inside_here m msgs : m ∈ msgs -> inside 0 m msgs
  | inside_exec k m inner msgs : MsgExec (Some inner) ∈ msgs -> inside k m inner -> inside (S k) m msgs.

Section sound.
Variable disabled : list string.

Lemma loop_each inner lvl msgs m :
  msg_loop (check_msg disabled inner) lvl msgs = Ret tt -> m ∈ msgs ->
  exists lvl' lvl'', lvl <= lvl' /\ check_msg disabled inner lvl' m = Ret lvl''.
Proof.
  revert lvl. induction msgs as [|x msgs IH]; intros lvl E Hin; [by apply not_elem_of_nil in Hin|]. cbn [msg_loop] in E.
  destruct (check_msg disabled inner lvl x) as [lvl1| |] eqn:Ex; try done. cbn [mbind outcome_bind] in E.
  assert (Hle : lvl <= lvl1).
  { destruct x as [[l|]|[u|]| |u]; cbn [check_msg] in Ex; repeat (case_match; try done); simplify_eq; try lia.
    destruct (guarded _ _); try done. injection Ex as <-. lia. }
  apply elem_of_cons in Hin as [->|Hin]; [by exists lvl, lvl1|]. destruct (IH _ E Hin) as (l' & l'' & ? & ?). exists l', l''. split; [lia|done].
Qed.

(** What is allowed as a message: not a grant of a disabled type, and not itself of
    one when it is executed by another. *)
Definition allowed (k : nat) (m : Msg) : Prop :=
  match m with
  | MsgExec inner => is_Some inner
  | MsgGrant url => exists u, url = Some u /\ u ∉ disabled
  | m => k <> 0%nat -> MsgTypeURL m ∉ disabled
  end.

Lemma isDisabledMsg_spec url : isDisabledMsg disabled url = false <-> url ∉ disabled.
Proof.
  unfold isDisabledMsg. rewrite <- not_true_iff_false, existsb_exists. split.
  - intros Hn Hin. apply Hn. exists url. split; [by apply list_elem_of_In|apply String.eqb_refl].
  - intros Hn (u & Hin & E%String.eqb_eq). subst u. by apply Hn, list_elem_of_In.
Qed.

Lemma check_allowed inner lvl lvl' m k :
  check_msg disabled inner lvl m = Ret lvl' -> (k <> 0%nat -> inner = true) -> allowed k m.
Proof.
  intros E Hk. destruct m as [[l|]|[u|]| |u]; cbn [check_msg allowed] in *; try done.
  - destruct (isDisabledMsg disabled u) eqn:Ed; [done|]. exists u. split; [done|by apply isDisabledMsg_spec].
  - intros H0. rewrite (Hk H0) in E. destruct (isDisabledMsg _ _) eqn:Ed; [done|]. by apply isDisabledMsg_spec.
  - intros H0. rewrite (Hk H0) in E. destruct (isDisabledMsg _ _) eqn:Ed; [done|]. by apply isDisabledMsg_spec.
Qed.

Lemma limiter_sound msgs inner lvl k m :
  checkDisabledMsgs disabled msgs inner lvl = Ret tt -> inside k m msgs ->
  lvl + Z.of_nat k < maxNestedMsgs /\ (forall j, (j <> 0%nat -> k <> 0%nat \/ inner = true) -> allowed j m).
Proof.
  intros E Hin. revert lvl inner E. induction Hin as [m msgs Hin|k m l msgs Hin _ IH]; intros lvl inner E; unfold checkDisabledMsgs, guarded in E;
    destruct (Z.leb_spec maxNestedMsgs lvl) as [|Hl]; try done; destruct (loop_each _ _ _ _ E Hin) as (l1 & l2 & Hle & Ec).
  - split; [lia|]. intros j Hj. eapply check_allowed; [exact Ec|]. intros [?|?]%Hj; done.
  - cbn [check_msg] in Ec. destruct (guarded (l1 + 1) _) as [[]| |] eqn:Eg; try done.
    destruct (IH (l1 + 1) true Eg) as [Hd Ha]. split; [lia|]. intros j _. apply Ha. by right.
Qed.
End sound.

(** C21: an Ethereum transaction takes its own route.  If a transaction is accepted and
    contains a [MsgEthereumTx], at any depth of [MsgExec], or a grant to execute one,
    then its first extension option is that of Ethereum transactions and the EVM
    decorators accepted it.  On the Cosmos route, moreover, messages are nested less
    than six deep, and [MsgCreateVestingAccount] is neither granted nor executed through
    a [MsgExec]; it may be a message of the transaction itself. *)
Theorem ethereum_only_by_its_route {A : Type} (rest mono : list Msg -> outcome A) opts msgs a :
  NewAnteHandler rest mono opts msgs = Ret a ->
  (head opts = Some extensionOptionsEthereumTx /\ mono msgs = Ret a) \/
  (rest msgs = Ret a /\ forall k m, inside k m msgs ->
     (k < 6)%nat /\ m <> MsgEthereumTx /\ m <> MsgGrant (Some EthereumTxURL) /\ m <> MsgGrant (Some CreateVestingAccountURL) /\
     (m = MsgOther CreateVestingAccountURL -> k = 0%nat)).
Proof.
  assert (HC : newCosmosAnteHandler rest msgs = Ret a -> rest msgs = Ret a /\ forall k m, inside k m msgs ->
     (k < 6)%nat /\ m <> MsgEthereumTx /\ m <> MsgGrant (Some EthereumTxURL) /\ m <> MsgGrant (Some CreateVestingAccountURL) /\
     (m = MsgOther CreateVestingAccountURL -> k = 0%nat)).
  { unfold newCosmosAnteHandler, RejectMessages_AnteHandle, AuthzLimiter_AnteHandle. destruct (existsb _ msgs) eqn:Ex; [done|].
    destruct (checkDisabledMsgs _ msgs false 1) as [[]| |] eqn:Ec; try done. cbn [mbind outcome_bind]. intros Er. split; [done|].
    intros k m Hin. destruct (limiter_sound _ _ _ _ _ _ Ec Hin) as [Hd Ha]. unfold maxNestedMsgs in Hd.
    assert (Hk : allowed [EthereumTxURL; CreateVestingAccountURL] k m) by (apply Ha; naive_solver). clear Ha Er Ec.
    split_and!; [lia| | | |].
    - intros ->. destruct k as [|k]; [|apply Hk; [done|by left]]. inversion Hin as [? ? Hm|]; subst.
      apply not_true_iff_false in Ex. apply Ex, existsb_exists. exists MsgEthereumTx. split; [by apply list_elem_of_In|done].
    - intros ->. destruct Hk as (u & [= <-] & Hu). apply Hu. by left.
    - intros ->. destruct Hk as (u & [= <-] & Hu). apply Hu. right. by left.
    - intros ->. destruct k as [|k]; [done|]. exfalso. apply Hk; [done|]. right. by left. }
  unfold NewAnteHandler. destruct opts as [|o opts]; [by right; apply HC|]. destruct (String.eqb_spec o extensionOptionsEthereumTx) as [->|].
  - intros E. left. by split.
  - destruct (String.eqb o _); [|done]. intros E. right. by apply HC.
Qed.

Module Example.
Definition transfer : Msg := MsgOther "/cosmos.bank.v1beta1.MsgSend".
Definition accept (msgs : list Msg) : outcome nat := Ret (length msgs).

Lemma ethereum_only_by_its_route_witness :
  NewAnteHandler accept accept [] [transfer; MsgExec (Some [transfer])] = Ret 2%nat /\
  forall k m, inside k m [transfer; MsgExec (Some [transfer])] -> m <> MsgEthereumTx.
Proof.
  assert (E : NewAnteHandler accept accept [] [transfer; MsgExec (Some [transfer])] = Ret 2%nat) by reflexivity.
  split; [exact E|]. intros k m Hin.
  destruct (ethereum_only_by_its_route accept accept [] _ 2%nat E) as [[[=] _]|[_ Hm]]. apply (Hm k m Hin).
Defined.

(** An Ethereum transaction hidden in two levels of execution is refused. *)
Example hidden_refused : NewAnteHandler accept accept [] [MsgExec (Some [MsgExec (Some [MsgEthereumTx])])] = Err "found disabled msg type".
Proof. reflexivity. Qed.

(** The limit on vesting accounts is on that one message type: the messages of the same
    module that create permanently locked or periodic accounts are executed and granted
    without objection. *)
Definition locked : string := "/cosmos.vesting.v1beta1.MsgCreatePermanentLockedAccount".
Definition periodic : string := "/cosmos.vesting.v1beta1.MsgCreatePeriodicVestingAccount".
Example vesting_by_type :
  NewAnteHandler accept accept [] [MsgExec (Some [MsgOther CreateVestingAccountURL])] = Err "found disabled msg type" /\
  NewAnteHandler accept accept [] [MsgExec (Some [MsgOther locked; MsgOther periodic]); MsgGrant (Some locked); MsgGrant (Some periodic)] = Ret 3%nat.
Proof. split; reflexivity. Qed.

(** The level is not reset between siblings: the sixth [MsgExec] of a transaction is
    refused as too deeply nested although none is nested. *)
Example siblings_refused :
  NewAnteHandler accept accept [] (repeat (MsgExec (Some [transfer])) 6) = Err "found more nested msgs than permitted" /\
  NewAnteHandler accept accept [] (repeat (MsgExec (Some [transfer])) 5) = Ret 5%nat.
Proof. split; reflexivity. Qed.
End Example.
End AnteMsgs.
