(* ===== verification/VoteTrim.v ===== *)
(** * Fitting the vote extensions into a proposal

    Models the trimming of the extended commit that a proposer injects into its
    block (evmd/dkg_voteext.go: marshalInjectedCommit, knapsackKeepMaxPower,
    boundedInjectedCommit).  The protobuf encoding of the commit is an interface. *)
From S2P Require Import Prelude Codec.
From stdpp Require Import gmap strings list.
From Stdlib Require Import ZArith Lia.

#[local] Set Default Goal Selector "!".
Open Scope Z_scope.

Definition BlockIDFlagAbsent : Z := 1.
Definition BlockIDFlagCommit : Z := 2.

(** abci.ExtendedVoteInfo and abci.ExtendedCommitInfo. *)
Record ExtendedVoteInfo := mkVote {
  v_Address : string;
  v_Power : Z;
  v_Extension : string;
  v_Signature : string;
  v_BlockIdFlag : Z
}.
Record ExtendedCommitInfo := mkExtCommit { ec_Round : Z; ec_Votes : list ExtendedVoteInfo }.

(** The generated encoding. *)
Class CommitProto : Type := {
  ec_Marshal : ExtendedCommitInfo -> option string;
  ec_Unmarshal : string -> option ExtendedCommitInfo
}.
Class CommitProtoLaws `{CommitProto} : Prop := {
  ec_roundtrip ec bz : ec_Marshal ec = Some bz -> ec_Unmarshal bz = Some ec
}.

#[export] Instance vote_codec : Codec ExtendedVoteInfo :=
  Codec_iso (fun v => (v_Address v, v_Power v, v_Extension v, v_Signature v, v_BlockIdFlag v))
    (fun t => mkVote t.1.1.1.1 t.1.1.1.2 t.1.1.2 t.1.2 t.2) (fun v => match v with mkVote _ _ _ _ _ => eq_refl end).
#[export] Instance commit_codec : Codec ExtendedCommitInfo :=
  Codec_iso (fun c => (ec_Round c, ec_Votes c)) (fun t => mkExtCommit t.1 t.2) (fun c => match c with mkExtCommit _ _ => eq_refl end).
(** An executable encoding. *)
Definition codec_CommitProto : CommitProto := {|
  ec_Marshal ec := Some (@json_Marshal _ (codec_JSON ExtendedCommitInfo) ec);
  ec_Unmarshal := @json_Unmarshal _ (codec_JSON ExtendedCommitInfo) |}.
Lemma codec_CommitProtoLaws : @CommitProtoLaws codec_CommitProto.
Proof.
  constructor. intros ec bz E. assert (bz = @json_Marshal _ (codec_JSON ExtendedCommitInfo) ec) as -> by (by injection E).
  apply (@json_roundtrip _ _ (codec_JSONLaws ExtendedCommitInfo)).
Qed.

Module VoteTrim.

Definition strlen (s : string) : Z := Z.of_nat (String.length s).
Definition veInjectMarker : string := byte_prefix 0 +:+ ("LIMO-DKG-VE" +:+ byte_prefix 0).
Definition isVeInjectMarkerTx (txBytes : string) : bool := String.prefix veInjectMarker txBytes.

Definition marshalInjectedCommit `{CommitProto} (ec : ExtendedCommitInfo) : option string :=
  match ec_Marshal ec with
  | None => None
  | Some bz => Some (veInjectMarker +:+ bz)
  end.

Definition perVoteMarshalOverhead : Z := 24.
(** Byte counts are sums of lengths of buffers in memory, which do not wrap; powers
    are 64-bit. *)
Record trimCand := mkCand { idx : nat; vp : Z; cost : Z }.

(** [sort.SliceStable]: insertion of each element behind those it is not less than. *)
Fixpoint stable_insert {A : Type} (less : A -> A -> bool) (x : A) (l : list A) : list A :=
  match l with
  | [] => [x]
  | y :: l' => if less x y then x :: l else y :: stable_insert less x l'
  end.
Definition SliceStable {A : Type} (less : A -> A -> bool) (l : list A) : list A :=
  foldl (fun acc x => stable_insert less x acc) [] l.

(** ** The knapsack *)

Definition knapsackBuckets : Z := 8192.

(** [for b := B; b >= w; b--] over one item. *)
Fixpoint dp_loop (w : nat) (v : Z) (b : nat) (dp : list Z) (taken : list bool) : list Z * list bool :=
  if (b <? w)%nat then (dp, taken) else
  let cand := i64 (dp !!! (b - w)%nat + v) in
  let '(dp, taken) := if dp !!! b <? cand then (<[b := cand]> dp, <[b := true]> taken) else (dp, taken) in
  match b with
  | O => (dp, taken)
  | S b' => dp_loop w v b' dp taken
  end.

(** [for i := range cands]: the table and the rows [taken], the last item's first. *)
Definition dp_item (B : nat) (st : list Z * list (trimCand * nat * list bool)) (e : trimCand * nat)
    : list Z * list (trimCand * nat * list bool) :=
  let row := replicate (S B) false in
  if (B <? e.2)%nat then (st.1, (e, row) :: st.2) else
  let '(dp, taken) := dp_loop e.2 (vp e.1) B st.1 row in
  (dp, (e, taken) :: st.2).
Definition dp_table (B : nat) (items : list (trimCand * nat)) : list Z * list (trimCand * nat * list bool) :=
  foldl (dp_item B) (replicate (S B) 0, []) items.

(** The reconstruction, from the last item to the first. *)
Fixpoint backtrack (rows : list (trimCand * nat * list bool)) (b : nat) (keep : list bool) (keptVP : Z) : list bool * Z :=
  match rows with
  | [] => (keep, keptVP)
  | (c, w, taken) :: rows' =>
      if (taken !!! b : bool) then backtrack rows' (b - w) (<[idx c := true]> keep) (i64 (keptVP + vp c))
      else backtrack rows' b keep keptVP
  end.

Definition gran_of (budget : Z) : Z := budget / knapsackBuckets + 1.
Definition scaled (gran : Z) (c : trimCand) : nat :=
  let s := Z.quot (cost c + gran - 1) gran in
  Z.to_nat (if s <=? 0 then 1 else s).
Definition knapsackKeepMaxPower (cands : list trimCand) (votesLen : nat) (budget : Z) : list bool * Z :=
  let keep := replicate votesLen false in
  if match cands with [] => true | _ => false end || (budget <=? 0) then (keep, 0) else
  let gran := gran_of budget in
  let B := Z.to_nat (budget / gran) in
  let '(_, rows) := dp_table B ((fun c => (c, scaled gran c)) <$> cands) in
  backtrack rows B keep 0.

(** ** The trim *)

Definition usable (v : ExtendedVoteInfo) : bool :=
  (v_BlockIdFlag v =? BlockIDFlagCommit) && negb (strlen (v_Extension v) =? 0) && negb (strlen (v_Signature v) =? 0).
Definition cand_of (i : nat) (v : ExtendedVoteInfo) : trimCand :=
  mkCand i (v_Power v) (strlen (v_Extension v) + strlen (v_Signature v) + perVoteMarshalOverhead).
Definition cands_of (votes : list ExtendedVoteInfo) : list trimCand :=
  omap (fun e : nat * ExtendedVoteInfo => if usable e.2 then Some (cand_of e.1 e.2) else None) (imap pair votes).

(** Fills the budget in the given order, from [used] bytes. *)
Definition greedy_step (budget : Z) (st : list bool * Z * Z) (c : trimCand) : list bool * Z * Z :=
  let '(keep, keptVP, used) := st in
  if budget <? used + cost c then st else (<[idx c := true]> keep, i64 (keptVP + vp c), used + cost c).
Definition greedy (budget : Z) (n : nat) (order : list trimCand) : list bool * Z :=
  (foldl (greedy_step budget) (replicate n false, 0, strlen veInjectMarker) order).1.

Definition addr (votes : list ExtendedVoteInfo) (c : trimCand) : string :=
  match votes !! idx c with Some v => v_Address v | None => EmptyString end.
Definition addr_less (votes : list ExtendedVoteInfo) (l r : trimCand) : bool :=
  match String.compare (addr votes l) (addr votes r) with Lt => true | _ => false end.
(** [bits.Mul64]. *)
Definition Mul64 (x y : Z) : Z * Z := (u64 x * u64 y / 2 ^ 64, u64 x * u64 y mod 2 ^ 64).
Definition density_less (votes : list ExtendedVoteInfo) (l r : trimCand) : bool :=
  let '(lhi, llo) := Mul64 (vp l) (cost r) in
  let '(rhi, rlo) := Mul64 (vp r) (cost l) in
  if negb (lhi =? rhi) then rhi <? lhi else if negb (llo =? rlo) then rlo <? llo else addr_less votes l r.
Definition power_less (votes : list ExtendedVoteInfo) (l r : trimCand) : bool :=
  if negb (vp l =? vp r) then vp r <? vp l else addr_less votes l r.

Definition absent (v : ExtendedVoteInfo) : ExtendedVoteInfo :=
  mkVote (v_Address v) (v_Power v) EmptyString EmptyString BlockIDFlagAbsent.
Definition trim_votes (keep : list bool) (votes : list ExtendedVoteInfo) : list ExtendedVoteInfo :=
  imap (fun i v => if (keep !!! i : bool) then v else absent v) votes.

Definition totalVP_of (votes : list ExtendedVoteInfo) : Z := foldl (fun s v => i64 (s + v_Power v)) 0 votes.
Definition requiredVP_of (totalVP : Z) : Z := i64 (Z.quot (i64 (totalVP * 2)) 3 + 1).

(** The choice of the votes to keep: the two greedy orders, the knapsack, the top-up. *)
Definition choose (votes : list ExtendedVoteInfo) (budget requiredVP : Z) : list bool * Z :=
  let cands := cands_of votes in
  let n := length votes in
  let '(keep, keptVP) := greedy budget n (SliceStable (density_less votes) cands) in
  let '(keep, keptVP) := if keptVP <? requiredVP then greedy budget n (SliceStable (power_less votes) cands) else (keep, keptVP) in
  let '(keep, keptVP) := if keptVP <? requiredVP then knapsackKeepMaxPower cands n (budget - strlen veInjectMarker) else (keep, keptVP) in
  let usedReal := foldl (fun u c => if (keep !!! idx c : bool) then u + cost c else u) (strlen veInjectMarker) cands in
  let dropped := List.filter (fun c => negb (keep !!! idx c : bool)) cands in
  (foldl (greedy_step budget) (keep, keptVP, usedReal) (SliceStable (power_less votes) dropped)).1.

Definition boundedInjectedCommit `{CommitProto} (ec : ExtendedCommitInfo) (maxTxBytes : Z) : option string :=
  match (match marshalInjectedCommit ec with
         | Some blob => if strlen blob <? maxTxBytes then Some blob else None
         | None => None
         end) with
  | Some blob => Some blob
  | None =>
      let budget := maxTxBytes - Z.quot maxTxBytes 8 in
      if budget <=? strlen veInjectMarker then None else
      let votes := ec_Votes ec in
      let totalVP := totalVP_of votes in
      if totalVP <=? 0 then None else
      let requiredVP := requiredVP_of totalVP in
      let '(keep, keptVP) := choose votes budget requiredVP in
      if keptVP <? requiredVP then None else
      match marshalInjectedCommit (mkExtCommit (ec_Round ec) (trim_votes keep votes)) with
      | None => None
      | Some blob => if maxTxBytes <=? strlen blob then None else Some blob
      end
  end.

(** ** The table holds the optimum of every prefix and every budget *)

Lemma replicate_total {A : Type} `{Inhabited A} (n i : nat) (x : A) : (i < n)%nat -> replicate n x !!! i = x.
Proof. intros Hi. apply list_lookup_total_correct. by apply lookup_replicate_2. Qed.

Lemma insert_total {A : Type} `{Inhabited A} (l : list A) (i j : nat) (x : A) :
  (i < length l)%nat -> <[i := x]> l !!! j = if decide (j = i) then x else l !!! j.
Proof.
  intros Hi. rewrite list_lookup_total_insert. repeat case_decide; naive_solver.
Qed.

Definition weigh (w : nat) (v : Z) (dp : list Z) (b : nat) : Z := i64 (dp !!! (b - w)%nat + v).
Definition better (w : nat) (v : Z) (dp : list Z) (b : nat) : bool := (w <=? b)%nat && (dp !!! b <? weigh w v dp b).

Lemma dp_loop_spec w v b0 : (0 < w)%nat -> forall dp taken, (b0 < length dp)%nat -> length taken = length dp ->
  let r := dp_loop w v b0 dp taken in
  length r.1 = length dp /\ length r.2 = length dp /\
  (forall b, r.1 !!! b = if (b <=? b0)%nat && better w v dp b then weigh w v dp b else dp !!! b) /\
  (forall b, r.2 !!! b = ((b <=? b0)%nat && better w v dp b) || taken !!! b).
Proof.
  intros Hw. induction b0 as [|b0 IH]; intros dp taken Hb Ht r.
  - unfold r. cbn [dp_loop]. destruct (Nat.ltb_spec 0 w); [|lia]. cbn [fst snd]. split_and!; try done.
    all: intros b; unfold better; destruct (Nat.leb_spec b 0), (Nat.leb_spec w b); try lia; done.
  - unfold r. cbn [dp_loop]. destruct (Nat.ltb_spec (S b0) w) as [Hlt|Hge].
    { cbn [fst snd]. split_and!; try done.
      all: intros b; unfold better; destruct (Nat.leb_spec b (S b0)), (Nat.leb_spec w b); try lia; done. }
    fold (weigh w v dp (S b0)).
    set (st := if dp !!! S b0 <? weigh w v dp (S b0) then _ else _).
    assert (Es : st.1 = (if better w v dp (S b0) then <[S b0 := weigh w v dp (S b0)]> dp else dp) /\
                 st.2 = (if better w v dp (S b0) then <[S b0 := true]> taken else taken)).
    { unfold st, better. destruct (Nat.leb_spec w (S b0)); [|lia]. cbn [andb]. by destruct (_ <? _). }
    destruct st as [dp1 tk1]. cbn [fst snd] in Es. destruct Es as [E1 E2].
    assert (L1 : length dp1 = length dp) by (rewrite E1; destruct better; rewrite ?length_insert; done).
    assert (L2 : length tk1 = length dp) by (rewrite E2; destruct better; rewrite ?length_insert; done).
    specialize (IH dp1 tk1 ltac:(lia) ltac:(lia)). cbv zeta in IH. destruct IH as (A1 & A2 & A3 & A4).
    assert (Same : forall b, (b <= b0)%nat -> dp1 !!! b = dp !!! b /\ (w <= b -> weigh w v dp1 b = weigh w v dp b)%nat /\ tk1 !!! b = taken !!! b).
    { intros b Hle. rewrite E1, E2. unfold weigh. destruct better; [|done]. rewrite !insert_total by lia.
      split_and!; [by case_decide; [lia|]|intros Hwb; by case_decide; [lia|]|by case_decide; [lia|]]. }
    split_and!; [congruence|congruence|..]; intros b.
    + rewrite A3. destruct (Nat.leb_spec b b0) as [Hle|Hgt]; cbn [andb].
      * destruct (Same b Hle) as (S1 & S2 & _). destruct (Nat.leb_spec b (S b0)); [|lia]. cbn [andb].
        unfold better. destruct (Nat.leb_spec w b) as [Hwb|]; cbn [andb]; [|done]. by rewrite S1, (S2 Hwb).
      * rewrite E1. destruct (Nat.leb_spec b (S b0)) as [Hle|]; cbn [andb].
        -- assert (b = S b0) as -> by lia. destruct better; [|done]. rewrite insert_total by lia. by rewrite decide_True.
        -- destruct better; [|done]. rewrite insert_total by lia. by rewrite decide_False by lia.
    + rewrite A4. destruct (Nat.leb_spec b b0) as [Hle|Hgt]; cbn [andb].
      * destruct (Same b Hle) as (S1 & S2 & S3). destruct (Nat.leb_spec b (S b0)); [|lia]. cbn [andb]. rewrite S3.
        unfold better. destruct (Nat.leb_spec w b) as [Hwb|]; cbn [andb]; [|done]. by rewrite S1, (S2 Hwb).
      * rewrite E2. destruct (Nat.leb_spec b (S b0)) as [Hle|]; cbn [andb orb].
        -- assert (b = S b0) as -> by lia. destruct better; [|done]. rewrite insert_total by lia. by rewrite decide_True.
        -- destruct better; [|done]. rewrite insert_total by lia. by rewrite decide_False by lia.
Qed.

(** The reference: the best power of the items, the last one first, within [b]. *)
Fixpoint opt (items : list (trimCand * nat)) (b : nat) : Z :=
  match items with
  | [] => 0
  | (c, w) :: r => if (w <=? b)%nat then Z.max (opt r b) (opt r (b - w) + vp c) else opt r b
  end.
Definition fits_in (items : list (trimCand * nat)) : Prop :=
  Forall (fun e => 0 <= vp e.1 /\ (0 < e.2)%nat) items /\ sumZ (fun e => vp e.1) items < 2 ^ 63.

Lemma opt_bounds items b : fits_in items -> 0 <= opt items b <= sumZ (fun e => vp e.1) items.
Proof.
  intros [HF _]. revert b. induction HF as [|[c w] r [Hv Hw] HF IH]; intros b; cbn [opt sumZ fst]; [lia|].
  pose proof (IH b). pose proof (IH (b - w)%nat). cbn [fst snd] in *. destruct (w <=? b)%nat; lia.
Qed.

Lemma fits_in_tail e r : fits_in (e :: r) -> fits_in r.
Proof.
  intros [HF Hs]. inversion_clear HF as [|? ? [Hv _] HF']. split; [done|]. cbn [sumZ] in Hs. lia.
Qed.

(** What the rows record. *)
Fixpoint rows_of (B : nat) (items : list (trimCand * nat)) (rows : list (trimCand * nat * list bool)) : Prop :=
  match items, rows with
  | [], [] => True
  | (c, w) :: r, (e, taken) :: rs =>
      e = (c, w) /\ rows_of B r rs /\
      forall b, (b <= B)%nat -> taken !!! b = (w <=? b)%nat && (opt r b <? opt r (b - w) + vp c)
  | _, _ => False
  end.

Lemma dp_table_spec B items : fits_in (rev items) ->
  let r := dp_table B items in
  length r.1 = S B /\ (forall b, (b <= B)%nat -> r.1 !!! b = opt (rev items) b) /\ rows_of B (rev items) r.2.
Proof.
  unfold dp_table. induction items as [|[c w] items IH] using rev_ind; intros HF.
  { cbn. split_and!; [by rewrite length_replicate|intros b Hb; apply (replicate_total (S B)); lia|done]. }
  rewrite rev_app_distr in *. cbn [rev app] in *. destruct (IH (fits_in_tail _ _ HF)) as (L & V & R).
  rewrite foldl_app. cbn [foldl]. destruct (foldl (dp_item B) _ items) as [dp rows]. cbn [fst snd] in L, V, R.
  pose proof HF as [HF1 Hs]. inversion_clear HF1 as [|? ? [Hv Hw] _]. cbn [fst snd sumZ] in Hv, Hw, Hs.
  assert (HW : forall b, (w <= b <= B)%nat -> weigh w (vp c) dp b = opt (rev items) (b - w) + vp c).
  { intros b Hb. unfold weigh. rewrite V by lia. pose proof (opt_bounds _ (b - w)%nat (fits_in_tail _ _ HF)).
    apply i64_id. unfold is_i64. lia. }
  unfold dp_item. cbn [fst snd]. destruct (Nat.ltb_spec B w) as [HBw|HBw].
  - cbn [fst snd]. split_and!; [done| |split_and!; [done|done|]].
    + intros b Hb. cbn [opt]. rewrite V by done. by destruct (Nat.leb_spec w b); [lia|].
    + intros b Hb. rewrite (replicate_total (S B)) by lia. by destruct (Nat.leb_spec w b); [lia|].
  - pose proof (dp_loop_spec w (vp c) B Hw dp (replicate (S B) false) ltac:(lia) ltac:(rewrite length_replicate; lia)) as (L1 & L2 & A1 & A2).
    cbv zeta in *. destruct (dp_loop w (vp c) B dp (replicate (S B) false)) as [dp1 tk]. cbn [fst snd] in *.
    split_and!; [congruence| |split_and!; [done|done|]]; intros b Hb.
    + rewrite A1. destruct (Nat.leb_spec b B); [|lia]. unfold better. cbn [andb opt].
      destruct (Nat.leb_spec w b) as [Hwb|]; cbn [andb]; rewrite V by done; [|done].
      rewrite (HW b) by lia. destruct (Z.ltb_spec (opt (rev items) b) (opt (rev items) (b - w) + vp c)); lia.
    + rewrite A2, (replicate_total (S B)), orb_false_r by lia. destruct (Nat.leb_spec b B); [|lia]. unfold better. cbn [andb].
      destruct (Nat.leb_spec w b) as [Hwb|]; cbn [andb]; [|done]. by rewrite V, (HW b) by lia.
Qed.

(** No selection within the budget has more power. *)
Lemma opt_upper items s b : fits_in items -> sublist s items ->
  (foldr (fun e n => e.2 + n) 0 s <= b)%nat -> sumZ (fun e => vp e.1) s <= opt items b.
Proof.
  intros HF Hs. revert b HF. induction Hs as [|[c w] s l Hs IH|[c w] s l Hs IH]; intros b HF Hb; cbn [opt sumZ foldr fst snd] in *; [done| |].
  - destruct (Nat.leb_spec w b); [|lia]. specialize (IH (b - w)%nat (fits_in_tail _ _ HF) ltac:(lia)). lia.
  - specialize (IH b (fits_in_tail _ _ HF) Hb). destruct (w <=? b)%nat; lia.
Qed.

(** The reconstruction finds a selection of that power. *)
Lemma backtrack_spec B items : forall rows b keep kvp, fits_in items -> rows_of B items rows -> (b <= B)%nat ->
  0 <= kvp -> kvp + sumZ (fun e => vp e.1) items < 2 ^ 63 ->
  exists s, sublist s items /\ (foldr (fun e n => e.2 + n) 0 s <= b)%nat /\ sumZ (fun e => vp e.1) s = opt items b /\
    backtrack rows b keep kvp = (foldl (fun k e => <[idx e.1 := true]> k) keep s, kvp + opt items b).
Proof.
  induction items as [|[c w] r IH]; intros rows b keep kvp HF HR Hb Hk Hs; destruct rows as [|[[c' w'] taken] rows]; try done.
  { exists []. cbn. split_and!; [constructor|lia|done|f_equal; lia]. }
  cbn [rows_of] in HR. destruct HR as (E & HR & HT). injection E as -> ->. pose proof (fits_in_tail _ _ HF) as HF'.
  pose proof HF as [HF1 _]. inversion_clear HF1 as [|? ? [Hv Hw] _]. cbn [fst snd sumZ] in *. cbn [backtrack opt]. rewrite (HT b Hb).
  destruct (Nat.leb_spec w b) as [Hwb|Hwb]; cbn [andb].
  - destruct (Z.ltb_spec (opt r b) (opt r (b - w) + vp c)) as [Hlt|Hge].
    + destruct (IH rows (b - w)%nat (<[idx c := true]> keep) (i64 (kvp + vp c)) HF' HR ltac:(lia)) as (s & S1 & S2 & S3 & S4).
      1, 2: pose proof (opt_bounds r 0 HF'); rewrite i64_id by (unfold is_i64; lia); lia.
      exists ((c, w) :: s). cbn [foldr sumZ fst snd foldl]. split_and!; [by constructor|lia|lia|]. rewrite S4.
      pose proof (opt_bounds r 0 HF'). rewrite i64_id by (unfold is_i64; lia). f_equal. lia.
    + destruct (IH rows b keep kvp HF' HR Hb Hk ltac:(lia)) as (s & S1 & S2 & S3 & S4). exists s.
      rewrite S4. split_and!; [by constructor|done|lia|f_equal; lia].
  - destruct (IH rows b keep kvp HF' HR Hb Hk ltac:(lia)) as (s & S1 & S2 & S3 & S4). exists s.
    rewrite S4. split_and!; [by constructor|done|done|done].
Qed.

(** ** Selections *)

(** The candidates a selection keeps. *)
Definition kept (keep : list bool) (cands : list trimCand) : list trimCand :=
  List.filter (fun c => keep !!! idx c : bool) cands.

Definition cands_ok (n : nat) (cands : list trimCand) : Prop :=
  NoDup (idx <$> cands) /\ Forall (fun c => (idx c < n)%nat /\ 0 <= vp c /\ 0 < cost c) cands /\ sumZ vp cands < 2 ^ 63.

Lemma filter_insert_other keep i (cands : list trimCand) (f : trimCand -> Z) :
  (i < length keep)%nat -> i ∉ idx <$> cands -> sumZ f (kept (<[i := true]> keep) cands) = sumZ f (kept keep cands).
Proof.
  intros Hi. induction cands as [|c cands IH]; intros Hn; [done|]. rewrite fmap_cons, not_elem_of_cons in Hn. destruct Hn as [Hne Hn].
  unfold kept in *. cbn [List.filter]. rewrite insert_total by done. rewrite decide_False by congruence.
  destruct (keep !!! idx c); cbn [sumZ]; by rewrite IH.
Qed.

(** Keeping one more candidate adds it to every sum. *)
Lemma kept_insert keep c cands (f : trimCand -> Z) :
  (idx c < length keep)%nat -> NoDup (idx <$> cands) -> c ∈ cands -> keep !!! idx c = false ->
  sumZ f (kept (<[idx c := true]> keep) cands) = sumZ f (kept keep cands) + f c.
Proof.
  intros Hl. induction cands as [|d cands IH]; intros Hn Hc Hk; [by apply not_elem_of_nil in Hc|].
  rewrite fmap_cons in Hn. apply NoDup_cons in Hn as [Hd Hn]. apply elem_of_cons in Hc as [<-|Hc].
  - pose proof (filter_insert_other keep (idx c) cands f Hl Hd) as E. unfold kept in *. cbn [List.filter].
    rewrite insert_total, decide_True, Hk by done. cbn [sumZ]. lia.
  - assert (idx d <> idx c) as Hne by (intros E; apply Hd; rewrite E; by apply list_elem_of_fmap_2).
    specialize (IH Hn Hc Hk). unfold kept in *. cbn [List.filter]. rewrite insert_total, decide_False by done.
    destruct (keep !!! idx d); cbn [sumZ]; lia.
Qed.

Lemma kept_sublist keep cands : sublist (kept keep cands) cands.
Proof.
  unfold kept. induction cands as [|c cands IH]; [constructor|]. cbn [List.filter]. destruct (keep !!! idx c); by constructor.
Qed.

Lemma sumZ_sublist {A : Type} (f : A -> Z) (s l : list A) : sublist s l -> Forall (fun x => 0 <= f x) l -> sumZ f s <= sumZ f l.
Proof.
  induction 1 as [|x s l Hs IH|x s l Hs IH]; intros HF; [done|..]; inversion_clear HF; cbn [sumZ]; specialize (IH ltac:(done)); lia.
Qed.

Lemma kept_none n cands : Forall (fun c => (idx c < n)%nat) cands -> kept (replicate n false) cands = [].
Proof.
  unfold kept. induction 1 as [|c cands Hc HF IH]; [done|]. cbn [List.filter]. by rewrite replicate_total.
Qed.

(** A selection with its running power and byte count. *)
Record chosen (n : nat) (cands : list trimCand) (budget : Z) (st : list bool * Z * Z) : Prop := {
  ch_len : length st.1.1 = n;
  ch_vp : st.1.2 = sumZ vp (kept st.1.1 cands);
  ch_used : st.2 = strlen veInjectMarker + sumZ cost (kept st.1.1 cands);
  ch_fits : st.2 <= budget
}.

Section selection.
Context (n : nat) (cands : list trimCand) (budget : Z) (Hok : cands_ok n cands).

Lemma cand_props c : c ∈ cands -> (idx c < n)%nat /\ 0 <= vp c /\ 0 < cost c.
Proof. destruct Hok as (_ & HF & _). rewrite Forall_forall in HF. apply HF. Qed.

Lemma vp_nonneg : Forall (fun c => 0 <= vp c) cands.
Proof. apply Forall_forall. intros c Hc. by apply cand_props in Hc as (_ & ? & _). Qed.

Lemma greedy_step_chosen st c :
  chosen n cands budget st -> c ∈ cands -> st.1.1 !!! idx c = false ->
  chosen n cands budget (greedy_step budget st c) /\ st.1.2 <= (greedy_step budget st c).1.2 /\
  forall j, j <> idx c -> (greedy_step budget st c).1.1 !!! j = st.1.1 !!! j.
Proof.
  destruct st as [[keep kvp] used]. intros [L V U F] Hc Hk. cbn [fst snd] in *. destruct (cand_props c Hc) as (Hi & Hv & _).
  unfold greedy_step. destruct (Z.ltb_spec budget (used + cost c)); cbn [fst snd]; [split_and!; [by constructor|lia|done]|].
  pose proof (kept_insert keep c cands vp ltac:(lia) (proj1 Hok) Hc Hk) as EV.
  pose proof (kept_insert keep c cands cost ltac:(lia) (proj1 Hok) Hc Hk) as EC.
  pose proof (sumZ_sublist vp _ _ (kept_sublist (<[idx c := true]> keep) cands) vp_nonneg) as HB.
  pose proof (proj2 (proj2 Hok)).
  assert (0 <= sumZ vp (kept keep cands)).
  { apply (sumZ_sublist vp []); [apply sublist_nil_l|]. apply Forall_forall. intros d Hd.
    apply list_elem_of_In, filter_In in Hd as [Hd _]. apply list_elem_of_In, cand_props in Hd. tauto. }
  rewrite i64_id by (unfold is_i64; lia). split_and!; [constructor; cbn [fst snd]; rewrite ?length_insert; lia|lia|].
  intros j Hj. rewrite insert_total by lia. by rewrite decide_False.
Qed.

Lemma greedy_fold order : forall st, chosen n cands budget st -> NoDup (idx <$> order) ->
  Forall (fun c => c ∈ cands /\ st.1.1 !!! idx c = false) order ->
  chosen n cands budget (foldl (greedy_step budget) st order) /\ st.1.2 <= (foldl (greedy_step budget) st order).1.2.
Proof.
  induction order as [|c order IH]; intros st C HN HF; cbn [foldl]; [split; [done|lia]|].
  rewrite fmap_cons in HN. apply NoDup_cons in HN as [Hc HN]. inversion_clear HF as [|? ? [Hin Hk] HF'].
  destruct (greedy_step_chosen st c C Hin Hk) as (C1 & Hm & Ho). destruct (IH _ C1 HN) as [C2 Hm2]; [|split; [done|lia]].
  rewrite Forall_forall in HF' |- *. intros d Hd. destruct (HF' d Hd) as [Hdin Hdk]. split; [done|]. rewrite Ho; [done|].
  intros E. apply Hc. rewrite <- E. by apply list_elem_of_fmap_2.
Qed.

End selection.

Lemma stable_insert_perm {A : Type} less (x : A) l : stable_insert less x l ≡ₚ x :: l.
Proof. induction l as [|y l IH]; cbn; [done|]. destruct (less x y); [done|]. rewrite IH. constructor. Qed.

Lemma SliceStable_perm {A : Type} less (l : list A) : SliceStable less l ≡ₚ l.
Proof.
  unfold SliceStable. rewrite <- (app_nil_r l) at 2. generalize (@nil A). induction l as [|x l IH]; intros acc; cbn [foldl]; [done|].
  rewrite IH, stable_insert_perm. symmetry. apply Permutation_middle.
Qed.

Lemma none_chosen n cands budget : cands_ok n cands -> strlen veInjectMarker <= budget ->
  chosen n cands budget (replicate n false, 0, strlen veInjectMarker).
Proof.
  intros (_ & HF & _) Hb.
  assert (E : kept (replicate n false) cands = []) by (apply kept_none; eapply Forall_impl; [exact HF|naive_solver]).
  constructor; cbn [fst snd]; rewrite ?E, ?length_replicate; cbn [sumZ]; lia.
Qed.

(** Each of the first two choices is a selection within the budget. *)
Lemma greedy_chosen n cands budget less : cands_ok n cands -> strlen veInjectMarker <= budget ->
  exists used, chosen n cands budget (greedy budget n (SliceStable less cands), used).
Proof.
  intros Hok Hb. pose proof (none_chosen n cands budget Hok Hb) as C0. unfold greedy.
  destruct (greedy_fold n cands budget Hok (SliceStable less cands) _ C0) as [C _].
  - rewrite (SliceStable_perm less cands). apply Hok.
  - rewrite (SliceStable_perm less cands). apply Forall_forall. intros c Hc. split; [done|]. cbn [fst].
    apply replicate_total. by apply (cand_props n cands Hok).
  - destruct (foldl _ _ _) as [kv u]. by exists u.
Qed.

(** ** The knapsack finds the best selection up to the rounding of the costs *)

Lemma kept_all t : forall keep cands (f : trimCand -> Z), length keep = length keep -> NoDup (idx <$> cands) -> NoDup (idx <$> t) ->
  Forall (fun c => c ∈ cands /\ (idx c < length keep)%nat /\ keep !!! idx c = false) t ->
  let keep' := foldl (fun k c => <[idx c := true]> k) keep t in
  length keep' = length keep /\ sumZ f (kept keep' cands) = sumZ f (kept keep cands) + sumZ f t.
Proof.
  induction t as [|c t IH]; intros keep cands f _ HN Ht HF; cbn [foldl sumZ]; [split; [done|lia]|].
  rewrite fmap_cons in Ht. apply NoDup_cons in Ht as [Hc Ht]. inversion_clear HF as [|? ? (Hin & Hl & Hk) HF'].
  destruct (IH (<[idx c := true]> keep) cands f eq_refl HN Ht) as [L E].
  - rewrite Forall_forall in HF' |- *. intros d Hd. destruct (HF' d Hd) as (? & ? & ?). rewrite length_insert.
    split_and!; [done|done|]. rewrite insert_total by done. rewrite decide_False; [done|].
    intros Ed. apply Hc. rewrite <- Ed. by apply list_elem_of_fmap_2.
  - rewrite length_insert in L. split; [done|]. rewrite E, (kept_insert keep c cands f) by done. lia.
Qed.

Lemma rev_sublist {A : Type} (s l : list A) : sublist s l -> sublist (rev s) (rev l).
Proof.
  induction 1 as [|x s l Hs IH|x s l Hs IH]; cbn [rev]; [constructor|..].
  - by apply sublist_app.
  - rewrite <- (app_nil_r (rev s)). apply sublist_app; [done|apply sublist_nil_l].
Qed.

Lemma fmap_rev_swap {A C : Type} (f : A -> C) (l : list A) : rev (f <$> l) = f <$> rev l.
Proof. induction l as [|x l IH]; [done|]. rewrite fmap_cons. cbn [rev]. rewrite IH, fmap_app. done. Qed.

Lemma sumZ_rev {A : Type} (f : A -> Z) l : sumZ f (rev l) = sumZ f l.
Proof. induction l as [|x l IH]; cbn [rev]; [done|]. rewrite sumZ_app. cbn [sumZ]. lia. Qed.

Lemma sum_weights (s : list (trimCand * nat)) : Z.of_nat (foldr (fun e n => e.2 + n) 0 s)%nat = sumZ (fun e => Z.of_nat e.2) s.
Proof. induction s as [|e s IH]; cbn [foldr sumZ]; lia. Qed.

Lemma sumZ_pairs {A C : Type} (f : A -> Z) (g : C -> A) (l : list C) : sumZ f (g <$> l) = sumZ (fun x => f (g x)) l.
Proof. induction l as [|x l IH]; [done|]. rewrite fmap_cons. cbn [sumZ]. by rewrite IH. Qed.

Lemma scaled_bounds gran c : 0 < gran -> 0 < cost c ->
  cost c <= gran * Z.of_nat (scaled gran c) <= cost c + gran - 1 /\ (0 < scaled gran c)%nat.
Proof.
  intros Hg Hc. unfold scaled. cbv zeta. rewrite Z.quot_div_nonneg by lia.
  assert (1 <= (cost c + gran - 1) / gran) by (apply Z.div_le_lower_bound; lia).
  pose proof (Z.div_mod (cost c + gran - 1) gran ltac:(lia)). pose proof (Z.mod_pos_bound (cost c + gran - 1) gran Hg).
  destruct (Z.leb_spec ((cost c + gran - 1) / gran) 0); [lia|]. rewrite Z2Nat.id by lia. split; [split|]; nia.
Qed.

Section knapsack.
Context (n : nat) (cands : list trimCand) (b : Z) (Hok : cands_ok n cands) (Hb : 0 < b).
Let gran := gran_of b.
Let items := (fun c => (c, scaled gran c)) <$> cands.

Lemma gran_pos : 0 < gran.
Proof. unfold gran, gran_of, knapsackBuckets. pose proof (Z.div_pos b 8192). lia. Qed.

Lemma items_fit : fits_in (rev items).
Proof.
  split.
  - apply Forall_forall. intros e He. apply list_elem_of_In, in_rev, list_elem_of_In in He. unfold items in He.
    apply list_elem_of_fmap in He as (c & -> & Hc). apply (cand_props n cands Hok) in Hc as (_ & ? & ?).
    split; [done|]. by apply scaled_bounds; [apply gran_pos|].
  - rewrite sumZ_rev. unfold items. rewrite sumZ_pairs. apply Hok.
Qed.

Lemma weights_cost t : Forall (fun c => 0 < cost c) t ->
  sumZ cost t <= gran * sumZ (fun c => Z.of_nat (scaled gran c)) t <= sumZ cost t + (gran - 1) * Z.of_nat (length t).
Proof.
  induction 1 as [|c t Hc HF IH]; cbn [sumZ length]; [lia|]. destruct (scaled_bounds gran c gran_pos Hc) as [? _]. nia.
Qed.

(** The reconstruction of the rows as a selection of candidates. *)
Lemma sublist_selected s : sublist s (rev items) ->
  let t := fst <$> s in
  Forall (fun c => c ∈ cands) t /\ NoDup (idx <$> t) /\ sumZ (fun e => Z.of_nat e.2) s = sumZ (fun c => Z.of_nat (scaled gran c)) t.
Proof.
  intros Hs t. assert (Hsub : sublist (rev t) cands).
  { apply rev_sublist in Hs. rewrite rev_involutive in Hs. apply (fmap_sublist fst) in Hs. unfold items in Hs.
    rewrite <- list_fmap_compose, list_fmap_id in Hs. unfold t. by rewrite fmap_rev_swap. }
  split_and!.
  - apply Forall_forall. intros c Hc. eapply elem_of_sublist; [|exact Hsub].
    apply list_elem_of_In, in_rev. rewrite rev_involutive. by apply list_elem_of_In.
  - rewrite (Permutation_rev t). eapply sublist_NoDup; [apply Hok|by apply (fmap_sublist idx)].
  - unfold t. rewrite sumZ_pairs. apply sumZ_ext, Forall_forall. intros e He. eapply elem_of_sublist in He; [|exact Hs].
    apply list_elem_of_In, in_rev, list_elem_of_In in He. unfold items in He. by apply list_elem_of_fmap in He as (c & -> & _).
Qed.

Lemma costs_pos t : Forall (fun c => c ∈ cands) t -> Forall (fun c => 0 < cost c) t.
Proof. intros HF. eapply Forall_impl; [exact HF|]. intros c Hc. by apply (cand_props n cands Hok) in Hc as (_ & _ & ?). Qed.

Lemma knapsack_spec :
  exists keep kvp, knapsackKeepMaxPower cands n b = (keep, kvp) /\ length keep = n /\
    kvp = sumZ vp (kept keep cands) /\ sumZ cost (kept keep cands) <= b /\
    sumZ (fun c => Z.of_nat (scaled gran c)) (kept keep cands) <= b / gran /\
    forall s, sublist s cands -> sumZ cost s + (gran - 1) * Z.of_nat (length s) <= b -> sumZ vp s <= kvp.
Proof.
  unfold knapsackKeepMaxPower. rewrite (proj2 (Z.leb_gt b 0) Hb), orb_false_r. pose proof gran_pos as Hg.
  destruct (decide (cands = [])) as [Ec|Hne].
  { rewrite Ec. exists (replicate n false), 0. split_and!; [done|by rewrite length_replicate|done|cbn; lia|cbn; apply Z.div_pos; lia|]. intros s Hs _.
    apply sublist_nil_r in Hs as ->. done. }
  replace (match cands with [] => true | _ => false end) with false by (by destruct cands).
  cbv zeta. fold gran items. set (B := Z.to_nat (b / gran)).
  pose proof items_fit as HF. destruct (dp_table_spec B items HF) as (_ & _ & HR). destruct (dp_table B items) as [dp rows]. cbn [snd] in HR.
  assert (HB : gran * Z.of_nat B <= b) by (unfold B; rewrite Z2Nat.id by (apply Z.div_pos; lia); apply Z.mul_div_le; lia).
  destruct (backtrack_spec B (rev items) rows B (replicate n false) 0 HF HR ltac:(lia) ltac:(lia) (proj2 HF)) as (s & Hs & Hw & Hv & ->).
  rewrite <- (foldl_fmap (fun k c => <[idx c := true]> k) (replicate n false) s fst). set (t := fst <$> s).
  destruct (sublist_selected s Hs) as (Hin & Hnd & Hwt). fold t in Hin, Hnd, Hwt.
  assert (HF' : Forall (fun c => c ∈ cands /\ (idx c < length (replicate n false))%nat /\ replicate n false !!! idx c = false) t).
  { eapply Forall_impl; [exact Hin|]. intros c Hc. split; [done|]. apply (cand_props n cands Hok) in Hc as (? & _).
    rewrite length_replicate. split; [done|by apply replicate_total]. }
  assert (Hnone : kept (replicate n false) cands = []).
  { apply kept_none. apply Forall_forall. intros c Hc. by apply (cand_props n cands Hok) in Hc as (? & _). }
  destruct (kept_all t _ _ vp eq_refl (proj1 Hok) Hnd HF') as [L EV]. destruct (kept_all t _ _ cost eq_refl (proj1 Hok) Hnd HF') as [_ EC].
  destruct (kept_all t _ _ (fun c => Z.of_nat (scaled gran c)) eq_refl (proj1 Hok) Hnd HF') as [_ EW].
  rewrite length_replicate in L. rewrite Hnone in EV, EC, EW. cbn [sumZ] in EV, EC, EW.
  eexists _, _. split; [done|]. rewrite EV, EC, EW. split_and!; [done| | | |].
  - rewrite <- Hv. unfold t. by rewrite sumZ_pairs.
  - pose proof (sum_weights s). destruct (weights_cost t (costs_pos t Hin)) as [W _]. nia.
  - pose proof (sum_weights s). assert (Z.of_nat B = b / gran) by (unfold B; apply Z2Nat.id, Z.div_pos; lia). lia.
  - intros u Hu Hcu. set (ui := rev ((fun c => (c, scaled gran c)) <$> u)).
    assert (Hsu : sublist ui (rev items)) by (apply rev_sublist; by apply fmap_sublist).
    assert (Hui : Forall (fun c => c ∈ cands) u) by (apply Forall_forall; intros c Hc; by eapply elem_of_sublist).
    destruct (weights_cost u (costs_pos u Hui)) as [_ W].
    assert (HW : (foldr (fun e m => e.2 + m) 0 ui <= B)%nat).
    { apply Nat2Z.inj_le. rewrite sum_weights. unfold ui. rewrite sumZ_rev, sumZ_pairs. cbn [snd]. unfold B.
      rewrite Z2Nat.id by (apply Z.div_pos; lia). apply Z.div_le_lower_bound; lia. }
    pose proof (opt_upper (rev items) ui B HF Hsu HW) as HU. unfold ui in HU. rewrite sumZ_rev, sumZ_pairs in HU. exact HU.
Qed.
End knapsack.

(** ** The choice *)

Definition bytes_of (keep : list bool) (cands : list trimCand) : Z := strlen veInjectMarker + sumZ cost (kept keep cands).
Definition picked (n : nat) (cands : list trimCand) (budget : Z) (kv : list bool * Z) : Prop :=
  chosen n cands budget (kv, bytes_of kv.1 cands).

Lemma chosen_picked n cands budget st : chosen n cands budget st -> picked n cands budget st.1.
Proof. destruct st as [kv u]. intros [L V U F]. unfold picked. cbn [fst snd] in *. subst u. by constructor. Qed.

Lemma used_real keep cands : forall u, foldl (fun u c => if (keep !!! idx c : bool) then u + cost c else u) u cands = u + sumZ cost (kept keep cands).
Proof.
  induction cands as [|c cands IH]; intros u; cbn [foldl]; [cbn; lia|]. rewrite IH. unfold kept. cbn [List.filter].
  destruct (keep !!! idx c); cbn [sumZ]; lia.
Qed.

(** A selection that any [s] must not beat for the power [req] to be missed. *)
Definition covers (cands : list trimCand) (budget req vp_kept : Z) : Prop :=
  forall s, sublist s cands -> strlen veInjectMarker + sumZ cost s + (gran_of (budget - strlen veInjectMarker) - 1) * Z.of_nat (length s) <= budget ->
    req <= sumZ vp s -> req <= vp_kept.

Section choice.
Context (n : nat) (cands : list trimCand) (budget req : Z) (Hok : cands_ok n cands) (Hb : strlen veInjectMarker < budget).

Lemma knapsack_picked :
  let kv := knapsackKeepMaxPower cands n (budget - strlen veInjectMarker) in
  picked n cands budget kv /\ covers cands budget req kv.2.
Proof.
  destruct (knapsack_spec n cands (budget - strlen veInjectMarker) Hok ltac:(lia)) as (keep & kvp & -> & L & V & C & _ & O). cbn [fst snd].
  split; [constructor; cbn [fst snd]; unfold bytes_of; lia|]. intros s Hs Hc Hr. etransitivity; [exact Hr|]. apply O; [done|lia].
Qed.

Lemma picked_greedy less : picked n cands budget (greedy budget n (SliceStable less cands)).
Proof. destruct (greedy_chosen n cands budget less Hok ltac:(lia)) as [u C]. exact (chosen_picked _ _ _ _ C). Qed.

Lemma top_up_picked less kv : picked n cands budget kv ->
  let dropped := List.filter (fun c => negb (kv.1 !!! idx c : bool)) cands in
  let r := foldl (greedy_step budget) (kv, bytes_of kv.1 cands) (SliceStable less dropped) in
  picked n cands budget r.1 /\ kv.2 <= r.1.2.
Proof.
  intros C dropped r. destruct (greedy_fold n cands budget Hok (SliceStable less dropped) _ C) as [C' Hm].
  - rewrite (SliceStable_perm less dropped). eapply sublist_NoDup; [apply Hok|]. apply (fmap_sublist idx).
    unfold dropped. clear. induction cands as [|c l IH]; [constructor|]. cbn [List.filter]. destruct (negb _); by constructor.
  - rewrite (SliceStable_perm less dropped). apply Forall_forall. intros c Hc. cbn [fst]. unfold dropped in Hc.
    apply list_elem_of_In, filter_In in Hc as [Hc Hk]. split; [by apply list_elem_of_In|]. by apply negb_true_iff.
  - split; [exact (chosen_picked _ _ _ _ C')|exact Hm].
Qed.

End choice.

Lemma choose_spec votes budget req : cands_ok (length votes) (cands_of votes) -> strlen veInjectMarker < budget ->
  let kv := choose votes budget req in
  picked (length votes) (cands_of votes) budget kv /\ covers (cands_of votes) budget req kv.2.
Proof.
  intros Hok Hb kv. unfold kv, choose. clear kv. cbv zeta. set (n := length votes) in *. set (cands := cands_of votes) in *.
  pose proof (picked_greedy n cands budget Hok Hb (density_less votes)) as P1.
  destruct (greedy budget n (SliceStable (density_less votes) cands)) as [k1 v1].
  pose proof (picked_greedy n cands budget Hok Hb (power_less votes)) as P2.
  destruct (greedy budget n (SliceStable (power_less votes) cands)) as [k2 v2].
  assert (P12 : picked n cands budget (if v1 <? req then (k2, v2) else (k1, v1))) by (by destruct (v1 <? req)).
  destruct (if v1 <? req then (k2, v2) else (k1, v1)) as [k v].
  pose proof (knapsack_picked n cands budget req Hok Hb) as [P3 O3].
  destruct (knapsackKeepMaxPower cands n (budget - strlen veInjectMarker)) as [k3 v3]. cbn [snd] in O3.
  assert (P : picked n cands budget (if v <? req then (k3, v3) else (k, v)) /\ covers cands budget req (if v <? req then (k3, v3) else (k, v)).2).
  { destruct (Z.ltb_spec v req); cbn [snd]; [done|]. split; [done|]. by intros s _ _ _. }
  destruct (if v <? req then (k3, v3) else (k, v)) as [k' v']. destruct P as [P O]. cbn [snd] in O.
  rewrite used_real. fold (bytes_of k' cands). destruct (top_up_picked n cands budget Hok (power_less votes) (k', v') P) as [P' Hm].
  split; [exact P'|]. intros s Hs Hc Hr. specialize (O s Hs Hc Hr). cbn [fst snd] in Hm. etransitivity; [exact O|exact Hm].
Qed.

(** ** Candidates and votes *)

Definition cands_at (g : nat -> nat) (votes : list ExtendedVoteInfo) : list trimCand :=
  omap (fun e : nat * ExtendedVoteInfo => if usable e.2 then Some (cand_of e.1 e.2) else None) (imap (fun i v => (g i, v)) votes).

Lemma cands_at_cons g v votes : cands_at g (v :: votes) =
  (if usable v then [cand_of (g O) v] else []) ++ cands_at (fun i => g (S i)) votes.
Proof. unfold cands_at. rewrite imap_cons. cbn. by destruct (usable v). Qed.

Lemma cands_at_elem votes : forall g c, c ∈ cands_at g votes ->
  exists i v, votes !! i = Some v /\ usable v = true /\ c = cand_of (g i) v.
Proof.
  induction votes as [|v votes IH]; intros g c Hc; [by apply not_elem_of_nil in Hc|]. rewrite cands_at_cons in Hc.
  apply elem_of_app in Hc as [Hc|Hc].
  - destruct (usable v) eqn:U; [|by apply not_elem_of_nil in Hc]. apply list_elem_of_singleton in Hc as ->. by exists O, v.
  - apply IH in Hc as (i & u & ? & ? & ->). by exists (S i), u.
Qed.

Lemma cands_at_NoDup votes : forall g, (forall i j, g i = g j -> i = j) -> NoDup (idx <$> cands_at g votes).
Proof.
  induction votes as [|v votes IH]; intros g Hg; [constructor|]. rewrite cands_at_cons, fmap_app.
  assert (HN : NoDup (idx <$> cands_at (fun i => g (S i)) votes)) by (apply IH; intros i j E; by apply Hg in E as [= ->]).
  destruct (usable v); [|exact HN]. apply NoDup_cons. split; [|exact HN].
  intros Hc. apply list_elem_of_fmap in Hc as (c & E & Hc). apply cands_at_elem in Hc as (i & u & _ & _ & ->). cbn in E. by apply Hg in E.
Qed.

Lemma cands_at_power votes : forall g, Forall (fun v => 0 <= v_Power v) votes -> sumZ vp (cands_at g votes) <= sumZ v_Power votes.
Proof.
  induction votes as [|v votes IH]; intros g HF; [done|]. inversion_clear HF as [|? ? Hv HF']. rewrite cands_at_cons, sumZ_app. cbn [sumZ].
  specialize (IH (fun i => g (S i)) HF'). destruct (usable v); cbn [sumZ cand_of vp]; lia.
Qed.

Definition powers_ok (votes : list ExtendedVoteInfo) : Prop := Forall (fun v => 0 <= v_Power v) votes /\ sumZ v_Power votes < 2 ^ 62.

Lemma cands_of_ok votes : powers_ok votes -> cands_ok (length votes) (cands_of votes).
Proof.
  intros [HF Hs]. change (cands_of votes) with (cands_at (fun i => i) votes). split_and!.
  - by apply cands_at_NoDup.
  - apply Forall_forall. intros c Hc. apply cands_at_elem in Hc as (i & v & Hi & _ & ->). cbn [idx vp cost cand_of].
    split_and!; [by eapply lookup_lt_Some|by eapply (Forall_lookup_1 _ _ _ _ HF)|unfold strlen, perVoteMarshalOverhead; lia].
  - pose proof (cands_at_power votes (fun i => i) HF). lia.
Qed.

Lemma absent_unusable v : usable (absent v) = false.
Proof. done. Qed.

(** The power of the kept candidates is that of the votes still usable. *)
Lemma kept_power keep votes : forall g,
  sumZ vp (kept keep (cands_at g votes)) =
  sumZ v_Power (List.filter usable (imap (fun i v => if (keep !!! g i : bool) then v else absent v) votes)).
Proof.
  induction votes as [|v votes IH]; intros g; [done|]. rewrite cands_at_cons, imap_cons. unfold kept in *.
  change (imap (_ ∘ S) votes) with (imap (fun i v => if (keep !!! g (S i) : bool) then v else absent v) votes).
  rewrite List.filter_app, sumZ_app, (IH (fun i => g (S i))). cbn [List.filter].
  destruct (usable v) eqn:U; cbn [List.filter cand_of idx app]; destruct (keep !!! g O); rewrite ?U, ?absent_unusable; cbn [sumZ vp cand_of]; done || lia.
Qed.

Lemma totals votes : powers_ok votes -> totalVP_of votes = sumZ v_Power votes /\ 0 <= sumZ v_Power votes /\
  requiredVP_of (sumZ v_Power votes) = sumZ v_Power votes * 2 / 3 + 1.
Proof.
  intros [HF Hs]. assert (H0 : forall l, Forall (fun v => 0 <= v_Power v) l -> 0 <= sumZ v_Power l)
    by (induction 1 as [|v l Hv HF' IH]; cbn [sumZ]; lia).
  assert (HT : forall l a, Forall (fun v => 0 <= v_Power v) l -> 0 <= a -> a + sumZ v_Power l < 2 ^ 62 ->
    foldl (fun s v => i64 (s + v_Power v)) a l = a + sumZ v_Power l).
  { induction l as [|v l IH]; intros a HFl Ha Hl; cbn [foldl sumZ] in *; [lia|]. inversion_clear HFl as [|? ? Hv HFl'].
    pose proof (H0 l HFl'). rewrite i64_id by (unfold is_i64; lia). rewrite IH; [lia|done|lia|lia]. }
  pose proof (H0 votes HF). split_and!; [apply (HT votes 0 HF); lia|done|]. unfold requiredVP_of.
  rewrite (i64_id (_ * 2)) by (unfold is_i64; lia). rewrite Z.quot_div_nonneg by lia.
  apply i64_id. unfold is_i64. div_lia.
Qed.

Section theorems.
Context `{CommitProto}.

(** What a proposer may inject for a commit. *)
Definition injectable (ec ec' : ExtendedCommitInfo) : Prop :=
  ec_Round ec' = ec_Round ec /\
  (ec' = ec \/
   Forall2 (fun v v' => v' = v \/ v' = absent v) (ec_Votes ec) (ec_Votes ec') /\
   2 * sumZ v_Power (ec_Votes ec) < 3 * sumZ v_Power (List.filter usable (ec_Votes ec'))).

Lemma trim_votes_absent keep votes : Forall2 (fun v v' => v' = v \/ v' = absent v) votes (trim_votes keep votes).
Proof.
  unfold trim_votes. apply Forall2_same_length_lookup_2; [by rewrite length_imap|]. intros i v v' Hv Hv'.
  rewrite list_lookup_imap, Hv in Hv'. injection Hv' as <-. destruct (keep !!! i); [by left|by right].
Qed.

(** Whatever is injected fits the block and is the commit itself, or the commit
    with some votes marked absent, addresses, powers and order untouched, such that
    the votes that still carry an extension have more than two thirds of the full
    power. *)
Theorem trim_sound ec maxTxBytes blob (HP : powers_ok (ec_Votes ec)) (R : boundedInjectedCommit ec maxTxBytes = Some blob) :
  strlen blob < maxTxBytes /\ exists ec', marshalInjectedCommit ec' = Some blob /\ injectable ec ec'.
Proof.
  unfold boundedInjectedCommit in R. destruct (match marshalInjectedCommit ec with Some b => _ | None => _ end) as [b|] eqn:E1.
  { injection R as ->. destruct (marshalInjectedCommit ec) as [b1|] eqn:EM; [|done]. destruct (Z.ltb_spec (strlen b1) maxTxBytes); [|done].
    injection E1 as ->. split; [done|]. exists ec. split; [done|]. split; [done|by left]. }
  clear E1. destruct (Z.leb_spec (maxTxBytes - Z.quot maxTxBytes 8) (strlen veInjectMarker)); [done|].
  destruct (totals _ HP) as (ET & _ & ER). rewrite ET, ER in R. destruct (Z.leb_spec (sumZ v_Power (ec_Votes ec)) 0); [done|].
  destruct (choose_spec (ec_Votes ec) (maxTxBytes - Z.quot maxTxBytes 8) (sumZ v_Power (ec_Votes ec) * 2 / 3 + 1) (cands_of_ok _ HP) ltac:(done)) as [[_ V _ _] _].
  destruct (choose _ _ _) as [keep kvp]. cbn [fst snd] in V. destruct (Z.ltb_spec kvp (sumZ v_Power (ec_Votes ec) * 2 / 3 + 1)); [done|].
  destruct (marshalInjectedCommit (mkExtCommit (ec_Round ec) (trim_votes keep (ec_Votes ec)))) as [b|] eqn:EM; [|done].
  destruct (Z.leb_spec maxTxBytes (strlen b)); [done|]. injection R as ->. split; [done|].
  exists (mkExtCommit (ec_Round ec) (trim_votes keep (ec_Votes ec))). split; [done|]. split; [done|]. right. cbn [ec_Votes].
  split; [apply trim_votes_absent|]. pose proof (kept_power keep (ec_Votes ec) (fun i => i)) as EK.
  change (cands_at (fun i => i) (ec_Votes ec)) with (cands_of (ec_Votes ec)) in EK. unfold trim_votes. cbv beta in EK.
  rewrite <- EK, <- V. div_lia.
Qed.

(** C13: if some selection of the extensions carries more than two thirds of the
    power and fits the budget with the rounding of the knapsack added, one unit of
    its granularity less one for each extension, then a commit is injected, provided
    that selections within the budget are encoded in less than the block. *)
Theorem trim_complete ec maxTxBytes s (HP : powers_ok (ec_Votes ec)) :
  let votes := ec_Votes ec in
  let budget := maxTxBytes - Z.quot maxTxBytes 8 in
  strlen veInjectMarker < budget ->
  (forall keep, bytes_of keep (cands_of votes) <= budget ->
     exists blob, marshalInjectedCommit (mkExtCommit (ec_Round ec) (trim_votes keep votes)) = Some blob /\ strlen blob < maxTxBytes) ->
  sublist s (cands_of votes) -> 2 * sumZ v_Power votes < 3 * sumZ vp s ->
  strlen veInjectMarker + sumZ cost s + (gran_of (budget - strlen veInjectMarker) - 1) * Z.of_nat (length s) <= budget ->
  exists blob, boundedInjectedCommit ec maxTxBytes = Some blob.
Proof.
  intros votes budget Hb HS Hs Hv Hc. destruct (totals _ HP) as (ET & HT0 & ER). fold votes in ET, HT0, ER.
  pose proof (cands_of_ok _ HP) as Hok. fold votes in Hok. unfold boundedInjectedCommit.
  destruct (match marshalInjectedCommit ec with Some b => _ | None => _ end) as [b|]; [by eexists|]. fold votes budget.
  rewrite (proj2 (Z.leb_gt _ _) Hb), ET, ER.
  pose proof (sumZ_sublist vp _ _ Hs (vp_nonneg _ _ Hok)) as Hle. pose proof (cands_at_power votes (fun i => i) (proj1 HP)) as Hall.
  change (cands_at (fun i => i) votes) with (cands_of votes) in Hall. rewrite (proj2 (Z.leb_gt (sumZ v_Power votes) 0)) by lia.
  destruct (choose_spec votes budget (sumZ v_Power votes * 2 / 3 + 1) Hok Hb) as [[_ _ _ F] O].
  destruct (choose _ _ _) as [keep kvp]. cbn [fst snd] in F, O. specialize (O s Hs Hc ltac:(div_lia)).
  rewrite (proj2 (Z.ltb_ge kvp _) O). destruct (HS keep F) as (blob & -> & Hl). rewrite (proj2 (Z.leb_gt _ _) Hl). by eexists.
Qed.

End theorems.

(** ** Concrete commits *)
Module Example.
#[local] Existing Instance codec_CommitProto.

Fixpoint bytes (n : nat) : string := match n with O => EmptyString | S n => String (byte_of 120) (bytes n) end.
Definition vote (a : string) (p : Z) (size : nat) : ExtendedVoteInfo := mkVote a p (bytes size) "s" BlockIDFlagCommit.
(** A vote of 30 units pads its extension; the three others carry 90. *)
Definition padded : ExtendedCommitInfo := mkExtCommit 0 [vote "a" 30 20; vote "b" 30 900; vote "c" 30 20; vote "d" 30 20].
Definition blob : string := default EmptyString (boundedInjectedCommit padded 400).

Definition cands_padded : list trimCand := [mkCand 0 30 45; mkCand 1 30 925; mkCand 2 30 45; mkCand 3 30 45].

Lemma powers_padded : powers_ok (ec_Votes padded).
Proof. split; [repeat constructor|]; done. Qed.

Lemma trim_sound_witness : strlen blob < 400 /\ exists ec', marshalInjectedCommit ec' = Some blob /\ injectable padded ec'.
Proof. apply (trim_sound padded 400 blob powers_padded). vm_compute. reflexivity. Defined.

Lemma trim_complete_witness : exists blob, boundedInjectedCommit padded 400 = Some blob.
Proof.
  apply (trim_complete padded 400 [mkCand 0 30 45; mkCand 2 30 45; mkCand 3 30 45] powers_padded).
  - by vm_compute.
  - intros keep. unfold bytes_of, kept.
    replace (cands_of (ec_Votes padded)) with cands_padded by (vm_compute; reflexivity). unfold cands_padded. cbn [List.filter idx].
    change (trim_votes keep (ec_Votes padded)) with
      [if (keep !!! 0%nat : bool) then vote "a" 30 20 else absent (vote "a" 30 20); if (keep !!! 1%nat : bool) then vote "b" 30 900 else absent (vote "b" 30 900);
       if (keep !!! 2%nat : bool) then vote "c" 30 20 else absent (vote "c" 30 20); if (keep !!! 3%nat : bool) then vote "d" 30 20 else absent (vote "d" 30 20)].
    destruct (keep !!! 0%nat), (keep !!! 1%nat), (keep !!! 2%nat), (keep !!! 3%nat); intros Hb.
    all: first [exfalso; vm_compute in Hb; by apply Hb|eexists; split; [reflexivity|by vm_compute]].
  - replace (cands_of (ec_Votes padded)) with cands_padded by (vm_compute; reflexivity). repeat constructor.
  - by vm_compute.
  - by vm_compute.
Defined.

(** An encoding with 22 bytes per vote beside extension and signature, within the
    estimate of the code. *)
Definition field (f : string) : string := be_bytes 4 (strlen f) +:+ f.
Definition plain_CommitProto : CommitProto := {|
  ec_Marshal ec := Some (foldr (fun v r => ((be_bytes 8 (v_Power v) +:+ byte_prefix (v_BlockIdFlag v)) +:+
    (field (v_Address v) +:+ (field (v_Extension v) +:+ field (v_Signature v)))) +:+ r) EmptyString (ec_Votes ec));
  ec_Unmarshal _ := None |}.

(** Four votes of a commit that does not fit.  Three of them carry 67 of 100 units of
    power and fit the budget exactly; the fourth is sized to be the first choice of
    both greedy orders and to leave room for one other.  The costs of the three,
    rounded to the granularity of the knapsack, exceed its table, and nothing is
    injected. *)
Definition stalled : ExtendedCommitInfo := mkExtCommit 0 [vote "a" 33 2709; vote "b" 23 2706; vote "c" 22 2706; vote "d" 22 2705].

Definition cands_stalled : list trimCand := [mkCand 0 33 2734; mkCand 1 23 2731; mkCand 2 22 2731; mkCand 3 22 2730].
Lemma cands_stalled_eq : cands_of (ec_Votes stalled) = cands_stalled.
Proof. vm_compute. reflexivity. Qed.

Lemma false_stall :
  let cands := cands_of (ec_Votes stalled) in
  let abe := [false; true; true; true] in
  bytes_of abe cands = 9377 - Z.quot 9377 8 /\ sumZ vp (kept abe cands) = requiredVP_of (totalVP_of (ec_Votes stalled)) /\
  match @marshalInjectedCommit plain_CommitProto (mkExtCommit 0 (trim_votes abe (ec_Votes stalled))) with
  | Some b => strlen b <? 9377
  | None => false
  end = true /\
  @boundedInjectedCommit plain_CommitProto stalled 9377 = None.
Proof.
  cbv zeta. rewrite cands_stalled_eq. split_and!; [vm_compute; reflexivity..|]. unfold boundedInjectedCommit.
  assert (Em : match @marshalInjectedCommit plain_CommitProto stalled with Some b => if strlen b <? 9377 then Some b else None | None => None end = None)
    by (vm_compute; reflexivity).
  rewrite Em. change (9377 - Z.quot 9377 8) with 8205. change (8205 <=? strlen veInjectMarker) with false. cbv iota zeta.
  change (totalVP_of (ec_Votes stalled)) with 100. change (100 <=? 0) with false. cbv iota. change (requiredVP_of 100) with 67.
  assert (Hv : (choose (ec_Votes stalled) 8205 67).2 < 67); [|destruct (choose _ _ _) as [keep v]; cbn [snd] in Hv; by rewrite (proj2 (Z.ltb_lt _ _) Hv)].
  unfold choose. rewrite cands_stalled_eq. cbv zeta.
  assert (E1 : greedy 8205 (length (ec_Votes stalled)) (SliceStable (density_less (ec_Votes stalled)) cands_stalled) = ([true; true; false; false], 56)) by (vm_compute; reflexivity).
  assert (E2 : greedy 8205 (length (ec_Votes stalled)) (SliceStable (power_less (ec_Votes stalled)) cands_stalled) = ([true; true; false; false], 56)) by (vm_compute; reflexivity).
  rewrite E1, E2. change (56 <? 67) with true. cbv iota. change (8205 - strlen veInjectMarker) with 8192.
  assert (Hok : cands_ok (length (ec_Votes stalled)) cands_stalled) by (rewrite <- cands_stalled_eq; apply cands_of_ok; split; [repeat constructor|]; done).
  destruct (knapsack_spec 4 cands_stalled 8192 Hok ltac:(lia)) as (keep & kvp & E & L & V & _ & W & O).
  assert (O56 : 56 <= kvp) by (apply (O [mkCand 0 33 2734; mkCand 1 23 2731]); [repeat constructor|vm_compute; discriminate]).
  change (length (ec_Votes stalled)) with 4%nat. rewrite E. subst kvp. clear - L W O56.
  destruct keep as [|b0 [|b1 [|b2 [|b3 [|]]]]]; try done. destruct b0, b1, b2, b3; 
    try (exfalso; apply W; vm_compute; reflexivity); try (exfalso; apply O56; vm_compute; reflexivity); vm_compute; reflexivity.
Qed.

End Example.

End VoteTrim.
