(* ===== verification/EncTypes.v ===== *)
(** * x/encmempool/types: records, parameters and their validation

    Models x/encmempool/types/types.go: the governance parameters, the round,
    dealing, key and ciphertext records the keeper stores, the evaluation-point
    accessors, and the validation of parameters and of an imported genesis.
    Error values carry the fixed part of the Go message. *)
From S2P Require Import Prelude Codec.
From stdpp Require Import gmap strings list.
From Stdlib Require Import ZArith Lia.

#[local] Set Default Goal Selector "!".
Open Scope Z_scope.

Module EncTypes.

(** A genesis-declared member of the legacy path. *)
Record DkgMember := mkDkgMember {
  dm_OperatorAddr : string;
  dm_AccountAddr : string;
  dm_EncPubKey : string
}.

Record Params := mkParams {
  RevealDelay : Z;
  MaxRevealWindow : Z;
  EncEnabled : bool;
  EncExecEnabled : bool;
  ThresholdPub : string;
  Threshold : Z;
  Keypers : list string;
  DecryptDelay : Z;
  MaxInFlightEncTx : Z;
  MaxInFlightPerSubmitter : Z;
  EncSubmitBond : Z;
  EncSubmitBondDenom : string;
  EncSubmitBondBurnBps : Z;
  MaxVerifyOpsPerBlock : Z;
  DkgEnabled : bool;
  DkgStartHeight : Z;
  DkgDealWindow : Z;
  DkgComplaintWindow : Z;
  DkgThreshold : Z;
  DkgMembers : list DkgMember;
  DkgRetryBackoff : Z;
  DkgMaxAttempts : Z;
  DkgMinRekeyGap : Z;
  DkgTransparent : bool;
  DkgMaxMembers : Z;
  DkgShareBudget : Z;
  DkgMaxEpochBlocks : Z;
  DkgRekeyOnStakeDriftBps : Z;
  DkgRetainActiveDealings : bool;
  DkgStrictConcentration : bool
}.

Definition DefaultParams : Params := {|
  RevealDelay := 1; MaxRevealWindow := 100; EncEnabled := false; EncExecEnabled := false;
  ThresholdPub := ""; Threshold := 0; Keypers := []; DecryptDelay := 1;
  MaxInFlightEncTx := 32768; MaxInFlightPerSubmitter := 2048;
  EncSubmitBond := 1000000; EncSubmitBondDenom := "stake"; EncSubmitBondBurnBps := 10000;
  MaxVerifyOpsPerBlock := 0;
  DkgEnabled := false; DkgStartHeight := 0; DkgDealWindow := 20; DkgComplaintWindow := 10;
  DkgThreshold := 0; DkgMembers := []; DkgRetryBackoff := 5; DkgMaxAttempts := 8;
  DkgMinRekeyGap := 30; DkgTransparent := false; DkgMaxMembers := 0; DkgShareBudget := 0;
  DkgMaxEpochBlocks := 43200; DkgRekeyOnStakeDriftBps := 500;
  DkgRetainActiveDealings := true; DkgStrictConcentration := true
|}.

(** [Weight] is an [sdkmath.Int], whose zero value is a nil pointer: [None]. *)
Record RoundMember := mkRoundMember {
  Index : Z;
  OperatorAddr : string;
  AccountAddr : string;
  EncPubKey : string;
  Weight : option Z;
  EvalPoints : list Z;
  Weighted : bool
}.

Definition OwnedEvalPoints (m : RoundMember) : list Z :=
  match EvalPoints m with
  | _ :: _ => EvalPoints m
  | [] => if Weighted m then [] else [Index m]
  end.

Fixpoint Zmem (p : Z) (l : list Z) : bool :=
  match l with
  | [] => false
  | q :: l' => if q =? p then true else Zmem p l'
  end.

Definition OwnsEvalPoint (m : RoundMember) (p : Z) : bool := Zmem p (OwnedEvalPoints m).

(** [len(m.OwnedEvalPoints())]. *)
Definition owned (m : RoundMember) : Z := Z.of_nat (length (OwnedEvalPoints m)).

Definition TotalEvalPoints (members : list RoundMember) : Z := sumZ owned members.

Fixpoint EvalPointOwner (members : list RoundMember) (p : Z) : Z :=
  match members with
  | [] => 0
  | m :: ms => if OwnsEvalPoint m p then Index m else EvalPointOwner ms p
  end.

Fixpoint index_by_operator (members : list RoundMember) (operator : string) : Z :=
  match members with
  | [] => 0
  | m :: ms => if String.eqb (OperatorAddr m) operator then Index m else index_by_operator ms operator
  end.

Definition MemberIndexByOperator (members : list RoundMember) (operator : string) : Z :=
  if String.eqb operator "" then 0 else index_by_operator members operator.

Definition VoteExtEnabledAt (enableHeight blockHeight : Z) : bool :=
  negb (enableHeight =? 0) && (enableHeight <? blockHeight).

Definition DkgStatusOpen : string := "open".
Definition DkgStatusActive : string := "active".
Definition DkgStatusFailed : string := "failed".

Record DkgRound := mkDkgRound {
  r_Epoch : Z;
  r_OpenHeight : Z;
  r_DealDeadline : Z;
  r_ComplaintDeadline : Z;
  r_Members : list RoundMember;
  r_Threshold : Z;
  r_MembersHash : string;
  r_Status : string;
  r_Attempt : Z
}.

Record DkgStoredEncShare := mkDkgStoredEncShare {
  es_MemberIndex : Z;
  es_A : string;
  es_Nonce : string;
  es_Body : string
}.

Record Dealing := mkDealing {
  d_Epoch : Z;
  d_DealerIndex : Z;
  d_Dealer : string;
  d_Commitments : list string;
  d_EncShares : list DkgStoredEncShare
}.

Record DkgComplaintRec := mkDkgComplaintRec { c_Epoch : Z; c_Against : Z; c_AccuserIndex : Z }.

Record ActiveThresholdKey := mkActiveThresholdKey {
  ak_Epoch : Z;
  ak_Pub : string;
  ak_PublicCommitments : list string;
  ak_Threshold : Z;
  ak_Qual : list Z
}.

Record Commit := mkCommit {
  cm_Sender : string;
  cm_CommitHash : string;
  cm_Height : Z;
  cm_Seq : Z
}.

Record PendingReveal := mkPendingReveal {
  pr_Sender : string;
  pr_CommitHeight : Z;
  pr_Seq : Z;
  pr_RevealTx : string;
  pr_Salt : string
}.

Record EncTx := mkEncTx {
  e_Submitter : string;
  e_SubmitHeight : Z;
  e_DecryptHeight : Z;
  e_Seq : Z;
  e_A : string;
  e_Nonce : string;
  e_Body : string;
  e_Epoch : Z;
  e_Bond : Z;
  e_BondDenom : string;
  e_BondBurn : Z
}.

Record EncShare := mkEncShare {
  s_Keyper : string;
  s_DecryptHeight : Z;
  s_Seq : Z;
  s_Index : Z;
  s_D : string;
  s_Proof : string;
  s_Verified : bool
}.

Record EncKeyReg := mkEncKeyReg { kr_Operator : string; kr_Key : string }.

Record GenesisState := mkGenesisState {
  gs_Params : Params;
  gs_Commits : list Commit;
  gs_Pending : list PendingReveal;
  gs_EncSeq : Z;
  gs_EncTxs : list EncTx;
  gs_EncShares : list EncShare;
  gs_DkgRounds : list DkgRound;
  gs_Dealings : list Dealing;
  gs_ActiveKeys : list ActiveThresholdKey;
  gs_CurrentEpoch : Z;
  gs_ActiveEpoch : Z;
  gs_EncKeys : list EncKeyReg
}.

Definition DefaultGenesisState : GenesisState :=
  mkGenesisState DefaultParams [] [] 0 [] [] [] [] [] 0 0 [].

(** ** Bounds *)

Definition minDkgWindowBlocks : Z := 1.
Definition maxDkgWindowBlocks : Z := 10000000.
Definition maxCommitRevealWindow : Z := 10000000.
Definition maxDkgPhaseWindow : Z := 600.
Definition maxInFlightCeiling : Z := 2 ^ 40.
Definition maxDriftBps : Z := 10000.
Definition DefaultDkgMaxMembers : Z := 16.
Definition maxDkgCommittee : Z := 128.
Definition minDkgCommittee : Z := 4.
Definition DefaultDkgShareBudget : Z := 256.
Definition MinShareBudgetPerMember : Z := 8.
Definition perPointWireBytes : Z := 900.
Definition conservativeInjectMaxTxBytes : Z := 20000000.
Definition maxDkgShareBudget : Z := 1024.
Definition defaultMaxVerifyOps : Z := 4096.
Definition minMaxVerifyOps : Z := 256.
Definition maxMaxVerifyOps : Z := 16384.
Definition voteExtShareFloor : Z := 256.
(** threshold.NonceSize, the AES-GCM nonce length. *)
Definition NonceSize : Z := 12.

Definition EffectiveShareBudget (p : Params) : Z :=
  if DkgShareBudget p =? 0 then DefaultDkgShareBudget else DkgShareBudget p.

Definition EffectiveMaxVerifyOps (p : Params) : Z :=
  if MaxVerifyOpsPerBlock p =? 0 then defaultMaxVerifyOps else i64 (MaxVerifyOpsPerBlock p).

Definition EffectiveMaxMembers (p : Params) : Z :=
  if DkgMaxMembers p =? 0 then DefaultDkgMaxMembers else DkgMaxMembers p.

Definition VoteExtShareCap (p : Params) : Z :=
  if voteExtShareFloor <? EffectiveShareBudget p then EffectiveShareBudget p else voteExtShareFloor.

Definition DkgInjectedCommitBytesUpperBound (p : Params) : Z :=
  let m := EffectiveMaxMembers p in
  let s := EffectiveShareBudget p in
  let twoThirds := Z.quot (2 * m) 3 + 1 in
  i64 (twoThirds * (s * perPointWireBytes)).

Definition DkgInjectedCommitPayloadBudget (maxTxBytes : Z) : Z :=
  if maxTxBytes <=? 0 then 0 else maxTxBytes - Z.quot maxTxBytes 8.

Definition DkgInjectedCommitFitsMaxTxBytes (p : Params) (maxTxBytes : Z) : bool :=
  let budget := DkgInjectedCommitPayloadBudget maxTxBytes in
  if budget <=? 0 then false
  else DkgInjectedCommitBytesUpperBound p <? budget.

(** ** Validation *)

Definition ValidateDkgWindows (p : Params) : outcome unit :=
  _ ← fold_ok (fun (_ : unit) (f : string * Z * Z) =>
        let '(name, v, mx) := f in
        if (v <? minDkgWindowBlocks) || (mx <? v) then Err name else Ret tt) tt
      [ ("dkg_deal_window", DkgDealWindow p, maxDkgPhaseWindow);
        ("dkg_complaint_window", DkgComplaintWindow p, maxDkgPhaseWindow);
        ("dkg_retry_backoff", DkgRetryBackoff p, maxDkgPhaseWindow) ];
  if maxDkgWindowBlocks <? DkgMinRekeyGap p then Err "dkg_min_rekey_gap" else
  if maxDkgWindowBlocks <? DkgMaxAttempts p then Err "dkg_max_attempts" else
  if maxDkgCommittee <? DkgMaxMembers p then Err "dkg_max_members" else
  if negb (DkgMaxMembers p =? 0) && (DkgMaxMembers p <? minDkgCommittee) then Err "dkg_max_members" else
  if maxDkgShareBudget <? DkgShareBudget p then Err "dkg_share_budget" else
  if maxDkgWindowBlocks <? DkgMaxEpochBlocks p then Err "dkg_max_epoch_blocks" else
  if maxDriftBps <? DkgRekeyOnStakeDriftBps p then Err "dkg_rekey_on_stake_drift_bps" else
  if DkgTransparent p then
    if EffectiveShareBudget p <? MinShareBudgetPerMember * EffectiveMaxMembers p
    then Err "dkg_share_budget below the committee cap" else
    if negb (DkgInjectedCommitFitsMaxTxBytes p conservativeInjectMaxTxBytes)
    then Err "injected commit exceeds the proposer budget" else Ret tt
  else Ret tt.

(** The libraries the validation calls: the secp256k1 point parser and the
    SDK's denomination check. *)
Class Secp256k1 : Type := { ParsePubKey_ok : string -> bool }.
Class SDKDenom : Type := { ValidateDenom_ok : string -> bool }.

Section validation.
Context `{Secp256k1} `{SDKDenom} `{MathInt}.

Definition ValidCompressedPointBytes (b : string) : bool := ParsePubKey_ok b.

Definition strlen (s : string) : Z := Z.of_nat (String.length s).
Definition zlen {A : Type} (l : list A) : Z := Z.of_nat (length l).

(** The declared-member loop: the operator and account addresses seen so far. *)
Definition check_declared (seen : list string * list string) (m : DkgMember)
    : outcome (list string * list string) :=
  if String.eqb (dm_OperatorAddr m) "" || String.eqb (dm_AccountAddr m) ""
  then Err "operator_addr and account_addr are required" else
  if negb (strlen (dm_EncPubKey m) =? 33) then Err "enc_pubkey must be a 33-byte compressed key" else
  if negb (ParsePubKey_ok (dm_EncPubKey m)) then Err "enc_pubkey is not a point" else
  if contains seen.1 (dm_OperatorAddr m) || contains seen.2 (dm_AccountAddr m)
  then Err "duplicate operator/account address" else
  Ret (dm_OperatorAddr m :: seen.1, dm_AccountAddr m :: seen.2).

Definition check_keyper (seen : list string) (kp : string) : outcome (list string) :=
  if String.eqb kp "" then Err "keyper address must not be empty" else
  if contains seen kp then Err "duplicate keyper address" else Ret (kp :: seen).

(** [Params.Validate]. *)
Definition Params_Validate (p : Params) : outcome unit :=
  if RevealDelay p =? 0 then Err "reveal_delay must be >= 1" else
  if maxCommitRevealWindow <? RevealDelay p then Err "reveal_delay" else
  if MaxRevealWindow p <? RevealDelay p then Err "max_reveal_window" else
  if maxCommitRevealWindow <? MaxRevealWindow p then Err "max_reveal_window" else
  if maxDkgPhaseWindow <? DecryptDelay p then Err "decrypt_delay" else
  if (maxInFlightCeiling <? MaxInFlightEncTx p) || (maxInFlightCeiling <? MaxInFlightPerSubmitter p)
  then Err "max_in_flight ceilings" else
  if negb (MaxVerifyOpsPerBlock p =? 0) &&
     ((MaxVerifyOpsPerBlock p <? minMaxVerifyOps) || (maxMaxVerifyOps <? MaxVerifyOpsPerBlock p))
  then Err "max_verify_ops_per_block" else
  if (0 <? MaxInFlightEncTx p) && (MaxInFlightEncTx p <? MaxInFlightPerSubmitter p)
  then Err "max_in_flight_per_submitter" else
  _ ← (if DkgEnabled p then
         _ ← (if negb (DkgTransparent p) then
                if zlen (DkgMembers p) =? 0 then Err "dkg_enabled requires dkg_members" else
                _ ← fold_ok check_declared ([], []) (DkgMembers p);
                if negb (DkgThreshold p =? 0) && (zlen (DkgMembers p) <? DkgThreshold p)
                then Err "dkg_threshold" else Ret tt
              else Ret tt);
         ValidateDkgWindows p
       else Ret tt);
  if negb (EncEnabled p) then Ret tt else
  if DecryptDelay p =? 0 then Err "decrypt_delay must be >= 1" else
  if MaxInFlightEncTx p =? 0 then Err "max_in_flight_enc_tx must be >= 1" else
  if (0 <? EncSubmitBond p) && negb (ValidateDenom_ok (EncSubmitBondDenom p))
  then Err "enc_submit_bond_denom" else
  if 10000 <? EncSubmitBondBurnBps p then Err "enc_submit_bond_burn_bps" else
  if (0 <? EncSubmitBondBurnBps p) && (EncSubmitBond p =? 0) then Err "burn without bond" else
  if EncExecEnabled p && (EncSubmitBond p =? 0) then Err "enc_submit_bond must be positive" else
  if EncExecEnabled p && (EncSubmitBondBurnBps p =? 0) then Err "burn must be positive" else
  if DkgEnabled p then
    if DkgTransparent p && (DkgMaxEpochBlocks p =? 0) && (DkgRekeyOnStakeDriftBps p =? 0)
    then Err "a staleness-rekey trigger is required" else Ret tt
  else
  if Threshold p =? 0 then Err "threshold must be >= 1" else
  if zlen (Keypers p) <? Threshold p then Err "threshold exceeds keyper count" else
  if strlen (ThresholdPub p) =? 0 then Err "threshold_pub must be set" else
  _ ← fold_ok check_keyper [] (Keypers p);
  Ret tt.

(** *** Imported rounds, keys and dealings *)

(** The first loop of [validateImportedRound]: seen indices, seen operators and
    whether a weighted member was met. *)
Definition check_member (st : list Z * list string * bool) (m : RoundMember)
    : outcome (list Z * list string * bool) :=
  let '(seenIdx, seenOp, weighted) := st in
  if Index m =? 0 then Err "index must be non-zero" else
  if Zmem (Index m) seenIdx then Err "duplicate index" else
  if String.eqb (OperatorAddr m) "" then Err "operator_addr is required" else
  if contains seenOp (OperatorAddr m) then Err "duplicate operator_addr" else
  if (0 <? strlen (EncPubKey m)) && negb (ValidCompressedPointBytes (EncPubKey m))
  then Err "enc_pubkey is not a point" else
  Ret (Index m :: seenIdx, OperatorAddr m :: seenOp, weighted || Weighted m).

Definition check_point (seen : list Z) (p : Z) : outcome (list Z) :=
  if p =? 0 then Err "eval point 0 is invalid" else
  if Zmem p seen then Err "duplicate eval point" else Ret (p :: seen).

(** The second loop: the evaluation points seen and the total weight. *)
Definition check_weighted (st : list Z * Z) (m : RoundMember) : outcome (list Z * Z) :=
  if negb (Weighted m) then Err "mixed weighted/unweighted round" else
  if match Weight m with Some w => w <? 0 | None => false end then Err "negative weight" else
  total ← match Weight m with Some w => o_int (st.2 + w) | None => Ret st.2 end;
  if (0 <? zlen (EvalPoints m)) && negb (0 <? default 0 (Weight m))
  then Err "eval points with non-positive weight" else
  seen ← fold_ok check_point st.1 (EvalPoints m);
  Ret (seen, total).

(** [1 .. n] are all in [seen]. *)
Definition contiguous (n : nat) (seen : list Z) : bool :=
  forallb (fun p => Zmem p seen) (seqZ 1 (Z.of_nat n)).

Definition validateImportedRound (r : DkgRound) : outcome unit :=
  if negb (String.eqb (r_Status r) DkgStatusOpen || String.eqb (r_Status r) DkgStatusActive ||
           String.eqb (r_Status r) DkgStatusFailed) then Err "invalid status" else
  if (r_DealDeadline r <? r_OpenHeight r) || (r_ComplaintDeadline r <? r_DealDeadline r)
  then Err "invalid deadlines" else
  if zlen (r_Members r) =? 0 then Err "members must be non-empty" else
  if r_Threshold r =? 0 then Err "threshold must be non-zero" else
  if TotalEvalPoints (r_Members r) <? r_Threshold r then Err "threshold exceeds total eval points" else
  st ← fold_ok check_member ([], [], false) (r_Members r);
  let '(_, _, weighted) := st in
  if weighted : bool then
    st2 ← fold_ok check_weighted ([], 0) (r_Members r);
    let '(seenPoint, totalWeight) := st2 in
    if negb (contiguous (length seenPoint) seenPoint) then Err "eval points must be contiguous" else
    if negb (0 <? totalWeight) then Err "total weight must be positive" else
    let want := u32 (Z.quot (2 * zlen seenPoint) 3 + 1) in
    let want := if zlen seenPoint <? want then u32 (zlen seenPoint) else want in
    if negb (r_Threshold r =? want) then Err "weighted threshold" else Ret tt
  else Ret tt.

(** The Go map [memberWeight] keeps the last member with a given index. *)
Definition member_weight (members : list RoundMember) (q : Z) : option Z :=
  foldl (fun acc m => if Index m =? q then Some (owned m) else acc) None members.

Definition check_qual (members : list RoundMember) (st : list Z * Z) (q : Z) : outcome (list Z * Z) :=
  match member_weight members q with
  | None => Err "qual is not a round member"
  | Some w => if Zmem q st.1 then Err "qual is duplicated" else Ret (q :: st.1, st.2 + w)
  end.

Definition validateImportedActiveKey (ak : ActiveThresholdKey) (round : DkgRound) : outcome unit :=
  if ak_Threshold ak =? 0 then Err "threshold must be non-zero" else
  if negb (ak_Threshold ak =? r_Threshold round) then Err "threshold does not match round threshold" else
  if negb (ValidCompressedPointBytes (ak_Pub ak)) then Err "pub is not a point" else
  if negb (zlen (ak_PublicCommitments ak) =? ak_Threshold ak) then Err "public commitments" else
  if negb (forallb ValidCompressedPointBytes (ak_PublicCommitments ak)) then Err "public_commitments" else
  if zlen (ak_Qual ak) =? 0 then Err "qual must be non-empty" else
  st ← fold_ok (check_qual (r_Members round)) ([], 0) (ak_Qual ak);
  if st.2 <? ak_Threshold ak then Err "qual owns too few eval points" else Ret tt.

Definition check_enc_share (members : list RoundMember) (seen : list Z) (s : DkgStoredEncShare)
    : outcome (list Z) :=
  if EvalPointOwner members (es_MemberIndex s) =? 0 then Err "eval point is not owned" else
  if Zmem (es_MemberIndex s) seen then Err "duplicate eval point" else
  if negb (ValidCompressedPointBytes (es_A s)) then Err "A is not a point" else
  if negb (strlen (es_Nonce s) =? NonceSize) then Err "nonce length" else
  if strlen (es_Body s) =? 0 then Err "body is empty" else Ret (es_MemberIndex s :: seen).

Definition validateImportedDealing (d : Dealing) (round : DkgRound) : outcome unit :=
  if negb (d_Epoch d =? r_Epoch round) then Err "epoch does not match round epoch" else
  if d_DealerIndex d =? 0 then Err "dealer_index must be non-zero" else
  if negb (existsb (fun m => Index m =? d_DealerIndex d) (r_Members round))
  then Err "dealer_index is not a round member" else
  if negb (zlen (d_Commitments d) =? r_Threshold round) then Err "commitments" else
  if negb (forallb ValidCompressedPointBytes (d_Commitments d)) then Err "commitments" else
  if negb (zlen (d_EncShares d) =? TotalEvalPoints (r_Members round)) then Err "encrypted shares" else
  _ ← fold_ok (check_enc_share (r_Members round)) [] (d_EncShares d);
  Ret tt.

(** [validateDkgImportState]; the two maps it returns are keyed by epoch. *)
Definition validate_rounds (rounds : gmap Z DkgRound) (r : DkgRound) : outcome (gmap Z DkgRound) :=
  if r_Epoch r =? 0 then Err "epoch must be non-zero" else
  if bool_decide (is_Some (rounds !! r_Epoch r)) then Err "duplicate epoch" else
  _ ← validateImportedRound r;
  Ret (<[r_Epoch r := r]> rounds).

Definition validate_keys (rounds : gmap Z DkgRound) (keys : gmap Z ActiveThresholdKey)
    (ak : ActiveThresholdKey) : outcome (gmap Z ActiveThresholdKey) :=
  if ak_Epoch ak =? 0 then Err "epoch must be non-zero" else
  if bool_decide (is_Some (keys !! ak_Epoch ak)) then Err "duplicate epoch" else
  match rounds !! ak_Epoch ak with
  | None => Err "no DKG round for epoch"
  | Some round => _ ← validateImportedActiveKey ak round; Ret (<[ak_Epoch ak := ak]> keys)
  end.

Definition validate_seqs (st : list (Z * Z) * Z) (e : EncTx) : outcome (list (Z * Z) * Z) :=
  if bool_decide ((e_DecryptHeight e, e_Seq e) ∈ st.1) then Err "duplicate decrypt_height/seq" else
  Ret ((e_DecryptHeight e, e_Seq e) :: st.1, if st.2 <? e_Seq e then e_Seq e else st.2).

Definition validate_shares (seqSeen : list (Z * Z)) (seen : list (Z * Z * Z)) (s : EncShare)
    : outcome (list (Z * Z * Z)) :=
  let key := (s_DecryptHeight s, s_Seq s, s_Index s) in
  if bool_decide (key ∈ seen) then Err "duplicate decrypt_height/seq/index" else
  if negb (bool_decide ((s_DecryptHeight s, s_Seq s) ∈ seqSeen)) then Err "no imported enc tx" else
  Ret (key :: seen).

Definition validate_enc_keys (st : list string * list string) (kr : EncKeyReg)
    : outcome (list string * list string) :=
  if String.eqb (kr_Operator kr) "" then Err "operator is required" else
  if contains st.1 (kr_Operator kr) then Err "duplicate operator" else
  if negb (ValidCompressedPointBytes (kr_Key kr)) then Err "key is not a point" else
  if contains st.2 (kr_Key kr) then Err "duplicate encryption key" else
  Ret (kr_Operator kr :: st.1, kr_Key kr :: st.2).

Definition validateDkgImportState (gs : GenesisState)
    : outcome (gmap Z DkgRound * gmap Z ActiveThresholdKey) :=
  rounds ← fold_ok validate_rounds ∅ (gs_DkgRounds gs);
  activeKeys ← fold_ok (validate_keys rounds) ∅ (gs_ActiveKeys gs);
  if (0 <? gs_CurrentEpoch gs) && negb (bool_decide (is_Some (rounds !! gs_CurrentEpoch gs)))
  then Err "current_epoch has no imported DKG round" else
  _ ← (if 0 <? gs_ActiveEpoch gs then
         match rounds !! gs_ActiveEpoch gs with
         | None => Err "active_epoch has no imported DKG round"
         | Some r =>
             if negb (String.eqb (r_Status r) DkgStatusActive) then Err "active_epoch round status" else
             if negb (bool_decide (is_Some (activeKeys !! gs_ActiveEpoch gs)))
             then Err "active_epoch has no imported active threshold key" else Ret tt
         end
       else Ret tt);
  _ ← fold_ok (fun (_ : unit) d =>
         match rounds !! d_Epoch d with
         | None => Err "no DKG round for epoch"
         | Some round => validateImportedDealing d round
         end) tt (gs_Dealings gs);
  seqs ← fold_ok validate_seqs ([], 0) (gs_EncTxs gs);
  if (0 <? zlen (gs_EncTxs gs)) && (gs_EncSeq gs <=? seqs.2)
  then Err "enc_seq must be greater than imported max enc tx seq" else
  _ ← fold_ok (validate_shares seqs.1) [] (gs_EncShares gs);
  _ ← fold_ok validate_enc_keys ([], []) (gs_EncKeys gs);
  Ret (rounds, activeKeys).

Definition validate_enc_share (_ : unit) (s : EncShare) : outcome unit :=
  if s_Verified s then Err "verified must be false in genesis" else
  if String.eqb (s_Keyper s) "" then Err "keyper is required" else
  if s_Index s =? 0 then Err "index must be non-zero" else
  if negb (ValidCompressedPointBytes (s_D s)) then Err "D is not a point" else Ret tt.

Definition validate_enc_tx (rounds : gmap Z DkgRound) (keys : gmap Z ActiveThresholdKey)
    (_ : unit) (e : EncTx) : outcome unit :=
  if negb (ValidCompressedPointBytes (e_A e)) then Err "A is not a point" else
  if negb (strlen (e_Nonce e) =? NonceSize) then Err "nonce length" else
  if strlen (e_Body e) =? 0 then Err "empty ciphertext body" else
  if (0 <? e_Bond e) && (e_Bond e <? e_BondBurn e) then Err "bond_burn exceeds bond" else
  if 0 <? e_Epoch e then
    if negb (bool_decide (is_Some (rounds !! e_Epoch e))) then Err "epoch has no imported DKG round" else
    if negb (bool_decide (is_Some (keys !! e_Epoch e))) then Err "epoch has no imported key" else Ret tt
  else Ret tt.

(** [GenesisState.Validate]. *)
Definition Genesis_Validate (gs : GenesisState) : outcome unit :=
  _ ← Params_Validate (gs_Params gs);
  maps ← validateDkgImportState gs;
  _ ← fold_ok validate_enc_share tt (gs_EncShares gs);
  fold_ok (validate_enc_tx maps.1 maps.2) tt (gs_EncTxs gs).

End validation.
End EncTypes.
