(* ===== verification/StakeWeight.v ===== *)
(** * Stake-weighted secret sharing

    Models x/encmempool/keeper/stakeweight.go: the largest-remainder
    apportionment of evaluation points to stake ([AllocateEvalPoints]), the
    reconstruction threshold ([stakeThreshold]) and the admission guard
    ([CommitteeConcentrationBreached] with its dynamic program
    [coalitionBelowTwoThirdsCanDecrypt]), and the drift measure of endblock.go.

    The theorems: the points handed out are exactly [1 .. budget] and each
    member's share is within one point of its exact quota; with the strict
    threshold no coalition of at most two thirds of the stake reaches it; the
    dynamic program decides the existence of such a coalition exactly. *)
From S2P Require Import Prelude Codec Sha256 EncTypes.
From stdpp Require Import gmap strings list sorting.
From Stdlib Require Import ZArith Lia.

#[local] Set Default Goal Selector "!".
Open Scope Z_scope.

Module StakeWeight.
Import EncTypes.

Section defs.
Context `{MathInt}.

Definition weightOrZero (w : option Z) : Z := default 0 w.

Definition isPositive (w : option Z) : bool := match w with Some z => 0 <? z | None => false end.

Definition remainderTieKey (epoch : Z) (operator : string) : string :=
  sha256 ("encmempool/dkg/remainder-seat-tiebreak/v1" +:+ (be64 epoch +:+ operator)).

(** The total of the positive weights. *)
Definition positive_total (members : list RoundMember) : outcome Z :=
  fold_ok (fun total m => match Weight m with
    | Some w => if 0 <? w then o_int (total + w) else Ret total
    | None => Ret total
    end) 0 members.

(** The whole part and the remainder of one member's quota. *)
Definition quota (S total : Z) (m : RoundMember) : outcome (Z * Z) :=
  match Weight m with
  | Some w =>
      if 0 <? w then
        num ← o_int (w * S);
        let q := Z.quot num total in
        if (- 2 ^ 63 <=? q) && (q <? 2 ^ 63) then Ret (q, num mod total)
        else Panic "Int64() out of bound"
      else Ret (0, 0)
  | None => Ret (0, 0)
  end.

(** The sort key of a remainder seat and the [less] function of the sort. *)
Record seat := mkSeat { st_rem : Z; st_weight : Z; st_tie : string }.

Definition seat_less (a b : seat) : bool :=
  if negb (st_rem a =? st_rem b) then st_rem b <? st_rem a
  else if negb (st_weight a =? st_weight b) then st_weight b <? st_weight a
  else match String.compare (st_tie a) (st_tie b) with Lt => true | _ => false end.

(** [sort.SliceStable(order, less)]: an entry stays behind those it is not less
    than. *)
Definition seat_le (a b : nat * seat) : Prop := seat_less b.2 a.2 = false.
#[export] Instance seat_le_dec : RelDecision seat_le.
Proof. intros a b. unfold seat_le. apply _. Defined.

Definition seat_order (seats : list seat) : list nat :=
  (merge_sort seat_le (imap pair seats)).*1.

(** [base[order[k]]++]. *)
Definition bump (base : list Z) (idxs : list nat) : list Z :=
  foldl (fun b i => alter Z.succ i b) base idxs.

(** The contiguous blocks [next, next+1, ...] in the given order. *)
Fixpoint lay_out (next : Z) (out : list (RoundMember * Z)) : list RoundMember :=
  match out with
  | [] => []
  | (m, a) :: out' =>
      if a <=? 0
      then mkRoundMember (Index m) (OperatorAddr m) (AccountAddr m) (EncPubKey m) (Weight m) [] true
           :: lay_out next out'
      else mkRoundMember (Index m) (OperatorAddr m) (AccountAddr m) (EncPubKey m) (Weight m)
             (seqZ next a) true
           :: lay_out (next + a) out'
  end.

Definition unweighted (m : RoundMember) : RoundMember :=
  mkRoundMember (Index m) (OperatorAddr m) (AccountAddr m) (EncPubKey m) (Weight m) [Index m] false.

Definition AllocateEvalPoints (members : list RoundMember) (budget epoch : Z)
    : outcome (list RoundMember) :=
  total ← positive_total members;
  if (budget <? 1) || negb (0 <? total) then Ret (unweighted <$> members) else
  quotas ← map_ok (quota budget total) members;
  let base := quotas.*1 in
  let assigned := sumZ id base in
  let remainderSeats := budget - assigned in
  let base :=
    if 0 <? remainderSeats then
      let seats := zip_with (fun m q => mkSeat q.2 (weightOrZero (Weight m))
                                          (remainderTieKey epoch (OperatorAddr m))) members quotas in
      bump base (take (Z.to_nat remainderSeats) (seat_order seats))
    else base in
  Ret (lay_out 1 (zip members base)).

(** The second result of the Go function is always [false]. *)
Definition stakeThreshold (members : list RoundMember) (strict : bool) : Z * bool :=
  let S := TotalEvalPoints members in
  if S <? 1 then (1, false) else
  let weighted := existsb Weighted members in
  if negb weighted then
    let tt := Z.quot (2 * S) 3 + 1 in
    let tt := if S <? tt then S else tt in
    (u32 tt, false)
  else
    let tt := Z.quot (2 * S) 3 + 1 in
    let tt := if strict then Z.quot (2 * S) 3 + Z.of_nat (length members) else tt in
    let tt := if S <? tt then S else tt in
    let tt := if tt <? 1 then 1 else tt in
    (u32 tt, false).

(** The dynamic program: [dp !! k] is the least stake found that owns exactly [k]
    (capped) points; the Go arrays [ok] and [dp] together. *)
Definition dp_update (S pts w : Z) (dp : outcome (gmap Z Z)) (have : Z) : outcome (gmap Z Z) :=
  dp ← dp;
  match dp !! have with
  | None => Ret dp
  | Some v =>
      let next := if S <? have + pts then S else have + pts in
      cand ← o_int (v + w);
      match dp !! next with
      | Some u => if cand <? u then Ret (<[next := cand]> dp) else Ret dp
      | None => Ret (<[next := cand]> dp)
      end
  end.

Definition dp_member (S : Z) (dp : gmap Z Z) (m : RoundMember) : outcome (gmap Z Z) :=
  let pts := owned m in
  if pts =? 0 then Ret dp else
  foldl (dp_update S pts (weightOrZero (Weight m))) (Ret dp) (rev (seqZ 0 (S + 1))).

(** The final scan over [target .. S]. *)
Fixpoint dp_scan (dp : gmap Z Z) (limit : Z) (pts : list Z) : outcome bool :=
  match pts with
  | [] => Ret false
  | p :: pts' =>
      match dp !! p with
      | None => dp_scan dp limit pts'
      | Some v => v3 ← o_int (v * 3); if negb (limit <? v3) then Ret true else dp_scan dp limit pts'
      end
  end.

Definition coalitionBelowTwoThirdsCanDecrypt (members : list RoundMember) (threshold : Z) : outcome bool :=
  if threshold =? 0 then Ret false else
  (** the loop returns false at the first unweighted member, before adding it *)
  st ← fold_ok (fun (st : option (Z * Z)) m =>
         match st with
         | None => Ret None
         | Some (totalStake, S0) =>
             if negb (Weighted m) then Ret None else
             totalStake ← o_int (totalStake + weightOrZero (Weight m));
             Ret (Some (totalStake, S0 + owned m))
         end) (Some (0, 0)) members;
  match st with
  | None => Ret false
  | Some (totalStake, S0) =>
      if negb (0 <? totalStake) || (S0 =? 0) then Ret false else
      if S0 <? threshold then Ret false else
      dp ← fold_ok (dp_member S0) {[ 0 := 0 ]} members;
      limit ← o_int (totalStake * 2);
      dp_scan dp limit (seqZ threshold (S0 + 1 - threshold))
  end.

(** [CommitteeConcentrationBreached] on the round and the key it read; the store
    reads are in the keeper's model. *)
Fixpoint operator_breach (threshold strandBar : Z) (members : list RoundMember) : option bool :=
  match members with
  | [] => None
  | m :: ms =>
      if negb (Weighted m) then Some false else
      if threshold <=? u32 (owned m) then Some true else
      if (0 <? strandBar) && (strandBar <=? owned m) then Some true else
      operator_breach threshold strandBar ms
  end.

Definition concentration_breached (members : list RoundMember) (threshold : Z) (strict : bool) : outcome bool :=
  let S := TotalEvalPoints members in
  let strandBar := if strict then if threshold <? S + 1 then S - threshold + 1 else 0 else 0 in
  match operator_breach threshold strandBar members with
  | Some b => Ret b
  | None => coalitionBelowTwoThirdsCanDecrypt members threshold
  end.

End defs.

(** ** Exact quotas *)

(** The stake a member brings: its weight when positive. *)
Definition pos_weight (m : RoundMember) : Z := Z.max 0 (weightOrZero (Weight m)).

(** The stake and the evaluation points of a coalition. *)
Definition stake (C : list RoundMember) : Z := sumZ (fun m => weightOrZero (Weight m)) C.

Lemma pos_weight_nonneg m : 0 <= pos_weight m.
Proof. unfold pos_weight. lia. Qed.

Lemma sum_pos_weight_nonneg ms : 0 <= sumZ pos_weight ms.
Proof. apply sumZ_nonneg, Forall_true, pos_weight_nonneg. Qed.

Section quotas.
Context `{MathIntLaws}.

Lemma positive_total_run members :
  sumZ pos_weight members < 2 ^ 256 -> positive_total members = Ret (sumZ pos_weight members).
Proof.
  unfold positive_total. enough (Hgen : forall acc, 0 <= acc -> acc + sumZ pos_weight members < 2 ^ 256 ->
    fold_ok (fun total m => match Weight m with
      | Some w => if 0 <? w then o_int (total + w) else Ret total
      | None => Ret total end) acc members = Ret (acc + sumZ pos_weight members))
    by (intros; by apply Hgen).
  induction members as [|m ms IH]; intros acc Ha Hb; simpl in *; [by rewrite Z.add_0_r|].
  pose proof (sum_pos_weight_nonneg ms). assert (Hm : pos_weight m = Z.max 0 (weightOrZero (Weight m))) by done.
  unfold mbind, outcome_bind, weightOrZero in *.
  destruct (Weight m) as [w|]; simpl in *; [|rewrite IH by lia; f_equal; lia].
  destruct (Z.ltb_spec 0 w).
  - rewrite o_int_fits by (apply int_fits_spec; lia). rewrite IH by lia. f_equal. lia.
  - rewrite IH by lia. f_equal. lia.
Qed.

Lemma quota_run S W m :
  0 < W -> 0 <= S < 2 ^ 63 -> pos_weight m <= W -> W * S < 2 ^ 256 ->
  quota S W m = Ret (pos_weight m * S / W, (pos_weight m * S) mod W).
Proof.
  intros HW HS Hm Hf. unfold quota, pos_weight, weightOrZero in *. destruct (Weight m) as [w|]; simpl in *.
  - destruct (Z.ltb_spec 0 w) as [Hw|Hw].
    + rewrite Z.max_r in * by lia.
      rewrite o_int_fits by (apply int_fits_spec; nia). unfold mbind, outcome_bind.
      rewrite Z.quot_div_nonneg by nia.
      assert (Hq : 0 <= w * S / W <= S).
      { split; [apply Z.div_pos; nia|apply Z.div_le_upper_bound; nia]. }
      rewrite (proj2 (Z.leb_le _ _)), (proj2 (Z.ltb_lt _ _)) by lia. done.
    + rewrite Z.max_l by lia. by rewrite Z.mul_0_l, Z.div_0_l, Z.mod_0_l by lia.
  - by rewrite Z.mul_0_l, Z.div_0_l, Z.mod_0_l by lia.
Qed.

Lemma quotas_run S members :
  let W := sumZ pos_weight members in
  0 < W -> 0 <= S < 2 ^ 63 -> W * S < 2 ^ 256 ->
  map_ok (quota S W) members =
  Ret ((fun m => (pos_weight m * S / W, (pos_weight m * S) mod W)) <$> members).
Proof.
  intros W HW HS Hf. apply map_ok_Ret, Forall_forall. intros m Hm. apply quota_run; try done.
  apply sumZ_elem_le; [apply Forall_true, pos_weight_nonneg|done].
Qed.

End quotas.

(** ** The order of the remainder seats *)

Lemma str_le_lt a b : match String.compare b a with Lt => true | _ => false end = false <-> str_le a b.
Proof.
  unfold str_le. rewrite str_leb_compare, (String.compare_antisym b a).
  destruct (String.compare a b); simpl; naive_solver.
Qed.

Lemma seat_le_spec a b :
  seat_le a b <->
  st_rem b.2 < st_rem a.2 \/
  (st_rem b.2 = st_rem a.2 /\
   (st_weight b.2 < st_weight a.2 \/
    (st_weight b.2 = st_weight a.2 /\ str_le (st_tie a.2) (st_tie b.2)))).
Proof.
  unfold seat_le, seat_less.
  destruct (Z.eqb_spec (st_rem b.2) (st_rem a.2)); simpl; [|rewrite Z.ltb_ge; lia].
  destruct (Z.eqb_spec (st_weight b.2) (st_weight a.2)); simpl; [|rewrite Z.ltb_ge; lia].
  rewrite str_le_lt. naive_solver lia.
Qed.

#[export] Instance seat_le_total : Total seat_le.
Proof.
  intros a b. rewrite !seat_le_spec. pose proof (str_le_total (st_tie a.2) (st_tie b.2)).
  destruct (Z.lt_trichotomy (st_rem a.2) (st_rem b.2)) as [|[|]],
    (Z.lt_trichotomy (st_weight a.2) (st_weight b.2)) as [|[|]]; intuition auto.
Qed.

#[export] Instance seat_le_trans : Transitive seat_le.
Proof.
  intros a b c. rewrite !seat_le_spec.
  pose proof (str_le_trans (st_tie a.2) (st_tie b.2) (st_tie c.2)). intuition lia.
Qed.

Lemma StronglySorted_app_lr {A : Type} (R : A -> A -> Prop) l1 l2 x y :
  StronglySorted R (l1 ++ l2) -> x ∈ l1 -> y ∈ l2 -> R x y.
Proof.
  induction l1 as [|a l1 IH]; intros Hs Hx Hy; [by apply not_elem_of_nil in Hx|].
  apply StronglySorted_inv in Hs as [Hs Ha]. apply elem_of_cons in Hx as [->|Hx]; [|by apply IH].
  rewrite Forall_forall in Ha. apply Ha. apply elem_of_app. by right.
Qed.

(** With [W * R] the sum of remainders below [W], the first [R] seats of the order
    all have a positive remainder. *)
Lemma top_seats_positive (l1 l2 : list (nat * seat)) W :
  0 < W -> StronglySorted seat_le (l1 ++ l2) ->
  Forall (fun x => 0 <= st_rem x.2 < W) (l1 ++ l2) ->
  sumZ (fun x => st_rem x.2) (l1 ++ l2) = W * Z.of_nat (length l1) ->
  Forall (fun x => 0 < st_rem x.2) l1.
Proof.
  intros HW Hs Hr Hsum. rewrite Forall_forall. intros x Hx.
  apply Forall_app in Hr as [Hr1 Hr2]. rewrite sumZ_app in Hsum.
  assert (Hle : sumZ (fun x => st_rem x.2) l1 <= (W - 1) * Z.of_nat (length l1)).
  { clear -Hr1. induction Hr1 as [|y l Hy _ IH]; simpl; [lia|]. rewrite Nat2Z.inj_succ. lia. }
  destruct (decide (st_rem x.2 <= 0)) as [H0|H0]; [|lia]. exfalso.
  assert (Hz : sumZ (fun x => st_rem x.2) l2 <= 0).
  { transitivity (sumZ (fun _ : nat * seat => 0) l2).
    - apply sumZ_le, Forall_forall. intros y Hy.
      pose proof (StronglySorted_app_lr _ _ _ x y Hs Hx Hy) as Hxy.
      apply seat_le_spec in Hxy. lia.
    - clear. induction l2; simpl; lia. }
  assert (1 <= Z.of_nat (length l1)) by (destruct l1; [by apply not_elem_of_nil in Hx|simpl; lia]).
  nia.
Qed.

(** ** Handing out the seats *)

Lemma zip_with_fmap_same {A C D : Type} (f : A -> C -> D) (g : A -> C) l :
  zip_with f l (g <$> l) = (fun x => f x (g x)) <$> l.
Proof. induction l as [|x l IH]; [done|]. simpl. f_equal. exact IH. Qed.

Lemma bump_length idxs : forall base, length (bump base idxs) = length base.
Proof.
  induction idxs as [|i idxs IH]; intros base; [done|]. simpl. rewrite IH. apply length_alter.
Qed.

Lemma bump_lookup idxs : forall base i, NoDup idxs ->
  bump base idxs !! i = (fun b => b + if decide (i ∈ idxs) then 1 else 0) <$> base !! i.
Proof.
  induction idxs as [|j idxs IH]; intros base i Hnd.
  - change (bump base []) with base. destruct (base !! i); cbn -[decide]; [|done]. f_equal.
    rewrite decide_False by apply not_elem_of_nil. lia.
  - apply NoDup_cons in Hnd as [Hj Hnd]. change (bump base (j :: idxs)) with (bump (alter Z.succ j base) idxs).
    rewrite IH by done. destruct (decide (i = j)) as [->|Hne].
    + rewrite list_lookup_alter_eq. destruct (base !! j); cbn -[decide]; [|done]. f_equal.
      rewrite decide_False by done. rewrite decide_True by apply elem_of_cons, or_introl, eq_refl. lia.
    + rewrite list_lookup_alter_ne by done. destruct (base !! i); cbn -[decide]; [|done]. f_equal. f_equal.
      destruct (decide (i ∈ idxs)).
      * by rewrite decide_True by (apply elem_of_cons; by right).
      * rewrite decide_False; [done|]. rewrite elem_of_cons. naive_solver.
Qed.

Lemma sumZ_alter i : forall l : list Z, (i < length l)%nat ->
  sumZ id (alter Z.succ i l) = sumZ id l + 1.
Proof.
  induction i as [|i IH]; intros [|x l] Hi; simpl in Hi; try lia.
  - simpl. unfold id. lia.
  - change (alter Z.succ (S i) (x :: l)) with (x :: alter Z.succ i l). simpl. rewrite IH; lia.
Qed.

Lemma bump_sum idxs : forall base, Forall (fun i => (i < length base)%nat) idxs ->
  sumZ id (bump base idxs) = sumZ id base + Z.of_nat (length idxs).
Proof.
  induction idxs as [|i idxs IH]; intros base Hf; [simpl; lia|]. inv Hf.
  change (bump base (i :: idxs)) with (bump (alter Z.succ i base) idxs).
  rewrite IH by (by rewrite length_alter). rewrite sumZ_alter by done. simpl. lia.
Qed.

(** A member before and after the allocation. *)
Definition allocated (m : RoundMember) (a : Z) (o : RoundMember) : Prop :=
  Index o = Index m /\ OperatorAddr o = OperatorAddr m /\ AccountAddr o = AccountAddr m /\
  EncPubKey o = EncPubKey m /\ Weight o = Weight m /\ Weighted o = true /\ owned o = a.

Lemma lay_out_spec out : forall next, Forall (fun p => 0 <= p.2) out ->
  Forall2 (fun p o => allocated p.1 p.2 o) out (lay_out next out).
Proof.
  induction out as [|[m a] out IH]; intros next Hf; [constructor|]. inv Hf. simpl in *.
  destruct (Z.leb_spec a 0); constructor; auto.
  - repeat split. simpl. unfold owned. simpl. lia.
  - repeat split. simpl. unfold owned, OwnedEvalPoints. simpl.
    destruct (seqZ next a) eqn:E; [|rewrite <- E, length_seqZ; lia].
    apply (f_equal length) in E. rewrite length_seqZ in E. simpl in E. lia.
Qed.

Lemma lay_out_points out : forall next, Forall (fun p => 0 <= p.2) out ->
  concat (EvalPoints <$> lay_out next out) = seqZ next (sumZ snd out).
Proof.
  induction out as [|[m a] out IH]; intros next Hf; [done|]. inv Hf. simpl in *.
  assert (0 <= sumZ snd out) by (by apply sumZ_nonneg).
  destruct (Z.leb_spec a 0); simpl.
  - rewrite IH by done. f_equal. lia.
  - rewrite IH by done. by rewrite seqZ_app by lia.
Qed.

Section allocation.
Context `{MathIntLaws}.
Context (members : list RoundMember) (budget epoch : Z).
Let W : Z := sumZ pos_weight members.
Let whole (m : RoundMember) : Z := pos_weight m * budget / W.
Let rest (m : RoundMember) : Z := (pos_weight m * budget) mod W.
Context (HW : 0 < W) (Hbudget : 1 <= budget < 2 ^ 63) (Hfit : W * budget < 2 ^ 256).

Lemma rest_range m : 0 <= rest m < W.
Proof. apply Z.mod_pos_bound. exact HW. Qed.

Lemma whole_rest m : pos_weight m * budget = whole m * W + rest m.
Proof. unfold whole, rest. rewrite (Z.div_mod (pos_weight m * budget) W) at 1; lia. Qed.

(** The leftover points times the stake is the sum of the remainders. *)
Lemma leftover_rests : W * (budget - sumZ whole members) = sumZ rest members.
Proof.
  assert (sumZ (fun m => pos_weight m * budget) members = sumZ (fun m => whole m * W + rest m) members)
    as Hs by (apply sumZ_ext, Forall_true, whole_rest).
  rewrite sumZ_mul_r, sumZ_add, sumZ_mul_r in Hs. fold W in Hs. lia.
Qed.

Lemma sumZ_upper {A : Type} (f : A -> Z) c l :
  Forall (fun x => f x <= c) l -> sumZ f l <= c * Z.of_nat (length l).
Proof. induction 1; simpl; lia. Qed.

(** The seats of the members, and the first of them in the order. *)
Let seat_of (m : RoundMember) : seat :=
  mkSeat (rest m) (weightOrZero (Weight m)) (remainderTieKey epoch (OperatorAddr m)).
Let left : nat := Z.to_nat (budget - sumZ whole members).
Let winners : list nat := take left (seat_order (seat_of <$> members)).

Lemma left_le : 0 <= budget - sumZ whole members /\ (left <= length members)%nat.
Proof.
  pose proof leftover_rests as HL.
  assert (0 <= sumZ rest members) by (apply sumZ_nonneg, Forall_true; intros; apply rest_range).
  assert (sumZ rest members <= (W - 1) * Z.of_nat (length members))
    by (apply sumZ_upper, Forall_true; intros m; pose proof (rest_range m); lia).
  assert (0 <= budget - sumZ whole members) by nia. split; [done|].
  unfold left. rewrite <- (Nat2Z.id (length members)). apply Z2Nat.inj_le; nia.
Qed.

Lemma sorted_seats :
  let L := merge_sort seat_le (imap pair (seat_of <$> members)) in
  L ≡ₚ imap pair (seat_of <$> members) /\ StronglySorted seat_le L.
Proof. split; [apply merge_sort_Permutation|apply StronglySorted_merge_sort; apply _]. Qed.

Lemma sumZ_imap_pair {A : Type} (f : A -> Z) l : sumZ (fun x : nat * A => f x.2) (imap pair l) = sumZ f l.
Proof.
  enough (Hg : forall k, sumZ (fun x : nat * A => f x.2) (imap (fun i x => (k + i, x)%nat) l) = sumZ f l)
    by apply (Hg 0%nat).
  induction l as [|x l IH]; intros k; [done|]. simpl. f_equal. rewrite <- (IH (S k)).
  f_equal. apply imap_ext. intros. simpl. f_equal. lia.
Qed.

Lemma winners_spec :
  NoDup winners /\ length winners = left /\
  forall i, i ∈ winners -> exists m, members !! i = Some m /\ 0 < rest m.
Proof.
  destruct sorted_seats as [HP HS]. destruct left_le as [Hleft Hn].
  set (L := merge_sort seat_le (imap pair (seat_of <$> members))) in *.
  assert (Hidx : forall i s, (i, s) ∈ L -> exists m, members !! i = Some m /\ s = seat_of m).
  { intros i s Hin. rewrite HP in Hin. apply elem_of_lookup_imap in Hin as (j & y & [= -> ->] & Hy).
    rewrite list_lookup_fmap in Hy. destruct (members !! j) as [m|]; simplify_eq/=. eauto. }
  assert (Hlen : length L = length members) by (rewrite HP, length_imap, length_fmap; done).
  assert (HW2 : winners = (take left L).*1) by (unfold winners, seat_order; by rewrite fmap_take).
  split_and!.
  - rewrite HW2, fmap_take. assert (HND : NoDup (L.*1)).
    2:{ rewrite <- (take_drop left L.*1) in HND. by apply NoDup_app in HND as [? _]. }
    rewrite HP.
    assert (Hseq : (imap pair (seat_of <$> members)).*1 = seq 0 (length members)).
    { rewrite fmap_imap. apply list_eq. intros i. rewrite list_lookup_imap, list_lookup_fmap.
      destruct (members !! i) eqn:E; simpl.
      - rewrite lookup_seq_lt; [done|]. by eapply lookup_lt_Some.
      - rewrite lookup_seq_ge; [done|]. by apply lookup_ge_None. }
    rewrite Hseq. apply NoDup_seq.
  - rewrite HW2, length_fmap, length_take. lia.
  - intros i Hi. rewrite HW2 in Hi. apply list_elem_of_fmap in Hi as ([j s] & -> & Hj). simpl.
    assert (Hpos : Forall (fun x => 0 < st_rem x.2) (take left L)).
    { apply (top_seats_positive _ (drop left L) W); rewrite ?take_drop; [done|done| |].
      - apply Forall_forall. intros [k t] Hk. apply Hidx in Hk as (m & _ & ->). apply rest_range.
      - rewrite length_take, Hlen, Nat.min_l by done. unfold left. rewrite Z2Nat.id by done.
        rewrite leftover_rests. rewrite (sumZ_perm _ _ _ HP).
        rewrite (sumZ_imap_pair (fun s => st_rem s)). by rewrite sumZ_map. }
    rewrite Forall_forall in Hpos. specialize (Hpos _ Hj). simpl in Hpos.
    destruct (Hidx j s) as (m & Hm & ->); [|by exists m].
    rewrite <- (take_drop left L). apply elem_of_app. by left.
Qed.

Lemma Allocate_base :
  let base := bump (whole <$> members) winners in
  AllocateEvalPoints members budget epoch = Ret (lay_out 1 (zip members base)) /\
  length base = length members /\ sumZ id base = budget /\
  Forall2 (fun m a => 0 <= a /\ Z.abs (a * W - pos_weight m * budget) < W) members base.
Proof.
  intros base. destruct winners_spec as (Hnd & Hlen & Hpos). destruct left_le as [Hleft Hn].
  assert (Hbl : length base = length members) by (unfold base; by rewrite bump_length, length_fmap).
  split_and!; [|done| |].
  - unfold AllocateEvalPoints. rewrite positive_total_run by nia. fold W. unfold mbind, outcome_bind.
    rewrite (proj2 (Z.ltb_ge budget 1)), (proj2 (Z.ltb_lt 0 W)) by lia. cbn [negb orb].
    assert (Hq : map_ok (quota budget W) members = Ret ((fun m => (whole m, rest m)) <$> members))
      by (apply quotas_run; [exact HW|lia|exact Hfit]).
    rewrite Hq.
    rewrite <- list_fmap_compose. change (fst ∘ _) with whole.
    rewrite sumZ_map. change (sumZ (fun x => id (whole x)) members) with (sumZ whole members).
    rewrite zip_with_fmap_same. change (fun x => mkSeat _ _ _) with seat_of.
    do 3 f_equal. destruct (Z.ltb_spec 0 (budget - sumZ whole members)); [done|].
    unfold base, winners, left. by rewrite (Z2Nat.nonpos (budget - sumZ whole members)) by lia.
  - unfold base. rewrite bump_sum.
    + rewrite Hlen, sumZ_map. change (sumZ (fun x => id (whole x)) members) with (sumZ whole members).
      unfold left. rewrite Z2Nat.id; lia.
    + apply Forall_forall. intros i Hi. destruct (Hpos i Hi) as (m & Hm & _).
      rewrite length_fmap. by eapply lookup_lt_Some.
  - apply Forall2_same_length_lookup_2; [done|]. intros i m a Hm Ha. unfold base in Ha.
    rewrite bump_lookup, list_lookup_fmap, Hm in Ha by done. cbn -[decide] in Ha. injection Ha as <-.
    pose proof (whole_rest m) as Hwr. pose proof (rest_range m).
    assert (0 <= whole m) by (apply Z.div_pos; [pose proof (pos_weight_nonneg m); nia|lia]).
    destruct (decide (i ∈ winners)) as [Hi|Hi]; [|nia].
    destruct (Hpos i Hi) as (m' & Hm' & Hr). simplify_eq. nia.
Qed.

End allocation.

Section apportionment.
Context `{MathIntLaws}.

Lemma Forall2_zip_l {A C : Type} (P : A -> C -> Prop) l k :
  Forall2 P l k -> Forall (fun p => P p.1 p.2) (zip l k).
Proof. induction 1; constructor; auto. Qed.

Lemma sumZ_snd_zip {A : Type} (l : list A) (k : list Z) :
  length k = length l -> sumZ snd (zip l k) = sumZ id k.
Proof. revert k. induction l as [|x l IH]; intros [|z k]; simpl; intros; try lia. rewrite IH; [done|lia]. Qed.

Lemma Forall2_zip_fst {A C D : Type} (P : A -> C -> D -> Prop) l k m :
  length k = length l -> Forall2 (fun p o => P p.1 p.2 o) (zip l k) m ->
  Forall2 (fun x o => exists c, (x, c) ∈ zip l k /\ P x c o) l m.
Proof.
  revert k m. induction l as [|x l IH]; intros [|c k] m Hl Hf; simpl in *; try lia; inv Hf; constructor.
  - exists c. split; [apply elem_of_cons; by left|done].
  - eapply Forall2_impl; [apply (IH k); [lia|done]|]. intros x' o (c' & Hin & HP).
    exists c'. split; [apply elem_of_cons; by right|done].
Qed.

(** The outcome of an allocation, member by member. *)
Lemma Allocate_quota members budget epoch :
  let W := sumZ pos_weight members in
  0 < W -> 1 <= budget < 2 ^ 63 -> W * budget < 2 ^ 256 ->
  exists out base,
    AllocateEvalPoints members budget epoch = Ret out /\
    out = lay_out 1 (zip members base) /\
    Forall (fun p => 0 <= p.2) (zip members base) /\ sumZ snd (zip members base) = budget /\
    TotalEvalPoints out = budget /\
    Forall2 (fun m o => allocated m (owned o) o /\
                        Z.abs (owned o * W - pos_weight m * budget) < W) members out.
Proof.
  intros W HW Hb Hf. destruct (Allocate_base members budget epoch HW Hb Hf) as (Hrun & Hlen & Hsum & Hq).
  set (base := bump _ _) in *. exists (lay_out 1 (zip members base)), base.
  assert (Hpos : Forall (fun p : RoundMember * Z => 0 <= p.2) (zip members base)).
  { apply Forall2_zip_l in Hq. eapply Forall_impl; [exact Hq|]. simpl. lia. }
  assert (Hs : sumZ snd (zip members base) = budget) by (by rewrite sumZ_snd_zip).
  pose proof (lay_out_spec _ 1 Hpos) as Hspec.
  split_and!; try done.
  - rewrite <- Hs. unfold TotalEvalPoints. clear -Hspec.
    induction Hspec as [|[m a] o l l' Ho _ IH]; simpl; [done|].
    destruct Ho as (_ & _ & _ & _ & _ & _ & ->). simpl. lia.
  - apply Forall2_zip_fst in Hspec; [|done]. apply Forall2_zip_l in Hq. rewrite Forall_forall in Hq.
    eapply Forall2_impl; [exact Hspec|]. intros m o (a & Hin & Ho). specialize (Hq _ Hin). simpl in Hq.
    assert (owned o = a) as -> by apply Ho. tauto.
Qed.

(** [AllocateEvalPoints] always returns on a committee with positive stake
    [W]; the points it hands out are exactly [1 .. budget], each to one member in
    the given order; every member keeps its identity and weight and receives
    within one point of its exact quota [weight * budget / W], so a member
    without stake owns nothing. *)
Theorem AllocateEvalPoints_proportional (members : list RoundMember) (budget epoch : Z) :
  let W := sumZ pos_weight members in
  0 < W -> 1 <= budget < 2 ^ 63 -> W * budget < 2 ^ 256 ->
  exists out,
    AllocateEvalPoints members budget epoch = Ret out /\
    concat (EvalPoints <$> out) = seqZ 1 budget /\
    TotalEvalPoints out = budget /\
    Forall2 (fun m o => allocated m (owned o) o /\
                        Z.abs (owned o * W - pos_weight m * budget) < W) members out.
Proof.
  intros W HW Hb Hf.
  destruct (Allocate_quota members budget epoch HW Hb Hf) as (out & base & Hrun & Hout & Hpos & Hsum & Htot & Hq).
  exists out. split_and!; try done. rewrite Hout, lay_out_points by done. by rewrite Hsum.
Qed.

End apportionment.

(** ** Coalitions *)

Lemma sublist_Forall {A : Type} (P : A -> Prop) (C l : list A) : C `sublist_of` l -> Forall P l -> Forall P C.
Proof. induction 1; intros Hf; inv Hf; auto. Qed.

Lemma sublist_full {A : Type} (C l : list A) : C `sublist_of` l -> length C = length l -> C = l.
Proof.
  induction 1 as [|x C l _ IH|x C l Hs IH]; intros Hl; simpl in *; [done|f_equal; auto|].
  apply sublist_length in Hs. lia.
Qed.

Lemma sublist_sum_le {A : Type} (f : A -> Z) (C l : list A) :
  Forall (fun x => 0 <= f x) l -> C `sublist_of` l -> sumZ f C <= sumZ f l.
Proof.
  intros Hf Hs. induction Hs as [|x C l _ IH|x C l _ IH]; simpl; [lia| |];
    apply Forall_cons in Hf as [Hx Hf]; specialize (IH Hf); lia.
Qed.

Lemma owned_nonneg m : 0 <= owned m.
Proof. unfold owned. lia. Qed.

Lemma coalition_points_le C l : C `sublist_of` l -> TotalEvalPoints C <= TotalEvalPoints l.
Proof. apply sublist_sum_le, Forall_true, owned_nonneg. Qed.

Definition weights_nonneg (ms : list RoundMember) : Prop :=
  Forall (fun m => 0 <= weightOrZero (Weight m)) ms.

Lemma pos_weight_stake ms : weights_nonneg ms -> sumZ pos_weight ms = stake ms.
Proof. intros Hf. apply sumZ_ext. eapply Forall_impl; [exact Hf|]. simpl. intros m Hm.
  unfold pos_weight. by rewrite Z.max_r. Qed.

(** A coalition of quota-bounded members owns less than its quota plus one point
    per member. *)
Lemma coalition_quota W budget C :
  0 < W -> Forall (fun o => owned o * W - weightOrZero (Weight o) * budget < W) C ->
  TotalEvalPoints C * W <= stake C * budget + Z.of_nat (length C) * (W - 1).
Proof.
  intros HW. unfold TotalEvalPoints, stake. induction 1 as [|o C Ho _ IH]; simpl; [lia|].
  rewrite Nat2Z.inj_succ. lia.
Qed.

(** The strict threshold of an allocated committee whose budget leaves room for
    it. *)
Lemma strict_threshold_value out :
  out <> [] -> Forall (fun o => Weighted o = true) out ->
  3 * Z.of_nat (length out) <= TotalEvalPoints out < 2 ^ 31 ->
  (stakeThreshold out true).1 = 2 * TotalEvalPoints out / 3 + Z.of_nat (length out).
Proof.
  intros Hne Hw Hb. unfold stakeThreshold. set (S := TotalEvalPoints out) in *.
  assert (Hn : (0 < length out)%nat) by (destruct out; [done|simpl; lia]).
  rewrite (proj2 (Z.ltb_ge S 1)) by lia.
  assert (Hex : existsb Weighted out = true).
  { destruct out as [|o out]; [done|]. inv Hw. simpl. by rewrite H1. }
  rewrite Hex. cbn [negb]. rewrite Z.quot_div_nonneg by lia.
  rewrite (proj2 (Z.ltb_ge S _)) by div_lia. rewrite (proj2 (Z.ltb_ge _ 1)) by div_lia.
  unfold u32. cbn [fst]. apply Z.mod_small. div_lia.
Qed.

Section confidentiality.
Context `{MathIntLaws}.

(** What an allocation guarantees of the committee it returns. *)
Lemma allocated_facts members budget epoch out :
  let W := sumZ pos_weight members in
  0 < W -> weights_nonneg members -> W * budget < 2 ^ 256 -> 1 <= budget < 2 ^ 63 ->
  AllocateEvalPoints members budget epoch = Ret out ->
  out <> [] /\ length out = length members /\ stake out = W /\ TotalEvalPoints out = budget /\
  Forall (fun o => Weighted o = true) out /\ weights_nonneg out /\
  Forall (fun o => owned o * W - weightOrZero (Weight o) * budget < W) out.
Proof.
  intros W HW Hnn Hf Hb Hrun.
  destruct (Allocate_quota members budget epoch HW Hb Hf)
    as (out' & base & Hrun' & _ & _ & _ & Htot & Hq). fold W in Hq.
  rewrite Hrun' in Hrun. injection Hrun as <-. rename out' into out.
  pose proof (Forall2_length _ _ _ Hq) as Hlen.
  assert (Hw : Forall2 (fun m o => Weight o = Weight m) members out).
  { eapply Forall2_impl; [exact Hq|]. by intros m o [(_ & _ & _ & _ & ? & _) _]. }
  assert (Hst : stake out = stake members).
  { unfold stake. clear -Hw. induction Hw as [|m o ? ? Ha _ IH]; [done|]. simpl. by rewrite IH, Ha. }
  split_and!; [|done| |done| | |].
  - intros ->. destruct members; [|done]. unfold W in HW. simpl in HW. lia.
  - unfold W. by rewrite pos_weight_stake.
  - clearbody W. clear -Hq. induction Hq as [|m o ? ? [Ha _] _ IH]; constructor; [apply Ha|done].
  - clear -Hw Hnn. induction Hw as [|m o ? ? Ha _ IH]; constructor; apply Forall_cons in Hnn as [Hm Hnn].
    + by rewrite Ha.
    + by apply IH.
  - clearbody W. clear -Hq Hnn. induction Hq as [|m o ? ? [Ha Hd] _ IH]; constructor;
      apply Forall_cons in Hnn as [Hm Hnn]; [|auto].
    destruct Ha as (_ & _ & _ & _ & -> & _). unfold pos_weight in Hd. simpl in Hm.
    rewrite Z.max_r in Hd by done. lia.
Qed.

(** No coalition of at most two thirds of the stake reaches the strict threshold;
    [3 * n <= budget] is implied by the validated coupling of budget and
    committee size. *)
Lemma allocated_coalition members budget epoch out C :
  let W := sumZ pos_weight members in
  0 < W -> weights_nonneg members -> W * budget < 2 ^ 256 ->
  3 * Z.of_nat (length members) <= budget < 2 ^ 31 ->
  AllocateEvalPoints members budget epoch = Ret out -> C `sublist_of` out ->
  3 * stake C <= 2 * stake out ->
  TotalEvalPoints C < (stakeThreshold out true).1.
Proof.
  intros W HW Hnn Hf Hb Hrun HC Hst.
  assert (Hn : (0 < length members)%nat) by (destruct members; [unfold W in HW; simpl in *; lia|simpl; lia]).
  destruct (allocated_facts members budget epoch out HW Hnn Hf ltac:(lia) Hrun)
    as (Hne & Hlen & Hstake & Htot & Hwd & _ & Hq). fold W in Hstake, Hq.
  rewrite strict_threshold_value by (done || lia).
  assert (HqC : TotalEvalPoints C * W <= stake C * budget + Z.of_nat (length C) * (W - 1))
    by (apply coalition_quota; [done|]; by eapply sublist_Forall).
  pose proof (sublist_length _ _ HC) as HlC.
  assert (length C <> length out).
  { intros E. apply (sublist_full _ _ HC) in E. subst C. rewrite Hstake in Hst. lia. }
  rewrite Hstake in Hst. rewrite Htot.
  assert (3 * (TotalEvalPoints C * W) < (2 * budget + 3 * (Z.of_nat (length out) - 1) + 1) * W) by nia.
  assert (3 * TotalEvalPoints C < 2 * budget + 3 * (Z.of_nat (length out) - 1) + 1) by nia.
  div_lia.
Qed.

(** C8: when a committee is allocated its points and the strict threshold
    [floor(2S/3) + n] is taken, no coalition holding at most two thirds of the
    committee's stake owns enough evaluation points to reconstruct, whatever the
    stake distribution, the tie-breaks and the rounding. *)
Theorem strict_threshold_confidential (members : list RoundMember) (budget epoch : Z)
    (out C : list RoundMember) :
  0 < sumZ pos_weight members -> weights_nonneg members ->
  sumZ pos_weight members * budget < 2 ^ 256 ->
  3 * Z.of_nat (length members) <= budget < 2 ^ 31 ->
  AllocateEvalPoints members budget epoch = Ret out ->
  C `sublist_of` out -> 3 * stake C <= 2 * stake out ->
  TotalEvalPoints C < (stakeThreshold out true).1.
Proof. intros. by eapply allocated_coalition. Qed.

End confidentiality.

(** ** The dynamic program *)

Definition cap (S x : Z) : Z := if S <? x then S else x.

Lemma cap_min S x : cap S x = Z.min S x.
Proof. unfold cap. destruct (Z.ltb_spec S x); lia. Qed.

Lemma cap_add S a b : 0 <= b -> cap S (cap S a + b) = cap S (a + b).
Proof. rewrite !cap_min. lia. Qed.

(** [dp] describes the coalitions of [ms]: every entry is the stake of one, and
    every coalition is matched by an entry at most as expensive. *)
Definition dp_inv (S : Z) (ms : list RoundMember) (dp : gmap Z Z) : Prop :=
  (forall k v, dp !! k = Some v ->
     exists C, C `sublist_of` ms /\ cap S (TotalEvalPoints C) = k /\ stake C = v) /\
  (forall C, C `sublist_of` ms ->
     exists v, dp !! cap S (TotalEvalPoints C) = Some v /\ v <= stake C).

Lemma stake_app C D : stake (C ++ D) = stake C + stake D.
Proof. apply sumZ_app. Qed.
Lemma points_app C D : TotalEvalPoints (C ++ D) = TotalEvalPoints C + TotalEvalPoints D.
Proof. apply sumZ_app. Qed.

Lemma sublist_snoc {A : Type} (C l : list A) x :
  C `sublist_of` l ++ [x] -> C `sublist_of` l \/ exists D, C = D ++ [x] /\ D `sublist_of` l.
Proof.
  intros HC. apply sublist_app_r in HC as (C1 & C2 & -> & H1 & H2).
  apply sublist_cons_r in H2 as [H2|(k & -> & H2)]; apply sublist_nil_r in H2; subst.
  - left. by rewrite app_nil_r.
  - right. eauto.
Qed.

(** The state of the inner loop over [have], descending, when the entries above
    [h] have been processed. *)
Definition dp_loop (S pts w h : Z) (ms : list RoundMember) (m : RoundMember) (old dp : gmap Z Z) : Prop :=
  (forall k, k <= h -> dp !! k = old !! k) /\
  (forall k v, dp !! k = Some v ->
     exists C, C `sublist_of` ms ++ [m] /\ cap S (TotalEvalPoints C) = k /\ stake C = v) /\
  (forall k v, old !! k = Some v -> exists v', dp !! k = Some v' /\ v' <= v) /\
  (forall k v, h < k <= S -> old !! k = Some v -> exists v', dp !! cap S (k + pts) = Some v' /\ v' <= v + w).

Section dynamic_program.
Context `{MathIntLaws}.
Context (S0 : Z).

Lemma dp_update_loop h ms m old dp :
  let pts := owned m in let w := weightOrZero (Weight m) in
  0 <= h <= S0 -> 0 < pts -> 0 <= w -> stake (ms ++ [m]) < 2 ^ 256 -> weights_nonneg ms ->
  dp_inv S0 ms old -> dp_loop S0 pts w h ms m old dp ->
  exists dp', dp_update S0 pts w (Ret dp) h = Ret dp' /\ dp_loop S0 pts w (h - 1) ms m old dp'.
Proof.
  intros pts w Hh Hp Hw Hb Hnn [Hs _] (Ha & Hsd & Hc & Hd).
  unfold dp_update. cbn [mbind outcome_bind]. rewrite (Ha h) by lia.
  assert (Hnext : h <= cap S0 (h + pts)) by (rewrite cap_min; lia).
  destruct (old !! h) as [v|] eqn:Eh; cycle 1.
  { exists dp. split; [done|]. split_and!; [intros; apply Ha; lia|done|done|].
    intros k v Hk Hold. apply Hd; [|done]. destruct (decide (k = h)); [congruence|lia]. }
  destruct (Hs h v Eh) as (C & HC & HCk & HCv).
  assert (Hext : C ++ [m] `sublist_of` ms ++ [m]) by (by apply sublist_app).
  assert (Hv : 0 <= v /\ v + w < 2 ^ 256).
  { rewrite stake_app in Hb. unfold stake in Hb at 2. simpl in Hb. fold w in Hb.
    pose proof (sublist_sum_le _ _ _ Hnn HC) as Hle. fold (stake C) (stake ms) in Hle.
    pose proof (sumZ_nonneg _ _ (sublist_Forall _ _ _ HC Hnn)) as H0'. fold (stake C) in H0'. lia. }
  rewrite o_int_fits by (apply int_fits_spec; lia). cbn [mbind outcome_bind].
  fold (cap S0 (h + pts)). set (next := cap S0 (h + pts)) in *.
  assert (Hins : forall u, dp !! next = u -> match u with Some u => v + w < u | None => True end ->
    dp_loop S0 pts w (h - 1) ms m old (<[next := v + w]> dp)).
  { intros u Hu Hlt. split_and!.
    - intros k Hk. rewrite lookup_insert_ne by lia. apply Ha. lia.
    - intros k x Hx. rewrite lookup_insert in Hx. case_decide as Ek; [|by apply Hsd]. injection Hx as <-. subst k.
      exists (C ++ [m]). split_and!; [done| |].
      + rewrite points_app. change (TotalEvalPoints [m]) with (owned m + 0). rewrite Z.add_0_r.
        fold pts. rewrite <- cap_add by lia. by rewrite HCk.
      + rewrite stake_app. unfold stake at 2. simpl. fold w. lia.
    - intros k x Hx. destruct (Hc k x Hx) as (x' & Hx' & Hle). rewrite lookup_insert. case_decide; [|eauto].
      subst. rewrite Hx' in Hlt. eexists. split; [done|]. lia.
    - intros k x Hk Hx. rewrite lookup_insert. destruct (decide (k = h)) as [->|Hne].
      + simplify_eq. rewrite decide_True by done. eexists. split; [done|]. lia.
      + destruct (Hd k x) as (x' & Hx' & Hle); [lia|done|]. case_decide; [|eauto].
        subst u. rewrite H1, Hx' in Hlt. eexists. split; [done|]. lia. }
  destruct (dp !! next) as [u|] eqn:Eu.
  - destruct (Z.ltb_spec (v + w) u).
    + exists (<[next := v + w]> dp). split; [done|]. by apply (Hins (Some u)).
    + exists dp. split; [done|]. split_and!; [intros; apply Ha; lia|done|done|].
      intros k x Hk Hx. destruct (decide (k = h)) as [->|Hne]; [|apply Hd; [lia|done]].
      rewrite Eh in Hx. injection Hx as <-. exists u. split; [done|lia].
  - exists (<[next := v + w]> dp). split; [done|]. by apply (Hins None).
Qed.

Lemma dp_loop_all n : forall ms m old dp,
  let pts := owned m in let w := weightOrZero (Weight m) in
  Z.of_nat n <= S0 + 1 -> 0 < pts -> 0 <= w -> stake (ms ++ [m]) < 2 ^ 256 -> weights_nonneg ms ->
  dp_inv S0 ms old -> dp_loop S0 pts w (Z.of_nat n - 1) ms m old dp ->
  exists dp', foldl (dp_update S0 pts w) (Ret dp) (rev (seqZ 0 (Z.of_nat n))) = Ret dp' /\
    dp_loop S0 pts w (-1) ms m old dp'.
Proof.
  induction n as [|n IH]; intros ms m old dp pts w Hn Hp Hw Hb Hnn Hinv Hloop; [by exists dp|].
  rewrite seqZ_S, rev_app_distr. cbn [rev app foldl].
  destruct (dp_update_loop (Z.of_nat n) ms m old dp) as (dp1 & R1 & L1); try done.
  { lia. }
  { by replace (Z.of_nat (S n) - 1) with (Z.of_nat n) in Hloop by lia. }
  fold pts w in R1. rewrite Z.add_0_l, R1. apply (IH ms m old dp1); try done. lia.
Qed.

Lemma dp_member_inv ms m dp :
  0 <= S0 -> 0 <= weightOrZero (Weight m) -> stake (ms ++ [m]) < 2 ^ 256 -> weights_nonneg ms ->
  dp_inv S0 ms dp -> exists dp', dp_member S0 dp m = Ret dp' /\ dp_inv S0 (ms ++ [m]) dp'.
Proof.
  intros HS Hw Hb Hnn Hinv. unfold dp_member. pose proof (owned_nonneg m).
  destruct (Z.eqb_spec (owned m) 0) as [E|E].
  - exists dp. split; [done|]. destruct Hinv as [Hs Hc]. split.
    + intros k v Hk. destruct (Hs k v Hk) as (C & HC & ?). exists C. split; [|done]. by apply sublist_inserts_r.
    + intros C HC. apply sublist_snoc in HC as [HC|(D & -> & HC)]; [by apply Hc|].
      destruct (Hc D HC) as (v & Hv & Hle). exists v. rewrite points_app, stake_app.
      unfold TotalEvalPoints at 2, stake at 2. simpl. rewrite E, Z.add_0_r, Z.add_0_r.
      split; [done|lia].
  - destruct (dp_loop_all (Z.to_nat (S0 + 1)) ms m dp dp) as (dp' & R & L); try done; try lia.
    { destruct Hinv as [Hs _]. split_and!; [done| |eauto with lia|intros; lia].
      intros k v Hk. destruct (Hs k v Hk) as (C & HC & ?). exists C. split; [|done]. by apply sublist_inserts_r. }
    rewrite Z2Nat.id in R by lia. exists dp'. split; [done|].
    destruct L as (_ & Hs & Hc & Hd), Hinv as [Hs0 Hc0]. split; [done|].
    intros C HC. apply sublist_snoc in HC as [HC|(D & -> & HC)].
    + destruct (Hc0 C HC) as (v & Hv & Hle). destruct (Hc _ _ Hv) as (v' & Hv' & ?).
      exists v'. split; [done|lia].
    + destruct (Hc0 D HC) as (v & Hv & Hle).
      assert (0 <= TotalEvalPoints D) by (apply sumZ_nonneg, Forall_true, owned_nonneg).
      destruct (Hd (cap S0 (TotalEvalPoints D)) v) as (v' & Hv' & ?); [rewrite cap_min; lia|done|].
      exists v'. rewrite points_app, stake_app. unfold TotalEvalPoints at 2, stake at 2. simpl.
      rewrite !Z.add_0_r. rewrite cap_add in Hv' by lia. split; [done|lia].
Qed.

Lemma dp_members_inv ms2 : forall ms1 dp,
  0 <= S0 -> stake (ms1 ++ ms2) < 2 ^ 256 -> weights_nonneg (ms1 ++ ms2) ->
  dp_inv S0 ms1 dp ->
  exists dp', fold_ok (dp_member S0) dp ms2 = Ret dp' /\ dp_inv S0 (ms1 ++ ms2) dp'.
Proof.
  induction ms2 as [|m ms2 IH]; intros ms1 dp HS Hb Hnn Hinv.
  - exists dp. by rewrite app_nil_r.
  - pose proof Hnn as Hnn'. rewrite (cons_middle m), app_assoc in Hb, Hnn. rewrite stake_app in Hb.
    apply Forall_app in Hnn as [Hnn1 Hnn2].
    pose proof (sumZ_nonneg _ _ Hnn2) as Hms2. fold (stake ms2) in Hms2.
    apply Forall_app in Hnn1 as [Hnn0 Hm]. apply Forall_cons in Hm as [Hm _].
    destruct (dp_member_inv ms1 m dp) as (dp1 & R1 & I1); try done; [lia|].
    destruct (IH (ms1 ++ [m]) dp1) as (dp2 & R2 & I2); try done.
    + rewrite stake_app. lia.
    + by rewrite <- app_assoc.
    + exists dp2. simpl. rewrite R1. split; [exact R2|]. by rewrite <- app_assoc in I2.
Qed.

Lemma dp_scan_spec dp limit pts :
  (forall k v, dp !! k = Some v -> 0 <= v /\ v * 3 < 2 ^ 256) ->
  exists b, dp_scan dp limit pts = Ret b /\
    (b = true <-> exists p v, p ∈ pts /\ dp !! p = Some v /\ v * 3 <= limit).
Proof.
  intros Hv. induction pts as [|p pts (b & IHr & IHb)].
  - exists false. split; [done|]. split; [done|]. intros (p & v & Hp & _). by apply not_elem_of_nil in Hp.
  - simpl. destruct (dp !! p) as [v|] eqn:E.
    + destruct (Hv p v E). rewrite o_int_fits by (apply int_fits_spec; lia). cbn [mbind outcome_bind].
      destruct (Z.ltb_spec limit (v * 3)); simpl.
      * exists b. split; [done|]. rewrite IHb. split; intros (p' & v' & Hp & Hd & Hl).
        -- exists p', v'. split; [apply elem_of_cons; by right|done].
        -- apply elem_of_cons in Hp as [->|Hp]; [simplify_eq; lia|eauto].
      * exists true. split; [done|]. split; [|done]. intros _. exists p, v.
        split; [apply elem_of_cons; by left|done].
    + exists b. split; [done|]. rewrite IHb. split; intros (p' & v' & Hp & Hd & Hl).
      * exists p', v'. split; [apply elem_of_cons; by right|done].
      * apply elem_of_cons in Hp as [->|Hp]; [congruence|eauto].
Qed.

End dynamic_program.

Section guard.
Context `{MathIntLaws}.

Lemma totals_run members :
  Forall (fun m => Weighted m = true) members -> weights_nonneg members -> stake members < 2 ^ 256 ->
  fold_ok (fun (st : option (Z * Z)) m =>
    match st with
    | None => Ret None
    | Some (totalStake, S0) =>
        if negb (Weighted m) then Ret None else
        totalStake ← o_int (totalStake + weightOrZero (Weight m));
        Ret (Some (totalStake, S0 + owned m))
    end) (Some (0, 0)) members = Ret (Some (stake members, TotalEvalPoints members)).
Proof.
  intros Hw Hnn Hb. unfold stake, TotalEvalPoints in *.
  enough (Hg : forall a b, 0 <= a -> a + sumZ (fun m => weightOrZero (Weight m)) members < 2 ^ 256 ->
    fold_ok _ (Some (a, b)) members =
    Ret (Some (a + sumZ (fun m => weightOrZero (Weight m)) members, b + sumZ owned members)))
    by (by apply Hg).
  clear Hb. induction members as [|m ms IH]; intros a b Ha Hb; simpl in *.
  { by rewrite !Z.add_0_r. }
  apply Forall_cons in Hw as [Hm Hw]. apply Forall_cons in Hnn as [Hm0 Hnn]. simpl in Hm0. rewrite Hm. simpl.
  pose proof (sumZ_nonneg _ _ Hnn) as Hms.
  rewrite o_int_fits by (apply int_fits_spec; lia). simpl. rewrite IH by (done || lia).
  do 3 f_equal; lia.
Qed.

(** The dynamic program decides the existence of a coalition. *)
Lemma coalition_exists members threshold :
  Forall (fun m => Weighted m = true) members -> weights_nonneg members ->
  0 < stake members -> stake members * 3 < 2 ^ 256 -> 0 < threshold ->
  exists b, coalitionBelowTwoThirdsCanDecrypt members threshold = Ret b /\
    (b = true <-> exists C, C `sublist_of` members /\ threshold <= TotalEvalPoints C /\
                            3 * stake C <= 2 * stake members).
Proof.
  intros Hw Hnn Hpos Hb Ht. unfold coalitionBelowTwoThirdsCanDecrypt.
  rewrite (proj2 (Z.eqb_neq threshold 0)) by lia.
  rewrite totals_run by (done || lia). cbn [mbind outcome_bind]. set (S := TotalEvalPoints members).
  assert (HS : 0 <= S) by (apply sumZ_nonneg, Forall_true, owned_nonneg).
  rewrite (proj2 (Z.ltb_lt 0 (stake members))) by lia. cbn [negb orb].
  assert (Hno : S < threshold -> false = true <-> exists C, C `sublist_of` members /\
    threshold <= TotalEvalPoints C /\ 3 * stake C <= 2 * stake members).
  { intros Hlt. split; [done|]. intros (C & HC & Hle & _). apply coalition_points_le in HC. fold S in HC. lia. }
  destruct (Z.eqb_spec S 0); [exists false; split; [done|]; apply Hno; lia|].
  destruct (Z.ltb_spec S threshold); [exists false; split; [done|]; by apply Hno|].
  destruct (dp_members_inv S members [] {[ 0 := 0 ]}) as (dp & R & Hs & Hc); try done; [simpl; lia| |].
  { split.
    - intros k v Hk. apply lookup_singleton_Some in Hk as [<- <-]. exists []. split_and!; [done| |done].
      rewrite cap_min. unfold TotalEvalPoints. simpl. lia.
    - intros C HC. apply sublist_nil_r in HC as ->. exists 0. rewrite cap_min. unfold TotalEvalPoints. simpl.
      rewrite Z.min_r by lia. by rewrite lookup_singleton_eq. }
  rewrite R. cbn [mbind outcome_bind]. rewrite o_int_fits by (apply int_fits_spec; lia).
  cbn [mbind outcome_bind]. simpl in Hs, Hc.
  destruct (dp_scan_spec dp (stake members * 2) (seqZ threshold (S + 1 - threshold))) as (b & Rb & Hb').
  { intros k v Hk. destruct (Hs k v Hk) as (C & HC & _ & <-).
    pose proof (sublist_sum_le _ _ _ Hnn HC) as Hle.
    pose proof (sumZ_nonneg _ _ (sublist_Forall _ _ _ HC Hnn)) as H0'.
    fold (stake C) in H0', Hle. fold (stake members) in Hle. lia. }
  exists b. split; [done|]. rewrite Hb'. split.
  - intros (p & v & Hp & Hv & Hl). apply elem_of_seqZ in Hp.
    destruct (Hs p v Hv) as (C & HC & Hcap & <-). exists C. rewrite cap_min in Hcap. split_and!; [done|lia|lia].
  - intros (C & HC & Hle & Hst). destruct (Hc C HC) as (v & Hv & Hvle).
    pose proof (coalition_points_le _ _ HC). fold S in H1.
    rewrite cap_min, Z.min_r in Hv by lia.
    exists (TotalEvalPoints C), v. split_and!; [apply elem_of_seqZ; lia|done|lia].
Qed.

Definition operator_over (t bar : Z) (m : RoundMember) : bool :=
  (t <=? owned m) || ((0 <? bar) && (bar <=? owned m)).

Lemma operator_breach_spec t bar ms :
  Forall (fun m => Weighted m = true) ms -> Forall (fun m => owned m < 2 ^ 32) ms ->
  operator_breach t bar ms = if existsb (operator_over t bar) ms then Some true else None.
Proof.
  intros Hw Hs. induction ms as [|m ms IH]; [done|]. simpl.
  apply Forall_cons in Hw as [Hm Hw]. apply Forall_cons in Hs as [Hsm Hs]. rewrite Hm. simpl.
  unfold u32. rewrite Z.mod_small by (pose proof (owned_nonneg m); lia). rewrite IH by done.
  unfold operator_over at 2.
  by destruct (t <=? owned m), (0 <? bar), (bar <=? owned m).
Qed.

Lemma owned_le_total m ms : m ∈ ms -> owned m <= TotalEvalPoints ms.
Proof. intros Hm. apply sumZ_elem_le; [apply Forall_true, owned_nonneg|done]. Qed.

(** The three ways a committee is unsafe at threshold [t]. *)
Definition committee_safe (members : list RoundMember) (t : Z) (strict : bool) : Prop :=
  (forall m, m ∈ members -> owned m < t) /\
  (strict = true -> t <= TotalEvalPoints members ->
     forall m, m ∈ members -> t <= TotalEvalPoints members - owned m) /\
  (forall C, C `sublist_of` members -> 3 * stake C <= 2 * stake members -> TotalEvalPoints C < t).

(** C34: the admission guard is exact. On a weighted committee it answers without
    overflow, and it admits exactly when no operator alone owns the threshold,
    (with the strict rule) no operator alone can withhold enough points to block
    reconstruction by all the others, and no coalition of at most two thirds of
    the stake owns the threshold. *)
Theorem concentration_guard_exact (members : list RoundMember) (t : Z) (strict : bool) :
  Forall (fun m => Weighted m = true) members -> weights_nonneg members ->
  0 < stake members -> stake members * 3 < 2 ^ 256 ->
  0 < t -> TotalEvalPoints members < 2 ^ 32 ->
  exists b, concentration_breached members t strict = Ret b /\
            (b = false <-> committee_safe members t strict).
Proof.
  intros Hw Hnn Hpos Hb Ht HS. unfold concentration_breached.
  set (S := TotalEvalPoints members) in *. set (bar := if strict then _ else 0).
  rewrite operator_breach_spec; [|done|].
  2:{ apply Forall_forall. intros m Hm. pose proof (owned_le_total m members Hm). fold S in H1. lia. }
  assert (Hbar : (0 <? bar) = strict && (t <=? S) /\ ((0 <? bar) = true -> bar = S - t + 1)).
  { unfold bar. destruct strict; [|done]. destruct (Z.ltb_spec t (S + 1)); simpl.
    - rewrite (proj2 (Z.ltb_lt _ _)), (proj2 (Z.leb_le _ _)) by lia. done.
    - by rewrite (proj2 (Z.leb_gt _ _)) by lia. }
  destruct Hbar as [Hbar1 Hbar2]. destruct (existsb _ members) eqn:E.
  - exists true. split; [done|]. split; [done|]. intros (Hs1 & Hs2 & _).
    apply existsb_exists in E as (m & Hm%list_elem_of_In & Ho). unfold operator_over in Ho.
    specialize (Hs1 m Hm). rewrite (proj2 (Z.leb_gt t (owned m))) in Ho by done. simpl in Ho.
    apply andb_true_iff in Ho as [H0b Hle]. rewrite (Hbar2 H0b) in Hle. rewrite Hbar1 in H0b. bool_prop.
    specialize (Hs2 ltac:(done) ltac:(done) m Hm). fold S in Hs2. lia.
  - destruct (coalition_exists members t) as (b & R & Hbt); try done. exists b. split; [done|].
    assert (Hop : forall m, m ∈ members -> operator_over t bar m = false).
    { intros m Hm. apply not_true_iff_false. intros Ho. apply not_true_iff_false in E. apply E.
      apply existsb_exists. exists m. split; [by apply list_elem_of_In|done]. }
    split.
    + intros ->. split_and!.
      * intros m Hm. specialize (Hop m Hm). unfold operator_over in Hop. bool_prop. lia.
      * intros -> HtS m Hm. specialize (Hop m Hm). unfold operator_over in Hop. fold S in HtS |- *.
        rewrite Hbar1 in *. rewrite (proj2 (Z.leb_le t S)) in * by done. simpl in *. rewrite Hbar2 in Hop by done.
        bool_prop. lia.
      * intros C HC Hst. apply Z.nle_gt. intros Hle. enough (false = true) by done. apply Hbt. eauto.
    + intros (_ & _ & Hs3). apply not_true_iff_false. intros Hbt'. apply Hbt in Hbt' as (C & HC & Hle & Hst).
      specialize (Hs3 C HC Hst). lia.
Qed.

(** On a committee allocated and given the strict threshold, the guard never
    trips on a coalition: it refuses exactly when one operator alone owns
    [S - t + 1] points, enough to freeze the epoch. *)
Theorem strict_guard_only_strands (members : list RoundMember) (budget epoch : Z) (out : list RoundMember) :
  0 < sumZ pos_weight members -> weights_nonneg members ->
  sumZ pos_weight members * budget < 2 ^ 256 ->
  3 * Z.of_nat (length members) <= budget < 2 ^ 31 ->
  AllocateEvalPoints members budget epoch = Ret out ->
  let t := (stakeThreshold out true).1 in
  concentration_breached out t true =
  Ret (existsb (fun m => budget - t + 1 <=? owned m) out).
Proof.
  intros HW Hnn Hf Hb Hrun t.
  assert (Hn : (0 < length members)%nat) by (destruct members; simpl in *; lia).
  destruct (allocated_facts members budget epoch out HW Hnn Hf ltac:(lia) Hrun)
    as (Hne & Hlen & Hstake & Htot & Hwd & Hnn' & _).
  assert (Ht : t = 2 * budget / 3 + Z.of_nat (length members)).
  { unfold t. rewrite strict_threshold_value by (done || lia). by rewrite Htot, Hlen. }
  assert (HtS : 0 < t <= budget) by div_lia.
  unfold concentration_breached. rewrite Htot.
  rewrite (proj2 (Z.ltb_lt t (budget + 1))) by lia.
  rewrite operator_breach_spec; [|done|].
  2:{ apply Forall_forall. intros m Hm. pose proof (owned_le_total m out Hm). lia. }
  assert (Hex : existsb (operator_over t (budget - t + 1)) out =
                existsb (fun m => budget - t + 1 <=? owned m) out).
  { clearbody t. clear -Ht HtS Hn. induction out as [|m ms IH]; [done|]. simpl. rewrite IH. f_equal. unfold operator_over.
    rewrite (proj2 (Z.ltb_lt 0 _)) by lia. simpl.
    destruct (Z.leb_spec t (owned m)); simpl; [|done]. symmetry. apply Z.leb_le. div_lia. }
  rewrite Hex. destruct (existsb (fun m => budget - t + 1 <=? owned m) out); [done|].
  destruct (coalition_exists out t) as (b & R & Hbt); try done; [lia|nia|lia|].
  rewrite R. f_equal. apply not_true_iff_false. intros Hb'. apply Hbt in Hb' as (C & HC & Hle & Hst).
  pose proof (allocated_coalition members budget epoch out C HW Hnn Hf Hb Hrun HC Hst). fold t in H1. lia.
Qed.

End guard.

(** ** A concrete committee: stakes 50, 30, 15 and 5, sixteen points. *)
Module Example.
#[local] Existing Instance decimal_MathInt.

Definition member (i : Z) (op : string) (w : Z) : RoundMember :=
  mkRoundMember i op "" "" (Some w) [] false.
Definition committee : list RoundMember :=
  [member 1 "opA" 50; member 2 "opB" 30; member 3 "opC" 15; member 4 "opD" 5].
Definition allocated_committee : list RoundMember :=
  match AllocateEvalPoints committee 16 7 with Ret out => out | _ => [] end.

Lemma AllocateEvalPoints_proportional_witness :
  (owned <$> allocated_committee) = [8; 5; 2; 1] /\
  exists out, AllocateEvalPoints committee 16 7 = Ret out /\
    concat (EvalPoints <$> out) = seqZ 1 16 /\ TotalEvalPoints out = 16.
Proof.
  split; [vm_compute; reflexivity|].
  destruct (AllocateEvalPoints_proportional committee 16 7) as (out & R & Hp & Ht & _);
    [vm_compute; reflexivity|vm_compute; split; [discriminate|reflexivity]|vm_compute; reflexivity|].
  exists out. split_and!; assumption.
Defined.

Lemma committee_nonneg : weights_nonneg committee.
Proof. repeat constructor; vm_compute; discriminate. Defined.

Lemma strict_threshold_confidential_witness :
  (stakeThreshold allocated_committee true).1 = 14 /\
  TotalEvalPoints (take 1 allocated_committee) < (stakeThreshold allocated_committee true).1.
Proof.
  split; [vm_compute; reflexivity|].
  apply (strict_threshold_confidential committee 16 7 allocated_committee).
  - vm_compute. reflexivity.
  - exact committee_nonneg.
  - vm_compute. reflexivity.
  - vm_compute. split; [discriminate|reflexivity].
  - vm_compute. reflexivity.
  - rewrite <- (take_drop 1 allocated_committee) at 2. apply sublist_inserts_r. reflexivity.
  - vm_compute. discriminate.
Defined.

Lemma concentration_guard_exact_witness :
  exists b, concentration_breached allocated_committee 14 true = Ret b /\
            (b = false <-> committee_safe allocated_committee 14 true).
Proof.
  apply (concentration_guard_exact allocated_committee 14 true).
  - vm_compute. repeat constructor.
  - vm_compute. repeat constructor; discriminate.
  - vm_compute. reflexivity.
  - vm_compute. reflexivity.
  - reflexivity.
  - vm_compute. reflexivity.
Defined.

Lemma strict_guard_only_strands_witness :
  let t := (stakeThreshold allocated_committee true).1 in
  concentration_breached allocated_committee t true =
    Ret (existsb (fun m => 16 - t + 1 <=? owned m) allocated_committee) /\
  concentration_breached allocated_committee t true = Ret true.
Proof.
  split; [|vm_compute; reflexivity].
  apply (strict_guard_only_strands committee 16 7 allocated_committee).
  - vm_compute. reflexivity.
  - exact committee_nonneg.
  - vm_compute. reflexivity.
  - vm_compute. split; [discriminate|reflexivity].
  - vm_compute. reflexivity.
Defined.

End Example.
End StakeWeight.
