(* ===== verification/Threshold.v ===== *)
(** * x/encmempool/threshold: threshold ElGamal over secp256k1

    Models x/encmempool/threshold/threshold.go: the trusted Shamir setup, hybrid
    encryption, partial decryption, Lagrange recombination and decryption.

    The curve is the package github.com/decred/dcrd/dcrec/secp256k1, outside the
    repository: the class [Curve] has its operations and [CurveLaws] the group
    facts it documents.  A [ModNScalar] is its canonical representative, a [Z]
    in [0, GroupOrder).  [AesGcm] is AES-256-GCM of crypto/cipher.  Randomness
    drawn by the Go code (polynomial coefficients, ephemeral scalar, nonce) is an
    argument. *)
From S2P Require Import Prelude Sha256.
From stdpp Require Import sets strings list.
From Stdlib Require Import ZArith Lia Znumtheory Setoid Morphisms Ring.

#[local] Set Default Goal Selector "!".
Open Scope Z_scope.

Class Curve : Type := {
  Point : Type;
  Infinity : Point;
  GroupOrder : Z;
  ParsePubKey : string -> option Point;
  SerializeCompressed : Point -> string;
  AddNonConst : Point -> Point -> Point;
  ScalarMultNonConst : Z -> Point -> Point;
  ScalarBaseMultNonConst : Z -> Point;
  InverseNonConst : Z -> Z
}.

Class AesGcm : Type := {
  gcm_Seal : string -> string -> string -> string;
  gcm_Open : string -> string -> string -> option string
}.

(** The points form a group of prime order; the point at infinity is the one
    value whose compressed form does not parse. *)
Class CurveLaws `{Curve} : Prop := {
  GroupOrder_prime : Z.prime GroupOrder;
  GroupOrder_256 : GroupOrder < 2 ^ 256;
  pt_add_comm P Q : AddNonConst P Q = AddNonConst Q P;
  pt_add_assoc P Q R : AddNonConst P (AddNonConst Q R) = AddNonConst (AddNonConst P Q) R;
  pt_add_0 P : AddNonConst Infinity P = P;
  pt_smul_0 P : ScalarMultNonConst 0 P = Infinity;
  pt_smul_1 P : ScalarMultNonConst 1 P = P;
  pt_smul_plus a b P :
    ScalarMultNonConst ((a + b) mod GroupOrder) P = AddNonConst (ScalarMultNonConst a P) (ScalarMultNonConst b P);
  pt_smul_add a P Q :
    ScalarMultNonConst a (AddNonConst P Q) = AddNonConst (ScalarMultNonConst a P) (ScalarMultNonConst a Q);
  pt_smul_mul a b P :
    ScalarMultNonConst ((a * b) mod GroupOrder) P = ScalarMultNonConst a (ScalarMultNonConst b P);
  pt_smul_free a P : P <> Infinity -> ScalarMultNonConst a P = Infinity -> a mod GroupOrder = 0;
  pt_base a : ScalarBaseMultNonConst a = ScalarMultNonConst a (ScalarBaseMultNonConst 1);
  pt_base_free : ScalarBaseMultNonConst 1 <> Infinity;
  parse_compressed P : P <> Infinity -> ParsePubKey (SerializeCompressed P) = Some P;
  parse_infinity : ParsePubKey (SerializeCompressed Infinity) = None;
  parse_finite b P : ParsePubKey b = Some P -> P <> Infinity;
  parse_length b P : ParsePubKey b = Some P -> String.length b = 33%nat \/ String.length b = 65%nat;
  compressed_length P : String.length (SerializeCompressed P) = 33%nat;
  compress_inj P Q : SerializeCompressed P = SerializeCompressed Q -> P = Q;
  scalar_inverse a : a mod GroupOrder <> 0 -> (InverseNonConst a * a) mod GroupOrder = 1
}.

Class AesGcmLaws `{AesGcm} : Prop := {
  gcm_open_seal key nonce msg : gcm_Open key nonce (gcm_Seal key nonce msg) = Some msg
}.

Module Threshold.
Section definitions.
Context `{Curve} `{AesGcm}.

Definition NonceSize : Z := 12.

Record Share := mkShare { sh_Index : Z; sh_Xi : Z }.
Record Ciphertext := mkCiphertext { ct_A : string; ct_Nonce : string; ct_Body : string }.
Record DecryptShare := mkDecryptShare { ds_Index : Z; ds_D : string }.

(** [SetInt(uint32(v))]: an index reaches the scalars modulo 2^32. *)
Definition scalarFromUint (v : Z) : Z := u32 v.

Definition compress (P : Point) : string := SerializeCompressed P.
Definition kdf (shared : Point) : string := sha256 (compress shared).

(** Horner's rule from the leading coefficient down, as in [Setup] and
    dkg.[evalPoly]; an empty slice is an index out of range. *)
Definition evalPoly (coeffs : list Z) (z : Z) : outcome Z :=
  let zi := scalarFromUint z in
  match rev coeffs with
  | [] => Panic "index out of range"
  | c :: rest => Ret (foldl (fun acc ck => ((acc * zi) mod GroupOrder + ck) mod GroupOrder) c rest)
  end.

(** [Setup n t] with the random polynomial [coeffs]. *)
Definition Setup (coeffs : list Z) (n t : Z) : outcome (string * list Share) :=
  if (t <? 1) || (n <? t) then Err "invalid threshold" else
  shares ← map_ok (fun i => xi ← evalPoly coeffs i; Ret (mkShare i xi)) (seqZ 1 n);
  Ret (compress (ScalarBaseMultNonConst (hd 0 coeffs)), shares).

Definition EncryptWithR (r : Z) (nonce pub msg : string) : outcome Ciphertext :=
  match ParsePubKey pub with
  | None => Err "invalid public key"
  | Some Y =>
      let A := ScalarBaseMultNonConst r in
      let shared := ScalarMultNonConst r Y in
      Ret (mkCiphertext (compress A) nonce (gcm_Seal (kdf shared) nonce msg))
  end.

Definition ComputeShare (s : Share) (ct : Ciphertext) : outcome DecryptShare :=
  match ParsePubKey (ct_A ct) with
  | None => Err "invalid public key"
  | Some A => Ret (mkDecryptShare (sh_Index s) (compress (ScalarMultNonConst (sh_Xi s) A)))
  end.

Definition lagrangeAtZero (i : Z) (indices : list Z) : Z :=
  let step (nd : Z * Z) (j : Z) : Z * Z :=
    if j =? i then nd else
    let sj := scalarFromUint j in
    let negI := (- scalarFromUint i) mod GroupOrder in
    let diff := (sj + negI) mod GroupOrder in
    ((nd.1 * sj) mod GroupOrder, (nd.2 * diff) mod GroupOrder) in
  let nd := foldl step (scalarFromUint 1, scalarFromUint 1) indices in
  (nd.1 * InverseNonConst nd.2) mod GroupOrder.

(** The terms are added up from the first one on. *)
Fixpoint recover_acc (indices : list Z) (acc : option Point) (shares : list DecryptShare) : outcome (option Point) :=
  match shares with
  | [] => Ret acc
  | s :: rest =>
      match ParsePubKey (ds_D s) with
      | None => Err "invalid share point"
      | Some D =>
          let term := ScalarMultNonConst (lagrangeAtZero (ds_Index s) indices) D in
          recover_acc indices (Some (match acc with None => term | Some a => AddNonConst a term end)) rest
      end
  end.

Definition Recover (shares : list DecryptShare) : outcome Point :=
  match shares with
  | [] => Err "no shares"
  | _ =>
      acc ← recover_acc (ds_Index <$> shares) None shares;
      match acc with Some P => Ret P | None => Ret Infinity end
  end.

Definition Decrypt (shared : Point) (ct : Ciphertext) : outcome string :=
  if negb (Z.of_nat (String.length (ct_Nonce ct)) =? NonceSize) then Err "invalid nonce length" else
  match gcm_Open (kdf shared) (ct_Nonce ct) (ct_Body ct) with
  | None => Err "message authentication failed"
  | Some msg => Ret msg
  end.

End definitions.

(** ** Arithmetic modulo the group order *)
Section field.
Context `{CurveLaws}.

Definition eqq (a b : Z) : Prop := a mod GroupOrder = b mod GroupOrder.
#[local] Infix "≡q" := eqq (at level 70).

#[export] Instance eqq_equiv : Equivalence eqq.
Proof. split; unfold eqq; [by intros ?|by intros ??|intros ???; congruence]. Qed.
#[export] Instance eqq_add : Proper (eqq ==> eqq ==> eqq) Z.add.
Proof. intros a a' Ha b b' Hb. unfold eqq in *. by rewrite Zplus_mod, Ha, Hb, <- Zplus_mod. Qed.
#[export] Instance eqq_mul : Proper (eqq ==> eqq ==> eqq) Z.mul.
Proof. intros a a' Ha b b' Hb. unfold eqq in *. by rewrite Zmult_mod, Ha, Hb, <- Zmult_mod. Qed.
#[export] Instance eqq_sub : Proper (eqq ==> eqq ==> eqq) Z.sub.
Proof. intros a a' Ha b b' Hb. unfold eqq in *. by rewrite Zminus_mod, Ha, Hb, <- Zminus_mod. Qed.
#[export] Instance eqq_opp : Proper (eqq ==> eqq) Z.opp.
Proof. intros a a' Ha. rewrite <- !Z.sub_0_l. by rewrite Ha. Qed.

Lemma order_ge_2 : 2 <= GroupOrder.
Proof. apply Z.prime_ge_2, GroupOrder_prime. Qed.
Lemma order_pos : 0 < GroupOrder.
Proof. pose proof order_ge_2. lia. Qed.

(** Indices below this bound are kept apart by [SetInt(uint32(v))]; it is 2^32 on
    secp256k1. *)
Definition max_index : Z := Z.min (2 ^ 32) GroupOrder.

Lemma eqq_mod a : a mod GroupOrder ≡q a.
Proof. unfold eqq. by rewrite Zmod_mod. Qed.

Lemma eqq_of_eq a b : a = b -> a ≡q b.
Proof. by intros ->. Qed.

Lemma order_divides a : a ≡q 0 <-> (GroupOrder | a).
Proof.
  unfold eqq. rewrite Zmod_0_l. split.
  - intros Ha. by apply Z.mod_divide; [pose proof order_pos; lia|].
  - intros Ha. by apply Z.mod0_divide.
Qed.

Lemma eqq_mul_0 a b : a * b ≡q 0 -> a ≡q 0 \/ b ≡q 0.
Proof. rewrite !order_divides. apply Z.divide_prime_mul, GroupOrder_prime. Qed.

Lemma eqq_sub_0 a b : a - b ≡q 0 <-> a ≡q b.
Proof.
  split; intros Hab.
  - rewrite <- (Z.sub_add b a). rewrite Hab. by rewrite Z.add_0_l.
  - rewrite Hab. by rewrite Z.sub_diag.
Qed.

Lemma eqq_cancel c a b : ~ c ≡q 0 -> c * a ≡q c * b -> a ≡q b.
Proof.
  intros Hc Hab. apply eqq_sub_0 in Hab. rewrite <- Z.mul_sub_distr_l in Hab.
  apply eqq_mul_0 in Hab as [?|Hab]; [done|]. by apply eqq_sub_0.
Qed.

Lemma one_neq_0 : ~ 1 ≡q 0.
Proof. unfold eqq. pose proof order_ge_2. rewrite Zmod_0_l, Z.mod_small; lia. Qed.

Lemma inverse_spec a : ~ a ≡q 0 -> InverseNonConst a * a ≡q 1.
Proof.
  intros Ha. unfold eqq. rewrite scalar_inverse.
  - rewrite Z.mod_small; [done|]. pose proof order_ge_2. lia.
  - intros E. apply Ha. unfold eqq. by rewrite Zmod_0_l.
Qed.

(** ** Lagrange interpolation at zero

    For nodes [xs] with distinct residues, [lam xs i] is a Lagrange coefficient:
    [lam xs i * den xs i ≡ num xs i]. *)
Definition others (i : Z) (xs : list Z) : list Z := List.filter (fun j => negb (j =? i)) xs.
Definition prodZ (f : Z -> Z) (xs : list Z) : Z := foldr (fun x p => f x * p) 1 xs.
Definition num (i : Z) (xs : list Z) : Z := prodZ (fun j => j) (others i xs).
Definition den (i : Z) (xs : list Z) : Z := prodZ (fun j => j - i) (others i xs).
Definition lam (i : Z) (xs : list Z) : Z := num i xs * InverseNonConst (den i xs).

(** Nodes that are pairwise different modulo the order. *)
Definition distinct (xs : list Z) : Prop := NoDup ((fun x => x mod GroupOrder) <$> xs).

Definition interp (xs : list Z) (f : Z -> Z) : Z := sumZ (fun i => lam i xs * f i) xs.

Lemma sumZ_eqq {A : Type} (f g : A -> Z) l : Forall (fun x => f x ≡q g x) l -> sumZ f l ≡q sumZ g l.
Proof. induction 1 as [|x l Hx Hl IH]; simpl; [done|]. by rewrite Hx, IH. Qed.

Lemma prodZ_nonzero f xs : Forall (fun x => ~ f x ≡q 0) xs -> ~ prodZ f xs ≡q 0.
Proof.
  induction 1 as [|x l Hx Hl IH]; simpl; [apply one_neq_0|].
  intros [?|?]%eqq_mul_0; done.
Qed.

Lemma distinct_ne xs i j : distinct xs -> i ∈ xs -> j ∈ xs -> i <> j -> ~ i ≡q j.
Proof.
  intros Hd Hi Hj Hne E. apply list_elem_of_lookup in Hi as [a Ha], Hj as [b Hb].
  assert (a = b); [|congruence].
  eapply (NoDup_lookup _ a b (i mod GroupOrder)); [exact Hd|..].
  - by rewrite list_lookup_fmap, Ha.
  - rewrite list_lookup_fmap, Hb. simpl. by rewrite E.
Qed.

Lemma distinct_NoDup xs : distinct xs -> NoDup xs.
Proof. apply NoDup_fmap_1. Qed.

Lemma distinct_perm xs ys : xs ≡ₚ ys -> distinct xs -> distinct ys.
Proof. intros HP. unfold distinct. by rewrite HP. Qed.

Lemma distinct_cons_inv a xs : distinct (a :: xs) -> distinct xs.
Proof. unfold distinct. rewrite fmap_cons. by intros [_ ?]%NoDup_cons. Qed.

Lemma others_self a xs : a ∉ xs -> others a (a :: xs) = xs.
Proof.
  intros Ha. unfold others. simpl. rewrite Z.eqb_refl. simpl. induction xs as [|x xs IH]; [done|].
  apply not_elem_of_cons in Ha as [Hx Ha]. simpl.
  rewrite (proj2 (Z.eqb_neq x a)) by congruence. simpl. by rewrite IH.
Qed.

Lemma others_cons i a xs : a <> i -> others i (a :: xs) = a :: others i xs.
Proof. intros Ha. unfold others. simpl. by rewrite (proj2 (Z.eqb_neq a i)). Qed.

Lemma elem_of_others i j xs : j ∈ others i xs <-> j ∈ xs /\ j <> i.
Proof. unfold others. rewrite !list_elem_of_In, filter_In, negb_true_iff, Z.eqb_neq. done. Qed.

Lemma den_nonzero i xs : distinct xs -> i ∈ xs -> ~ den i xs ≡q 0.
Proof.
  intros Hd Hi. apply prodZ_nonzero. apply Forall_forall. intros j [Hj Hne]%elem_of_others.
  rewrite eqq_sub_0. by apply (distinct_ne xs).
Qed.

Lemma lam_den i xs : distinct xs -> i ∈ xs -> lam i xs * den i xs ≡q num i xs.
Proof.
  intros Hd Hi. unfold lam. rewrite <- Z.mul_assoc, (inverse_spec _ (den_nonzero i xs Hd Hi)).
  by rewrite Z.mul_1_r.
Qed.

(** Removing the node [a]. *)
Lemma lam_cons i a xs : distinct (a :: xs) -> i ∈ xs -> lam i (a :: xs) * (a - i) ≡q a * lam i xs.
Proof.
  intros Hd Hi. assert (Hne : a <> i).
  { intros ->. apply distinct_NoDup in Hd. by apply NoDup_cons in Hd as [? _]. }
  pose proof (distinct_cons_inv _ _ Hd) as Hd'.
  assert (Hi' : i ∈ a :: xs) by (by apply elem_of_cons; right).
  pose proof (lam_den i (a :: xs) Hd Hi') as E. pose proof (lam_den i xs Hd' Hi) as E'.
  unfold den, num in E. rewrite (others_cons i a xs Hne) in E. simpl in E. fold (den i xs) (num i xs) in E.
  apply (eqq_cancel (den i xs)); [by apply den_nonzero|].
  transitivity (lam i (a :: xs) * ((a - i) * den i xs)); [apply eqq_of_eq; ring|].
  rewrite E, <- E'. apply eqq_of_eq. ring.
Qed.

Lemma interp_shift a xs g :
  distinct (a :: xs) -> interp (a :: xs) (fun x => (x - a) * g x) ≡q - a * interp xs g.
Proof.
  intros Hd. unfold interp. simpl. rewrite Z.sub_diag, Z.mul_0_l, Z.mul_0_r, Z.add_0_l.
  rewrite <- (sumZ_mul_l (- a)). apply sumZ_eqq, Forall_forall. intros i Hi.
  transitivity (- (lam i (a :: xs) * (a - i)) * g i); [apply eqq_of_eq; ring|].
  rewrite (lam_cons i a xs Hd Hi). apply eqq_of_eq. ring.
Qed.

Lemma others_perm i xs ys : xs ≡ₚ ys -> others i xs ≡ₚ others i ys.
Proof.
  induction 1 as [|x l l' _ IH|x y l|l1 l2 l3 _ IH1 _ IH2].
  - done.
  - unfold others. simpl. destruct (negb (x =? i)); [by apply perm_skip|done].
  - unfold others. simpl. destruct (negb (x =? i)), (negb (y =? i)); try done. apply perm_swap.
  - by transitivity (others i l2).
Qed.

Lemma prodZ_perm f xs ys : xs ≡ₚ ys -> prodZ f xs = prodZ f ys.
Proof. induction 1; simpl; lia. Qed.

Lemma lam_perm i xs ys : xs ≡ₚ ys -> lam i xs = lam i ys.
Proof.
  intros HP. unfold lam, num, den. pose proof (others_perm i _ _ HP) as HO.
  by rewrite (prodZ_perm _ _ _ HO), (prodZ_perm (fun j => j - i) _ _ HO).
Qed.

Lemma interp_perm xs ys f : xs ≡ₚ ys -> interp xs f = interp ys f.
Proof.
  intros HP. unfold interp. rewrite (sumZ_perm _ _ _ HP). apply sumZ_ext, Forall_forall.
  intros i _. by rewrite (lam_perm i _ _ HP).
Qed.

Lemma interp_lin xs f g c : interp xs (fun x => c * f x + g x) = c * interp xs f + interp xs g.
Proof.
  unfold interp. rewrite <- sumZ_mul_l, <- sumZ_add. apply sumZ_ext, Forall_forall. intros; ring.
Qed.

Lemma interp_ext xs f g : (forall x, f x = g x) -> interp xs f = interp xs g.
Proof. intros E. unfold interp. apply sumZ_ext, Forall_forall. intros x _. by rewrite E. Qed.

Lemma interp_diff xs a b :
  (b - a) * interp xs (fun _ => 1) = interp xs (fun x => (x - a) * 1) - interp xs (fun x => (x - b) * 1).
Proof.
  unfold interp. generalize xs at 1 3 5 as ys. intros ys.
  induction xs as [|x xs IH]; cbn [sumZ]; [lia|]. rewrite Z.mul_add_distr_l, IH. ring.
Qed.

Lemma interp_one xs : distinct xs -> xs <> [] -> interp xs (fun _ => 1) ≡q 1.
Proof.
  remember (length xs) as n eqn:Hn. revert xs Hn.
  induction n as [|n IH]; intros [|a [|b xs]] Hn Hd Hx; try done.
  - unfold interp. simpl. unfold lam, num, den. rewrite !others_self by apply not_elem_of_nil. simpl.
    pose proof (inverse_spec 1 one_neq_0) as E. rewrite Z.mul_1_r in E.
    rewrite !Z.mul_1_r, Z.add_0_r. rewrite E. apply eqq_of_eq. ring.
  - pose proof (distinct_perm _ _ (perm_swap b a xs) Hd) as Hd'.
    pose proof (interp_shift a (b :: xs) (fun _ => 1) Hd) as Ea.
    pose proof (interp_shift b (a :: xs) (fun _ => 1) Hd') as Eb.
    simpl in Hn. rewrite IH in Ea, Eb by (done || eauto using distinct_cons_inv || (simpl; lia)).
    rewrite (interp_perm _ _ _ (perm_swap a b xs)) in Eb.
    apply (eqq_cancel (b - a)).
    + rewrite eqq_sub_0. apply (distinct_ne _ _ _ Hd); [set_solver..|].
      intros ->. apply distinct_NoDup in Hd. apply NoDup_cons in Hd as [Hd _]. set_solver.
    + transitivity (interp (a :: b :: xs) (fun x => (x - a) * 1)
                    - interp (a :: b :: xs) (fun x => (x - b) * 1)).
      * apply eqq_of_eq, interp_diff.
      * rewrite Ea, Eb. apply eqq_of_eq. ring.
Qed.

(** Polynomials by their coefficient list, constant term first. *)
Fixpoint peval (c : list Z) (x : Z) : Z :=
  match c with [] => 0 | c0 :: c' => c0 + x * peval c' x end.

(** Synthetic division by [x - a]. *)
Lemma peval_divide (c : list Z) (a : Z) : exists g : list Z, length g = (length c - 1)%nat /\
  forall x, peval c x = peval c a + (x - a) * peval g x.
Proof.
  induction c as [|c0 c (g & Hl & Hg)].
  { exists []. split; [done|]. intros. simpl. ring. }
  destruct c as [|c1 c].
  { exists []. split; [done|]. intros. simpl. ring. }
  exists (peval (c1 :: c) a :: g). split; [simpl in *; lia|].
  intros x. cbn [peval] in *. rewrite (Hg x). ring.
Qed.

Lemma interp_peval xs c :
  distinct xs -> xs <> [] -> (length c <= length xs)%nat -> interp xs (peval c) ≡q peval c 0.
Proof.
  revert c. induction xs as [|a xs IH]; intros c Hd Hx Hc; [done|].
  destruct (peval_divide c a) as (g & Hg & E).
  rewrite (interp_ext _ (peval c) (fun x => peval c a * 1 + (x - a) * peval g x)) by (intros; rewrite E; ring).
  rewrite interp_lin, interp_one, interp_shift by done.
  rewrite (E 0). destruct xs as [|b xs].
  - assert (g = []) as -> by (destruct g; simpl in *; [done|lia]). apply eqq_of_eq. unfold interp. simpl. ring.
  - rewrite IH by (done || eauto using distinct_cons_inv || (simpl in *; lia)). apply eqq_of_eq. ring.
Qed.

(** ** The polynomial code *)

Lemma foldl_horner z rest acc c :
  acc ≡q peval c z ->
  foldl (fun acc ck => ((acc * z) mod GroupOrder + ck) mod GroupOrder) acc rest ≡q peval (rev rest ++ c) z.
Proof.
  revert acc c. induction rest as [|r rest IH]; intros acc c Hacc; [done|].
  simpl. rewrite (IH _ (r :: c)).
  - by rewrite <- app_assoc.
  - rewrite eqq_mod, eqq_mod, Hacc. apply eqq_of_eq. simpl. ring.
Qed.

(** The scalars of a slice of [ModNScalar]s are canonical. *)
Definition canonical (x : Z) : Prop := 0 <= x < GroupOrder.

Lemma canonical_mod x : canonical (x mod GroupOrder).
Proof. apply Z.mod_pos_bound, order_pos. Qed.

Lemma evalPoly_spec coeffs z :
  coeffs <> [] -> Forall canonical coeffs ->
  evalPoly coeffs z = Ret (peval coeffs (scalarFromUint z) mod GroupOrder).
Proof.
  intros Hne Hc. unfold evalPoly. destruct (rev coeffs) as [|c rest] eqn:E.
  { by rewrite <- (rev_involutive coeffs), E in Hne. }
  assert (Hco : coeffs = rev rest ++ [c]) by (by rewrite <- (rev_involutive coeffs), E).
  f_equal. rewrite <- (Z.mod_small (foldl _ c rest) GroupOrder).
  - rewrite Hco. apply (foldl_horner _ rest c [c]). apply eqq_of_eq. simpl. ring.
  - assert (Hc0 : canonical c).
    { rewrite Hco in Hc. apply Forall_app in Hc as [_ Hc]. by apply Forall_cons in Hc as [? _]. }
    clear -Hc0 H0. revert c Hc0. induction rest as [|r rest IH]; intros c Hc0; [exact Hc0|].
    simpl. apply IH, canonical_mod.
Qed.

(** ** Points *)

Lemma smul_mod a P : ScalarMultNonConst (a mod GroupOrder) P = ScalarMultNonConst a P.
Proof.
  rewrite <- (Z.add_0_r a) at 1. rewrite pt_smul_plus, pt_smul_0, pt_add_comm. apply pt_add_0.
Qed.

#[export] Instance smul_eqq : Proper (eqq ==> eq ==> eq) ScalarMultNonConst.
Proof. intros a b Hab P _ <-. rewrite <- (smul_mod a), <- (smul_mod b). by rewrite Hab. Qed.

Lemma smul_plus a b P : ScalarMultNonConst (a + b) P = AddNonConst (ScalarMultNonConst a P) (ScalarMultNonConst b P).
Proof. by rewrite <- smul_mod, pt_smul_plus. Qed.

Lemma smul_mul a b P : ScalarMultNonConst (a * b) P = ScalarMultNonConst a (ScalarMultNonConst b P).
Proof. by rewrite <- smul_mod, pt_smul_mul. Qed.

Lemma smul_finite a P : P <> Infinity -> ~ a ≡q 0 -> ScalarMultNonConst a P <> Infinity.
Proof. intros HP Ha E. apply Ha. unfold eqq. rewrite Zmod_0_l. by eapply pt_smul_free. Qed.

Lemma smul_inj a b P : P <> Infinity -> ScalarMultNonConst a P = ScalarMultNonConst b P -> a ≡q b.
Proof.
  intros HP E. apply eqq_sub_0. unfold eqq. rewrite Zmod_0_l. apply (pt_smul_free _ P HP).
  rewrite <- Z.add_opp_r, smul_plus, E, <- smul_plus, Z.add_opp_diag_r. apply pt_smul_0.
Qed.

Lemma scalarFromUint_index i : 0 <= i < max_index -> scalarFromUint i = i.
Proof. unfold max_index. intros Hi. unfold scalarFromUint, u32. rewrite Z.mod_small; lia. Qed.

Lemma scalarFromUint_1 : scalarFromUint 1 = 1.
Proof. reflexivity. Qed.

Lemma lagrange_fold i js n d :
  0 <= i < max_index -> Forall (fun j => 0 <= j < max_index) js ->
  let r := foldl (fun (nd : Z * Z) j =>
      if j =? i then nd else
      let sj := scalarFromUint j in
      let negI := (- scalarFromUint i) mod GroupOrder in
      let diff := (sj + negI) mod GroupOrder in
      ((nd.1 * sj) mod GroupOrder, (nd.2 * diff) mod GroupOrder)) (n, d) js in
  r.1 ≡q n * num i js /\ r.2 ≡q d * den i js.
Proof.
  intros Hi Hjs. revert n d. induction Hjs as [|j js Hj Hjs IH]; intros n d.
  { simpl. rewrite !Z.mul_1_r. done. }
  cbn [foldl]. destruct (j =? i) eqn:E.
  - apply Z.eqb_eq in E. subst j. specialize (IH n d).
    unfold num, den, others in *. cbn [List.filter]. by rewrite Z.eqb_refl.
  - apply Z.eqb_neq in E. cbn [fst snd]. rewrite !scalarFromUint_index by done.
    destruct (IH ((n * j) mod GroupOrder) ((d * ((j + (- i) mod GroupOrder) mod GroupOrder)) mod GroupOrder))
      as [IH1 IH2]. rewrite !scalarFromUint_index in IH1, IH2 by done.
    unfold num, den. rewrite others_cons by done. cbn [prodZ foldr]. split.
    + rewrite IH1, eqq_mod. apply eqq_of_eq. unfold num, prodZ. ring.
    + rewrite IH2, !eqq_mod. apply eqq_of_eq. unfold den, prodZ. ring.
Qed.

Lemma lagrangeAtZero_spec i js :
  i ∈ js -> distinct js -> Forall (fun j => 0 <= j < max_index) js -> lagrangeAtZero i js ≡q lam i js.
Proof.
  intros Hi Hd Hr. assert (Hir : 0 <= i < max_index) by (by eapply Forall_forall in Hr).
  unfold lagrangeAtZero. rewrite eqq_mod.
  pose proof (lagrange_fold i js (scalarFromUint 1) (scalarFromUint 1) Hir Hr) as Hf.
  destruct (foldl _ _ js) as [n d]. cbn [fst snd] in Hf |- *.
  rewrite scalarFromUint_1, !Z.mul_1_l in Hf. destruct Hf as [Hn Hd'].
  pose proof (den_nonzero i js Hd Hi) as Hnz.
  apply (eqq_cancel (den i js)); [done|].
  rewrite (Z.mul_comm _ (lam i js)), lam_den by done. rewrite <- Hd' at 1.
  rewrite Hn. assert (Hdz : ~ d ≡q 0) by (by rewrite Hd').
  transitivity (num i js * (InverseNonConst d * d)); [apply eqq_of_eq; ring|].
  rewrite inverse_spec by done. apply eqq_of_eq. ring.
Qed.

(** ** Recombination *)

Lemma recover_acc_spec A f js acc ds :
  Forall (fun d => ParsePubKey (ds_D d) = Some (ScalarMultNonConst (f (ds_Index d)) A)) ds ->
  recover_acc js acc ds =
  Ret (match ds with
       | [] => acc
       | _ => Some (AddNonConst (default Infinity acc)
                (ScalarMultNonConst (sumZ (fun d => lagrangeAtZero (ds_Index d) js * f (ds_Index d)) ds) A))
       end).
Proof.
  intros Hds. revert acc. induction Hds as [|d ds Hd Hds IH]; intros acc; [done|].
  cbn [recover_acc]. rewrite Hd, IH. f_equal. destruct ds as [|d' ds].
  - cbn [sumZ]. rewrite Z.add_0_r, smul_mul. destruct acc; cbn [default]; [done|by rewrite pt_add_0].
  - cbn [default]. f_equal. set (rest := sumZ _ (d' :: ds)). cbn [sumZ]. fold rest.
    rewrite smul_plus, smul_mul. destruct acc; cbn [default].
    + by rewrite pt_add_assoc.
    + by rewrite pt_add_0.
Qed.

Lemma distinct_indices js :
  NoDup js -> Forall (fun j => 0 <= j < max_index) js -> distinct js.
Proof.
  intros Hn Hr. unfold distinct.
  replace ((fun x => x mod GroupOrder) <$> js) with js; [done|].
  symmetry. rewrite <- (list_fmap_id js) at 2. apply list_fmap_ext. intros i j Hj.
  eapply Forall_lookup in Hr; [|exact Hj]. unfold max_index in Hr. simpl. apply Z.mod_small. lia.
Qed.

(** Lagrange recombination of the partial decryptions of a polynomial [c]. *)
Lemma Recover_interp A c ds :
  Forall (fun d => ParsePubKey (ds_D d) = Some (ScalarMultNonConst (peval c (ds_Index d)) A)) ds ->
  NoDup (ds_Index <$> ds) -> Forall (fun d => 0 <= ds_Index d < max_index) ds ->
  ds <> [] -> (length c <= length ds)%nat ->
  Recover ds = Ret (ScalarMultNonConst (peval c 0) A).
Proof.
  intros Hds Hn Hr Hne Hlen. unfold Recover. destruct ds as [|d ds]; [done|].
  assert (Hr' : Forall (fun j => 0 <= j < max_index) (ds_Index <$> d :: ds)) by (by apply Forall_fmap).
  pose proof (distinct_indices _ Hn Hr') as Hd.
  rewrite (recover_acc_spec A (peval c)) by done. set (js := ds_Index <$> d :: ds) in *.
  cbn -[sumZ]. rewrite pt_add_0. f_equal. apply smul_eqq; [|done].
  transitivity (interp js (peval c)).
  - unfold interp, js. rewrite sumZ_map. apply sumZ_eqq, Forall_forall. intros x Hx.
    rewrite lagrangeAtZero_spec; [done| |done|done]. change (ds_Index x ∈ ds_Index <$> d :: ds).
    by apply list_elem_of_fmap_2.
  - apply interp_peval; [done|by unfold js|]. unfold js. by rewrite length_fmap.
Qed.

Lemma peval_0 c : peval c 0 = hd 0 c.
Proof. destruct c; simpl; ring. Qed.

(** The shares of the polynomial [coeffs] for the indices 1 to [n]. *)
Definition shares_of (coeffs : list Z) (n : Z) : list Share :=
  (fun i => mkShare i (peval coeffs i mod GroupOrder)) <$> seqZ 1 n.

Lemma Setup_spec coeffs n t :
  1 <= t <= n -> n < max_index -> coeffs <> [] -> Forall canonical coeffs ->
  Setup coeffs n t = Ret (compress (ScalarBaseMultNonConst (hd 0 coeffs)), shares_of coeffs n).
Proof.
  intros Ht Hn Hne Hc. unfold Setup.
  rewrite (proj2 (Z.ltb_ge t 1)), (proj2 (Z.ltb_ge n t)) by lia. cbn [orb].
  rewrite (map_ok_Ret _ (fun i => mkShare i (peval coeffs i mod GroupOrder))); [done|].
  apply Forall_forall. intros i Hi%elem_of_seqZ.
  rewrite evalPoly_spec by done. simpl. rewrite scalarFromUint_index by lia. done.
Qed.

End field.

Section theorems.
Context `{CurveLaws} `{AesGcmLaws}.
#[local] Infix "≡q" := eqq (at level 70).

(** C3: threshold decryption is correct.  After [Setup] with any polynomial of
    [t] coefficients, a message encrypted to the public key is recovered by the
    partial decryptions of any [t] or more different key holders (whose shares are
    not the zero scalar): every step succeeds and [Decrypt] returns the message. *)
Theorem threshold_decrypts coeffs n t :
  1 <= t <= n -> n < max_index -> length coeffs = Z.to_nat t -> Forall canonical coeffs -> hd 0 coeffs <> 0 ->
  exists pub shares, Setup coeffs n t = Ret (pub, shares) /\
  forall r nonce msg, canonical r -> r <> 0 -> String.length nonce = 12%nat ->
  exists ct, EncryptWithR r nonce pub msg = Ret ct /\
  forall subset, (forall s, s ∈ subset -> s ∈ shares) -> NoDup (sh_Index <$> subset) ->
    t <= Z.of_nat (length subset) -> Forall (fun s => sh_Xi s <> 0) subset ->
  exists ds shared, map_ok (fun s => ComputeShare s ct) subset = Ret ds /\
    Recover ds = Ret shared /\ Decrypt shared ct = Ret msg.
Proof.
  intros Ht Hn Hlen Hc Hx. eexists _, _. split.
  { apply Setup_spec; [done..| |done]. intros ->. simpl in Hlen. lia. }
  intros r nonce msg Hr Hr0 Hnonce.
  assert (Hfin : forall a, canonical a -> a <> 0 -> ScalarBaseMultNonConst a <> Infinity).
  { intros a Ha Ha0. rewrite pt_base. apply smul_finite; [apply pt_base_free|].
    unfold eqq. rewrite Zmod_0_l, Z.mod_small by done. done. }
  assert (Hhd : canonical (hd 0 coeffs)).
  { destruct coeffs as [|c cs]; [simpl in Hlen; lia|]. by apply Forall_cons in Hc as [? _]. }
  eexists. split.
  { unfold EncryptWithR. unfold compress at 1. rewrite parse_compressed by auto. reflexivity. }
  set (A := ScalarBaseMultNonConst r). set (x := hd 0 coeffs).
  intros subset Hsub Hnd Hts Hnz.
  set (D s := mkDecryptShare (sh_Index s) (compress (ScalarMultNonConst (sh_Xi s) A))).
  exists (D <$> subset), (ScalarMultNonConst x A).
  assert (HA : A <> Infinity) by (by apply Hfin).
  split_and!.
  - apply map_ok_Ret, Forall_forall. intros s Hs. unfold ComputeShare. cbn [ct_A].
    unfold compress at 1. fold A. by rewrite parse_compressed.
  - unfold x. rewrite <- (peval_0 coeffs). apply Recover_interp.
    + apply Forall_fmap, Forall_forall. intros s Hs. simpl. unfold compress.
      pose proof (Hsub s Hs) as [i [-> Hi]]%list_elem_of_fmap. cbn [sh_Index sh_Xi].
      eapply Forall_forall in Hnz; [|exact Hs]. cbn [sh_Xi] in Hnz.
      rewrite smul_mod. apply parse_compressed, smul_finite; [done|].
      unfold eqq. by rewrite Zmod_0_l.
    + by rewrite <- list_fmap_compose.
    + apply Forall_fmap, Forall_forall. intros s Hs. simpl.
      pose proof (Hsub s Hs) as [i [-> Hi%elem_of_seqZ]]%list_elem_of_fmap. simpl. lia.
    + intros E%(f_equal length). rewrite length_fmap in E. simpl in E. lia.
    + rewrite length_fmap. lia.
  - unfold Decrypt. cbn [ct_Nonce ct_Body]. rewrite Hnonce. cbn [negb Z.eqb].
    replace (Z.of_nat 12 =? NonceSize) with true by reflexivity. cbn [negb].
    replace (ScalarMultNonConst x A) with (ScalarMultNonConst r (ScalarBaseMultNonConst x));
      [by rewrite gcm_open_seal|].
    unfold A. rewrite (pt_base r), (pt_base x). rewrite <- !smul_mul. f_equal. ring.
Qed.

End theorems.
End Threshold.
