(* ===== verification/CurveModel.v ===== *)
(** * A concrete prime-order group

    An executable instance of [Curve]: the integers modulo a prime close to
    2^256 under addition, with a fixed-length encoding, and an authenticated cipher that
    prefixes the message with its key.  The concrete runs of the threshold and
    DKG models use it; discrete logarithms in it are trivial, so it says nothing
    of secrecy. *)
From S2P Require Import Prelude Proth Sha256 Threshold.
From stdpp Require Import strings list.
From Stdlib Require Import ZArith Lia Znumtheory Ascii.

#[local] Set Default Goal Selector "!".
Open Scope Z_scope.

Module CurveModel.

Definition order : Z := Proth.order.
(** The test is sealed, so that evaluation does not unfold the type of points. *)
Lemma group_test : { f : Z -> bool | forall z, f z = (0 <=? z) && (z <? order) }.
Proof. by exists (fun z => (0 <=? z) && (z <? order)). Qed.
Definition in_group (z : Z) : bool := proj1_sig group_test z.
Lemma in_group_eq z : in_group z = (0 <=? z) && (z <? order).
Proof. apply (proj2_sig group_test). Qed.
Definition pt : Type := { z : Z | in_group z = true }.

Lemma in_group_mod z : in_group (z mod order) = true.
Proof.
  pose proof (Z.mod_pos_bound z order ltac:(done)). rewrite in_group_eq.
  rewrite andb_true_iff, Z.leb_le, Z.ltb_lt. lia.
Qed.

Definition of_Z (z : Z) : pt := exist _ (z mod order) (in_group_mod z).

Lemma pt_eq (P Q : pt) : `P = `Q -> P = Q.
Proof. apply (sig_eq_pi (fun z => in_group z = true)). Qed.

Lemma pt_small (P : pt) : `P mod order = `P.
Proof.
  destruct P as [z Hz]. cbn [proj1_sig]. rewrite in_group_eq in Hz.
  apply andb_true_iff in Hz as [H1%Z.leb_le H2%Z.ltb_lt]. apply Z.mod_small. lia.
Qed.

Definition parse (s : string) : option pt :=
  if (String.length s =? 33)%nat then
    let z := be_decode s in
    if (0 <? z) && (z <? order) then Some (of_Z z) else None
  else None.

#[export] Instance curve : Curve := {|
  Point := pt;
  Infinity := of_Z 0;
  GroupOrder := order;
  ParsePubKey := parse;
  SerializeCompressed P := be_bytes 33 (`P);
  AddNonConst P Q := of_Z (`P + `Q);
  ScalarMultNonConst a P := of_Z (a * `P);
  ScalarBaseMultNonConst a := of_Z a;
  InverseNonConst a := Z.invmod a order
|}.

Lemma pt_range (P : pt) : 0 <= `P < order.
Proof. rewrite <- pt_small. apply Z.mod_pos_bound. done. Qed.

Lemma be_decode_pt (P : pt) : be_decode (be_bytes 33 (`P)) = `P.
Proof.
  unfold be_decode. rewrite be_decode_acc_bytes, Z.mod_small; [lia|].
  pose proof (pt_range P). split; [lia|]. apply (Z.lt_le_trans _ order); [lia|]. done.
Qed.

Lemma finite_pos (P : pt) : P <> of_Z 0 <-> 0 < `P.
Proof.
  split.
  - intros HP. destruct (Z.eq_dec (`P) 0) as [E|]; [|pose proof (pt_range P); lia].
    exfalso. apply HP, pt_eq. by rewrite E.
  - intros HP ->. vm_compute in HP. discriminate.
Qed.

Lemma parse_be (P : pt) : P <> of_Z 0 -> parse (be_bytes 33 (`P)) = Some P.
Proof.
  intros HP%finite_pos. unfold parse. rewrite be_bytes_length, be_decode_pt. simpl Nat.eqb.
  pose proof (pt_range P). rewrite (proj2 (Z.ltb_lt 0 _)), (proj2 (Z.ltb_lt _ order)) by lia.
  cbn [andb]. f_equal. apply pt_eq. apply pt_small.
Qed.

#[export] Instance curve_laws : CurveLaws.
Proof.
  split; cbn -[order of_Z be_bytes parse Z.invmod].
  - exact Proth.order_prime.
  - done.
  - intros. apply pt_eq. simpl. by rewrite Z.add_comm.
  - intros. apply pt_eq. unfold of_Z. cbn -[order]. rewrite Zplus_mod_idemp_r, Zplus_mod_idemp_l. f_equal. lia.
  - intros. apply pt_eq. unfold of_Z. cbn -[order]. rewrite Zplus_mod_idemp_l. apply pt_small.
  - intros. by apply pt_eq.
  - intros. apply pt_eq. unfold of_Z. cbn -[order Z.mul]. rewrite Z.mul_1_l. apply pt_small.
  - intros. apply pt_eq. unfold of_Z. cbn -[order]. rewrite Zmult_mod_idemp_l, <- Zplus_mod. f_equal. lia.
  - intros. apply pt_eq. unfold of_Z. cbn -[order]. rewrite Zmult_mod_idemp_r, <- Zplus_mod. f_equal. lia.
  - intros. apply pt_eq. unfold of_Z. cbn -[order]. rewrite Zmult_mod_idemp_l, Zmult_mod_idemp_r. f_equal. lia.
  - intros a P HP%finite_pos E. apply (f_equal proj1_sig) in E. unfold of_Z in E. cbn -[order] in E.
    rewrite Zmod_0_l in E. apply Z.mod_divide in E; [|done].
    apply (Z.divide_prime_mul _ _ _ Proth.order_prime) in E as [E|E]; [by apply Z.mod0_divide|].
    apply Z.mod0_divide in E. rewrite pt_small in E. lia.
  - intros. apply pt_eq. unfold of_Z. cbn -[order]. rewrite Zmult_mod_idemp_r. f_equal. lia.
  - intros E. apply (f_equal proj1_sig) in E. discriminate E.
  - intros. by apply parse_be.
  - vm_compute. reflexivity.
  - intros b P. unfold parse. destruct (Nat.eqb _ _); [|done].
    destruct ((0 <? be_decode b) && (be_decode b <? order)) eqn:E; [|done]. intros [= <-].
    bool_prop. apply finite_pos. unfold of_Z. cbn -[order]. rewrite Z.mod_small; lia.
  - intros b P. unfold parse. destruct (Nat.eqb_spec (String.length b) 33); [by left|done].
  - intros. apply be_bytes_length.
  - intros P Q E. apply pt_eq. by rewrite <- (be_decode_pt P), <- (be_decode_pt Q), E.
  - intros a Ha. apply Z.invmod_prime; [apply Proth.order_prime|done].
Qed.

(** The cipher: the key followed by the message. *)
Fixpoint strip (p s : string) : option string :=
  match p, s with
  | EmptyString, _ => Some s
  | String c p', String d s' => if ascii_dec c d then strip p' s' else None
  | String _ _, EmptyString => None
  end.

Lemma strip_app p s : strip p (p +:+ s) = Some s.
Proof.
  induction p as [|c p IH]; [by destruct s|].
  rewrite str_app_cons. simpl. by destruct (ascii_dec c c).
Qed.

#[export] Instance gcm : AesGcm := {|
  gcm_Seal key _ msg := key +:+ msg;
  gcm_Open key _ body := strip key body
|}.

#[export] Instance gcm_laws : AesGcmLaws.
Proof. split. intros. apply strip_app. Qed.

(** A 2-of-3 setup with the polynomial 7 + 5x. *)
Lemma threshold_decrypts_witness :
  exists pub shares, Threshold.Setup [7; 5] 3 2 = Ret (pub, shares) /\
  forall r nonce msg, Threshold.canonical r -> r <> 0 -> String.length nonce = 12%nat ->
  exists ct, Threshold.EncryptWithR r nonce pub msg = Ret ct /\
  forall subset, (forall s, s ∈ subset -> s ∈ shares) -> NoDup (Threshold.sh_Index <$> subset) ->
    2 <= Z.of_nat (length subset) -> Forall (fun s => Threshold.sh_Xi s <> 0) subset ->
  exists ds shared, map_ok (fun s => Threshold.ComputeShare s ct) subset = Ret ds /\
    Threshold.Recover ds = Ret shared /\ Threshold.Decrypt shared ct = Ret msg.
Proof.
  apply (Threshold.threshold_decrypts [7; 5] 3 2).
  - lia.
  - reflexivity.
  - reflexivity.
  - repeat constructor; discriminate.
  - discriminate.
Defined.

End CurveModel.
