(* ===== verification/Dkg.v ===== *)
(** * x/encmempool/dkg: joint-Feldman key generation and its proofs

    Models x/encmempool/dkg: Feldman verification and public share keys (dkg.go),
    the on-chain finalisation, complaint check and proof encodings (onchain.go),
    the Chaum-Pedersen proof of a partial decryption and the recovery path that
    enforces it (proof.go), the proof of knowledge of a ciphertext's ephemeral
    key (pok.go) and the proof of possession of an encryption key (pop.go). *)
From S2P Require Import Prelude Sha256 Threshold.
From stdpp Require Import gmap strings list sorting.
From Stdlib Require Import ZArith Lia.

#[local] Set Default Goal Selector "!".
Open Scope Z_scope.

(** ECDSA signatures of the decred package: parsing of a DER signature and its
    verification under a parsed key, as one predicate on bytes. *)
Class Ecdsa : Type := { ecdsa_Verify : string -> string -> string -> bool }.

Module Dkg.
Import Threshold.

Section definitions.
Context `{Curve} `{AesGcm}.

(** ** Scalars on the wire *)

(** [ModNScalar.Bytes], and [SetBytes] with its overflow flag. *)
Definition scalar_bytes (x : Z) : string := be_bytes 32 x.
Definition SetBytes (b : string) : Z * bool := (be_decode b mod GroupOrder, GroupOrder <=? be_decode b).

Record DLEQProof := mkDLEQProof { pf_C : Z; pf_Z : Z }.

Definition MarshalDLEQProof (p : DLEQProof) : string := scalar_bytes (pf_C p) +:+ scalar_bytes (pf_Z p).

Definition ParseDLEQProof (b : string) : option DLEQProof :=
  if negb (String.length b =? 64)%nat then None else
  let c := SetBytes (String.substring 0 32 b) in
  let z := SetBytes (String.substring 32 32 b) in
  if c.2 || z.2 then None else Some (mkDLEQProof c.1 z.1).

(** ** Points *)
Definition parsePoint (b : string) : option Point := ParsePubKey b.
Definition compressCopy (P : Point) : string := SerializeCompressed P.
Definition ValidCompressedPoint (b : string) : bool :=
  match parsePoint b with Some _ => true | None => false end.

Definition ParseCommitmentPoints (cbz : list string) : option (list Point) := mapM parsePoint cbz.

(** Horner in the exponent; [nil] for an empty slice. *)
Definition SharePubKey (commitments : list Point) (index : Z) : option Point :=
  let zi := scalarFromUint index in
  match rev commitments with
  | [] => None
  | c :: rest => Some (foldl (fun acc ck => AddNonConst (ScalarMultNonConst zi acc) ck) c rest)
  end.

(** A nil share is [None]. *)
Definition VerifyShare (commitments : list Point) (index : Z) (share : option Z) : bool :=
  match share, SharePubKey commitments index with
  | Some s, Some rhs => String.eqb (compressCopy (ScalarBaseMultNonConst s)) (compressCopy rhs)
  | _, _ => false
  end.

(** The indices [from, ..., to] of a [for idx := from; idx <= to; idx++] loop. *)
Definition idx_range (from to : Z) : list Z := seqZ from (to - from + 1).

(** [compressCopy(SharePubKey(...))] dereferences the nil of an empty slice. *)
Definition ShareKeysCompressedRange (publicCommitments : list string) (from to : Z)
    : outcome (option (list string)) :=
  match ParseCommitmentPoints publicCommitments with
  | None => Ret None
  | Some comm =>
      let from := if from <? 1 then 1 else from in
      if to <? from then Ret (Some [])
      else
        keys ← map_ok (fun idx => match SharePubKey comm idx with
                                  | Some Y => Ret (compressCopy Y)
                                  | None => Panic "nil pointer dereference"
                                  end) (idx_range from to);
        Ret (Some keys)
  end.

(** ** Dealing *)

(** [Deal] with the random polynomial [coeffs]: the commitments and the share of
    each member. *)
Definition Deal (coeffs : list Z) (members : list Z) (t : Z) : outcome (list string * gmap Z Z) :=
  if t <? 1 then Err "invalid threshold" else
  match members with
  | [] => Err "no members"
  | _ =>
      shares ← map_ok (fun m => s ← evalPoly coeffs m; Ret (m, s)) members;
      Ret ((fun c => compressCopy (ScalarBaseMultNonConst c)) <$> coeffs,
           foldl (fun acc ms => <[ms.1 := ms.2]> acc) ∅ shares)
  end.

(** ** Finalisation *)

Record PublicDealing := mkPublicDealing { pd_Dealer : Z; pd_Commitments : list string }.
Record PublicResult := mkPublicResult {
  Pub : string; PublicCommitments : list string; Qual : list Z; Disqualified : list Z
}.

(** The insertion sort of [sortUint64]. *)
Fixpoint insert_sorted (x : Z) (l : list Z) : list Z :=
  match l with
  | [] => [x]
  | y :: l' => if y <=? x then y :: insert_sorted x l' else x :: l
  end.
Definition sortUint64 (l : list Z) : list Z := foldl (fun acc x => insert_sorted x acc) [] l.

Definition memberWeight (weightOf : option (gmap Z Z)) (m : Z) : Z :=
  match weightOf with
  | None => 1
  | Some w => default 1 (w !! m)
  end.

(** The well-formed dealings by dealer; the last one of a dealer wins. *)
Definition byDealer (degree : Z) (dealings : list PublicDealing) : gmap Z (list Point) :=
  foldl (fun acc d =>
    if negb (Z.of_nat (length (pd_Commitments d)) =? degree) then acc else
    match ParseCommitmentPoints (pd_Commitments d) with
    | None => acc
    | Some pts => <[pd_Dealer d := pts]> acc
    end) ∅ dealings.

Definition in_list (x : Z) (l : list Z) : bool := bool_decide (x ∈ l).

(** The qualified and the excluded members, in the order given. *)
Definition split_qual (dealt : gmap Z (list Point)) (disqualified : list Z) (members : list Z)
    : list Z * list Z :=
  let ok m := bool_decide (is_Some (dealt !! m)) && negb (in_list m disqualified) in
  (List.filter ok members, List.filter (fun m => negb (ok m)) members).

(** The sum of the non-empty list of points, from its first element on. *)
Definition sum_points (ps : list Point) : Point :=
  match ps with [] => Infinity | p :: rest => foldl AddNonConst p rest end.

(** [V_j], the sum of the j-th commitments of the qualified dealers. *)
Definition aggregate (dealt : gmap Z (list Point)) (qual : list Z) (j : nat) : Point :=
  sum_points (omap (fun i => pts ← dealt !! i; pts !! j) qual).

Definition FinalizePublicWeighted (members : list Z) (degree : Z) (dealings : list PublicDealing)
    (disqualified : list Z) (weightOf : option (gmap Z Z)) (minQualWeight : Z) : outcome PublicResult :=
  if degree <? 1 then Err "invalid threshold" else
  match members with
  | [] => Err "no members"
  | _ =>
      let dealt := byDealer degree dealings in
      let '(qual, disqOut) := split_qual dealt disqualified (sortUint64 members) in
      let qualWeight := sumZ (memberWeight weightOf) qual in
      if qualWeight <? minQualWeight then Err "DKG failed: QUAL weight" else
      let V := aggregate dealt qual <$> seq 0 (Z.to_nat degree) in
      let vbz := compressCopy <$> V in
      if negb (forallb ValidCompressedPoint vbz)
      then Err "DKG failed: aggregate commitment is not a valid curve point" else
      Ret (mkPublicResult (hd "" vbz) vbz qual disqOut)
  end.

Definition FinalizePublic (members : list Z) (t : Z) (dealings : list PublicDealing)
    (disqualified : list Z) : outcome PublicResult :=
  FinalizePublicWeighted members t dealings disqualified None t.

(** ** Chaum-Pedersen proofs *)

Definition dleqContext : string := "limonata/encmempool/dkg/dleq/v1".
Definition dleqNonceContext : string := "limonata/encmempool/dkg/dleq-nonce/v1".

(** [SetBytes] with the flag ignored. *)
Definition hash_scalar (s : string) : Z := (SetBytes (sha256 s)).1.

Definition dleqChallenge (index : Z) (A D Y T1 T2 : Point) : Z :=
  hash_scalar (dleqContext +:+ (be64 index +:+ (compressCopy A +:+ (compressCopy D +:+
    (compressCopy Y +:+ (compressCopy T1 +:+ compressCopy T2)))))).

(** The little-endian retry counter of four bytes. *)
Definition le32 (n : Z) : string :=
  String (byte_of (n mod 256)) (String (byte_of ((n / 256) mod 256))
    (String (byte_of ((n / 65536) mod 256)) (String (byte_of ((n / 16777216) mod 256)) EmptyString))).

(** Rejection sampling: the first counter whose hash is a canonical non-zero
    scalar.  [None] when no counter below [fuel] is accepted; each is accepted
    with probability 1 - 2^-127 on secp256k1. *)
Fixpoint sample_nonce (prefix : string) (fuel : nat) (ctr : Z) : option Z :=
  match fuel with
  | O => None
  | S f =>
      let k := SetBytes (sha256 (prefix +:+ le32 ctr)) in
      if negb k.2 && negb (k.1 =? 0) then Some k.1 else sample_nonce prefix f (u32 (ctr + 1))
  end.

Definition deriveDLEQNonce (fuel : nat) (index x : Z) (A D Y : Point) : option Z :=
  sample_nonce (dleqNonceContext +:+ (be64 index +:+ (scalar_bytes x +:+ (compressCopy A +:+
    (compressCopy D +:+ compressCopy Y))))) fuel 0.

(** [ProveDecryptShare] given the derived nonce. *)
Definition prove_with (k : Z) (share : Share) (A D : Point) : DLEQProof :=
  let Y := ScalarBaseMultNonConst (sh_Xi share) in
  let c := dleqChallenge (sh_Index share) A D Y (ScalarBaseMultNonConst k) (ScalarMultNonConst k A) in
  mkDLEQProof c ((k + (c * sh_Xi share) mod GroupOrder) mod GroupOrder).

Definition ProveDecryptShare (fuel : nat) (share : Share) (ct : Ciphertext)
    : outcome (option (DecryptShare * DLEQProof)) :=
  ds ← ComputeShare share ct;
  match parsePoint (ct_A ct), parsePoint (ds_D ds) with
  | Some A, Some D =>
      let Y := ScalarBaseMultNonConst (sh_Xi share) in
      Ret (match deriveDLEQNonce fuel (sh_Index share) (sh_Xi share) A D Y with
           | None => None
           | Some k => Some (ds, prove_with k share A D)
           end)
  | _, _ => Err "invalid point"
  end.

Definition scalar_negate (x : Z) : Z := (- x) mod GroupOrder.

(** A nil proof or key is [None]. *)
Definition VerifyDecryptShare (ctA : string) (ds : DecryptShare) (Y : option Point)
    (proof : option DLEQProof) : bool :=
  match proof, Y with
  | Some pf, Some Y =>
      match parsePoint ctA, parsePoint (ds_D ds) with
      | Some A, Some D =>
          let negC := scalar_negate (pf_C pf) in
          let T1 := AddNonConst (ScalarBaseMultNonConst (pf_Z pf)) (ScalarMultNonConst negC Y) in
          let T2 := AddNonConst (ScalarMultNonConst (pf_Z pf) A) (ScalarMultNonConst negC D) in
          dleqChallenge (ds_Index ds) A D Y T1 T2 =? pf_C pf
      | _, _ => false
      end
  | _, _ => false
  end.

(** *** Recovery from proven partials *)

Definition ErrInsufficientVerified : string := "insufficient DLEQ-verified partials".

(** [VerifiedShare]; nil pointers are [None]. *)
Definition VerifiedShare : Type := (option DecryptShare * option DLEQProof)%type.

(** The public share key used for one partial: the cached one if it parses. *)
Definition share_key (commitments : list Point) (cachedKey : option (Z -> option string)) (index : Z)
    : option Point :=
  match cachedKey with
  | Some f =>
      match f index with
      | Some yb => match parsePoint yb with Some P => Some P | None => SharePubKey commitments index end
      | None => SharePubKey commitments index
      end
  | None => SharePubKey commitments index
  end.

(** Whether a partial with a fresh index enters the combination. *)
Definition accept_partial (commitments : list Point) (ctA : string) (cachedKey : option (Z -> option string))
    (preVerified : option (Z -> bool)) (s : DecryptShare) (pf : DLEQProof) : bool :=
  match preVerified with Some f => f (ds_Index s) | None => false end ||
  VerifyDecryptShare ctA s (share_key commitments cachedKey (ds_Index s)) (Some pf).

Fixpoint collect_good (commitments : list Point) (ctA : string) (t : Z)
    (cachedKey : option (Z -> option string)) (preVerified : option (Z -> bool))
    (good : list DecryptShare) (partials : list VerifiedShare) : list DecryptShare :=
  match partials with
  | [] => good
  | (Some s, Some pf) :: rest =>
      let skip := collect_good commitments ctA t cachedKey preVerified good rest in
      if (ds_Index s <? 1) || (2 ^ 32 <=? ds_Index s) then skip
      else if existsb (fun g => ds_Index g =? ds_Index s) good then skip
      else if accept_partial commitments ctA cachedKey preVerified s pf then
        let good := good ++ [s] in
        if Z.of_nat (length good) =? t then good
        else collect_good commitments ctA t cachedKey preVerified good rest
      else skip
  | _ :: rest => collect_good commitments ctA t cachedKey preVerified good rest
  end.

Definition RecoverVerifiedWithKeys (commitments : list Point) (ctA : string) (t : Z)
    (partials : list VerifiedShare) (cachedKey : option (Z -> option string))
    (preVerified : option (Z -> bool)) : outcome Point :=
  if t <? 1 then Err "invalid threshold" else
  match commitments with
  | [] => Err "no public commitments"
  | _ =>
      let good := collect_good commitments ctA t cachedKey preVerified [] partials in
      if Z.of_nat (length good) <? t then Err ErrInsufficientVerified else Recover good
  end.

Definition RecoverVerified (commitments : list Point) (ctA : string) (t : Z) (partials : list VerifiedShare)
    : outcome Point :=
  RecoverVerifiedWithKeys commitments ctA t partials None None.

(** ** Sealed shares and complaints *)

(** [EncryptShareTo] with the ephemeral scalar and nonce it draws. *)
Definition EncryptShareTo (r : Z) (nonce memberEncPub : string) (share : Z) : outcome Ciphertext :=
  EncryptWithR r nonce memberEncPub (scalar_bytes share).

Definition DecryptShareFrom (encPriv memberIndex : Z) (ct : Ciphertext) : outcome Z :=
  ds ← ComputeShare (mkShare memberIndex encPriv) ct;
  match parsePoint (ds_D ds) with
  | None => Err "invalid point"
  | Some Spub =>
      plain ← Decrypt Spub ct;
      if negb (String.length plain =? 32)%nat then Err "bad share plaintext length" else
      let s := SetBytes plain in
      if s.2 then Err "decrypted share is not a canonical scalar" else Ret s.1
  end.

(** The pair (cheated, proofValid). *)
Definition VerifyJustifiedComplaint (evalPoint : Z) (accuserEncPub : string) (dealerCommitments : list string)
    (encA encNonce encBody sharedPoint dleqProof : string) : bool * bool :=
  match parsePoint encA with
  | None => (true, true)
  | Some _ =>
      if negb (Z.of_nat (String.length encNonce) =? NonceSize) then (true, true) else
      match parsePoint accuserEncPub, ParseDLEQProof dleqProof with
      | Some Y, Some proof =>
          if negb (VerifyDecryptShare encA (mkDecryptShare evalPoint sharedPoint) (Some Y) (Some proof))
          then (false, false) else
          match parsePoint sharedPoint with
          | None => (false, true)
          | Some Spt =>
              match Decrypt Spt (mkCiphertext encA encNonce encBody) with
              | Ret plain =>
                  if negb (String.length plain =? 32)%nat then (true, true) else
                  match ParseCommitmentPoints dealerCommitments with
                  | None => (true, true)
                  | Some commitments =>
                      let s := SetBytes plain in
                      if s.2 then (true, true) else
                      if VerifyShare commitments evalPoint (Some s.1) then (false, true) else (true, true)
                  end
              | _ => (true, true)
              end
          end
      | _, _ => (false, false)
      end
  end.

(** ** Proof of knowledge of the ephemeral key *)

Definition encPoKContext : string := "limonata/encmempool/enc-pok/v1".
Definition encPoKNonceContext : string := "limonata/encmempool/enc-pok-nonce/v1".

Record EncKeyPoK := mkEncKeyPoK { pok_C : Z; pok_Z : Z }.

Definition writeField (b : string) : string := be_bytes 4 (Z.of_nat (String.length b)) +:+ b.

Definition encPoKChallenge (chainID a submitter nonce body : string) (T : Point) : Z :=
  hash_scalar (encPoKContext +:+ (writeField chainID +:+ (writeField a +:+ (writeField submitter +:+
    (writeField nonce +:+ (writeField body +:+ compressCopy T)))))).

Definition deriveEncPoKNonce (fuel : nat) (r : Z) (chainID submitter a nonce body : string) : option Z :=
  sample_nonce (encPoKNonceContext +:+ (scalar_bytes r +:+ (writeField chainID +:+ (writeField a +:+
    (writeField submitter +:+ (writeField nonce +:+ writeField body)))))) fuel 0.

Definition pok_with (k r : Z) (chainID submitter a nonce body : string) : EncKeyPoK :=
  let c := encPoKChallenge chainID a submitter nonce body (ScalarBaseMultNonConst k) in
  mkEncKeyPoK c ((k + (c * r) mod GroupOrder) mod GroupOrder).

Definition ProveEncKeyPoK (fuel : nat) (r : Z) (chainID submitter a nonce body : string) : option EncKeyPoK :=
  match deriveEncPoKNonce fuel r chainID submitter a nonce body with
  | None => None
  | Some k => Some (pok_with k r chainID submitter a nonce body)
  end.

Definition VerifyEncKeyPoK (chainID a submitter nonce body : string) (proof : option EncKeyPoK) : bool :=
  match proof, parsePoint a with
  | Some pf, Some A =>
      let T := AddNonConst (ScalarBaseMultNonConst (pok_Z pf)) (ScalarMultNonConst (scalar_negate (pok_C pf)) A) in
      encPoKChallenge chainID a submitter nonce body T =? pok_C pf
  | _, _ => false
  end.

Definition PoK_Marshal (p : EncKeyPoK) : string := scalar_bytes (pok_C p) +:+ scalar_bytes (pok_Z p).

Definition ParseEncKeyPoK (b : string) : option EncKeyPoK :=
  if negb (String.length b =? 64)%nat then None else
  let c := SetBytes (String.substring 0 32 b) in
  let z := SetBytes (String.substring 32 32 b) in
  if c.2 || z.2 then None else
  if (c.1 =? 0) || (z.1 =? 0) then None else Some (mkEncKeyPoK c.1 z.1).

Definition EncryptWithPoK (fuel : nat) (r : Z) (nonce pub msg chainID submitter : string)
    : outcome (Ciphertext * option EncKeyPoK) :=
  ct ← EncryptWithR r nonce pub msg;
  Ret (ct, ProveEncKeyPoK fuel r chainID submitter (ct_A ct) (ct_Nonce ct) (ct_Body ct)).

(** ** Proof of possession of an encryption key *)
Context `{Ecdsa}.

Definition encKeyPoPDomain : string := "LIMO-DKG-ENCKEY-POP" +:+ byte_prefix 0.
Definition popDigest (operator : string) : string := sha256 (encKeyPoPDomain +:+ operator).

Definition VerifyEncKeyPoP (encPub operator pop : string) : bool :=
  if String.eqb operator "" || (String.length pop =? 0)%nat || negb (ValidCompressedPoint encPub)
  then false else ecdsa_Verify encPub (popDigest operator) pop.

End definitions.
End Dkg.
