(* ===== verification/DkgProofs.v ===== *)
(** * x/encmempool/dkg: the key generation and its proofs are correct

    Feldman verification accepts exactly the dealt share; the Chaum-Pedersen and
    ephemeral-key proofs produced by the code are accepted by its verifiers and
    their encodings are unique; the finalised key is the sum of the qualified
    dealers' keys; proven partial decryptions recover the message whatever invalid
    partials are mixed in. *)
From S2P Require Import Prelude Sha256 Threshold CurveModel Dkg.
From stdpp Require Import gmap strings list sorting.
From Stdlib Require Import ZArith Lia.

#[local] Set Default Goal Selector "!".
Open Scope Z_scope.

Module DkgProofs.
Import Threshold Dkg.

#[local] Infix "≡q" := eqq (at level 70).

Lemma rev_fmap {A C : Type} (f : A -> C) (l : list A) : rev (f <$> l) = f <$> rev l.
Proof. induction l as [|x l IH]; [done|]. simpl. by rewrite fmap_app, <- IH. Qed.

Section points.
Context `{CurveLaws}.

Lemma base_plus a b : ScalarBaseMultNonConst (a + b) = AddNonConst (ScalarBaseMultNonConst a) (ScalarBaseMultNonConst b).
Proof. rewrite (pt_base (a + b)), (pt_base a), (pt_base b). apply smul_plus. Qed.
Lemma base_mul a b : ScalarMultNonConst a (ScalarBaseMultNonConst b) = ScalarBaseMultNonConst (a * b).
Proof. rewrite (pt_base b), (pt_base (a * b)). symmetry. apply smul_mul. Qed.
Lemma base_eqq a b : a ≡q b -> ScalarBaseMultNonConst a = ScalarBaseMultNonConst b.
Proof. intros E. rewrite (pt_base a), (pt_base b). by rewrite E. Qed.
Lemma base_inj a b : ScalarBaseMultNonConst a = ScalarBaseMultNonConst b -> a ≡q b.
Proof. rewrite (pt_base a), (pt_base b). apply smul_inj, pt_base_free. Qed.
Lemma base_finite a : ~ a ≡q 0 -> ScalarBaseMultNonConst a <> Infinity.
Proof. intros Ha. rewrite pt_base. apply smul_finite; [apply pt_base_free|done]. Qed.
Lemma base_0 : ScalarBaseMultNonConst 0 = Infinity.
Proof. rewrite pt_base. apply pt_smul_0. Qed.

(** [z*P - c*Q], the points the verifiers recompute. *)
Lemma transcript k c x P :
  AddNonConst (ScalarMultNonConst ((k + (c * x) mod GroupOrder) mod GroupOrder) P)
    (ScalarMultNonConst (scalar_negate c) (ScalarMultNonConst x P)) = ScalarMultNonConst k P.
Proof.
  unfold scalar_negate. rewrite !smul_mod, <- smul_mul, <- smul_plus. apply smul_eqq; [|done].
  rewrite (eqq_mod (c * x)). apply eqq_of_eq. ring.
Qed.

Lemma base_transcript k c x :
  AddNonConst (ScalarBaseMultNonConst ((k + (c * x) mod GroupOrder) mod GroupOrder))
    (ScalarMultNonConst (scalar_negate c) (ScalarBaseMultNonConst x)) = ScalarBaseMultNonConst k.
Proof. rewrite (pt_base x), (pt_base (_ mod _)), transcript. symmetry. apply pt_base. Qed.

(** ** Shares *)

Lemma SharePubKey_spec coeffs i :
  coeffs <> [] ->
  SharePubKey (ScalarBaseMultNonConst <$> coeffs) i = Some (ScalarBaseMultNonConst (peval coeffs (scalarFromUint i))).
Proof.
  intros Hne. unfold SharePubKey. rewrite rev_fmap. set (z := scalarFromUint i).
  destruct (rev coeffs) as [|c rest] eqn:E; [by rewrite <- (rev_involutive coeffs), E in Hne|].
  assert (Hco : coeffs = rev rest ++ [c]) by (by rewrite <- (rev_involutive coeffs), E).
  simpl. f_equal. rewrite Hco. clear Hco E Hne coeffs.
  assert (Hgen : forall acc cs, acc = ScalarBaseMultNonConst (peval cs z) ->
    foldl (fun acc ck => AddNonConst (ScalarMultNonConst z acc) ck) acc (ScalarBaseMultNonConst <$> rest) =
    ScalarBaseMultNonConst (peval (rev rest ++ cs) z)).
  { induction rest as [|r rest IH]; intros acc cs ->; [done|]. simpl. rewrite (IH _ (r :: cs)).
    - by rewrite <- app_assoc.
    - rewrite base_mul, <- base_plus. simpl. f_equal. ring. }
  apply (Hgen _ [c]). simpl. f_equal. ring.
Qed.

(** The verifier accepts exactly the value of the committed polynomial. *)
Lemma VerifyShare_exact coeffs i s :
  coeffs <> [] ->
  VerifyShare (ScalarBaseMultNonConst <$> coeffs) i (Some s) = true <-> s ≡q peval coeffs (scalarFromUint i).
Proof.
  intros Hne. unfold VerifyShare, compressCopy. rewrite SharePubKey_spec by done. rewrite String.eqb_eq. split.
  - intros E%compress_inj. by apply base_inj.
  - intros E. f_equal. by apply base_eqq.
Qed.

Definition commits (coeffs : list Z) : list string := (fun c => compressCopy (ScalarBaseMultNonConst c)) <$> coeffs.
Definition nonzero (coeffs : list Z) : Prop := Forall (fun c => ~ c ≡q 0) coeffs.

Lemma parse_commits coeffs :
  nonzero coeffs -> ParseCommitmentPoints (commits coeffs) = Some (ScalarBaseMultNonConst <$> coeffs).
Proof.
  intros Hnz. unfold ParseCommitmentPoints, commits. apply mapM_Some. induction Hnz as [|c cs Hc _ IH]; simpl; constructor; [|done].
  unfold parsePoint, compressCopy. by apply parse_compressed, base_finite.
Qed.

(** ** Dealing *)
Lemma dealt_lookup (f : Z -> Z) ms (acc : gmap Z Z) m :
  foldl (fun acc (ms : Z * Z) => <[ms.1 := ms.2]> acc) acc ((fun m => (m, f m)) <$> ms) !! m =
  if decide (m ∈ ms) then Some (f m) else acc !! m.
Proof.
  revert acc. induction ms as [|x ms IH]; intros acc; [done|]. simpl. rewrite IH.
  destruct (decide (m ∈ ms)) as [Hin|Hnin]; [rewrite decide_True; [done|by right]|].
  destruct (decide (x = m)) as [->|Hne].
  - rewrite decide_True by by left. by rewrite lookup_insert_eq.
  - rewrite lookup_insert_ne by done. rewrite decide_False; [done|]. intros [->|?]%elem_of_cons; done.
Qed.

(** Feldman verification accepts exactly the dealt share.  [Deal] with a
    polynomial of non-zero coefficients succeeds, its commitments parse, and for
    every member the verifier accepts a canonical scalar if and only if it is the
    share [Deal] gave that member. *)
Theorem Deal_verifies coeffs members t :
  1 <= t -> members <> [] -> coeffs <> [] -> Forall canonical coeffs -> Forall (fun c => c <> 0) coeffs ->
  exists cs shares pts, Deal coeffs members t = Ret (cs, shares) /\ ParseCommitmentPoints cs = Some pts /\
  forall m s, m ∈ members -> canonical s -> (VerifyShare pts m (Some s) = true <-> shares !! m = Some s).
Proof.
  intros Ht Hm Hne Hc Hnz.
  assert (Hnz' : nonzero coeffs).
  { apply Forall_forall. intros c Hin. eapply Forall_forall in Hc; [|exact Hin]. eapply Forall_forall in Hnz; [|exact Hin].
    unfold eqq. by rewrite Zmod_0_l, Z.mod_small. }
  unfold Deal. rewrite (proj2 (Z.ltb_ge t 1)) by lia. destruct members as [|m0 ms]; [done|].
  set (f m := peval coeffs (scalarFromUint m) mod GroupOrder).
  rewrite (map_ok_Ret _ (fun m => (m, f m))) by
    (apply Forall_forall; intros m _; rewrite evalPoly_spec by done; done).
  eexists _, _, _. split; [reflexivity|]. split; [by apply (parse_commits coeffs)|].
  intros m s Hin Hs. rewrite VerifyShare_exact by done. rewrite dealt_lookup, decide_True by done.
  unfold eqq. rewrite (Z.mod_small s) by done. fold (f m). split; [by intros ->|by intros [= ->]].
Qed.

(** ** Encodings *)
Lemma SetBytes_canonical b : canonical (SetBytes b).1.
Proof. apply canonical_mod. Qed.

Lemma SetBytes_scalar x : canonical x -> SetBytes (scalar_bytes x) = (x, false).
Proof.
  intros Hx. unfold SetBytes, scalar_bytes, be_decode. rewrite be_decode_acc_bytes.
  change (8 * Z.of_nat 32) with 256. pose proof GroupOrder_256. unfold canonical in Hx.
  rewrite (Z.mod_small x (2 ^ 256)) by lia. rewrite Z.mul_0_l, Z.add_0_l, Z.mod_small by lia.
  by rewrite (proj2 (Z.leb_gt _ _)) by lia.
Qed.

Lemma scalar_SetBytes b : String.length b = 32%nat -> (SetBytes b).2 = false -> scalar_bytes (be_decode b mod GroupOrder) = b.
Proof.
  intros Hl Ho. unfold SetBytes in *. simpl in *. apply Z.leb_gt in Ho.
  pose proof (be_decode_acc_range b 0 ltac:(lia)) as Hr. fold (be_decode b) in Hr. rewrite Z.mod_small by lia.
  unfold scalar_bytes, be_decode. rewrite <- Hl. by apply be_bytes_decode_acc.
Qed.

Lemma pair_halves x y :
  String.substring 0 32 (scalar_bytes x +:+ scalar_bytes y) = scalar_bytes x /\
  String.substring 32 32 (scalar_bytes x +:+ scalar_bytes y) = scalar_bytes y.
Proof.
  unfold scalar_bytes. split.
  - apply substring_app_l, be_bytes_length.
  - rewrite substring_app_r by apply be_bytes_length. apply substring_all, be_bytes_length.
Qed.

Lemma pair_length x y : String.length (scalar_bytes x +:+ scalar_bytes y) = 64%nat.
Proof. unfold scalar_bytes. by rewrite str_app_length, !be_bytes_length. Qed.

(** The encodings of the two proofs are unique.  A proof of canonical scalars
    (non-zero ones for the ephemeral-key proof) is parsed back from its encoding,
    and any byte string the parsers accept is the encoding of the proof they
    return: no proof has a second accepted encoding. *)
Theorem proof_encodings_roundtrip :
  (forall c z, canonical c -> canonical z ->
     ParseDLEQProof (MarshalDLEQProof (mkDLEQProof c z)) = Some (mkDLEQProof c z)) /\
  (forall b p, ParseDLEQProof b = Some p -> MarshalDLEQProof p = b) /\
  (forall c z, canonical c -> canonical z -> c <> 0 -> z <> 0 ->
     ParseEncKeyPoK (PoK_Marshal (mkEncKeyPoK c z)) = Some (mkEncKeyPoK c z)) /\
  (forall b p, ParseEncKeyPoK b = Some p -> PoK_Marshal p = b /\ pok_C p <> 0 /\ pok_Z p <> 0).
Proof.
  split_and!.
  - intros c z Hc Hz. unfold ParseDLEQProof, MarshalDLEQProof. cbn [pf_C pf_Z]. rewrite pair_length, Nat.eqb_refl.
    destruct (pair_halves c z) as [-> ->]. by rewrite !SetBytes_scalar.
  - intros b p. unfold ParseDLEQProof, MarshalDLEQProof. destruct (Nat.eqb_spec (String.length b) 64) as [Hl|]; [|done].
    cbn [negb]. destruct (_ || _) eqn:E; [done|]. intros [= <-]. apply orb_false_iff in E as [E1 E2]. cbn [pf_C pf_Z].
    rewrite !scalar_SetBytes by (done || (apply substring_length; lia)). by apply substring_split.
  - intros c z Hc Hz Hc0 Hz0. unfold ParseEncKeyPoK, PoK_Marshal. cbn [pok_C pok_Z]. rewrite pair_length, Nat.eqb_refl.
    destruct (pair_halves c z) as [-> ->]. rewrite !SetBytes_scalar by done. cbn [negb fst snd orb].
    by rewrite (proj2 (Z.eqb_neq c 0)), (proj2 (Z.eqb_neq z 0)).
  - intros b p. unfold ParseEncKeyPoK, PoK_Marshal. destruct (Nat.eqb_spec (String.length b) 64) as [Hl|]; [|done].
    cbn [negb]. destruct (_ || _) eqn:E; [done|]. destruct (_ || _) eqn:E' in |- *; [done|]. intros [= <-].
    apply orb_false_iff in E as [E1 E2]. apply orb_false_iff in E' as [E3%Z.eqb_neq E4%Z.eqb_neq]. cbn [pok_C pok_Z].
    rewrite !scalar_SetBytes by (done || (apply substring_length; lia)). split_and!; [by apply substring_split|done..].
Qed.

(** ** Proofs *)
Lemma dleqChallenge_canonical i A D Y T1 T2 : canonical (dleqChallenge i A D Y T1 T2).
Proof. apply SetBytes_canonical. Qed.

Lemma prove_verify k share A D ctA :
  parsePoint ctA = Some A -> D = ScalarMultNonConst (sh_Xi share) A -> D <> Infinity ->
  VerifyDecryptShare ctA (mkDecryptShare (sh_Index share) (compressCopy D))
    (Some (ScalarBaseMultNonConst (sh_Xi share))) (Some (prove_with k share A D)) = true.
Proof.
  intros HA HD Hf. unfold VerifyDecryptShare, prove_with. cbn [pf_C pf_Z ds_D ds_Index]. rewrite HA.
  unfold parsePoint, compressCopy. rewrite parse_compressed by done. apply Z.eqb_eq.
  rewrite base_transcript, HD, transcript. done.
Qed.

Lemma prove_with_parses k share A D :
  ParseDLEQProof (MarshalDLEQProof (prove_with k share A D)) = Some (prove_with k share A D).
Proof.
  unfold ParseDLEQProof, MarshalDLEQProof, prove_with. cbn [pf_C pf_Z]. rewrite pair_length, Nat.eqb_refl.
  rewrite !(proj1 (pair_halves _ _)), !(proj2 (pair_halves _ _)).
  by rewrite !SetBytes_scalar by (apply canonical_mod || apply dleqChallenge_canonical).
Qed.

(** A proven partial decryption is accepted.  For a non-zero share and any
    ciphertext whose point parses, the partial of [ComputeShare] with the proof
    made with any nonce, encoded and parsed, is accepted under the public key of
    the share; in particular whatever [ProveDecryptShare] returns is accepted. *)
Theorem ProveDecryptShare_accepted share ct A :
  ~ sh_Xi share ≡q 0 -> ParsePubKey (ct_A ct) = Some A ->
  let Y := ScalarBaseMultNonConst (sh_Xi share) in
  let D := ScalarMultNonConst (sh_Xi share) A in
  let ds := mkDecryptShare (sh_Index share) (compressCopy D) in
  ComputeShare share ct = Ret ds /\
  (forall k, VerifyDecryptShare (ct_A ct) ds (Some Y) (ParseDLEQProof (MarshalDLEQProof (prove_with k share A D))) = true) /\
  (forall fuel ds' pf, ProveDecryptShare fuel share ct = Ret (Some (ds', pf)) ->
     VerifyDecryptShare (ct_A ct) ds' (Some Y) (ParseDLEQProof (MarshalDLEQProof pf)) = true).
Proof.
  intros Hx EA Y D ds. pose proof (parse_finite _ _ EA) as HA.
  assert (HD : D <> Infinity) by by apply smul_finite.
  assert (Hcs : ComputeShare share ct = Ret ds) by (unfold ComputeShare; by rewrite EA).
  assert (Hok : forall k, VerifyDecryptShare (ct_A ct) ds (Some Y) (ParseDLEQProof (MarshalDLEQProof (prove_with k share A D))) = true).
  { intros k. rewrite prove_with_parses. by apply prove_verify. }
  split_and!; [done..|]. intros fuel ds' pf. unfold ProveDecryptShare. rewrite Hcs. simpl. unfold parsePoint. rewrite EA.
  unfold compressCopy. rewrite parse_compressed by done.
  destruct (deriveDLEQNonce _ _ _ _ _ _) as [k|]; [|done]. intros [= <- <-]. apply Hok.
Qed.

(** The proof that binds a ciphertext to its submitter is accepted.  For a
    non-zero ephemeral scalar, the proof made with any nonce for a chain,
    submitter, nonce and body verifies for them, in particular the one
    [ProveEncKeyPoK] returns. *)
Theorem ProveEncKeyPoK_accepted r chainID submitter nonce body :
  ~ r ≡q 0 ->
  let a := compressCopy (ScalarBaseMultNonConst r) in
  (forall k, VerifyEncKeyPoK chainID a submitter nonce body (Some (pok_with k r chainID submitter a nonce body)) = true) /\
  (forall fuel pf, ProveEncKeyPoK fuel r chainID submitter a nonce body = Some pf ->
     VerifyEncKeyPoK chainID a submitter nonce body (Some pf) = true).
Proof.
  intros Hr a. assert (Hok : forall k, VerifyEncKeyPoK chainID a submitter nonce body
      (Some (pok_with k r chainID submitter a nonce body)) = true).
  { intros k. unfold VerifyEncKeyPoK, pok_with, parsePoint. cbn [pok_C pok_Z]. unfold a at 1, compressCopy.
    rewrite parse_compressed by by apply base_finite. apply Z.eqb_eq. by rewrite base_transcript. }
  split; [done|]. intros fuel pf. unfold ProveEncKeyPoK.
  destruct (deriveEncPoKNonce _ _ _ _ _ _ _) as [k|]; [|done]. intros [= <-]. apply Hok.
Qed.

(** ** Finalisation *)

(** The dealings of a list of (dealer, polynomial) pairs, and the polynomial of a
    dealer in it. *)
Definition publish (ds : list (Z * list Z)) : list PublicDealing := (fun d => mkPublicDealing d.1 (commits d.2)) <$> ds.
Definition poly (ds : list (Z * list Z)) (i : Z) : list Z := default [] ((list_to_map ds : gmap Z (list Z)) !! i).

Definition well_dealt (degree : Z) (ds : list (Z * list Z)) : Prop :=
  NoDup ds.*1 /\ Forall (fun d => Z.of_nat (length d.2) = degree /\ nonzero d.2) ds.

Definition dealt_points (ds : list (Z * list Z)) : gmap Z (list Point) :=
  (fun f : list Z => ScalarBaseMultNonConst <$> f) <$> (list_to_map ds : gmap Z (list Z)).

Lemma byDealer_publish degree ds :
  well_dealt degree ds ->
  byDealer degree (publish ds) = dealt_points ds.
Proof.
  intros [Hn Hd]. unfold byDealer, publish.
  assert (Hgen : forall acc : gmap Z (list Point), foldl (fun acc d =>
      if negb (Z.of_nat (length (pd_Commitments d)) =? degree) then acc else
      match ParseCommitmentPoints (pd_Commitments d) with
      | None => acc
      | Some pts => <[pd_Dealer d := pts]> acc
      end) acc ((fun d => mkPublicDealing d.1 (commits d.2)) <$> ds) =
    (dealt_points ds ∪ acc)).
  { induction ds as [|[i f] ds IH]; intros acc; simpl; [unfold dealt_points; simpl; by rewrite fmap_empty, (left_id_L ∅ (∪))|].
    apply NoDup_cons in Hn as [Hnin Hn]. apply Forall_cons in Hd as [[Hl Hnz] Hd]. simpl in Hl, Hnz.
    unfold commits at 1. rewrite length_fmap, Hl, Z.eqb_refl. cbn [negb]. rewrite parse_commits by done.
    rewrite IH by done. unfold dealt_points. simpl. rewrite fmap_insert. apply map_eq. intros k. rewrite !lookup_union, !lookup_fmap.
    destruct (decide (i = k)) as [->|Hne].
    - rewrite !lookup_insert_eq. rewrite not_elem_of_list_to_map_1 by done. by destruct (acc !! k).
    - by rewrite !lookup_insert_ne, lookup_fmap by done. }
  rewrite Hgen. apply (right_id_L ∅ (∪)).
Qed.

Lemma sum_points_base cs : sum_points (ScalarBaseMultNonConst <$> cs) = ScalarBaseMultNonConst (sumZ id cs).
Proof.
  destruct cs as [|c cs]; simpl; [by rewrite base_0|]. unfold id at 1. revert c. induction cs as [|d cs IH]; intros c; simpl.
  - by rewrite Z.add_0_r.
  - rewrite <- base_plus, IH. f_equal. unfold id. lia.
Qed.

(** The coefficients of the sum of the qualified dealers' polynomials. *)
Definition joint (degree : Z) (ds : list (Z * list Z)) (qual : list Z) : list Z :=
  (fun j => sumZ (fun i => nth j (poly ds i) 0) qual) <$> seq 0 (Z.to_nat degree).

Lemma aggregate_joint degree ds qual j :
  well_dealt degree ds -> (j < Z.to_nat degree)%nat ->
  (forall i, i ∈ qual -> i ∈ ds.*1) ->
  aggregate (byDealer degree (publish ds)) qual j = ScalarBaseMultNonConst (sumZ (fun i => nth j (poly ds i) 0) qual).
Proof.
  intros Hw Hj Hq. unfold aggregate. rewrite byDealer_publish by done.
  set (g := fun i : Z => pts ← dealt_points ds !! i; pts !! j).
  assert (E : omap g qual = ScalarBaseMultNonConst <$> ((fun i => nth j (poly ds i) 0) <$> qual)).
  { induction qual as [|i qual IH]; [done|]. rewrite !fmap_cons, <- IH by (intros; apply Hq; by right).
    assert (Hg : g i = Some (ScalarBaseMultNonConst (nth j (poly ds i) 0))); [|simpl; by rewrite Hg].
    assert (Hi : i ∈ ds.*1) by (apply Hq; by left). apply list_elem_of_fmap in Hi as ([i' f] & -> & Hin). simpl.
    destruct Hw as [Hn Hd]. unfold g, dealt_points. rewrite lookup_fmap. unfold poly.
    rewrite (elem_of_list_to_map_1 _ i' f) by done. simpl. eapply Forall_forall in Hd as [Hl _]; [|exact Hin]. simpl in Hl.
    rewrite list_lookup_fmap. destruct (nth_lookup_or_length f j 0) as [->|?]; [done|lia]. }
  rewrite E, sum_points_base. f_equal. by rewrite sumZ_map.
Qed.

Lemma peval_zeros (l : list nat) x : peval ((fun _ => 0) <$> l) x = 0.
Proof. induction l as [|j l IH]; [done|]. rewrite fmap_cons. cbn [peval]. rewrite IH. ring. Qed.
Lemma peval_plus (l : list nat) (f g : nat -> Z) x :
  peval ((fun j => f j + g j) <$> l) x = peval (f <$> l) x + peval (g <$> l) x.
Proof. induction l as [|j l IH]; [done|]. rewrite !fmap_cons. cbn [peval]. rewrite IH. ring. Qed.

Lemma peval_joint degree ds qual x :
  well_dealt degree ds -> (forall i, i ∈ qual -> i ∈ ds.*1) ->
  peval (joint degree ds qual) x = sumZ (fun i => peval (poly ds i) x) qual.
Proof.
  intros [Hn Hd] Hq. unfold joint.
  assert (Hp : forall i, i ∈ qual -> (fun j => nth j (poly ds i) 0) <$> seq 0 (Z.to_nat degree) = poly ds i).
  { intros i Hi%Hq. apply list_elem_of_fmap in Hi as ([i' f] & -> & Hin). unfold poly.
    rewrite (elem_of_list_to_map_1 _ i' f) by done. simpl. eapply Forall_forall in Hd as [Hl _]; [|exact Hin]. simpl in Hl.
    rewrite <- Hl, Nat2Z.id. clear. induction f as [|c f IH]; [done|]. simpl. f_equal. rewrite <- fmap_S_seq, <- list_fmap_compose. exact IH. }
  induction qual as [|i qual IH]; cbn [sumZ]; [apply peval_zeros|].
  rewrite peval_plus, (Hp i) by by left. f_equal. apply IH; intros; [apply Hq|apply Hp]; by right.
Qed.

Lemma sort_perm l : sortUint64 l ≡ₚ l.
Proof.
  assert (Hi : forall x l, insert_sorted x l ≡ₚ x :: l).
  { intros x l'. induction l' as [|y l' IH]; [done|]. simpl. destruct (y <=? x); [|done]. rewrite IH. constructor. }
  unfold sortUint64. assert (Hgen : forall acc, foldl (fun acc x => insert_sorted x acc) acc l ≡ₚ l ++ acc).
  { induction l as [|x l IH]; intros acc; [done|]. simpl. rewrite IH, Hi. by rewrite Permutation_middle. }
  rewrite Hgen. by rewrite app_nil_r.
Qed.

(** The members that dealt and were not disqualified, in index order. *)
Definition qualified (ds : list (Z * list Z)) (disqualified members : list Z) : list Z :=
  List.filter (fun m => bool_decide (m ∈ ds.*1) && negb (in_list m disqualified)) (sortUint64 members).

Lemma elem_of_qualified ds disq members i :
  i ∈ qualified ds disq members <-> i ∈ members /\ i ∈ ds.*1 /\ i ∉ disq.
Proof.
  unfold qualified. rewrite list_elem_of_In, filter_In, <- list_elem_of_In, (elem_of_Permutation_proper _ _ _ (sort_perm members)).
  rewrite andb_true_iff, bool_decide_eq_true, negb_true_iff. unfold in_list. rewrite bool_decide_eq_false. naive_solver.
Qed.

Lemma split_qual_qualified degree ds disq members :
  well_dealt degree ds ->
  (split_qual (byDealer degree (publish ds)) disq (sortUint64 members)).1 = qualified ds disq members.
Proof.
  intros Hw. unfold split_qual, qualified. simpl. rewrite byDealer_publish by done.
  apply filter_ext. intros m. f_equal. apply bool_decide_ext. unfold dealt_points. rewrite lookup_fmap, fmap_is_Some.
  split.
  - intros [f Hf%elem_of_list_to_map_2]. apply list_elem_of_fmap. by exists (m, f).
  - intros ([m' f] & -> & Hin)%list_elem_of_fmap. exists f. apply elem_of_list_to_map_1; [apply Hw|done].
Qed.

Lemma joint_points degree ds qual :
  well_dealt degree ds -> (forall i, i ∈ qual -> i ∈ ds.*1) ->
  aggregate (byDealer degree (publish ds)) qual <$> seq 0 (Z.to_nat degree) =
  ScalarBaseMultNonConst <$> joint degree ds qual.
Proof.
  intros Hw Hq. unfold joint. rewrite <- list_fmap_compose. apply list_fmap_ext. intros k j Hj. simpl.
  apply aggregate_joint; [done| |done]. apply list_elem_of_lookup_2, elem_of_seq in Hj. lia.
Qed.

Lemma valid_points cs : forallb ValidCompressedPoint (compressCopy <$> (ScalarBaseMultNonConst <$> cs)) = true <-> nonzero cs.
Proof.
  assert (Hc : forall c, ValidCompressedPoint (compressCopy (ScalarBaseMultNonConst c)) = true <-> ~ c ≡q 0).
  { intros c. unfold ValidCompressedPoint, parsePoint, compressCopy. split.
    - intros Hv E. rewrite (base_eqq _ _ E), base_0, parse_infinity in Hv. done.
    - intros Hc. by rewrite parse_compressed by by apply base_finite. }
  induction cs as [|c cs IH]; simpl; [split; [constructor|done]|]. rewrite andb_true_iff, Hc, IH. unfold nonzero.
  by rewrite Forall_cons.
Qed.

(** Finalisation, branch by branch. *)
Lemma finalize_eq ds members degree disq weights minW :
  1 <= degree -> members <> [] -> well_dealt degree ds ->
  let qual := qualified ds disq members in
  let vbz := compressCopy <$> (ScalarBaseMultNonConst <$> joint degree ds qual) in
  FinalizePublicWeighted members degree (publish ds) disq weights minW =
    if sumZ (memberWeight weights) qual <? minW then Err "DKG failed: QUAL weight" else
    if negb (forallb ValidCompressedPoint vbz) then Err "DKG failed: aggregate commitment is not a valid curve point" else
    Ret (mkPublicResult (hd "" vbz) vbz qual (split_qual (byDealer degree (publish ds)) disq (sortUint64 members)).2).
Proof.
  intros Hd Hm Hw qual vbz. unfold FinalizePublicWeighted. rewrite (proj2 (Z.ltb_ge degree 1)) by lia.
  assert (Hq : forall i, i ∈ qual -> i ∈ ds.*1) by (intros i Hi; apply elem_of_qualified in Hi; naive_solver).
  destruct members as [|m0 ms]; [done|]. pose proof (split_qual_qualified degree ds disq (m0 :: ms) Hw) as Hsp.
  destruct (split_qual _ _ _) as [q dq]. simpl in Hsp. subst q. fold qual. by rewrite joint_points.
Qed.

Lemma finalize_result ds members degree disq weights minW res :
  1 <= degree -> members <> [] -> well_dealt degree ds ->
  FinalizePublicWeighted members degree (publish ds) disq weights minW = Ret res ->
  let F := joint degree ds (qualified ds disq members) in
  Qual res = qualified ds disq members /\ Pub res = compressCopy (ScalarBaseMultNonConst (hd 0 F)) /\
  PublicCommitments res = commits F /\ nonzero F.
Proof.
  intros Hd Hm Hw. rewrite finalize_eq by done. cbv zeta. destruct (_ <? minW); [done|].
  destruct (forallb _ _) eqn:E2; [|done]. apply valid_points in E2. intros [= <-]. simpl. split_and!; [done| |by rewrite <- list_fmap_compose|done].
  unfold joint. destruct (Z.to_nat degree) as [|n] eqn:En; [lia|]. done.
Qed.

(** The finalised threshold key is the joint key of the qualified dealers.
    For dealings of polynomials with non-zero coefficients, the members that count
    are exactly those that dealt and were not disqualified; finalisation succeeds
    if and only if they carry the required weight and no coefficient of the sum of
    their polynomials vanishes; the public key is then the sum of their secrets in
    the exponent, and the public key of every share index is the sum of their
    polynomials there. *)
Theorem FinalizePublicWeighted_joint ds members degree disq weights minW :
  1 <= degree -> members <> [] -> well_dealt degree ds ->
  let qual := qualified ds disq members in
  let result := FinalizePublicWeighted members degree (publish ds) disq weights minW in
  (forall i, i ∈ qual <-> i ∈ members /\ i ∈ ds.*1 /\ i ∉ disq) /\
  ((exists res, result = Ret res) <-> minW <= sumZ (memberWeight weights) qual /\ nonzero (joint degree ds qual)) /\
  (forall res, result = Ret res ->
     Qual res = qual /\
     Pub res = compressCopy (ScalarBaseMultNonConst (sumZ (fun i => hd 0 (poly ds i)) qual)) /\
     exists pts, ParseCommitmentPoints (PublicCommitments res) = Some pts /\
       forall idx, SharePubKey pts idx =
         Some (ScalarBaseMultNonConst (sumZ (fun i => peval (poly ds i) (scalarFromUint idx)) qual))).
Proof.
  intros Hd Hm Hw qual result. assert (Hq : forall i, i ∈ qual -> i ∈ ds.*1).
  { intros i Hi. apply elem_of_qualified in Hi. naive_solver. }
  split_and!; [intros i; apply elem_of_qualified| |].
  - unfold result. rewrite finalize_eq by done. cbv zeta. fold qual. destruct (_ <? minW) eqn:E1; bool_prop; [split; [by intros []|intros []; lia]|].
    rewrite <- valid_points. destruct (forallb _ _); simpl; [|split; [by intros []|by intros []]]. split; [done|eauto].
  - intros res Hres. destruct (finalize_result _ _ _ _ _ _ _ Hd Hm Hw Hres) as (HQ & HP & HC & Hnz). fold qual in HQ, HP, HC, Hnz.
    split_and!; [done| |].
    + rewrite HP, <- (peval_0 (joint degree ds qual)), (peval_joint degree) by done. do 2 f_equal.
      apply sumZ_ext, Forall_true. intros i. apply peval_0.
    + exists (ScalarBaseMultNonConst <$> joint degree ds qual). rewrite HC. split; [by apply parse_commits|].
      assert (Hne : joint degree ds qual <> []) by (unfold joint; destruct (Z.to_nat degree) eqn:En; [lia|done]).
      intros idx. by rewrite SharePubKey_spec, (peval_joint degree).
Qed.

(** ** Recovery *)
Section recovery.
Context (F : list Z) (A : Point) (ctA : string) (t : Z) (cachedKey : option (Z -> option string))
  (preVerified : option (Z -> bool)).
Hypothesis Ht : 1 <= t.

(** A partial that the recovery may use. *)
Definition usable_partial (partials : list VerifiedShare) (s : DecryptShare) : Prop :=
  exists pf, (Some s, Some pf) ∈ partials /\ 1 <= ds_Index s < 2 ^ 32 /\
    accept_partial (ScalarBaseMultNonConst <$> F) ctA cachedKey preVerified s pf = true.

Lemma usable_cons p ps s : usable_partial ps s -> usable_partial (p :: ps) s.
Proof. intros (pf & Hin & Hr & Ha). exists pf. split; [by right|done]. Qed.

Lemma collect_good_spec partials good :
  NoDup (ds_Index <$> good) -> Z.of_nat (length good) < t ->
  let all := collect_good (ScalarBaseMultNonConst <$> F) ctA t cachedKey preVerified good partials in
  NoDup (ds_Index <$> all) /\ Z.of_nat (length all) <= t /\ (exists new, all = good ++ new /\ Forall (usable_partial partials) new) /\
  (Z.of_nat (length all) < t -> forall s, usable_partial partials s -> ds_Index s ∈ ds_Index <$> all).
Proof.
  revert good. induction partials as [|p ps IH]; intros good Hn Hl; cbn [collect_good]; cbv zeta.
  { split_and!; [done|lia|exists []; by rewrite app_nil_r|]. intros _ s (pf & Hin & _). by apply not_elem_of_nil in Hin. }
  assert (Hskip : (forall s pf, p = (Some s, Some pf) -> 1 <= ds_Index s < 2 ^ 32 ->
      accept_partial (ScalarBaseMultNonConst <$> F) ctA cachedKey preVerified s pf = true -> ds_Index s ∈ ds_Index <$> good) ->
    let all := collect_good (ScalarBaseMultNonConst <$> F) ctA t cachedKey preVerified good ps in
    NoDup (ds_Index <$> all) /\ Z.of_nat (length all) <= t /\ (exists new, all = good ++ new /\ Forall (usable_partial (p :: ps)) new) /\
    (Z.of_nat (length all) < t -> forall s, usable_partial (p :: ps) s -> ds_Index s ∈ ds_Index <$> all)).
  { intros Hp all. destruct (IH good Hn Hl) as (H1 & H2 & (new & H3 & H4) & H5). fold all in H1, H2, H3, H5.
    split_and!; [done..| |].
    - exists new. split; [done|]. eapply Forall_impl; [exact H4|]. intros s. apply usable_cons.
    - intros Hlt s (pf & [<-|Hin]%elem_of_cons & Hr & Ha); [|apply H5; [done|]; by exists pf].
      rewrite H3, fmap_app. apply elem_of_app. left. by apply (Hp s pf). }
  destruct p as [[s|] [pf|]]; try (apply Hskip; by intros ? ? [= ]).
  destruct ((ds_Index s <? 1) || (2 ^ 32 <=? ds_Index s)) eqn:Er.
  { apply Hskip. intros ? ? [= <- <-] Hr _. apply orb_true_iff in Er as [?%Z.ltb_lt|?%Z.leb_le]; lia. }
  apply orb_false_iff in Er as [Er1%Z.ltb_ge Er2%Z.leb_gt].
  destruct (existsb (fun g => ds_Index g =? ds_Index s) good) eqn:Ee.
  { apply Hskip. intros ? ? [= <- <-] _ _. apply existsb_exists in Ee as (g & Hg & E%Z.eqb_eq).
    rewrite <- E. apply list_elem_of_fmap_2. by apply list_elem_of_In. }
  destruct (accept_partial _ _ _ _ s pf) eqn:Ea; [|apply Hskip; intros ? ? [= <- <-] _; by rewrite Ea].
  assert (Hn' : NoDup (ds_Index <$> good ++ [s])).
  { rewrite fmap_app. apply NoDup_app. split_and!; [done| |apply NoDup_singleton].
    intros i (g & -> & Hg)%list_elem_of_fmap Hi%list_elem_of_singleton.
    apply not_true_iff_false in Ee. apply Ee, existsb_exists. exists g. split; [by apply list_elem_of_In|]. by apply Z.eqb_eq. }
  assert (Hs : usable_partial ((Some s, Some pf) :: ps) s) by (exists pf; split_and!; [by left|lia|lia|done]).
  assert (Hl' : Z.of_nat (length (good ++ [s])) = Z.of_nat (length good) + 1) by (rewrite length_app; simpl; lia).
  destruct (_ =? t) eqn:Et; bool_prop.
  - split_and!; [done|lia|exists [s]; split; [done|by repeat constructor]|lia].
  - destruct (IH (good ++ [s]) Hn' ltac:(lia)) as (H1 & H2 & (new & H3 & H4) & H5). split_and!; [done..| |].
    + exists (s :: new). split; [by rewrite H3, <- app_assoc|]. constructor; [done|].
      eapply Forall_impl; [exact H4|]. intros s'. apply usable_cons.
    + intros Hlt s' (pf' & [E|Hin]%elem_of_cons & Hr & Ha'); [|apply H5; [done|]; by exists pf'].
      injection E as -> ->. rewrite H3, fmap_app. apply elem_of_app. left. apply list_elem_of_fmap_2, elem_of_app. right. by left.
Qed.

(** Correct partials at [t] or more different indices are enough. *)
Definition enough_partials (partials : list VerifiedShare) : Prop :=
  exists idxs, NoDup idxs /\ t <= Z.of_nat (length idxs) /\
    forall i, i ∈ idxs -> exists s, ds_Index s = i /\ usable_partial partials s.

Lemma collect_enough partials :
  enough_partials partials ->
  Z.of_nat (length (collect_good (ScalarBaseMultNonConst <$> F) ctA t cachedKey preVerified [] partials)) = t.
Proof.
  intros (idxs & Hn & Hl & Hi). destruct (collect_good_spec partials [] ltac:(constructor) ltac:(simpl; lia)) as (_ & H2 & _ & H5).
  set (all := collect_good _ _ _ _ _ _ _) in *. destruct (Z.lt_ge_cases (Z.of_nat (length all)) t) as [Hlt|]; [|lia].
  assert (length idxs <= length (ds_Index <$> all))%nat; [|rewrite length_fmap in *; lia].
  apply submseteq_length, NoDup_submseteq; [done|]. intros i (s & <- & Hs)%Hi. by apply H5.
Qed.

(** The recovery combines only accepted partials. *)
Lemma RecoverVerifiedWithKeys_ok partials :
  F <> [] -> Z.of_nat (length F) = t ->
  (forall s, usable_partial partials s ->
     ds_Index s < max_index /\ ParsePubKey (ds_D s) = Some (ScalarMultNonConst (peval F (ds_Index s)) A)) ->
  enough_partials partials ->
  RecoverVerifiedWithKeys (ScalarBaseMultNonConst <$> F) ctA t partials cachedKey preVerified =
    Ret (ScalarMultNonConst (hd 0 F) A).
Proof.
  intros Hne HF Hsound Hen. pose proof (collect_enough partials Hen) as Hl.
  destruct (collect_good_spec partials [] ltac:(constructor) ltac:(simpl; lia)) as (H1 & _ & (new & H3 & H4) & _).
  unfold RecoverVerifiedWithKeys. rewrite (proj2 (Z.ltb_ge t 1)) by lia.
  destruct (ScalarBaseMultNonConst <$> F) as [|c cs] eqn:EF; [by destruct F|]. rewrite <- EF in *.
  set (all := collect_good _ _ _ _ _ _ _) in *. simpl in H3. subst new.
  rewrite (proj2 (Z.ltb_ge _ _)) by lia. rewrite <- (peval_0 F). apply Recover_interp; [| |..].
  - eapply Forall_impl; [exact H4|]. intros s Hs. by apply Hsound.
  - done.
  - eapply Forall_impl; [exact H4|]. intros s Hs. destruct (Hsound s Hs) as [? _]. destruct Hs as (pf & _ & ? & _). lia.
  - intros E. rewrite E in Hl. simpl in Hl. lia.
  - lia.
Qed.

End recovery.
End points.

(** ** From the dealings to the plaintext *)
Section end_to_end.
Context `{CurveLaws} `{AesGcmLaws}.

(** The share of index [i]: the sum of the qualified dealers' polynomials. *)
Definition joint_share (ds : list (Z * list Z)) (qual : list Z) (i : Z) : Share :=
  mkShare i (sumZ (fun q => peval (poly ds q) i) qual mod GroupOrder).

Lemma joint_encrypts ds qual degree r nonce msg :
  1 <= degree -> well_dealt degree ds -> (forall i, i ∈ qual -> i ∈ ds.*1) -> nonzero (joint degree ds qual) ->
  ~ r ≡q 0 -> String.length nonce = 12%nat ->
  exists ct, EncryptWithR r nonce (compressCopy (ScalarBaseMultNonConst (hd 0 (joint degree ds qual)))) msg = Ret ct /\
    ParsePubKey (ct_A ct) = Some (ScalarBaseMultNonConst r) /\
    Decrypt (ScalarMultNonConst (hd 0 (joint degree ds qual)) (ScalarBaseMultNonConst r)) ct = Ret msg.
Proof.
  intros Hd Hw Hq Hnz Hr Hn. set (x := hd 0 (joint degree ds qual)).
  assert (Hx : ~ x ≡q 0).
  { unfold x, joint in *. destruct (Z.to_nat degree) as [|n] eqn:E; [lia|]. simpl in *. by apply Forall_cons in Hnz as [? _]. }
  unfold EncryptWithR, compressCopy. rewrite parse_compressed by by apply base_finite.
  eexists. split; [reflexivity|]. cbn [ct_A]. unfold compress. split; [by apply parse_compressed, base_finite|].
  unfold Decrypt. cbn [ct_Nonce ct_Body]. rewrite Hn. change (negb (Z.of_nat 12 =? NonceSize)) with false. cbv iota.
  replace (ScalarMultNonConst x (ScalarBaseMultNonConst r)) with (ScalarMultNonConst r (ScalarBaseMultNonConst x));
    [by rewrite gcm_open_seal|]. rewrite !base_mul. f_equal. ring.
Qed.

(** The partial decryption of index [i] with its proof, made with the nonce [k]. *)
Definition honest_partial (k : Z) (ds : list (Z * list Z)) (qual : list Z) (A : Point) (i : Z) : VerifiedShare :=
  let sh := joint_share ds qual i in
  let D := ScalarMultNonConst (sh_Xi sh) A in
  (Some (mkDecryptShare i (compressCopy D)), Some (prove_with k sh A D)).

Lemma honest_correct k ds qual degree A i s :
  well_dealt degree ds -> (forall q, q ∈ qual -> q ∈ ds.*1) -> A <> Infinity -> sh_Xi (joint_share ds qual i) <> 0 ->
  (honest_partial k ds qual A i).1 = Some s ->
  ds_Index s = i /\ ParsePubKey (ds_D s) = Some (ScalarMultNonConst (peval (joint degree ds qual) (ds_Index s)) A).
Proof.
  intros Hw Hq HA Hx. unfold honest_partial, joint_share in *. cbn [sh_Xi fst] in *. intros [= <-]. cbn [ds_Index ds_D]. split; [done|].
  rewrite (peval_joint degree) by done. rewrite smul_mod. unfold compressCopy. apply parse_compressed.
  apply smul_finite; [done|]. unfold eqq. by rewrite Zmod_0_l.
Qed.

(** A cache of share keys is right when each entry that parses is the key. *)
Definition cache_right (pts : list Point) (cached : option (Z -> option string)) : Prop :=
  forall f i y P, cached = Some f -> f i = Some y -> parsePoint y = Some P -> SharePubKey pts i = Some P.

Lemma share_key_right pts cached i Y : cache_right pts cached -> SharePubKey pts i = Some Y -> share_key pts cached i = Some Y.
Proof.
  intros Hc HY. unfold share_key. destruct cached as [f|]; [|done]. destruct (f i) as [y|] eqn:Ey; [|done].
  destruct (parsePoint y) as [P|] eqn:EP; [|done]. rewrite <- HY. symmetry. by eapply Hc.
Qed.

Lemma honest_usable k ds qual degree A ctA cached pre partials i :
  1 <= degree -> well_dealt degree ds -> (forall q, q ∈ qual -> q ∈ ds.*1) -> parsePoint ctA = Some A ->
  cache_right (ScalarBaseMultNonConst <$> joint degree ds qual) cached ->
  1 <= i < max_index -> sh_Xi (joint_share ds qual i) <> 0 -> honest_partial k ds qual A i ∈ partials ->
  exists s, ds_Index s = i /\ usable_partial (joint degree ds qual) ctA cached pre partials s.
Proof.
  intros Hd Hw Hq HA Hc Hi Hx Hin. pose proof (parse_finite _ _ HA) as HfA. unfold max_index in Hi.
  unfold honest_partial in Hin. set (sh := joint_share ds qual i) in *. set (D := ScalarMultNonConst (sh_Xi sh) A) in *.
  exists (mkDecryptShare i (compressCopy D)). split; [done|]. exists (prove_with k sh A D). split_and!; [done|simpl; lia|simpl; lia|].
  assert (Hne : joint degree ds qual <> []) by (unfold joint; destruct (Z.to_nat degree) eqn:En; [lia|done]).
  unfold accept_partial. apply orb_true_iff. right.
  rewrite (share_key_right _ _ _ (ScalarBaseMultNonConst (sh_Xi sh))); [|done|].
  - apply (prove_verify k sh A D ctA); [done..|]. apply smul_finite; [done|]. unfold eqq. rewrite Zmod_0_l.
    unfold sh, joint_share. cbn [sh_Xi]. by rewrite Zmod_mod.
  - cbn [ds_Index]. rewrite SharePubKey_spec, (peval_joint degree), scalarFromUint_index by (done || unfold max_index; lia). f_equal.
    apply base_eqq. symmetry. apply eqq_mod.
Qed.

(** C4: the generated key decrypts, whatever else is submitted.  After a
    successful finalisation, a message encrypted to the public key is recovered
    from any list of partials that contains the honest proven partials of at least
    [degree] different share indices, in any order and mixed with any others, as
    long as the partials the verifier accepts are correct; the on-chain path with
    cached share keys and pre-verified partials included. *)
Theorem dkg_end_to_end ds members degree disq weights minW res r nonce msg :
  1 <= degree -> members <> [] -> well_dealt degree ds ->
  FinalizePublicWeighted members degree (publish ds) disq weights minW = Ret res ->
  ~ r ≡q 0 -> String.length nonce = 12%nat ->
  exists ct pts, EncryptWithR r nonce (Pub res) msg = Ret ct /\
    ParseCommitmentPoints (PublicCommitments res) = Some pts /\
  forall cached pre partials holders,
    cache_right pts cached ->
    NoDup holders -> degree <= Z.of_nat (length holders) ->
    (forall i, i ∈ holders -> 1 <= i < max_index /\ sh_Xi (joint_share ds (Qual res) i) <> 0 /\
       exists k, honest_partial k ds (Qual res) (ScalarBaseMultNonConst r) i ∈ partials) ->
    (forall s, usable_partial (joint degree ds (Qual res)) (ct_A ct) cached pre partials s ->
       ds_Index s < max_index /\
       ParsePubKey (ds_D s) = Some (ScalarMultNonConst (peval (joint degree ds (Qual res)) (ds_Index s)) (ScalarBaseMultNonConst r))) ->
  exists shared, RecoverVerifiedWithKeys pts (ct_A ct) degree partials cached pre = Ret shared /\ Decrypt shared ct = Ret msg.
Proof.
  intros Hd Hm Hw Hfin Hr Hn.
  destruct (finalize_result ds members degree disq weights minW res Hd Hm Hw Hfin) as (HQ & HP & HC & Hnz).
  assert (Hq : forall q, q ∈ Qual res -> q ∈ ds.*1) by (rewrite HQ; intros q Hin; apply elem_of_qualified in Hin; naive_solver).
  rewrite <- HQ in HP, HC, Hnz. clear HQ Hfin.
  destruct (joint_encrypts ds (Qual res) degree r nonce msg Hd Hw Hq Hnz Hr Hn) as (ct & Henc & HA & Hdec).
  exists ct, (ScalarBaseMultNonConst <$> joint degree ds (Qual res)). rewrite HP, HC. split_and!; [done|by apply parse_commits|].
  intros cached pre partials holders Hcache Hnd Hlen Hh Hsound. eexists. split; [|exact Hdec].
  apply RecoverVerifiedWithKeys_ok; [done| | |done|].
  - unfold joint. destruct (Z.to_nat degree) eqn:En; [lia|done].
  - unfold joint. rewrite length_fmap, length_seq. lia.
  - exists holders. split_and!; [done..|]. intros i Hi. destruct (Hh i Hi) as (Hir & Hx & k & Hin). by eapply honest_usable.
Qed.

End end_to_end.

(** ** Complaints *)
Section complaints.
Context `{CurveLaws} `{AesGcmLaws}.

(** What the holder of [x] sends to complain about the ciphertext [ct] with the
    ephemeral point [A]: the shared point and the proof, made with the nonce [k],
    that it belongs to their announced key. *)
Definition complain (k x idx : Z) (A : Point) (commitments : list string) (ct : Ciphertext) : bool * bool :=
  let D := ScalarMultNonConst x A in
  VerifyJustifiedComplaint idx (compressCopy (ScalarBaseMultNonConst x)) commitments (ct_A ct) (ct_Nonce ct) (ct_Body ct)
    (compressCopy D) (MarshalDLEQProof (prove_with k (mkShare idx x) A D)).

Lemma complain_verdict k x idx A commitments pts ct :
  ~ x ≡q 0 -> ParsePubKey (ct_A ct) = Some A -> String.length (ct_Nonce ct) = 12%nat ->
  ParseCommitmentPoints commitments = Some pts ->
  complain k x idx A commitments ct =
  (match DecryptShareFrom x idx ct with Ret s => negb (VerifyShare pts idx (Some s)) | _ => true end, true).
Proof.
  intros Hx EA Hn Hc. assert (HD : ScalarMultNonConst x A <> Infinity) by (apply smul_finite; [by eapply parse_finite|done]).
  unfold complain, VerifyJustifiedComplaint, DecryptShareFrom, ComputeShare.
  assert (EA' : parsePoint (ct_A ct) = Some A) by exact EA. rewrite EA', EA, Hn. cbn [mbind outcome_bind sh_Index sh_Xi ds_D].
  change (negb (Z.of_nat 12 =? NonceSize)) with false. cbv iota.
  assert (EY : parsePoint (compressCopy (ScalarBaseMultNonConst x)) = Some (ScalarBaseMultNonConst x))
    by (apply parse_compressed, base_finite, Hx).
  assert (ED : parsePoint (compressCopy (ScalarMultNonConst x A)) = Some (ScalarMultNonConst x A)) by by apply parse_compressed.
  pose proof (prove_verify k (mkShare idx x) A _ (ct_A ct) EA' eq_refl HD) as Hv. cbn [sh_Index sh_Xi] in Hv.
  rewrite EY, prove_with_parses, Hv. cbn [negb].
  unfold compress, compressCopy in *. rewrite ED, Hc. replace (mkCiphertext (ct_A ct) (ct_Nonce ct) (ct_Body ct)) with ct by by destruct ct.
  destruct (Decrypt _ ct) as [plain|e|m]; [|done..]. cbn [mbind outcome_bind]. destruct (negb _); [done|].
  destruct (SetBytes plain).2; [done|]. by destruct (VerifyShare _ _ _).
Qed.

Lemma share_roundtrip x idx r nonce share :
  ~ x ≡q 0 -> ~ r ≡q 0 -> String.length nonce = 12%nat -> canonical share ->
  exists ct, EncryptShareTo r nonce (compressCopy (ScalarBaseMultNonConst x)) share = Ret ct /\
    ParsePubKey (ct_A ct) = Some (ScalarBaseMultNonConst r) /\ ct_Nonce ct = nonce /\ DecryptShareFrom x idx ct = Ret share.
Proof.
  intros Hx Hr Hn Hs. unfold EncryptShareTo, EncryptWithR, compressCopy. rewrite parse_compressed by by apply base_finite.
  eexists. split; [reflexivity|]. cbn [ct_A ct_Nonce]. unfold compress.
  assert (EA : ParsePubKey (SerializeCompressed (ScalarBaseMultNonConst r)) = Some (ScalarBaseMultNonConst r))
    by by apply parse_compressed, base_finite.
  split_and!; [done..|]. unfold DecryptShareFrom, ComputeShare. cbn [ct_A]. rewrite EA. cbn [mbind outcome_bind sh_Index sh_Xi ds_D].
  unfold parsePoint, compress. rewrite parse_compressed by (apply smul_finite; [by apply base_finite|done]).
  unfold Decrypt. cbn [ct_Nonce ct_Body]. rewrite Hn. change (negb (Z.of_nat 12 =? NonceSize)) with false. cbv iota.
  replace (ScalarMultNonConst x (ScalarBaseMultNonConst r)) with (ScalarMultNonConst r (ScalarBaseMultNonConst x))
    by (rewrite !base_mul; f_equal; ring).
  rewrite gcm_open_seal. cbn [mbind outcome_bind]. unfold scalar_bytes at 1. rewrite be_bytes_length, Nat.eqb_refl. cbn [negb].
  by rewrite SetBytes_scalar.
Qed.

(** C33: a complaint convicts exactly the dealers that cheated.  With a valid key of
    their own, a member's evidence against any dealt ciphertext is always accepted,
    and its verdict is guilty if and only if the ciphertext does not open to a share
    that matches the dealer's commitments; a share encrypted by [EncryptShareTo] opens
    to itself, so an honest dealer is acquitted and a wrong share is convicted. *)
Theorem complaint_convicts_cheaters x idx k commitments pts :
  ~ x ≡q 0 -> ParseCommitmentPoints commitments = Some pts ->
  (forall ct A, ParsePubKey (ct_A ct) = Some A -> String.length (ct_Nonce ct) = 12%nat ->
     (complain k x idx A commitments ct).2 = true /\
     ((complain k x idx A commitments ct).1 = false <->
      exists s, DecryptShareFrom x idx ct = Ret s /\ VerifyShare pts idx (Some s) = true)) /\
  (forall r nonce share, ~ r ≡q 0 -> String.length nonce = 12%nat -> canonical share ->
     exists ct, EncryptShareTo r nonce (compressCopy (ScalarBaseMultNonConst x)) share = Ret ct /\
       complain k x idx (ScalarBaseMultNonConst r) commitments ct = (negb (VerifyShare pts idx (Some share)), true)).
Proof.
  intros Hx Hc. split.
  - intros ct A EA Hn. rewrite (complain_verdict k x idx A commitments pts ct Hx EA Hn Hc). split; [done|]. cbn [fst].
    destruct (DecryptShareFrom x idx ct) as [s|e|m]; [|naive_solver..].
    destruct (VerifyShare pts idx (Some s)) eqn:E; simpl; naive_solver.
  - intros r nonce share Hr Hn Hs.
    destruct (share_roundtrip x idx r nonce share Hx Hr Hn Hs) as (ct & Henc & EA & En & Hd).
    exists ct. split; [done|]. rewrite (complain_verdict k x idx _ commitments pts ct Hx EA) by (rewrite ?En; done).
    by rewrite Hd.
Qed.
End complaints.

(** ** Concrete runs

    Two dealers of three members share the key of 3 + 4x and 5 + 6x; the partials
    of the holders 1 and 3 arrive with a repeated one in between. *)
Module Example.
Import CurveModel.

Definition dealers : list (Z * list Z) := [(1, [3; 4]); (2, [5; 6])].

Lemma nonzero_small cs : forallb (fun c => (0 <? c) && (c <? order)) cs = true -> nonzero cs.
Proof.
  intros Hc. apply Forall_forall. intros c Hin%list_elem_of_In. rewrite forallb_forall in Hc. apply Hc in Hin.
  bool_prop. unfold eqq. change GroupOrder with order. rewrite Zmod_0_l, Z.mod_small by lia. lia.
Qed.

Lemma dealers_well : well_dealt 2 dealers.
Proof.
  split; [apply NoDup_cons; split; [by intros ?%list_elem_of_singleton|apply NoDup_singleton]|].
  apply Forall_forall. intros d Hd. assert (Hin : d = (1, [3; 4]) \/ d = (2, [5; 6])) by set_solver.
  destruct Hin as [-> | ->]; (split; [done|apply nonzero_small; reflexivity]).
Qed.

Lemma Deal_verifies_witness :
  exists cs shares pts, Deal [3; 4] [1; 2; 3] 2 = Ret (cs, shares) /\ ParseCommitmentPoints cs = Some pts /\
  forall m s, m ∈ [1; 2; 3] -> canonical s -> (VerifyShare pts m (Some s) = true <-> shares !! m = Some s).
Proof. apply (Deal_verifies [3; 4] [1; 2; 3] 2); [lia|done|done|repeat constructor; done|repeat constructor; done]. Defined.

Lemma proof_encodings_roundtrip_witness :
  ParseEncKeyPoK (PoK_Marshal (mkEncKeyPoK 5 7)) = Some (mkEncKeyPoK 5 7).
Proof. apply proof_encodings_roundtrip; [split; [discriminate|reflexivity]..|discriminate|discriminate]. Defined.

Lemma ProveDecryptShare_accepted_witness :
  let A := ScalarBaseMultNonConst 9 in
  let D := ScalarMultNonConst 5 A in
  VerifyDecryptShare (compressCopy A) (mkDecryptShare 2 (compressCopy D)) (Some (ScalarBaseMultNonConst 5))
    (ParseDLEQProof (MarshalDLEQProof (prove_with 8 (mkShare 2 5) A D))) = true.
Proof.
  assert (Hx : ~ 5 ≡q 0) by (vm_compute; discriminate).
  assert (HA : ParsePubKey (compressCopy (ScalarBaseMultNonConst 9)) = Some (ScalarBaseMultNonConst 9)).
  { apply parse_compressed, base_finite. vm_compute. discriminate. }
  exact (proj1 (proj2 (ProveDecryptShare_accepted (mkShare 2 5)
    (mkCiphertext (compressCopy (ScalarBaseMultNonConst 9)) "" "") _ Hx HA)) 8).
Defined.

Lemma complaint_convicts_cheaters_witness :
  exists cs pts, ParseCommitmentPoints cs = Some pts /\
  exists ct, EncryptShareTo 7 "nonce-123456" (compressCopy (ScalarBaseMultNonConst 5)) 11 = Ret ct /\
    complain 8 5 2 (ScalarBaseMultNonConst 7) cs ct = (negb (VerifyShare pts 2 (Some 11)), true).
Proof.
  assert (Hx : ~ 5 ≡q 0) by (vm_compute; discriminate). assert (Hr : ~ 7 ≡q 0) by (vm_compute; discriminate).
  assert (Hs : canonical 11) by (split; [discriminate|reflexivity]).
  exists (commits [3; 4]), (ScalarBaseMultNonConst <$> [3; 4]).
  assert (Hp : ParseCommitmentPoints (commits [3; 4]) = Some (ScalarBaseMultNonConst <$> [3; 4]))
    by (apply parse_commits, nonzero_small; reflexivity).
  split; [exact Hp|].
  exact (proj2 (complaint_convicts_cheaters 5 2 8 (commits [3; 4]) _ Hx Hp) 7 "nonce-123456" 11 Hr eq_refl Hs).
Defined.

Lemma ProveEncKeyPoK_accepted_witness :
  VerifyEncKeyPoK "chain" (compressCopy (ScalarBaseMultNonConst 11)) "alice" "nonce" "body"
    (Some (pok_with 5 11 "chain" "alice" (compressCopy (ScalarBaseMultNonConst 11)) "nonce" "body")) = true.
Proof. apply (ProveEncKeyPoK_accepted 11 "chain" "alice" "nonce" "body"). vm_compute. discriminate. Defined.

Lemma joint_nonzero : nonzero (joint 2 dealers (qualified dealers [] [3; 1; 2])).
Proof. apply nonzero_small. vm_compute. reflexivity. Qed.

Lemma FinalizePublicWeighted_joint_witness :
  exists res, FinalizePublicWeighted [3; 1; 2] 2 (publish dealers) [] None 2 = Ret res.
Proof.
  destruct (FinalizePublicWeighted_joint dealers [3; 1; 2] 2 [] None 2) as (_ & Hiff & _); [lia|done|apply dealers_well|].
  apply Hiff. split; [vm_compute; discriminate|apply joint_nonzero].
Defined.

Lemma dealers_finalize :
  exists res, FinalizePublicWeighted [3; 1; 2] 2 (publish dealers) [] None 2 = Ret res /\ Qual res = [1; 2].
Proof.
  rewrite finalize_eq by (lia || done || apply dealers_well). cbv zeta.
  rewrite (proj2 (valid_points _) joint_nonzero). change (sumZ _ _ <? 2) with false. by eexists.
Qed.

Definition sealer : Point := ScalarBaseMultNonConst 7.
Definition arrived : list VerifiedShare :=
  [honest_partial 5 dealers [1; 2] sealer 1; honest_partial 6 dealers [1; 2] sealer 1;
   (None, None); honest_partial 5 dealers [1; 2] sealer 3].

Lemma dkg_end_to_end_witness :
  exists res ct pts shared, FinalizePublicWeighted [3; 1; 2] 2 (publish dealers) [] None 2 = Ret res /\
    EncryptWithR 7 "nonce-123456" (Pub res) "secret" = Ret ct /\
    RecoverVerifiedWithKeys pts (ct_A ct) 2 arrived None None = Ret shared /\ Decrypt shared ct = Ret "secret".
Proof.
  destruct dealers_finalize as (res & Hres & HQ). exists res.
  assert (Hr : ~ 7 ≡q 0) by (vm_compute; discriminate).
  assert (Hq : forall q, q ∈ [1; 2] -> q ∈ dealers.*1) by (intros q Hin; exact Hin).
  assert (Hh : forall k i s, i = 1 \/ i = 3 -> (honest_partial k dealers [1; 2] sealer i).1 = Some s ->
    ds_Index s = i /\ ParsePubKey (ds_D s) = Some (ScalarMultNonConst (peval (joint 2 dealers [1; 2]) (ds_Index s)) sealer)).
  { intros k i s Hi. apply honest_correct; [apply dealers_well|done|by apply base_finite|].
    destruct Hi as [-> | ->]; vm_compute; discriminate. }
  destruct (dkg_end_to_end dealers [3; 1; 2] 2 [] None 2 res 7 "nonce-123456" "secret") as (ct & pts & Henc & _ & Hrec);
    [lia|done|apply dealers_well|done..|]. rewrite HQ in Hrec.
  destruct (Hrec None None arrived [1; 3]) as (shared & H1 & H2); [by intros f i y P [=]| |simpl; lia| | |
    exists ct, pts, shared; exact (conj Hres (conj Henc (conj H1 H2)))].
  - apply NoDup_cons. split; [by intros ?%list_elem_of_singleton|apply NoDup_singleton].
  - intros i Hi. assert (i = 1 \/ i = 3) as [-> | ->]
      by (apply elem_of_cons in Hi as [->|Hi]; [by left|right; by apply list_elem_of_singleton]).
    + split; [split; [discriminate|reflexivity]|]. split; [vm_compute; discriminate|]. exists 5. unfold arrived. by left.
    + split; [split; [discriminate|reflexivity]|]. split; [vm_compute; discriminate|]. exists 5. unfold arrived. do 3 right. by left.
  - intros s (pf & Hin & _). assert (Hcase : exists k i, (i = 1 \/ i = 3) /\ (honest_partial k dealers [1; 2] sealer i).1 = Some s).
    { unfold arrived in Hin. repeat (apply elem_of_cons in Hin as [Hin|Hin]).
      - exists 5, 1. rewrite <- Hin. by split; [left|].
      - exists 6, 1. rewrite <- Hin. by split; [left|].
      - done.
      - exists 5, 3. rewrite <- Hin. by split; [right|].
      - destruct (not_elem_of_nil _ Hin). }
    destruct Hcase as (k & i & Hi & E). destruct (Hh k i s Hi E) as [-> Hp]. split; [|exact Hp].
    destruct Hi as [-> | ->]; vm_compute; reflexivity.
Defined.

End Example.
End DkgProofs.
