(* ===== verification/EncKeeper.v ===== *)
(** * x/encmempool/keeper: the store

    Models the store accessors of x/encmempool/keeper/keeper.go and the ones at
    the top of dkg.go: key layout, commits and pending reveals, in-flight
    ciphertexts with their reference counts, submit bond and rate counters,
    decryption shares, DKG rounds, dealings, complaints, threshold keys with
    their share-key cache, and the pruning of a superseded epoch.

    An accessor whose Go version ignores the store's error ([_ = st.Set(...)]) is a
    function on the state; an operation that calls the bank is a monadic one. *)
From S2P Require Import Prelude Codec Bank EncTypes Threshold Dkg.
From stdpp Require Import gmap strings list sorting.
From Stdlib Require Import ZArith Lia.

#[local] Set Default Goal Selector "!".
Open Scope Z_scope.

Module EncKeeper.
Import EncTypes.

Definition ModuleName : string := "encmempool".
Definition StoreKey : string := ModuleName.

(** ** Key layout (types/keys.go) *)
Definition ParamsKey : string := byte_prefix 1.
Definition SeqKey : string := byte_prefix 2.
Definition CommitPrefix : string := byte_prefix 3.
Definition PendingPrefix : string := byte_prefix 4.
Definition EncSeqKey : string := byte_prefix 5.
Definition EncTxPrefix : string := byte_prefix 6.
Definition EncSharePrefix : string := byte_prefix 7.
Definition DkgRoundPrefix : string := byte_prefix 16.
Definition DkgDealPrefix : string := byte_prefix 17.
Definition DkgComplaintPrefix : string := byte_prefix 18.
Definition ActiveKeyPrefix : string := byte_prefix 19.
Definition CurrentEpochKey : string := byte_prefix 20.
Definition ActiveEpochKey : string := byte_prefix 21.
Definition EpochEncCountPrefix : string := byte_prefix 22.
Definition LastRekeyHeightKey : string := byte_prefix 23.
Definition GlobalEncCountKey : string := byte_prefix 24.
Definition SubmitterEncCountPrefix : string := byte_prefix 25.
Definition EncPubKeyPrefix : string := byte_prefix 26.
Definition EncKeyOwnerPrefix : string := byte_prefix 27.
Definition DkgComplaintRejectedPrefix : string := byte_prefix 28.
Definition EncSubmitRatePrefix : string := byte_prefix 29.
Definition ActiveShareKeyPrefix : string := byte_prefix 30.
Definition ShareKeyCursorPrefix : string := byte_prefix 31.
Definition DecryptStrandStreakPrefix : string := byte_prefix 32.
Definition RejectedDecryptSharePrefix : string := byte_prefix 33.
Definition EncKeyRotatedHeightPrefix : string := byte_prefix 34.
Definition GlobalCommitCountKey : string := byte_prefix 35.
Definition SubmitterCommitCountPrefix : string := byte_prefix 36.
Definition EncSubmitGlobalRatePrefix : string := byte_prefix 37.

Definition commitKey (height : Z) (sender : string) (seq : Z) : string :=
  CommitPrefix +:+ (be64 height +:+ (sender +:+ be64 seq)).
Definition pendingKey (commitHeight : Z) (sender : string) (seq : Z) : string :=
  PendingPrefix +:+ (be64 commitHeight +:+ (sender +:+ be64 seq)).
Definition encTxKey (decryptHeight seq : Z) : string :=
  EncTxPrefix +:+ (be64 decryptHeight +:+ be64 seq).
Definition encShareKey (decryptHeight seq index : Z) : string :=
  EncSharePrefix +:+ (be64 decryptHeight +:+ (be64 seq +:+ be64 index)).
Definition rejectedShareKey (decryptHeight seq index : Z) : string :=
  RejectedDecryptSharePrefix +:+ (be64 decryptHeight +:+ (be64 seq +:+ be64 index)).
Definition submitterEncCountKey (submitter : string) : string := SubmitterEncCountPrefix +:+ submitter.
Definition submitterCommitCountKey (sender : string) : string := SubmitterCommitCountPrefix +:+ sender.
Definition encSubmitRateKey (height : Z) (submitter : string) : string :=
  EncSubmitRatePrefix +:+ (be64 height +:+ submitter).
Definition encSubmitGlobalRateKey (height : Z) : string := EncSubmitGlobalRatePrefix +:+ be64 height.
Definition decryptStrandStreakKey (epoch : Z) : string := DecryptStrandStreakPrefix +:+ be64 epoch.
Definition dkgRoundKey (epoch : Z) : string := DkgRoundPrefix +:+ be64 epoch.
Definition dkgDealKey (epoch dealerIndex : Z) : string :=
  DkgDealPrefix +:+ (be64 epoch +:+ be64 dealerIndex).
Definition dkgComplaintKey (epoch against accuser : Z) : string :=
  DkgComplaintPrefix +:+ (be64 epoch +:+ (be64 against +:+ be64 accuser)).
Definition dkgComplaintRejectedKey (epoch against accuser evalPoint : Z) : string :=
  DkgComplaintRejectedPrefix +:+ (be64 epoch +:+ (be64 against +:+ (be64 accuser +:+ be64 evalPoint))).
Definition activeKeyKey (epoch : Z) : string := ActiveKeyPrefix +:+ be64 epoch.
Definition activeShareKeyKey (epoch index : Z) : string :=
  ActiveShareKeyPrefix +:+ (be64 epoch +:+ be64 index).
Definition shareKeyCursorKey (epoch : Z) : string := ShareKeyCursorPrefix +:+ be64 epoch.
Definition epochEncCountKey (epoch : Z) : string := EpochEncCountPrefix +:+ be64 epoch.

(** ** Limits *)
Definition maxDecryptAttemptsPerBlock : Z := 2048.
Definition maxDecryptScanPerBlock : Z := 2 * maxDecryptAttemptsPerBlock.
Definition absMaxInFlightEncTx : Z := Z.shiftl 1 20.
Definition maxCeilingDropsPerBlock : Z := maxDecryptScanPerBlock.
Definition strandedDecryptGraceBlocks : Z := 32.
Definition maxDeferredDecryptsPerBlock : Z := 128.
Definition maxEncSubmitsPerBlockPerSubmitter : Z := 4.
Definition maxEncSubmitsPerBlockGlobal : Z := maxDeferredDecryptsPerBlock.
Definition maxCiphertextBodyBytes : Z := 16384.
Definition maxRevealSaltBytes : Z := 64.
Definition maxInFlightCommits : Z := 32768.
Definition maxCommitsPerSender : Z := 64.
Definition maxRateGCPerBlock : Z := 8192.
Definition precomputeChunkSize : Z := 128.
Definition decryptHealthStrandThreshold : Z := 16.

(** endblock.go: saturating addition on uint64. *)
Definition addSat (a b : Z) : Z :=
  let s := u64 (a + b) in if s <? a then 2 ^ 64 - 1 else s.

Definition u64str (v : Z) : string := Int_String v.

(** [mustJSON] and [json.Unmarshal] of the stored records. *)
Class EncJSON : Type := {
  EncJSON_Params :: JSON Params;
  EncJSON_Commit :: JSON Commit;
  EncJSON_Pending :: JSON PendingReveal;
  EncJSON_EncTx :: JSON EncTx;
  EncJSON_EncShare :: JSON EncShare;
  EncJSON_DkgRound :: JSON DkgRound;
  EncJSON_Dealing :: JSON Dealing;
  EncJSON_Complaint :: JSON DkgComplaintRec;
  EncJSON_ActiveKey :: JSON ActiveThresholdKey
}.

(** A nil [sdkmath.Int] is written as ["0"], so a stored round reads back with
    its missing weights set to zero. *)
Definition member_stored (m : RoundMember) : RoundMember :=
  mkRoundMember (Index m) (OperatorAddr m) (AccountAddr m) (EncPubKey m)
    (Some (default 0 (Weight m))) (EvalPoints m) (Weighted m).
Definition round_stored (r : DkgRound) : DkgRound :=
  mkDkgRound (r_Epoch r) (r_OpenHeight r) (r_DealDeadline r) (r_ComplaintDeadline r)
    (member_stored <$> r_Members r) (r_Threshold r) (r_MembersHash r) (r_Status r) (r_Attempt r).

Class EncJSONLaws `{EncJSON} : Prop := {
  EncJSONLaws_Params :: JSONLaws Params;
  EncJSONLaws_Commit :: JSONLaws Commit;
  EncJSONLaws_Pending :: JSONLaws PendingReveal;
  EncJSONLaws_EncTx :: JSONLaws EncTx;
  EncJSONLaws_EncShare :: JSONLaws EncShare;
  EncJSONLaws_Dealing :: JSONLaws Dealing;
  EncJSONLaws_Complaint :: JSONLaws DkgComplaintRec;
  EncJSONLaws_ActiveKey :: JSONLaws ActiveThresholdKey;
  round_roundtrip (r : DkgRound) : json_Unmarshal (json_Marshal r) = Some (round_stored r)
}.

(** sdk.AccAddressFromBech32. *)
Class AccAddr : Type := { AccAddressFromBech32 : string -> option string }.

(** The point parser of types.go is the one of the dkg package. *)
#[export] Instance curve_Secp256k1 `{Curve} : Secp256k1 :=
  {| ParsePubKey_ok := Dkg.ValidCompressedPoint |}.

(** The keepers are pointers the constructor may receive as nil. *)
Record Keeper := mkKeeper {
  stakingKeeper_set : bool;
  bankKeeper_set : bool;
  evmKeeper_set : bool;
  accountKeeper_set : bool;
  netCapChecker_set : bool
}.

(** The part of the consensus parameters the module reads; a nil section is
    [None]. *)
Record BlockParams := mkBlockParams { bp_MaxBytes : Z; bp_MaxGas : Z }.
Record ConsensusParams := mkConsensusParams {
  cp_VoteExtensionsEnableHeight : option Z;
  cp_Block : option BlockParams
}.

Section store.
Context {B : Type}.
Implicit Types w : World B.

Definition sget (k : string) w : option string := kv_get StoreKey k w.
Definition sset (k v : string) w : World B := kv_set StoreKey k v w.
Definition sdel (k : string) w : World B := kv_delete StoreKey k w.
Definition siter (p : string) w : list (string * string) := kv_iter StoreKey p w.

(** Delete every key of a list, as the loops over a collected key slice do. *)
Definition delete_all (keys : list string) w : World B := foldl (fun w k => sdel k w) w keys.

Definition readU64 (key : string) w : Z :=
  match sget key w with
  | Some bz => if (String.length bz =? 8)%nat then be_decode bz else 0
  | None => 0
  end.

Definition get_json `{JSON A} (key : string) w : option A :=
  match sget key w with Some bz => json_Unmarshal bz | None => None end.

(** The decodable values under a prefix, in key order. *)
Definition iter_json `{JSON A} (p : string) w : list A :=
  omap (fun e => json_Unmarshal e.2) (siter p w).

(** The counters share one shape: increment, and decrement with deletion at 0. *)
Definition inc_count (key : string) w : World B := sset key (be64 (u64 (readU64 key w + 1))) w.
Definition dec_count (key : string) w : World B :=
  let c := readU64 key w in
  let c := if 0 <? c then c - 1 else c in
  if c =? 0 then sdel key w else sset key (be64 c) w.

Definition GetGlobalEncCount w : Z := readU64 GlobalEncCountKey w.
Definition incGlobalEncCount w : World B := inc_count GlobalEncCountKey w.
Definition decGlobalEncCount w : World B := dec_count GlobalEncCountKey w.
Definition GetSubmitterEncCount (s : string) w : Z := readU64 (submitterEncCountKey s) w.
Definition incSubmitterEncCount (s : string) w : World B := inc_count (submitterEncCountKey s) w.
Definition decSubmitterEncCount (s : string) w : World B := dec_count (submitterEncCountKey s) w.
Definition getEpochEncCount (epoch : Z) w : Z := readU64 (epochEncCountKey epoch) w.
Definition incEpochEncCount (epoch : Z) w : World B := inc_count (epochEncCountKey epoch) w.
Definition decEpochEncCount (epoch : Z) w : World B := dec_count (epochEncCountKey epoch) w.

Definition GetGlobalCommitCount w : Z := readU64 GlobalCommitCountKey w.
Definition GetSubmitterCommitCount (s : string) w : Z := readU64 (submitterCommitCountKey s) w.
Definition incCommitCount (s : string) w : World B :=
  inc_count (submitterCommitCountKey s) (inc_count GlobalCommitCountKey w).
Definition dec_to_zero (key : string) w : World B :=
  let g := readU64 key w in if 1 <? g then sset key (be64 (g - 1)) w else sdel key w.
Definition decCommitCount (s : string) w : World B :=
  dec_to_zero (submitterCommitCountKey s) (dec_to_zero GlobalCommitCountKey w).

Definition GetDecryptStrandStreak (epoch : Z) w : Z := readU64 (decryptStrandStreakKey epoch) w.
Definition bumpDecryptStrandStreak (epoch : Z) w : World B := inc_count (decryptStrandStreakKey epoch) w.
Definition resetDecryptStrandStreak (epoch : Z) w : World B := sdel (decryptStrandStreakKey epoch) w.
Definition forceDecryptHealthRekey (epoch : Z) w : World B :=
  if decryptHealthStrandThreshold <=? GetDecryptStrandStreak epoch w then w
  else sset (decryptStrandStreakKey epoch) (be64 decryptHealthStrandThreshold) w.

Definition GetLastRekeyHeight w : Z := readU64 LastRekeyHeightKey w.
Definition SetLastRekeyHeight (h : Z) w : World B := sset LastRekeyHeightKey (be64 h) w.
Definition GetCurrentEpoch w : Z := readU64 CurrentEpochKey w.
Definition SetCurrentEpoch (e : Z) w : World B := sset CurrentEpochKey (be64 e) w.
Definition GetActiveEpoch w : Z := readU64 ActiveEpochKey w.
Definition SetActiveEpoch (e : Z) w : World B := sset ActiveEpochKey (be64 e) w.

(** A monotonic counter: return the current value and store its successor. *)
Definition next_counter (key : string) : M (World B) Z :=
  cur ← gets (readU64 key);
  modify (sset key (be64 (u64 (cur + 1))));;
  mret cur.
Definition nextSeq : M (World B) Z := next_counter SeqKey.
Definition nextEncSeq : M (World B) Z := next_counter EncSeqKey.

(** *** Rate counters *)
Definition bump_rate (key : string) : M (World B) Z :=
  cnt ← gets (readU64 key);
  let cnt := u64 (cnt + 1) in
  modify (sset key (be64 cnt));;
  mret cnt.
Definition bumpEncSubmitsThisBlock (submitter : string) (height : Z) : M (World B) Z :=
  bump_rate (encSubmitRateKey height submitter).
Definition bumpGlobalEncSubmitsThisBlock (height : Z) : M (World B) Z :=
  bump_rate (encSubmitGlobalRateKey height).

(** The [collect] closure: the keys of the entries below the current height, at
    most [limit] in all. *)
Fixpoint collect_stale (currentHeight limit : Z) (stale : list string)
    (entries : list (string * string)) : list string :=
  match entries with
  | [] => stale
  | (key, _) :: rest =>
      if limit <=? zlen stale then stale
      else if strlen key <? 9 then collect_stale currentHeight limit stale rest
      else if currentHeight <=? be_decode (String.substring 1 8 key) then stale
      else collect_stale currentHeight limit (stale ++ [key]) rest
  end.

Definition gcEncSubmitRate (currentHeight : Z) w : World B :=
  let stale := collect_stale currentHeight maxRateGCPerBlock [] (siter EncSubmitRatePrefix w) in
  let stale := collect_stale currentHeight maxRateGCPerBlock stale (siter EncSubmitGlobalRatePrefix w) in
  delete_all stale w.

(** *** Rejected-share markers *)
Definition marker : string := byte_prefix 1.
Definition setRejectedShare (h seq index : Z) w : World B := sset (rejectedShareKey h seq index) marker w.
Definition hasRejectedShare (h seq index : Z) w : bool :=
  bool_decide (is_Some (sget (rejectedShareKey h seq index) w)).
Definition deleteRejectedSharesFor (h seq : Z) w : World B :=
  delete_all (siter (RejectedDecryptSharePrefix +:+ (be64 h +:+ be64 seq)) w).*1 w.
Definition hasEncShareAt (h seq index : Z) w : bool :=
  bool_decide (is_Some (sget (encShareKey h seq index) w)).

(** *** Complaints and the share-key cache *)
Definition GetComplaint (epoch against accuser : Z) w : bool :=
  bool_decide (is_Some (sget (dkgComplaintKey epoch against accuser) w)).
Definition SetComplaintRejected (epoch against accuser evalPoint : Z) w : World B :=
  sset (dkgComplaintRejectedKey epoch against accuser evalPoint) marker w.
Definition HasComplaintRejected (epoch against accuser evalPoint : Z) w : bool :=
  bool_decide (is_Some (sget (dkgComplaintRejectedKey epoch against accuser evalPoint) w)).

Definition purgeDealings (epoch : Z) w : World B :=
  let keys := concat ((fun pfx => (siter (pfx +:+ be64 epoch) w).*1) <$>
                [DkgDealPrefix; DkgComplaintPrefix; DkgComplaintRejectedPrefix]) in
  delete_all keys w.
Definition hasAnyDealing (epoch : Z) w : bool :=
  match siter (DkgDealPrefix +:+ be64 epoch) w with [] => false | _ => true end.
Definition purgeFailedRound (epoch : Z) w : World B := sdel (dkgRoundKey epoch) (purgeDealings epoch w).
Definition countPrefix (pfx : string) w : Z := zlen (siter pfx w).
Definition CountDkgRounds w : Z := countPrefix DkgRoundPrefix w.
Definition CountActiveKeys w : Z := countPrefix ActiveKeyPrefix w.

Definition setShareKeyCache (epoch index : Z) (y : string) w : World B := sset (activeShareKeyKey epoch index) y w.
(** [nil] for a missing entry is the empty byte string. *)
Definition getShareKeyCache (epoch index : Z) w : string := default "" (sget (activeShareKeyKey epoch index) w).
Definition setShareKeyCursor (epoch next : Z) w : World B := sset (shareKeyCursorKey epoch) (be64 next) w.
(** [len(bz) < 8] is the missing-cursor test here, not [len(bz) == 8]. *)
Definition getShareKeyCursor (epoch : Z) w : Z :=
  match sget (shareKeyCursorKey epoch) w with
  | Some bz => if strlen bz <? 8 then 0 else be_decode (String.substring 0 8 bz)
  | None => 0
  end.
Definition deleteShareKeyCursor (epoch : Z) w : World B := sdel (shareKeyCursorKey epoch) w.
Definition deleteShareKeyCache (epoch : Z) w : World B :=
  resetDecryptStrandStreak epoch (deleteShareKeyCursor epoch
    (delete_all (siter (ActiveShareKeyPrefix +:+ be64 epoch) w).*1 w)).
Definition DeleteActiveKey (epoch : Z) w : World B := deleteShareKeyCache epoch (sdel (activeKeyKey epoch) w).

(** [maybePruneEpoch]: never the serving epoch, the current one, or one that
    in-flight ciphertexts refer to. *)
Definition maybePruneEpoch (epoch : Z) w : World B :=
  if epoch =? 0 then w else
  if (epoch =? GetActiveEpoch w) || (epoch =? GetCurrentEpoch w) then w else
  if negb (getEpochEncCount epoch w =? 0) then w else
  emit (mkEvent "encmempool_dkg_epoch_pruned" [("epoch", u64str epoch)])
    (sdel (dkgRoundKey epoch) (DeleteActiveKey epoch (purgeDealings epoch w))).

(** Returns whether the dealings were purged. *)
Definition purgeDealingsIfDrained (p : Params) (epoch : Z) w : bool * World B :=
  if negb (DkgRetainActiveDealings p) then (true, purgeDealings epoch w) else
  let serving := epoch =? GetActiveEpoch w in
  let inFlight := getEpochEncCount epoch w in
  if serving || negb (inFlight =? 0) then
    (false, emit (mkEvent "encmempool_dkg_dealings_retained"
       [("epoch", u64str epoch); ("in_flight", u64str inFlight);
        ("reason", if serving then "still_serving" else "in_flight")]) w)
  else (true, purgeDealings epoch w).

Definition ActiveEpochCanDeriveShares (p : Params) w : bool :=
  if negb (DkgRetainActiveDealings p) then true else
  if negb (DkgTransparent p) then true else
  let epoch := GetActiveEpoch w in
  if epoch =? 0 then true else hasAnyDealing epoch w.

(** *** The records *)
Section records.
Context `{EncJSON}.

Definition SetParams (p : Params) w : World B := sset ParamsKey (json_Marshal p) w.
Definition GetParams w : Params := default DefaultParams (get_json ParamsKey w).

Definition GetCommit (height : Z) (sender : string) (seq : Z) w : option Commit :=
  get_json (commitKey height sender seq) w.
Definition SetCommit (c : Commit) w : World B :=
  let key := commitKey (cm_Height c) (cm_Sender c) (cm_Seq c) in
  let w := match sget key w with None => incCommitCount (cm_Sender c) w | Some _ => w end in
  sset key (json_Marshal c) w.
Definition DeleteCommit (height : Z) (sender : string) (seq : Z) w : World B :=
  let key := commitKey height sender seq in
  let w := match sget key w with Some _ => decCommitCount sender w | None => w end in
  sdel key w.
Definition SetPending (p : PendingReveal) w : World B :=
  sset (pendingKey (pr_CommitHeight p) (pr_Sender p) (pr_Seq p)) (json_Marshal p) w.
Definition DeletePending (commitHeight : Z) (sender : string) (seq : Z) w : World B :=
  sdel (pendingKey commitHeight sender seq) w.
Definition IterateCommits w : list Commit := iter_json CommitPrefix w.
Definition IteratePending w : list PendingReveal := iter_json PendingPrefix w.

Definition GetEncTx (decryptHeight seq : Z) w : option EncTx := get_json (encTxKey decryptHeight seq) w.
Definition set_enc_tx (e : EncTx) w : World B :=
  sset (encTxKey (e_DecryptHeight e) (e_Seq e)) (json_Marshal e) w.
Definition DeleteEncTx (decryptHeight seq : Z) w : World B := sdel (encTxKey decryptHeight seq) w.

(** The reference counts taken by an admitted ciphertext. *)
Definition count_enc_tx (e : EncTx) w : World B :=
  let w := if 0 <? e_Epoch e then incEpochEncCount (e_Epoch e) w else w in
  incSubmitterEncCount (e_Submitter e) (incGlobalEncCount w).

Definition SubmitEncTx (submitter : string) (submitHeight decryptDelay : Z) (a nonce body : string)
    (epoch : Z) : M (World B) EncTx :=
  seq ← nextEncSeq;
  let e := mkEncTx submitter submitHeight (u64 (submitHeight + decryptDelay)) seq a nonce body epoch 0 "" 0 in
  modify (set_enc_tx e);;
  modify (count_enc_tx e);;
  mret e.

Definition stampBond (e : EncTx) (bond : Z) (denom : string) (burn : Z) w : World B :=
  set_enc_tx (mkEncTx (e_Submitter e) (e_SubmitHeight e) (e_DecryptHeight e) (e_Seq e) (e_A e) (e_Nonce e)
    (e_Body e) (e_Epoch e) bond denom burn) w.

Definition SetEncShare (s : EncShare) w : World B :=
  sset (encShareKey (s_DecryptHeight s) (s_Seq s) (s_Index s)) (json_Marshal s) w.
Definition CollectShares (h seq : Z) w : list EncShare :=
  iter_json (EncSharePrefix +:+ (be64 h +:+ be64 seq)) w.
Definition DeleteSharesFor (decryptHeight seq : Z) w : World B :=
  delete_all ((fun s => encShareKey decryptHeight seq (s_Index s)) <$> CollectShares decryptHeight seq w) w.

Definition IterateEncTxAtHeight (h : Z) w : list EncTx := iter_json (EncTxPrefix +:+ be64 h) w.

(** The entries from the first ciphertext up to decrypt height [h]. *)
Definition matured_entries (h : Z) w : list (string * string) :=
  kv_range StoreKey EncTxPrefix (Some (EncTxPrefix +:+ be64 (addSat h 1))) w.
Definition IterateEncTxUpTo (h : Z) w : list EncTx := omap (fun e => json_Unmarshal e.2) (matured_entries h w).

Fixpoint collect_matured (limit : Z) (out : list EncTx) (entries : list (string * string)) : list EncTx * bool :=
  match entries with
  | [] => (out, false)
  | (_, v) :: rest =>
      if limit <=? zlen out then (out, true)
      else match json_Unmarshal v with
           | Some e => collect_matured limit (out ++ [e]) rest
           | None => collect_matured limit out rest
           end
  end.
Definition CollectMaturedUpTo (h limit : Z) w : list EncTx * bool :=
  collect_matured limit [] (matured_entries h w).

(** [IterateInFlightFrom] with a callback that answers [fn e]: the ciphertexts it
    was called on, the last of which may have answered false. *)
Fixpoint visit_in_flight (fn : EncTx -> bool) (limit : nat) (entries : list (string * string)) : list EncTx :=
  match limit, entries with
  | O, _ | _, [] => []
  | S n, (_, v) :: rest =>
      match json_Unmarshal v with
      | Some e => if fn e then e :: visit_in_flight fn n rest else [e]
      | None => visit_in_flight fn limit rest
      end
  end.
Definition IterateInFlightFrom (minHeight limit : Z) (fn : EncTx -> bool) w : list EncTx :=
  visit_in_flight fn (Z.to_nat limit)
    (kv_range StoreKey (EncTxPrefix +:+ be64 minHeight) (prefixEnd EncTxPrefix) w).

Definition SetDkgRound (r : DkgRound) w : World B := sset (dkgRoundKey (r_Epoch r)) (json_Marshal r) w.
Definition GetDkgRound (epoch : Z) w : option DkgRound := get_json (dkgRoundKey epoch) w.
Definition SetDealing (d : Dealing) w : World B :=
  sset (dkgDealKey (d_Epoch d) (d_DealerIndex d)) (json_Marshal d) w.
Definition GetDealing (epoch dealerIndex : Z) w : option Dealing := get_json (dkgDealKey epoch dealerIndex) w.
Definition IterateDealings (epoch : Z) w : list Dealing := iter_json (DkgDealPrefix +:+ be64 epoch) w.
Definition SetComplaint (c : DkgComplaintRec) w : World B :=
  sset (dkgComplaintKey (c_Epoch c) (c_Against c) (c_AccuserIndex c)) (json_Marshal c) w.
Definition IterateComplaints (epoch : Z) w : list DkgComplaintRec :=
  iter_json (DkgComplaintPrefix +:+ be64 epoch) w.
Definition SetActiveKey (a : ActiveThresholdKey) w : World B := sset (activeKeyKey (ak_Epoch a)) (json_Marshal a) w.
Definition GetActiveKey (epoch : Z) w : option ActiveThresholdKey := get_json (activeKeyKey epoch) w.

Definition MissingShareOperators (epoch : Z) (shares : list EncShare) w : string :=
  match GetDkgRound epoch w with
  | None => ""
  | Some round =>
      let byKeyper := s_Keyper <$> shares in
      let byPoint := s_Index <$> shares in
      let withholding (m : RoundMember) : bool :=
        negb (zlen (OwnedEvalPoints m) =? 0) &&
        negb (contains byKeyper (OperatorAddr m)) &&
        negb (negb (String.eqb (AccountAddr m) "") && contains byKeyper (AccountAddr m)) &&
        negb (existsb (fun p => Zmem p byPoint) (OwnedEvalPoints m)) in
      String.concat "," (merge_sort str_le (OperatorAddr <$> List.filter withholding (r_Members round)))
  end.

(** *** Share-key cache *)
Section share_keys.
Context `{Curve}.

Fixpoint set_share_keys (epoch from : Z) (keys : list string) w : World B :=
  match keys with
  | [] => w
  | y :: ys => set_share_keys epoch (u64 (from + 1)) ys (setShareKeyCache epoch from y w)
  end.
Definition warmShareKeyRange (epoch : Z) (publicCommitments : list string) (from to : Z) : M (World B) unit :=
  keys ← lift_outcome (Dkg.ShareKeysCompressedRange publicCommitments from to);
  match keys with
  | None => mret tt
  | Some keys => modify (set_share_keys epoch from keys)
  end.
Definition PrecomputeShareKeys (epoch : Z) (publicCommitments : list string) (budgetS : Z) : M (World B) unit :=
  if budgetS <=? 0 then mret tt else
  let S := budgetS in
  let end_ := if precomputeChunkSize <? S then precomputeChunkSize else S in
  warmShareKeyRange epoch publicCommitments 1 end_;;
  if end_ <? S then modify (setShareKeyCursor epoch (end_ + 1)) else mret tt.

Definition advanceEpochPrecompute (epoch budget : Z) : M (World B) Z :=
  cursor ← gets (getShareKeyCursor epoch);
  if cursor =? 0 then mret 0 else
  ak ← gets (GetActiveKey epoch);
  match ak with
  | None => modify (deleteShareKeyCursor epoch);; mret 0
  | Some ak =>
      round ← gets (GetDkgRound epoch);
      match round with
      | None => modify (deleteShareKeyCursor epoch);; mret 0
      | Some round =>
          let S := TotalEvalPoints (r_Members round) in
          if S <? cursor then modify (deleteShareKeyCursor epoch);; mret 0 else
          let end_ := u64 (cursor + budget - 1) in
          let end_ := if S <? end_ then S else end_ in
          warmShareKeyRange epoch (ak_PublicCommitments ak) cursor end_;;
          (if S <=? end_ then modify (deleteShareKeyCursor epoch)
           else modify (setShareKeyCursor epoch (u64 (end_ + 1))));;
          mret (u64 (end_ - cursor + 1))
      end
  end.

Fixpoint advance_epochs (budget : Z) (epochs : list Z) : M (World B) unit :=
  match epochs with
  | [] => mret tt
  | epoch :: rest =>
      if budget =? 0 then mret tt else
      used ← advanceEpochPrecompute epoch budget;
      advance_epochs (u64 (budget - used)) rest
  end.
Definition cursor_epochs w : list Z :=
  omap (fun e : string * string => if strlen e.1 <? 9 then None else Some (be_decode (String.substring 1 8 e.1)))
    (siter ShareKeyCursorPrefix w).
Definition advancePrecomputeShareKeys : M (World B) unit :=
  epochs ← gets cursor_epochs;
  advance_epochs precomputeChunkSize epochs.

End share_keys.

(** *** Release of a ciphertext and its bond *)
Section release.
Context `{BankKeeper B} `{AccAddr}.

(** [_ = bank operation]: an error is dropped, a panic is not. *)
Definition ignore_err {S : Type} (m : M S unit) : M S unit := fun s =>
  match m s with (Err _, s') => (Ret tt, s') | r => r end.

Definition refundBond (k : Keeper) (e : EncTx) : M (World B) unit :=
  if (e_Bond e =? 0) || negb (bankKeeper_set k) then mret tt else
  let burn := if e_Bond e <? e_BondBurn e then e_Bond e else e_BondBurn e in
  (if 0 <? burn then ignore_err (on_bank (BurnCoins ModuleName [(e_BondDenom e, burn)])) else mret tt);;
  let refund := e_Bond e - burn in
  if refund =? 0 then mret tt else
  match AccAddressFromBech32 (e_Submitter e) with
  | None => mret tt
  | Some addr => ignore_err (on_bank (SendCoinsFromModuleToAccount ModuleName addr [(e_BondDenom e, refund)]))
  end.

(** The state part of [releaseEncTx], before the bond is returned. *)
Definition drop_enc_tx (e : EncTx) w : World B :=
  let w := DeleteEncTx (e_DecryptHeight e) (e_Seq e) w in
  let w := DeleteSharesFor (e_DecryptHeight e) (e_Seq e) w in
  let w := deleteRejectedSharesFor (e_DecryptHeight e) (e_Seq e) w in
  let w := decGlobalEncCount w in
  let w := decSubmitterEncCount (e_Submitter e) w in
  if 0 <? e_Epoch e then maybePruneEpoch (e_Epoch e) (decEpochEncCount (e_Epoch e) w) else w.

Definition releaseEncTx (k : Keeper) (e : EncTx) : M (World B) unit :=
  modify (drop_enc_tx e);;
  refundBond k e.

End release.
End records.
End store.
End EncKeeper.
