(* ===== verification/EncRegistry.v ===== *)
(** * x/encmempool/keeper: encryption keys and committee membership

    Models the registry of announced encryption keys with its uniqueness index
    and rotation cooldown, the garbage collection of keys of unbonded operators,
    the selection of the committee from the bonded validators (voteext.go), the
    legacy declared member set, the member-set digest and threshold (dkg.go) and
    the stake test of a decrypting set (voteext.go).

    The staking keeper is an interface of the SDK: what its iterator yields is
    the argument [bonded], the operators with their tokens in power order. *)
From S2P Require Import Prelude Codec Bank Sha256 EncTypes Threshold Dkg EncKeeper.
From stdpp Require Import gmap strings list sorting.
From Stdlib Require Import ZArith Lia.

#[local] Set Default Goal Selector "!".
Open Scope Z_scope.

Module EncRegistry.
Import EncTypes EncKeeper.

Definition encPubKeyKey (operator : string) : string := EncPubKeyPrefix +:+ operator.
Definition encKeyOwnerKey (key : string) : string := EncKeyOwnerPrefix +:+ key.
Definition encKeyRotatedHeightKey (operator : string) : string := EncKeyRotatedHeightPrefix +:+ operator.

Definition encKeyRotationCooldownBlocks : Z := 200.
Definition maxEncKeyGCPerBlock : Z := 64.
Definition maxEncKeyPoPBytes : Z := 128.

Section registry.
Context {B : Type}.
Implicit Types w : World B.

(** An empty value counts as absent. *)
Definition get_nonempty (key : string) w : option string :=
  match sget key w with Some bz => if strlen bz =? 0 then None else Some bz | None => None end.
Definition GetEncKeyOwner (key : string) w : option string := get_nonempty (encKeyOwnerKey key) w.
Definition GetEncPubKey (operator : string) w : option string := get_nonempty (encPubKeyKey operator) w.

Definition getEncKeyRotatedHeight (operator : string) w : option Z :=
  match sget (encKeyRotatedHeightKey operator) w with
  | Some bz => if strlen bz =? 8 then Some (be_decode bz) else None
  | None => None
  end.
Definition setEncKeyRotatedHeight (operator : string) (height : Z) w : World B :=
  sset (encKeyRotatedHeightKey operator) (be64 height) w.

(** The (operator, key) pairs in operator order. *)
Definition IterateEncPubKeys w : list (string * string) :=
  (fun e : string * string => (String.substring 1 (String.length e.1 - 1) e.1, e.2)) <$> siter EncPubKeyPrefix w.

Definition DeleteEncPubKey (operator : string) w : World B :=
  let w := match GetEncPubKey operator w with Some key => sdel (encKeyOwnerKey key) w | None => w end in
  sdel (encKeyRotatedHeightKey operator) (sdel (encPubKeyKey operator) w).

Definition gcStaleEncKeys (k : Keeper) (bonded : list (string * Z)) w : World B :=
  if negb (stakingKeeper_set k) then w else
  let stale := List.filter (fun op => negb (contains bonded.*1 op)) (IterateEncPubKeys w).*1 in
  foldl (fun w op => DeleteEncPubKey op w) w (take (Z.to_nat maxEncKeyGCPerBlock) stale).

Section announce.
Context `{Curve} `{Ecdsa}.

(** [RecordEncPubKey] at block height [h]; true when the registry changed. *)
Definition RecordEncPubKey (h : Z) (operator key pop : string) w : bool * World B :=
  if String.eqb operator "" || negb (Dkg.ValidCompressedPoint key) || (maxEncKeyPoPBytes <? strlen pop)
  then (false, w) else
  let cur := GetEncPubKey operator w in
  if match cur with Some c => String.eqb c key | None => false end then (false, w) else
  if negb (Dkg.VerifyEncKeyPoP key operator pop) then (false, w) else
  if match GetEncKeyOwner key w with Some owner => negb (String.eqb owner operator) | None => false end
  then (false, w) else
  let install w :=
    (true, setEncKeyRotatedHeight operator h
             (sset (encKeyOwnerKey key) operator (sset (encPubKeyKey operator) key w))) in
  match cur with
  | Some c =>
      if match getEncKeyRotatedHeight operator w with
         | Some last => h <? u64 (last + encKeyRotationCooldownBlocks)
         | None => false
         end
      then (false, w) else install (sdel (encKeyOwnerKey c) w)
  | None => install w
  end.

End announce.

(** ** Committee selection *)

Record transparentCandidate := mkCandidate { tc_op : string; tc_tokens : Z; tc_key : string }.

(** Higher stake first, then the operator address. *)
Definition cand_rank (a b : transparentCandidate) : Prop :=
  tc_tokens b < tc_tokens a \/ (tc_tokens a = tc_tokens b /\ str_le (tc_op a) (tc_op b)).
#[export] Instance cand_rank_dec : RelDecision cand_rank.
Proof. intros a b. unfold cand_rank. apply _. Defined.
Definition cand_op_le (a b : transparentCandidate) : Prop := str_le (tc_op a) (tc_op b).
#[export] Instance cand_op_le_dec : RelDecision cand_op_le.
Proof. intros a b. unfold cand_op_le. apply _. Defined.

Definition candidates (bonded : list (string * Z)) w : list transparentCandidate :=
  omap (fun v : string * Z => match GetEncPubKey v.1 w with
                              | Some key => Some (mkCandidate v.1 v.2 key)
                              | None => None
                              end) bonded.

Definition cand_members (cands : list transparentCandidate) : list RoundMember :=
  imap (fun i c => mkRoundMember (Z.of_nat i + 1) (tc_op c) "" (tc_key c) (Some (tc_tokens c)) [] false) cands.

Definition TransparentMembers (k : Keeper) (bonded : list (string * Z)) (p : Params)
    : M (World B) (list RoundMember) :=
  if negb (stakingKeeper_set k) then mret [] else
  cands ← gets (candidates bonded);
  let cands := merge_sort cand_rank cands in
  let max := EffectiveMaxMembers p in
  let cands := if max <? zlen cands then take (Z.to_nat max) cands else cands in
  let maxByBudget := Z.quot (EffectiveShareBudget p) MinShareBudgetPerMember in
  cands ← (if maxByBudget <? zlen cands then
             modify (emit (mkEvent "encmempool_dkg_committee_clamped"
               [("share_budget", u64str (EffectiveShareBudget p)); ("max_by_budget", u64str maxByBudget);
                ("clamped", u64str (zlen cands - maxByBudget))]));;
             mret (take (Z.to_nat maxByBudget) cands)
           else mret cands);
  mret (cand_members (merge_sort cand_op_le cands)).

Definition dkgmember_le (a b : DkgMember) : Prop := str_le (dm_OperatorAddr a) (dm_OperatorAddr b).
#[export] Instance dkgmember_le_dec : RelDecision dkgmember_le.
Proof. intros a b. unfold dkgmember_le. apply _. Defined.

Definition ActiveMembers (k : Keeper) (bonded : list (string * Z)) (p : Params)
    : M (World B) (list RoundMember) :=
  if DkgTransparent p then TransparentMembers k bonded p else
  let bonded := if stakingKeeper_set k then bonded.*1 else [] in
  let chosen := List.filter (fun m => (zlen bonded =? 0) || contains bonded (dm_OperatorAddr m)) (DkgMembers p) in
  mret (imap (fun i m => mkRoundMember (Z.of_nat i + 1) (dm_OperatorAddr m) (dm_AccountAddr m) (dm_EncPubKey m)
                           None [] false) (merge_sort dkgmember_le chosen)).

End registry.

Definition MembersHash (members : list RoundMember) : string :=
  sha256 (foldr (fun m s => OperatorAddr m +:+ (byte_prefix 0 +:+ (EncPubKey m +:+ (byte_prefix 0 +:+ s)))) ""
            members).

Definition roundThreshold (p : Params) (n : Z) : Z :=
  if (1 <=? DkgThreshold p) && (DkgThreshold p <=? n) then DkgThreshold p else u32 (Z.quot n 2 + 1).

Definition memberIndexByOperator (round : DkgRound) (op : string) : Z := MemberIndexByOperator (r_Members round) op.

(** The loop of [DecryptingSetMeetsStake]: total, present and whether a weighted
    member was met. *)
Definition stake_step `{MathInt} (present : Z -> bool) (st : Z * Z * bool) (m : RoundMember)
    : outcome (Z * Z * bool) :=
  let '(total, got, weighted) := st in
  match Weight m with
  | Some w =>
      if 0 <? w then
        total ← o_int (total + w);
        got ← (if present (Index m) then o_int (got + w) else Ret got);
        Ret (total, got, true)
      else Ret st
  | None => Ret st
  end.

Definition DecryptingSetMeetsStake `{MathInt} (members : list RoundMember) (present : Z -> bool) : outcome bool :=
  st ← fold_ok (stake_step present) (0, 0, false) members;
  let '(total, got, weighted) := st in
  if negb weighted || negb (0 <? total) then Ret true else
  lhs ← o_int (got * 3);
  rhs ← o_int (total * 2);
  Ret (rhs <? lhs).

End EncRegistry.
