(* ===== verification/EncDkg.v ===== *)
(** * x/encmempool/keeper: the DKG state machine

    Models endblock.go (the per-block driver [EndBlockDKG], opening and retrying of
    rounds, the retry backoff, the rekey triggers and the coalition drift
    measure) and [finalizeRound] of dkg.go. *)
From S2P Require Import Prelude Codec Bank Sha256 EncTypes StakeWeight Threshold Dkg EncKeeper EncRegistry.
From stdpp Require Import gmap strings list sorting.
From Stdlib Require Import ZArith Lia.

#[local] Set Default Goal Selector "!".
Open Scope Z_scope.

Module EncDkg.
Import EncTypes EncKeeper EncRegistry.

Definition dkgBackoffCeilingBlocks : Z := 1000.
Definition minComplaintWindowBlocks : Z := 2.
Definition maxComplaintVerifiesPerAccuser : Z := 8.
Definition maxBpsDenominator : Z := 10000.

Definition max64 (a b : Z) : Z := if b <? a then a else b.

Definition complaintWindowFloor (n : Z) : Z :=
  if n <=? 1 then minComplaintWindowBlocks else
  let blocks := Z.quot (n - 1 + maxComplaintVerifiesPerAccuser - 1) maxComplaintVerifiesPerAccuser + 1 in
  if blocks <? minComplaintWindowBlocks then minComplaintWindowBlocks else blocks.

(** The doubling loop of [retryBackoff], at most [n] more times. *)
Fixpoint backoff_loop (ceiling : Z) (n : nat) (b : Z) : Z :=
  match n with
  | O => b
  | S n' =>
      let next := u64 (Z.shiftl b 1) in
      if (next <? b) || (ceiling <=? next) then ceiling else backoff_loop ceiling n' next
  end.
Definition retryBackoff (p : Params) (failedAttempt : Z) : Z :=
  let base := max64 (DkgRetryBackoff p) 1 in
  let ceiling := max64 base dkgBackoffCeilingBlocks in
  backoff_loop ceiling (Z.to_nat (failedAttempt - 1)) base.

(** ** Drift of the stake distribution *)
Section drift.
Context `{MathInt}.
Import StakeWeight.

Definition member_weight_w (m : RoundMember) : Z := weightOrZero (Weight m).

(** A Go map from operator to weight, later entries overwriting earlier ones, with
    the sum of the weights. *)
Definition weights_by_operator (members : list RoundMember) : outcome (gmap string Z * Z) :=
  fold_ok (fun (st : gmap string Z * Z) m =>
    let w := member_weight_w m in
    total ← o_int (st.2 + w);
    Ret (<[OperatorAddr m := w]> st.1, total)) (∅, 0) members.

Definition committeeMaxCoalitionDriftBps (snapshot live : list RoundMember) : outcome Z :=
  snap ← weights_by_operator snapshot;
  liv ← weights_by_operator live;
  let '(snapOf, wSnap) := snap in
  let '(liveOf, wLive) := liv in
  if negb (0 <? wSnap) || negb (0 <? wLive) then Ret 0 else
  sumAbs ← fold_ok (fun acc m =>
    let wl := default 0 (liveOf !! OperatorAddr m) in
    a ← o_int (wl * wSnap);
    b ← o_int (member_weight_w m * wLive);
    d ← o_int (a - b);
    o_int (acc + Z.abs d)) 0 snapshot;
  sumAbs ← fold_ok (fun acc m =>
    if bool_decide (is_Some (snapOf !! OperatorAddr m)) then Ret acc else
    d ← o_int (member_weight_w m * wSnap);
    o_int (acc + Z.abs d)) sumAbs live;
  prod ← o_int (wSnap * wLive);
  denom ← o_int (prod * 2);
  num ← o_int (sumAbs * maxBpsDenominator);
  bps ← o_int (Z.quot num denom);
  if maxBpsDenominator <? bps then Ret maxBpsDenominator else Ret bps.

End drift.

(** [json.Marshal] of a []uint64. *)
Definition json_uints (l : list Z) : string :=
  match l with [] => "null" | _ => "[" +:+ (String.concat "," (Int_String <$> l) +:+ "]") end.

Section rounds.
Context {B : Type} `{EncJSON} `{Curve} `{MathInt}.
Implicit Types w : World B.

Definition with_status (r : DkgRound) (st : string) : DkgRound :=
  mkDkgRound (r_Epoch r) (r_OpenHeight r) (r_DealDeadline r) (r_ComplaintDeadline r) (r_Members r)
    (r_Threshold r) (r_MembersHash r) st (r_Attempt r).

(** [weightOf] of the round's members; a later entry of an index wins. *)
Definition weight_map (members : list RoundMember) : gmap Z Z :=
  foldl (fun acc m => <[Index m := owned m]> acc) ∅ members.

Definition dealingWeightUpperBound (round : DkgRound) w : Z :=
  let weightOf := weight_map (r_Members round) in
  (foldl (fun (st : list Z * Z) d =>
     if Zmem (d_DealerIndex d) st.1 then st
     else (d_DealerIndex d :: st.1, st.2 + default 0 (weightOf !! d_DealerIndex d)))
   ([], 0) (IterateDealings (r_Epoch round) w)).2.

(** The distinct accused dealers, in complaint order. *)
Definition disqualified_of (cs : list DkgComplaintRec) : list Z :=
  foldl (fun acc c => if Zmem (c_Against c) acc then acc else acc ++ [c_Against c]) [] cs.

Definition finalizeRound (round : DkgRound) : M (World B) unit :=
  let members := Index <$> r_Members round in
  let weightOf := weight_map (r_Members round) in
  dealings ← gets (IterateDealings (r_Epoch round));
  complaints ← gets (IterateComplaints (r_Epoch round));
  let pubDealings := (fun d => Dkg.mkPublicDealing (d_DealerIndex d) (d_Commitments d)) <$> dealings in
  match Dkg.FinalizePublicWeighted members (r_Threshold round) pubDealings (disqualified_of complaints)
          (Some weightOf) (r_Threshold round) with
  | Panic msg => panic msg
  | Err reason =>
      modify (SetDkgRound (with_status round DkgStatusFailed));;
      modify (emit (mkEvent "encmempool_dkg_failed" [("epoch", u64str (r_Epoch round)); ("reason", reason)]))
  | Ret res =>
      let ak := mkActiveThresholdKey (r_Epoch round) (Dkg.Pub res) (Dkg.PublicCommitments res)
                  (r_Threshold round) (Dkg.Qual res) in
      modify (SetActiveKey ak);;
      PrecomputeShareKeys (r_Epoch round) (ak_PublicCommitments ak) (TotalEvalPoints (r_Members round));;
      prevActive ← gets GetActiveEpoch;
      modify (SetActiveEpoch (r_Epoch round));;
      modify (SetDkgRound (with_status round DkgStatusActive));;
      (if negb (prevActive =? 0) && negb (prevActive =? r_Epoch round)
       then modify (maybePruneEpoch prevActive) else mret tt);;
      modify (emit (mkEvent "encmempool_dkg_finalized"
        [("epoch", u64str (r_Epoch round)); ("pub_hex", hex_bytes (Dkg.Pub res));
         ("threshold", u64str (r_Threshold round)); ("qual", json_uints (Dkg.Qual res))]))
  end.

(** The round record of [openRound]. *)
Definition new_round (epoch : Z) (members : list RoundMember) (t : Z) (hash : string) (h : Z) (p : Params)
    (attempt : Z) : DkgRound :=
  let dealDeadline := addSat h (max64 (DkgDealWindow p) minComplaintWindowBlocks) in
  mkDkgRound epoch h dealDeadline
    (addSat dealDeadline (max64 (DkgComplaintWindow p) (complaintWindowFloor (zlen members))))
    members t hash DkgStatusOpen attempt.

(** The members with their evaluation points, and the threshold. *)
Definition seat_members (p : Params) (epoch : Z) (members : list RoundMember) : outcome (list RoundMember * Z) :=
  if DkgTransparent p then
    members ← StakeWeight.AllocateEvalPoints members (EffectiveShareBudget p) epoch;
    Ret (members, (StakeWeight.stakeThreshold members (DkgStrictConcentration p)).1)
  else Ret (members, roundThreshold p (zlen members)).

Definition openRound (epoch : Z) (members : list RoundMember) (hash : string) (h : Z) (p : Params)
    (attempt : Z) (reason : string) : M (World B) unit :=
  seats ← lift_outcome (seat_members p epoch members);
  let '(members, t) := (seats : list RoundMember * Z) in
  let round := new_round epoch members t hash h p attempt in
  modify (SetDkgRound round);;
  modify (SetCurrentEpoch epoch);;
  modify (emit (mkEvent "encmempool_dkg_round_opened"
    [("epoch", u64str epoch); ("attempt", u64str attempt); ("reason", reason);
     ("deal_deadline", u64str (r_DealDeadline round));
     ("complaint_deadline", u64str (r_ComplaintDeadline round));
     ("threshold", u64str t); ("members", u64str (zlen members)); ("round_json", json_Marshal round)])).

Definition stakeDriftRekeyDue (round : DkgRound) (live : list RoundMember) (h : Z) (p : Params) w : outcome bool :=
  if negb (DkgTransparent p) then Ret false else
  if decryptHealthStrandThreshold <=? GetDecryptStrandStreak (r_Epoch round) w then Ret true else
  let last := GetLastRekeyHeight w in
  if (0 <? DkgMinRekeyGap p) && negb (last =? 0) && (h <? addSat last (DkgMinRekeyGap p)) then Ret false else
  if (DkgMaxEpochBlocks p =? 0) && (DkgRekeyOnStakeDriftBps p =? 0) then Ret false else
  if (0 <? DkgMaxEpochBlocks p) && (addSat (r_OpenHeight round) (DkgMaxEpochBlocks p) <=? h) then Ret true else
  if 0 <? DkgRekeyOnStakeDriftBps p then
    drift ← committeeMaxCoalitionDriftBps (r_Members round) live;
    Ret (DkgRekeyOnStakeDriftBps p <=? drift)
  else Ret false.

(** Whether the failed round was retried. *)
Definition retryFailedRound (prevEpoch : Z) (lastRound : DkgRound) (members : list RoundMember) (hash : string)
    (h : Z) (p : Params) (reason : string) : M (World B) bool :=
  if h <? addSat (r_ComplaintDeadline lastRound) (retryBackoff p (r_Attempt lastRound)) then mret false else
  let attempt := u64 (r_Attempt lastRound + 1) in
  (if (0 <? DkgMaxAttempts p) && (DkgMaxAttempts p <? attempt) then
     modify (emit (mkEvent "encmempool_dkg_stalled"
       [("epoch", u64str (u64 (prevEpoch + 1))); ("attempt", u64str attempt); ("members", u64str (zlen members))]))
   else mret tt);;
  modify (purgeFailedRound prevEpoch);;
  openRound (u64 (prevEpoch + 1)) members hash h p attempt reason;;
  mret true.

(** The transparent path waits for vote extensions and for a committee whose
    injected commit fits a block; [false] ends the block. *)
Definition runtime_gate (ctx : Ctx) (cp : ConsensusParams) (p : Params) : M (World B) bool :=
  if negb (DkgTransparent p) then mret true else
  match cp_VoteExtensionsEnableHeight cp with
  | None => mret false
  | Some ve =>
      if (ve =? 0) || (BlockHeight ctx <? ve) then mret false else
      match cp_Block cp with
      | Some bp =>
          let mb := bp_MaxBytes bp in
          if (0 <? mb) && negb (DkgInjectedCommitFitsMaxTxBytes p mb) then
            modify (emit (mkEvent "encmempool_dkg_injection_oversize"
              [("estimated_bytes", u64str (u64 (DkgInjectedCommitBytesUpperBound p)));
               ("max_tx_bytes", u64str (u64 mb))]));;
            mret false
          else mret true
      | None => mret true
      end
  end.

(** Finalisation of the current round when its windows are over, or early when the
    dealings received cannot reach the threshold. *)
Definition settle_round (h cur : Z) : M (World B) (option DkgRound) :=
  last ← gets (fun w => if 0 <? cur then GetDkgRound cur w else None);
  last ← match last with
         | Some r =>
             if String.eqb (r_Status r) DkgStatusOpen && (r_ComplaintDeadline r <=? h)
             then finalizeRound r;; gets (GetDkgRound cur) else mret (Some r)
         | None => mret None
         end;
  match last with
  | Some r =>
      early ← gets (fun w => String.eqb (r_Status r) DkgStatusOpen && (r_DealDeadline r <? h) &&
                             (h <? r_ComplaintDeadline r) && (dealingWeightUpperBound r w <? r_Threshold r));
      if early : bool then
        modify (emit (mkEvent "encmempool_dkg_failed_early"
          [("epoch", u64str (r_Epoch r)); ("reason", "insufficient_dealings_after_deal_window")]));;
        finalizeRound r;;
        gets (GetDkgRound cur)
      else mret (Some r)
  | None => mret None
  end.

(** The member set changed: rekey, unless the last rekey is too recent. *)
Definition member_change (cur : Z) (lastRound : DkgRound) (active : list RoundMember) (hash : string) (h : Z)
    (p : Params) : M (World B) unit :=
  last ← gets GetLastRekeyHeight;
  if (0 <? DkgMinRekeyGap p) && negb (last =? 0) && (h <? addSat last (DkgMinRekeyGap p)) then
    modify (emit (mkEvent "encmempool_dkg_rekey_dampened"
      [("height", u64str h); ("last_rekey", u64str last); ("min_gap", u64str (DkgMinRekeyGap p))]));;
    if String.eqb (r_Status lastRound) DkgStatusFailed then
      _ ← retryFailedRound cur lastRound (r_Members lastRound) (r_MembersHash lastRound) h p "retry"; mret tt
    else mret tt
  else
    (if String.eqb (r_Status lastRound) DkgStatusActive
     then modify (fun w => (purgeDealingsIfDrained p cur w).2)
     else modify (purgeFailedRound cur));;
    modify (SetLastRekeyHeight h);;
    openRound (u64 (cur + 1)) active hash h p 1 "member_change".

Definition drift_rekey (cur : Z) (lastRound : DkgRound) (active : list RoundMember) (hash : string) (h : Z)
    (p : Params) : M (World B) unit :=
  driftBps ← lift_outcome (committeeMaxCoalitionDriftBps (r_Members lastRound) active);
  strandStreak ← gets (GetDecryptStrandStreak cur);
  modify (fun w => (purgeDealingsIfDrained p cur w).2);;
  modify (SetLastRekeyHeight h);;
  modify (resetDecryptStrandStreak cur);;
  modify (emit (mkEvent "encmempool_dkg_stake_drift_rekey"
    [("epoch", u64str cur); ("new_epoch", u64str (u64 (cur + 1))); ("height", u64str h);
     ("open_height", u64str (r_OpenHeight lastRound)); ("drift_bps", u64str driftBps);
     ("cadence_blocks", u64str (DkgMaxEpochBlocks p));
     ("drift_threshold_bps", u64str (DkgRekeyOnStakeDriftBps p)); ("strand_streak", u64str strandStreak)]));;
  openRound (u64 (cur + 1)) active hash h p 1 "stake_drift".

(** The body of [EndBlockDKG] under its cache context. *)
Definition endblock_body (k : Keeper) (ctx : Ctx) (cp : ConsensusParams) (bonded : list (string * Z))
    : M (World B) unit :=
  p ← gets GetParams;
  if negb (DkgEnabled p) then mret tt else
  go ← runtime_gate ctx cp p;
  if negb go then mret tt else
  let h := u64 (BlockHeight ctx) in
  if h <? DkgStartHeight p then mret tt else
  advancePrecomputeShareKeys;;
  (if h mod 64 =? 0 then modify (gcStaleEncKeys k bonded) else mret tt);;
  cur ← gets GetCurrentEpoch;
  last ← settle_round h cur;
  if match last with Some r => String.eqb (r_Status r) DkgStatusOpen | None => false end then mret tt else
  active ← ActiveMembers k bonded p;
  if zlen active =? 0 then mret tt else
  let hash := MembersHash active in
  match last with
  | None => openRound (u64 (cur + 1)) active hash h p 1 "start"
  | Some lastRound =>
      if cur =? 0 then openRound (u64 (cur + 1)) active hash h p 1 "start" else
      if negb (String.eqb (r_MembersHash lastRound) hash) then member_change cur lastRound active hash h p else
      due ← (if String.eqb (r_Status lastRound) DkgStatusActive
             then (fun w => (stakeDriftRekeyDue lastRound active h p w, w)) else mret false);
      if due : bool then drift_rekey cur lastRound active hash h p
      else if String.eqb (r_Status lastRound) DkgStatusFailed
      then _ ← retryFailedRound cur lastRound active hash h p "retry"; mret tt
      else mret tt
  end.

(** [ctx.CacheContext()] with the deferred recover: a panic discards every write
    and leaves one event; otherwise the writes and events are kept. *)
Definition cached (ev : string -> Event) (m : M (World B) unit) w : World B :=
  match m w with
  | (Panic msg, _) => emit (ev msg) w
  | (_, w') => w'
  end.

Definition panic_event (name : string) (ctx : Ctx) (reason : string) : Event :=
  mkEvent name [("height", u64str (u64 (BlockHeight ctx))); ("reason", reason)].

Definition EndBlockDKG (k : Keeper) (ctx : Ctx) (cp : ConsensusParams) (bonded : list (string * Z)) w : World B :=
  cached (panic_event "encmempool_dkg_endblock_panic" ctx) (endblock_body k ctx cp bonded) w.

End rounds.
End EncDkg.
