(* ===== verification/EncAbci.v ===== *)
(** * x/encmempool/keeper: the begin-block handler

    Models abci.go (commit-reveal execution and garbage collection, the decryption
    of matured ciphertexts with its admission ceilings, fair selection, grace and
    deferral, the drain of a disabled module) and the guards of evm_exec.go.

    The EVM keeper, the net-cap checker and the account keeper are interfaces: the
    class [EvmExec] has the calls evm_exec.go makes, in its order. *)
From S2P Require Import Prelude Codec Bank Sha256 EncTypes StakeWeight Threshold Dkg EncKeeper EncRegistry EncDkg.
From stdpp Require Import gmap strings list sorting.
From Stdlib Require Import ZArith Lia.

#[local] Set Default Goal Selector "!".
Open Scope Z_scope.

Module EncAbci.
Import EncTypes EncKeeper EncRegistry EncDkg.

(** ** Execution of a decrypted transaction *)

Definition maxDecryptExecGasPerBlockBps : Z := 2500.
Definition defaultDecryptExecGasPerBlock : Z := 30000000.

(** The fields of a decoded Ethereum transaction the code reads. *)
Record EthTx := mkEthTx {
  tx_Hash : string;
  tx_isBlob : bool;
  tx_Gas : Z;
  tx_To : option string;
  tx_Value : Z;
  tx_Nonce : Z;
  tx_Raw : string
}.

Record decryptExecOutcome := mkExecOutcome {
  executed : bool; reverted : bool; gasUsed : Z; tag : string; txHash : string
}.

(** The result of [ApplyTransaction]: the gas used and whether the EVM reverted. *)
Class EvmExec (W : Type) : Type := {
  UnmarshalBinary : string -> option EthTx;
  EVMConfig_ok : W -> bool;
  TransactionSender : W -> EthTx -> option string;
  IsPrecompile : W -> string -> bool;
  GetNonce : W -> string -> Z;
  VerifyFee : W -> EthTx -> option Z;
  CheckSenderBalance_ok : W -> string -> EthTx -> bool;
  CanTransfer_ok : W -> string -> EthTx -> bool;
  NetCap_CheckAndRecord : string -> string -> Z -> M W unit;
  DeductTxCosts : Z -> string -> M W unit;
  ApplyTransaction : EthTx -> M W (Z * bool);
  IncrementNonce : string -> Z -> M W unit
}.

Definition exec_fail (t h : string) : decryptExecOutcome := mkExecOutcome false false 0 t h.

(** [if err != nil { return outcome }]: an error of [m] ends with [o]. *)
Definition or_return {W A : Type} (m : M W A) (o : decryptExecOutcome) (f : A -> M W decryptExecOutcome)
    : M W decryptExecOutcome := fun w =>
  match m w with
  | (Ret a, w') => f a w'
  | (Err _, w') => (Ret o, w')
  | (Panic msg, w') => (Panic msg, w')
  end.

Definition executeDecryptedTx `{EvmExec W} (k : Keeper) (plaintext : string) (gasBudget remainingBudget : Z)
    : M W decryptExecOutcome := fun w =>
  match UnmarshalBinary plaintext with
  | None => (Ret (exec_fail "invalid_rlp" ""), w)
  | Some tx =>
      let h := tx_Hash tx in
      if tx_isBlob tx then (Ret (exec_fail "unsupported_tx_type" h), w) else
      if (0 <? gasBudget) && (gasBudget <? tx_Gas tx) then (Ret (exec_fail "gas_too_large" h), w) else
      if (0 <? remainingBudget) && (remainingBudget <? tx_Gas tx) then (Ret (exec_fail "gas_deferred" h), w) else
      if negb (EVMConfig_ok w) then (Ret (exec_fail "evm_config" h), w) else
      match TransactionSender w tx with
      | None => (Ret (exec_fail "bad_signature" h), w)
      | Some from =>
          if match tx_To tx with Some to => IsPrecompile w to | None => false end
          then (Ret (exec_fail "precompile_blocked" h), w) else
          if negb (GetNonce w from =? tx_Nonce tx) then (Ret (exec_fail "bad_nonce" h), w) else
          match VerifyFee w tx with
          | None => (Ret (exec_fail "fee_cap" h), w)
          | Some fees =>
              if negb (CheckSenderBalance_ok w from tx) then (Ret (exec_fail "unpayable" h), w) else
              if negb (CanTransfer_ok w from tx) then (Ret (exec_fail "cant_transfer" h), w) else
              or_return
                (match tx_To tx with
                 | Some to => if netCapChecker_set k && (0 <? tx_Value tx)
                              then NetCap_CheckAndRecord from to (tx_Value tx) else mret tt
                 | None => mret tt
                 end) (exec_fail "netcap_blocked" h) (fun _ =>
              or_return (DeductTxCosts fees from) (exec_fail "fee_deduct" h) (fun _ =>
              or_return (ApplyTransaction tx) (exec_fail "exec_error" h) (fun res =>
                ignore_err (IncrementNonce from (tx_Nonce tx));;
                mret (mkExecOutcome true res.2 res.1 (if res.2 then "reverted" else "executed") h)))) w
          end
      end
  end.

Definition decryptExecGasCeiling (cp : ConsensusParams) : Z :=
  match cp_Block cp with
  | Some bp =>
      if 0 <? bp_MaxGas bp then
        let frac := Z.quot (bp_MaxGas bp) (Z.quot 10000 maxDecryptExecGasPerBlockBps) in
        if (0 <? frac) && (frac <? defaultDecryptExecGasPerBlock) then frac else defaultDecryptExecGasPerBlock
      else defaultDecryptExecGasPerBlock
  | None => defaultDecryptExecGasPerBlock
  end.

Definition encExecEnabled (k : Keeper) (encExec : bool) : bool :=
  encExec && evmKeeper_set k && accountKeeper_set k.

(** ** Fair selection *)

(** Submitters in order of first appearance, and the queue of indices of each. *)
Definition fair_queues (matured : list EncTx) : list string * gmap string (list nat) :=
  foldl (fun (st : list string * gmap string (list nat)) (ie : nat * EncTx) =>
    let s := e_Submitter ie.2 in
    match st.2 !! s with
    | None => (st.1 ++ [s], <[s := [ie.1]]> st.2)
    | Some q => (st.1, <[s := q ++ [ie.1]]> st.2)
    end) ([], ∅) (imap pair matured).

Record fair_state := mkFair { f_queues : gmap string (list nat); f_sel : list bool; f_picked : Z; f_progressed : bool }.

(** One pass over the submitters; it stops when the budget is used up. *)
Fixpoint fair_pass (budget : Z) (order : list string) (st : fair_state) : fair_state :=
  match order with
  | [] => st
  | s :: rest =>
      match default [] (f_queues st !! s) with
      | [] => fair_pass budget rest st
      | i :: q =>
          let st' := mkFair (<[s := q]> (f_queues st)) (<[i := true]> (f_sel st)) (f_picked st + 1) true in
          if budget <=? f_picked st' then st' else fair_pass budget rest st'
      end
  end.

(** [for picked < budget]; every pass but the last picks something, so one pass
    per ciphertext is enough fuel. *)
Fixpoint fair_loop (fuel : nat) (budget : Z) (order : list string) (st : fair_state) : fair_state :=
  match fuel with
  | O => st
  | S f =>
      if budget <=? f_picked st then st else
      let st' := fair_pass budget order (mkFair (f_queues st) (f_sel st) (f_picked st) false) in
      if f_progressed st' then fair_loop f budget order st' else st'
  end.

Definition selectFairDecrypts (matured : list EncTx) (budget : Z) : list bool :=
  if zlen matured <=? budget then replicate (length matured) true else
  let '(order, queues) := fair_queues matured in
  f_sel (fair_loop (S (length matured)) budget order (mkFair queues (replicate (length matured) false) 0 true)).

(** ** Recovery of the shared secret *)

Definition errNotEnoughShares : string := "not enough shares".
Definition errStakeMinority : string := "decrypting set holds only a stake minority".
Definition errLegacyRecoverFailed : string := "legacy recover: no usable share combination".
Definition maxLegacyRecoverCombos : Z := 128.

(** The loop of [countCombos] at [i], with [left] iterations to go. *)
Fixpoint count_combos_loop (n : Z) (left : nat) (i res : Z) : Z :=
  match left with
  | O => res
  | S left' =>
      let res := Z.quot (res * (n - i)) (i + 1) in
      if maxLegacyRecoverCombos <? res then maxLegacyRecoverCombos + 1 else count_combos_loop n left' (i + 1) res
  end.
Definition countCombos (n k : Z) : Z :=
  if (k <? 0) || (n <? k) then 0 else
  let k := if n - k <? k then n - k else k in
  count_combos_loop n (Z.to_nat k) 0 1.

(** The combinations of [k] elements in the order of the recursive search. *)
Fixpoint combos {A : Type} (k : nat) (l : list A) : list (list A) :=
  match k, l with
  | O, _ => [[]]
  | S _, [] => []
  | S k', x :: l' => ((x ::.) <$> combos k' l') ++ combos k l'
  end.

Section recover.
Context {B : Type} `{EncJSON} `{Curve} `{AesGcm} `{MathInt}.
Implicit Types w : World B.

Definition to_decrypt_share (s : EncShare) : Threshold.DecryptShare := Threshold.mkDecryptShare (s_Index s) (s_D s).

Definition legacyRecoverRobust (e : EncTx) (shares : list EncShare) (need : Z) : option Point :=
  if (need <? 0) || (zlen shares <? need) then None else
  let ct := Threshold.mkCiphertext (e_A e) (e_Nonce e) (e_Body e) in
  let recover (ss : list EncShare) : option Point :=
    match Threshold.Recover (to_decrypt_share <$> ss) with
    | Ret shared => match Threshold.Decrypt shared ct with Ret _ => Some shared | _ => None end
    | _ => None
    end in
  let first := take (Z.to_nat need) shares in
  if maxLegacyRecoverCombos <? countCombos (zlen shares) need then recover first else
  match omap recover (combos (Z.to_nat need) shares) with
  | P :: _ => Some P
  | [] => match Threshold.Recover (to_decrypt_share <$> first) with Ret P => Some P | _ => None end
  end.

(** The threshold needed, and the shared point or an error. *)
Definition recoverSharedSecret (p : Params) (e : EncTx) (shares : list EncShare) w : outcome (Z * (Point + string)) :=
  if 0 <? e_Epoch e then
    match GetActiveKey (e_Epoch e) w with
    | None => Ret (0, inr "no active key for epoch")
    | Some ak =>
        let need := ak_Threshold ak in
        if zlen shares <? need then Ret (need, inr errNotEnoughShares) else
        enough ← match GetDkgRound (e_Epoch e) w with
                 | Some round =>
                     if 0 <? zlen (r_Members round) then
                       let owners := (fun s => EvalPointOwner (r_Members round) (s_Index s)) <$> shares in
                       DecryptingSetMeetsStake (r_Members round) (fun i => negb (i =? 0) && Zmem i owners)
                     else Ret true
                 | None => Ret true
                 end;
        if negb enough then Ret (need, inr errStakeMinority) else
        match Dkg.ParseCommitmentPoints (ak_PublicCommitments ak) with
        | None => Ret (need, inr "malformed commitment")
        | Some commitments =>
            let proven := omap (fun s => match Dkg.ParseDLEQProof (s_Proof s) with
                                         | Some pf => Some (s, pf)
                                         | None => None
                                         end) shares in
            let preVer i := existsb (fun sp : EncShare * Dkg.DLEQProof => s_Verified sp.1 && (s_Index sp.1 =? i)) proven in
            let partials := (fun sp : EncShare * Dkg.DLEQProof => (Some (to_decrypt_share sp.1), Some sp.2)) <$> proven in
            match Dkg.RecoverVerifiedWithKeys commitments (e_A e) need partials
                    (Some (fun i => sget (activeShareKeyKey (e_Epoch e) i) w)) (Some preVer) with
            | Ret P => Ret (need, inl P)
            | Err er => Ret (need, inr (if String.eqb er Dkg.ErrInsufficientVerified then errNotEnoughShares else er))
            | Panic msg => Panic msg
            end
        end
    end
  else
    let need := Threshold p in
    if zlen shares <? need then Ret (need, inr errNotEnoughShares) else
    match legacyRecoverRobust e shares need with
    | Some P => Ret (need, inl P)
    | None => Ret (need, inr errLegacyRecoverFailed)
    end.

End recover.

(** ** The block *)

Section begin_block.
Context `{BankKeeper B} `{EncJSON} `{Curve} `{AesGcm} `{MathInt} `{AccAddr} `{EvmExec (World B)}.
Implicit Types w : World B.

Definition attr_tx (e : EncTx) : list (string * string) :=
  [("submitter", e_Submitter e); ("seq", u64str (e_Seq e)); ("epoch", u64str (e_Epoch e))].
Definition bool_str (b : bool) : string := if b then "true" else "false".

Definition decrypt_failed (e : EncTx) (reason : string) : M (World B) unit :=
  modify (emit (mkEvent "encmempool_decrypt_failed" [("seq", u64str (e_Seq e)); ("reason", reason)])).

(** The locals of the loop of [decryptMatured]. *)
Record loop_st := mkLoop {
  l_order : Z; l_processed : Z; l_gas : Z; l_cands : list (EncTx * Z * Z)
}.

(** The closure run on one ciphertext: the updated locals, whether to release it
    and whether the execution budget is full. *)
Definition attempt_body (k : Keeper) (cur : Z) (p : Params) (execOn : bool) (execCeiling : Z) (st : loop_st)
    (e : EncTx) : M (World B) (loop_st * bool * bool) :=
  shares ← gets (CollectShares (e_DecryptHeight e) (e_Seq e));
  res ← (fun w => (recoverSharedSecret p e shares w, w));
  match (res : Z * (Point + string)) with
  | (need, inr err) =>
      if String.eqb err errNotEnoughShares || String.eqb err errStakeMinority then
        if addSat (e_DecryptHeight e) strandedDecryptGraceBlocks <=? cur then
          modify (fun w => emit (mkEvent "encmempool_decrypt_stranded"
            (attr_tx e ++ [("height", u64str cur); ("have", u64str (zlen shares)); ("need", u64str need);
               ("missing_operators", MissingShareOperators (e_Epoch e) shares w); ("reason", err)])) w);;
          modify (bumpDecryptStrandStreak (e_Epoch e));;
          mret (st, true, false)
        else
          mret (mkLoop (l_order st) (l_processed st) (l_gas st) (l_cands st ++ [(e, zlen shares, need)]), false, false)
      else decrypt_failed e err;; mret (st, true, false)
  | (need, inl shared) =>
      match Threshold.Decrypt shared (Threshold.mkCiphertext (e_A e) (e_Nonce e) (e_Body e)) with
      | Panic msg => panic msg
      | Err reason => decrypt_failed e reason;; mret (st, true, false)
      | Ret plaintext =>
          modify (resetDecryptStrandStreak (e_Epoch e));;
          if negb execOn then
            modify (emit (mkEvent "encmempool_decrypted"
              (attr_tx e ++ [("execution_order", u64str (l_order st)); ("plaintext_len", u64str (strlen plaintext));
                 ("executed", "false")])));;
            mret (mkLoop (u64 (l_order st + 1)) (l_processed st) (l_gas st) (l_cands st), true, false)
          else
            (** the child context: its writes are kept only when [commit] runs *)
            (fun w =>
              match executeDecryptedTx k plaintext execCeiling (u64 (execCeiling - l_gas st)) w with
              | (Ret res, w') =>
                  if String.eqb (tag res) "gas_deferred" then (Ret (st, false, true), w) else
                  let w := if executed res then w' else w in
                  let gas := if executed res then u64 (l_gas st + gasUsed res) else l_gas st in
                  (Ret (mkLoop (u64 (l_order st + 1)) (l_processed st) gas (l_cands st), true, false),
                   emit (mkEvent "encmempool_tx_reinjected"
                     (attr_tx e ++ [("execution_order", u64str (l_order st)); ("outcome", tag res);
                        ("executed", bool_str (executed res)); ("reverted", bool_str (reverted res));
                        ("gas_used", u64str (gasUsed res)); ("tx_hash", txHash res)])) w)
              | (Err er, _) => (Panic er, w)
              | (Panic msg, _) => (Panic msg, w)
              end)
      end
  end.

(** The closure with its deferred recover. *)
Definition attempt (k : Keeper) (cur : Z) (p : Params) (execOn : bool) (execCeiling : Z) (st : loop_st) (e : EncTx)
    : M (World B) (loop_st * bool * bool) := fun w =>
  match attempt_body k cur p execOn execCeiling st e w with
  | (Panic msg, w') => (decrypt_failed e ("panic recovered: " +:+ msg);; mret (st, true, false)) w'
  | r => r
  end.

Fixpoint attempt_all (k : Keeper) (cur : Z) (p : Params) (execOn : bool) (execCeiling : Z) (st : loop_st)
    (l : list (EncTx * bool)) : M (World B) loop_st :=
  match l with
  | [] => mret st
  | (_, false) :: rest => attempt_all k cur p execOn execCeiling st rest
  | (e, true) :: rest =>
      if execOn && (execCeiling <=? l_gas st) then mret st else
      let st := mkLoop (l_order st) (l_processed st + 1) (l_gas st) (l_cands st) in
      res ← attempt k cur p execOn execCeiling st e;
      let '(st, release, deferExec) := (res : loop_st * bool * bool) in
      (if release : bool then releaseEncTx k e else mret tt);;
      if deferExec : bool then mret st else attempt_all k cur p execOn execCeiling st rest
  end.

(** The candidates that get no deferral slot are dropped. *)
Definition settle_candidates (k : Keeper) (cur : Z) (cands : list (EncTx * Z * Z)) : M (World B) unit :=
  let granted := selectFairDecrypts (cands.*1).*1 maxDeferredDecryptsPerBlock in
  for_each (fun cg : EncTx * Z * Z * bool =>
    let '(e, have, need, g) := cg in
    if (g : bool) then
      modify (emit (mkEvent "encmempool_decrypt_missed"
        [("seq", u64str (e_Seq e)); ("have", u64str have); ("need", u64str need);
         ("deferred_until", u64str (addSat (e_DecryptHeight e) strandedDecryptGraceBlocks))]))
    else
      modify (emit (mkEvent "encmempool_decrypt_deferral_capped"
        (attr_tx e ++ [("height", u64str cur); ("have", u64str have); ("need", u64str need);
           ("cap", u64str maxDeferredDecryptsPerBlock);
           ("reason", "deferred-set cap reached; dropped to bound backlog")])));;
      releaseEncTx k e) (zip cands granted).

(** Shedding above the ceiling, newest scanned first; the ones left to process. *)
Definition shed_excess (k : Keeper) (p : Params) (matured : list EncTx) : M (World B) (list EncTx) :=
  let ceiling := if (0 <? MaxInFlightEncTx p) && (MaxInFlightEncTx p <? absMaxInFlightEncTx)
                 then MaxInFlightEncTx p else absMaxInFlightEncTx in
  global ← gets GetGlobalEncCount;
  if negb (ceiling <? global) then mret matured else
  let drop := i64 (global - ceiling) in
  let drop := if maxCeilingDropsPerBlock <? drop then maxCeilingDropsPerBlock else drop in
  let drop := if zlen matured <? drop then zlen matured else drop in
  if drop <? 0 then panic "slice bounds out of range" else
  for_each (fun e =>
    modify (emit (mkEvent "encmempool_enc_dropped_ceiling"
      (attr_tx e ++ [("in_flight", u64str global); ("ceiling", u64str ceiling)])));;
    releaseEncTx k e) (take (Z.to_nat drop) (rev matured));;
  mret (take (length matured - Z.to_nat drop) matured).

Definition decryptMatured (k : Keeper) (cp : ConsensusParams) (cur : Z) (p : Params) : M (World B) unit :=
  scan ← gets (CollectMaturedUpTo cur maxDecryptScanPerBlock);
  let '(matured, truncated) := (scan : list EncTx * bool) in
  matured ← shed_excess k p matured;
  let selected := selectFairDecrypts matured maxDecryptAttemptsPerBlock in
  let execOn := encExecEnabled k (EncExecEnabled p) in
  st ← attempt_all k cur p execOn (decryptExecGasCeiling cp) (mkLoop 0 0 0 []) (zip matured selected);
  (if 0 <? zlen (l_cands st) then settle_candidates k cur (l_cands st) else mret tt);;
  let deferred := zlen matured - l_processed st in
  if truncated || (0 <? deferred) then
    modify (emit (mkEvent "encmempool_decrypt_deferred"
      [("height", u64str cur); ("deferred", u64str deferred); ("scan_truncated", bool_str truncated)]))
  else mret tt.

Definition drainDisabledEncTx (k : Keeper) (cur : Z) : M (World B) unit :=
  scan ← gets (CollectMaturedUpTo cur maxDecryptScanPerBlock);
  let '(matured, truncated) := (scan : list EncTx * bool) in
  for_each (fun e =>
    modify (emit (mkEvent "encmempool_enc_drained_disabled" (attr_tx e ++ [("height", u64str cur)])));;
    releaseEncTx k e) matured;;
  if truncated : bool then
    modify (emit (mkEvent "encmempool_drain_deferred" [("height", u64str cur); ("scan_truncated", bool_str truncated)]))
  else mret tt.

(** Execution of the matured reveals, in key order; [order] numbers them. *)
Fixpoint execute_reveals (cur delay order : Z) (pending : list PendingReveal) w : World B :=
  match pending with
  | [] => w
  | pr :: rest =>
      if cur <? addSat (pr_CommitHeight pr) delay then execute_reveals cur delay order rest w else
      let w := emit (mkEvent "encmempool_reveal_executed"
        [("sender", pr_Sender pr); ("commit_height", u64str (pr_CommitHeight pr)); ("seq", u64str (pr_Seq pr));
         ("execution_order", u64str order)]) w in
      let w := DeletePending (pr_CommitHeight pr) (pr_Sender pr) (pr_Seq pr) w in
      let w := DeleteCommit (pr_CommitHeight pr) (pr_Sender pr) (pr_Seq pr) w in
      execute_reveals cur delay (u64 (order + 1)) rest w
  end.

Definition gc_commits (cur window : Z) w : World B :=
  if negb (0 <? window) then w else
  let stale := List.filter (fun c => addSat (cm_Height c) window <? cur) (IterateCommits w) in
  foldl (fun w c => DeletePending (cm_Height c) (cm_Sender c) (cm_Seq c)
                      (DeleteCommit (cm_Height c) (cm_Sender c) (cm_Seq c) w)) w stale.

Definition beginblock_body (k : Keeper) (ctx : Ctx) (cp : ConsensusParams) : M (World B) unit :=
  p ← gets GetParams;
  let cur := u64 (BlockHeight ctx) in
  modify (gcEncSubmitRate cur);;
  modify (fun w => execute_reveals cur (RevealDelay p) 0 (IteratePending w) w);;
  modify (gc_commits cur (MaxRevealWindow p));;
  if EncEnabled p && ((0 <? Threshold p) || DkgEnabled p) then decryptMatured k cp cur p else
  inFlight ← gets GetGlobalEncCount;
  if 0 <? inFlight then drainDisabledEncTx k cur else mret tt.

Definition BeginBlock (k : Keeper) (ctx : Ctx) (cp : ConsensusParams) w : World B :=
  cached (panic_event "encmempool_beginblock_panic" ctx) (beginblock_body k ctx cp) w.

End begin_block.
End EncAbci.
