(* ===== verification/EncSchedule.v ===== *)
(** * x/encmempool: scheduling of decryptions and retries

    [selectFairDecrypts] serves the submitters of the matured ciphertexts round
    robin within a budget: the theorems say how many it selects, that it is fair
    between submitters and first-in first-out for each of them, and that the loop
    ends by using the whole budget.  [retryBackoff] doubles up to a ceiling. *)
From S2P Require Import Prelude Codec Bank EncTypes StakeWeight Threshold Dkg EncKeeper EncRegistry EncDkg EncAbci.
From stdpp Require Import gmap strings list sorting.
From Stdlib Require Import ZArith Lia.

#[local] Set Default Goal Selector "!".
Open Scope Z_scope.

Module EncSchedule.
Import EncTypes EncKeeper EncRegistry EncDkg EncAbci.

(** ** Lists of flags *)

Definition count_true (l : list bool) : Z := sumZ (fun b : bool => if b then 1 else 0) l.

Lemma count_true_replicate n : count_true (replicate n true) = Z.of_nat n /\ count_true (replicate n false) = 0.
Proof. unfold count_true. induction n as [|n [IH1 IH2]]; simpl; [done|]. rewrite IH1, IH2. lia. Qed.

Lemma count_true_set l i : l !! i = Some false -> count_true (<[i := true]> l) = count_true l + 1.
Proof.
  unfold count_true. revert i. induction l as [|b l IH]; intros [|i] Hi; simpl in *; [done..| |].
  - injection Hi as ->. lia.
  - rewrite IH by done. lia.
Qed.

Lemma sumZ_zero {A} (f : A -> Z) l : Forall (fun x => f x = 0) l -> sumZ f l = 0.
Proof. induction 1 as [|x l Hx Hl IH]; simpl; lia. Qed.

Lemma sumZ_bump (f g : string -> Z) s l :
  NoDup l -> s ∈ l -> g s = f s + 1 -> (forall s', s' <> s -> g s' = f s') -> sumZ g l = sumZ f l + 1.
Proof.
  intros Hnd Hs Hg Ho. induction Hnd as [|x l Hx Hnd IH]; [by apply not_elem_of_nil in Hs|]. simpl.
  destruct (decide (x = s)) as [->|Hne].
  - rewrite Hg, (sumZ_ext g f l); [lia|]. apply Forall_forall. intros y Hy. apply Ho. by intros ->.
  - rewrite (Ho x Hne), IH by (apply elem_of_cons in Hs as [->|]; done). lia.
Qed.

Lemma filter_full {A} (P : A -> Prop) `{forall x, Decision (P x)} (l : list A) : Forall P l -> filter P l = l.
Proof. induction 1 as [|x l Hx Hl IH]; [done|]. by rewrite filter_cons_True, IH. Qed.

Lemma filter_empty {A} (P : A -> Prop) `{forall x, Decision (P x)} (l : list A) :
  Forall (fun x => ~ P x) l -> filter P l = [].
Proof. induction 1 as [|x l Hx Hl IH]; [done|]. by rewrite filter_cons_False. Qed.

(** A list whose members outside a prefix fail a test, and inside pass it, filters
    to that prefix. *)
Lemma filter_take {A} (P : A -> Prop) `{forall x, Decision (P x)} k (l : list A) :
  NoDup l -> (forall x, x ∈ l -> P x <-> x ∈ take k l) -> filter P l = take k l.
Proof.
  intros Hnd HP. rewrite <- (take_drop k l) at 1. rewrite filter_app.
  rewrite (filter_full P (take k l)), (filter_empty P (drop k l)); [apply app_nil_r| |].
  - rewrite <- (take_drop k l) in Hnd. apply NoDup_app in Hnd as (_ & Hdis & _).
    apply Forall_forall. intros x Hx Hp. apply (Hdis x); [|done]. apply HP; [|done]. rewrite <- (take_drop k l), elem_of_app. by right.
  - apply Forall_forall. intros x Hx. apply HP; [|done]. rewrite <- (take_drop k l), elem_of_app. by left.
Qed.

Section fair.
Context (matured : list EncTx).
Implicit Types (s : string) (i : nat).

(** ** The queues *)

(** The positions of the ciphertexts of a submitter, in arrival order. *)
Definition positions_in (l : list (nat * EncTx)) s : list nat := (filter (fun ie => e_Submitter ie.2 = s) l).*1.
Definition positions s : list nat := positions_in (imap pair matured) s.

Record queues_of (l : list (nat * EncTx)) (st : list string * gmap string (list nat)) : Prop := {
  q_nodup : NoDup st.1;
  q_order : forall s, s ∈ st.1 <-> positions_in l s <> [];
  q_known : forall s, s ∈ st.1 <-> is_Some (st.2 !! s);
  q_list : forall s, default [] (st.2 !! s) = positions_in l s
}.

Lemma positions_snoc l ie s :
  positions_in (l ++ [ie]) s = positions_in l s ++ (if decide (e_Submitter ie.2 = s) then [ie.1] else []).
Proof. unfold positions_in. rewrite filter_app, fmap_app, filter_cons. by destruct (decide _). Qed.

Lemma fair_queues_spec : queues_of (imap pair matured) (fair_queues matured).
Proof.
  unfold fair_queues. induction (imap pair matured) as [|ie l IH] using rev_ind.
  { split; simpl; [constructor|..]; intros s; rewrite ?lookup_empty; [..|done].
    - split; [by intros ?%not_elem_of_nil|done].
    - split; [by intros ?%not_elem_of_nil|by intros [? ?]]. }
  rewrite foldl_app. simpl. destruct (foldl _ _ l) as [order queues]. destruct IH as [Hn Ho Hk Hl]. simpl in *.
  destruct (queues !! e_Submitter ie.2) as [q|] eqn:E; split; simpl.
  - done.
  - intros s. rewrite positions_snoc. destruct (decide _) as [<-|]; [|rewrite app_nil_r; apply Ho].
    split; [by intros _ ?%app_nil%proj2|]. intros _. apply Hk. by rewrite E.
  - intros s. rewrite Hk. destruct (decide (e_Submitter ie.2 = s)) as [<-|]; [|by rewrite lookup_insert_ne].
    rewrite lookup_insert_eq, E. split; by eexists.
  - intros s. rewrite positions_snoc, <- Hl. destruct (decide _) as [<-|].
    + by rewrite lookup_insert_eq, E.
    + by rewrite lookup_insert_ne, app_nil_r.
  - apply NoDup_app. split_and!; [done| |apply NoDup_singleton]. intros x Hx ->%list_elem_of_singleton.
    apply Hk in Hx. rewrite E in Hx. by destruct Hx.
  - intros s. rewrite elem_of_app, list_elem_of_singleton, positions_snoc, Ho. destruct (decide _) as [<-|Hne].
    + split; [by intros _ ?%app_nil%proj2|by right].
    + rewrite app_nil_r. split; [by intros [?| ->]|by left].
  - intros s. rewrite elem_of_app, list_elem_of_singleton, Hk. destruct (decide (e_Submitter ie.2 = s)) as [<-|Hne].
    + rewrite lookup_insert_eq. split; [by eexists|by right].
    + rewrite lookup_insert_ne by done. split; [by intros [?| ->]|by left].
  - intros s. rewrite positions_snoc, <- Hl. destruct (decide _) as [<-|].
    + by rewrite lookup_insert_eq, E.
    + by rewrite lookup_insert_ne, app_nil_r.
Qed.

Lemma elem_positions i s : i ∈ positions s <-> exists e, matured !! i = Some e /\ e_Submitter e = s.
Proof.
  unfold positions, positions_in. rewrite list_elem_of_fmap. split.
  - intros ([j e] & -> & [Hs Hin]%list_elem_of_filter). simpl in *.
    apply list_elem_of_lookup in Hin as [k Hk]. rewrite list_lookup_imap in Hk.
    destruct (matured !! k) eqn:E; [|done]. injection Hk as -> ->. by exists e.
  - intros (e & He & Hs). exists (i, e). split; [done|]. apply list_elem_of_filter. split; [done|].
    apply list_elem_of_lookup. exists i. by rewrite list_lookup_imap, He.
Qed.

Lemma NoDup_positions s : NoDup (positions s).
Proof.
  unfold positions, positions_in. eapply sublist_NoDup.
  2: { apply fmap_sublist. apply sublist_filter. }
  rewrite fmap_imap. apply NoDup_alt. intros i j x. rewrite !list_lookup_imap.
  destruct (matured !! i), (matured !! j); naive_solver.
Qed.

Lemma positions_total : sumZ (fun s => Z.of_nat (length (positions s))) (fair_queues matured).1 = zlen matured.
Proof.
  unfold positions, zlen. destruct fair_queues_spec as [Hn Ho _ _]. destruct (fair_queues matured) as [order queues].
  rewrite <- (length_imap pair matured). simpl in *.
  assert (Hin : forall ie, ie ∈ imap pair matured -> e_Submitter ie.2 ∈ order).
  { intros ie Hie. apply Ho. unfold positions_in. intros E%fmap_nil_inv.
    apply (filter_nil_not_elem_of _ _ ie E); done. }
  clear Ho. induction (imap pair matured) as [|ie l IH]; simpl.
  { by apply sumZ_zero, Forall_forall. }
  rewrite (sumZ_bump (fun s => Z.of_nat (length (positions_in l s))) _ (e_Submitter ie.2)).
  - rewrite IH; [lia|]. intros ? ?. apply Hin. by right.
  - done.
  - apply Hin. by left.
  - unfold positions_in. rewrite filter_cons_True, fmap_cons by done. cbn [length]. lia.
  - intros s Hs. unfold positions_in. rewrite filter_cons_False by done. done.
Qed.

(** ** One pass and the loop *)

Context (budget : Z).
Abbreviation order := (fair_queues matured).1.

(** The state after [T s] ciphertexts of each submitter [s] have been taken. *)
Record taken (T : string -> nat) (st : fair_state) : Prop := {
  t_queue : forall s, s ∈ order -> default [] (f_queues st !! s) = drop (T s) (positions s);
  t_bound : forall s, (T s <= length (positions s))%nat;
  t_len : length (f_sel st) = length matured;
  t_sel : forall i s, i ∈ positions s -> f_sel st !! i = Some true <-> i ∈ take (T s) (positions s);
  t_picked : f_picked st = sumZ (fun s => Z.of_nat (T s)) order;
  t_count : count_true (f_sel st) = f_picked st
}.

Lemma taken_ext T T' st : (forall s, T s = T' s) -> taken T st -> taken T' st.
Proof.
  intros E [Hq Hb Hl Hs Hp Hc]. split; [..|done].
  - intros s Hin. rewrite <- E. by apply Hq.
  - intros s. rewrite <- E. apply Hb.
  - done.
  - intros i s Hi. rewrite <- E. by apply Hs.
  - rewrite Hp. apply sumZ_ext, Forall_forall. intros s _. by rewrite E.
Qed.

Definition bump s (T : string -> nat) s' : nat := if decide (s' = s) then S (T s') else T s'.

Lemma taken_pick T st s i q flag :
  taken T st -> s ∈ order -> drop (T s) (positions s) = i :: q ->
  taken (bump s T) (mkFair (<[s := q]> (f_queues st)) (<[i := true]> (f_sel st)) (f_picked st + 1) flag).
Proof.
  intros [Hq Hb Hl Hs Hp Hc] Hin Hd. pose proof (NoDup_positions s) as Hnd.
  assert (Hi : positions s !! T s = Some i) by by rewrite <- (Nat.add_0_r (T s)), <- lookup_drop, Hd.
  assert (Hip : i ∈ positions s) by by eapply list_elem_of_lookup_2.
  assert (Hnt : i ∉ take (T s) (positions s)).
  { intros Hx. rewrite <- (take_drop (T s) (positions s)), Hd in Hnd. apply NoDup_app in Hnd as (_ & Hdis & _).
    apply (Hdis i Hx). by left. }
  assert (Hlt : (i < length (f_sel st))%nat).
  { rewrite Hl. apply elem_positions in Hip as (e & He & _). by eapply lookup_lt_Some. }
  unfold bump. split; simpl.
  - intros s' Hs'. destruct (decide (s' = s)) as [->|Hne].
    + rewrite lookup_insert_eq. simpl. by rewrite <- Nat.add_1_r, <- drop_drop, Hd.
    + rewrite lookup_insert_ne by done. by apply Hq.
  - intros s'. destruct (decide (s' = s)) as [->|]; [|apply Hb]. apply lookup_lt_Some in Hi. lia.
  - by rewrite length_insert.
  - intros j s' Hj. destruct (decide (i = j)) as [<-|Hij].
    + rewrite list_lookup_insert_eq by done.
      assert (s' = s) as ->. { apply elem_positions in Hj, Hip. naive_solver. }
      rewrite decide_True by done. rewrite (take_S_r _ _ i) by done. set_solver.
    + rewrite list_lookup_insert_ne by done. rewrite (Hs j s' Hj). destruct (decide (s' = s)) as [->|]; [|done].
      rewrite (take_S_r _ _ i) by done. set_solver.
  - rewrite Hp. symmetry. apply (sumZ_bump _ _ s); [apply fair_queues_spec|done|..].
    + rewrite decide_True by done. lia.
    + intros s' Hne. by rewrite decide_False.
  - rewrite count_true_set; [lia|]. destruct (lookup_lt_is_Some_2 _ _ Hlt) as [[] Hb']; [|done].
    apply (Hs i s Hip) in Hb'. done.
Qed.

(** A pass takes one more ciphertext of each submitter it visits. *)
Definition raise (visited : list string) (T : string -> nat) s : nat :=
  if decide (s ∈ visited) then Nat.min (S (T s)) (length (positions s)) else T s.

Lemma taken_flag T q sel p f f' : taken T (mkFair q sel p f) -> taken T (mkFair q sel p f').
Proof. intros [? ? ? ? ? ?]. by split. Qed.

(** Visiting one submitter raises it, whether or not its queue is empty. *)
Lemma raise_cons s vis T T' :
  s ∉ vis -> T' s = Nat.min (S (T s)) (length (positions s)) -> (forall s', s' <> s -> T' s' = T s') ->
  forall s', raise vis T' s' = raise (s :: vis) T s'.
Proof.
  intros Hs E Ho s'. unfold raise. destruct (decide (s' = s)) as [->|Hne].
  - rewrite decide_False by done. rewrite decide_True by by left. done.
  - rewrite (Ho s' Hne). apply decide_ext. rewrite elem_of_cons. naive_solver.
Qed.

Lemma raise_nil T s : raise [] T s = T s.
Proof. unfold raise. by rewrite decide_False by apply not_elem_of_nil. Qed.

Lemma fair_pass_spec visiting : forall T st,
  taken T st -> (forall s, s ∈ visiting -> s ∈ order) -> NoDup visiting -> f_picked st < budget ->
  let st' := fair_pass budget visiting st in
  exists visited rest, visiting = visited ++ rest /\ taken (raise visited T) st' /\
    (rest = [] \/ f_picked st' = budget) /\ f_picked st <= f_picked st' <= budget.
Proof.
  induction visiting as [|s visiting IH]; intros T st HT Hsub Hnd Hlt st'; subst st'; cbn [fair_pass].
  { exists [], []. split_and!; [done| |by left|lia|lia].
    eapply taken_ext; [|done]. intros s. by rewrite raise_nil. }
  apply NoDup_cons in Hnd as [Hs Hnd]. rewrite (t_queue T st HT s) by (apply Hsub; by left).
  pose proof (t_bound T st HT s) as Hb.
  assert (Hsub' : forall s', s' ∈ visiting -> s' ∈ order) by (intros; apply Hsub; by right).
  destruct (drop (T s) (positions s)) as [|i q] eqn:Ed; apply (f_equal length) in Ed as El;
    rewrite length_drop in El; simpl in El.
  - destruct (IH T st HT Hsub' Hnd Hlt) as (vis & rest & -> & HT' & Hr & Hp).
    exists (s :: vis), rest. split_and!; [done| |done|lia|lia].
    eapply taken_ext; [|exact HT']. apply raise_cons; [set_solver|lia|done].
  - pose proof (taken_pick T st s i q true HT (Hsub s ltac:(by left)) Ed) as HT1.
    set (st' := mkFair _ _ _ _) in *. assert (Hp' : f_picked st' = f_picked st + 1) by done.
    assert (Hbump : forall vis, s ∉ vis -> forall s', raise vis (bump s T) s' = raise (s :: vis) T s').
    { intros vis Hv. apply raise_cons; [done|unfold bump; rewrite decide_True by done; lia|].
      intros s' Hne. unfold bump. by rewrite decide_False. }
    destruct (Z.leb_spec budget (f_picked st')) as [Hle|Hgt].
    + exists [s], visiting. split_and!; [done| |right; lia|lia|lia].
      eapply taken_ext; [|exact HT1]. intros s'. rewrite <- Hbump by apply not_elem_of_nil. by rewrite raise_nil.
    + destruct (IH _ st' HT1 Hsub' Hnd Hgt) as (vis & rest & -> & HT' & Hr & Hp).
      exists (s :: vis), rest. split_and!; [done| |done|lia|lia].
      eapply taken_ext; [|exact HT']. apply Hbump. set_solver.
Qed.

(** The flag tells whether the pass picked something; a pass that picks nothing
    found every queue empty. *)
Lemma fair_pass_progress visiting : forall st,
  let st' := fair_pass budget visiting st in
  (f_progressed st = true -> f_progressed st' = true) /\
  (f_picked st <= f_picked st') /\
  (f_progressed st = false -> f_progressed st' = true -> f_picked st < f_picked st') /\
  (f_progressed st' = false -> forall s, s ∈ visiting -> default [] (f_queues st !! s) = []).
Proof.
  induction visiting as [|s visiting IH]; intros st; cbn [fair_pass].
  { split_and!; [done|lia|congruence|]. by intros _ s ?%not_elem_of_nil. }
  destruct (default [] (f_queues st !! s)) as [|i q] eqn:E.
  - destruct (IH st) as (? & ? & ? & Hn). split_and!; [done..|].
    intros Hf s' [->|Hin]%elem_of_cons; [done|by apply Hn].
  - set (st' := mkFair _ _ _ _). destruct (budget <=? f_picked st').
    + split_and!; simpl; [done|lia|lia|done].
    + destruct (IH st') as (Hm & Hp & _ & _). specialize (Hm eq_refl). simpl in Hp.
      split_and!; [done|lia|lia|congruence].
Qed.

(** After [r] whole passes [min r n] ciphertexts of a submitter with [n] are
    taken.  The loop ends inside some pass, with the budget used up. *)
Definition level r s : nat := Nat.min r (length (positions s)).

Lemma raise_all r s : raise order (level r) s = level (S r) s.
Proof.
  unfold raise, level. destruct (decide _) as [_|Hn]; [lia|].
  destruct fair_queues_spec as [_ Ho _ _]. unfold positions.
  destruct (positions_in (imap pair matured) s) eqn:E; [simpl; lia|]. exfalso. apply Hn, Ho. by rewrite E.
Qed.

Lemma fair_loop_done fuel st : f_picked st = budget -> fair_loop fuel budget order st = st.
Proof. intros <-. destruct fuel; simpl; [done|]. by rewrite Z.leb_refl. Qed.

Lemma fair_loop_more fuel k : forall st,
  f_picked (fair_loop fuel budget order st) = budget ->
  fair_loop (fuel + k) budget order st = fair_loop fuel budget order st.
Proof.
  induction fuel as [|fuel IH]; intros st; cbn [fair_loop Nat.add]; [apply fair_loop_done|].
  destruct (budget <=? f_picked st); [done|]. destruct (f_progressed _); [apply IH|done].
Qed.

Lemma fair_loop_spec fuel : forall r st,
  taken (level r) st -> f_picked st <= budget < zlen matured -> budget - f_picked st < Z.of_nat fuel ->
  exists r' visited rest, order = visited ++ rest /\
    taken (raise visited (level r')) (fair_loop fuel budget order st) /\
    f_picked (fair_loop fuel budget order st) = budget.
Proof.
  induction fuel as [|fuel IH]; intros r st HT Hb Hfuel; [lia|]. simpl.
  destruct (Z.leb_spec budget (f_picked st)) as [Hle|Hlt].
  { exists r, [], order. split_and!; [done| |lia]. eapply taken_ext; [|exact HT]. intros s. by rewrite raise_nil. }
  set (st0 := mkFair (f_queues st) (f_sel st) (f_picked st) false).
  assert (HT0 : taken (level r) st0) by (destruct st; by eapply taken_flag).
  destruct (fair_pass_spec order (level r) st0 HT0) as (vis & rest & Eo & HT' & Hr & Hp); [done| |done|].
  { apply fair_queues_spec. }
  destruct (fair_pass_progress order st0) as (_ & _ & Hmove & Hstuck). simpl in *.
  set (st' := fair_pass budget order st0) in *. destruct (f_progressed st').
  - specialize (Hmove eq_refl eq_refl). destruct Hr as [->|Hr].
    + apply (IH (S r)); [|lia..]. rewrite app_nil_r in Eo. subst vis.
      eapply taken_ext; [|exact HT']. apply raise_all.
    + rewrite fair_loop_done by done. by exists r, vis, rest.
  - exfalso. specialize (Hstuck eq_refl). rewrite <- positions_total, (t_picked _ _ HT) in *.
    rewrite (sumZ_ext _ (fun s => Z.of_nat (length (positions s)))) in Hlt; [lia|].
    apply Forall_forall. intros s Hs. specialize (Hstuck s Hs). rewrite (t_queue _ _ HT s Hs) in Hstuck.
    apply (f_equal length) in Hstuck. rewrite length_drop in Hstuck. simpl in Hstuck. unfold level in *. lia.
Qed.

Lemma taken_start : taken (level 0) (mkFair (fair_queues matured).2 (replicate (length matured) false) 0 true).
Proof.
  split; simpl.
  - intros s _. apply fair_queues_spec.
  - intros s. unfold level. lia.
  - apply length_replicate.
  - intros i s _. split; [|by intros ?%not_elem_of_nil]. intros [? _]%lookup_replicate. done.
  - symmetry. by apply sumZ_zero, Forall_forall.
  - apply count_true_replicate.
Qed.

(** ** What is selected *)

Definition chosen (sel : list bool) s : list nat := filter (fun i => sel !! i = Some true) (positions s).

Lemma chosen_taken T st s : taken T st -> chosen (f_sel st) s = take (T s) (positions s).
Proof. intros HT. apply filter_take; [apply NoDup_positions|]. intros i Hi. by apply (t_sel T st HT). Qed.

Lemma length_chosen_taken T st s : taken T st -> length (chosen (f_sel st) s) = T s.
Proof. intros HT. rewrite (chosen_taken T st s HT), length_take. pose proof (t_bound T st HT s). lia. Qed.

Lemma select_all : zlen matured <= budget ->
  let sel := selectFairDecrypts matured budget in
  sel = replicate (length matured) true /\ forall s, chosen sel s = positions s.
Proof.
  intros Hle. unfold selectFairDecrypts. rewrite (proj2 (Z.leb_le _ _) Hle). split; [done|].
  intros s. apply filter_full, Forall_forall. intros i (e & He & _)%elem_positions.
  apply lookup_replicate. split; [done|]. by eapply lookup_lt_Some.
Qed.

Lemma select_some : 0 <= budget < zlen matured ->
  exists r visited rest st, order = visited ++ rest /\ taken (raise visited (level r)) st /\
    selectFairDecrypts matured budget = f_sel st /\ f_picked st = budget.
Proof.
  intros Hb. unfold selectFairDecrypts. rewrite (proj2 (Z.leb_gt _ _)) by lia.
  pose proof taken_start as H0. destruct (fair_queues matured) as [ord qs] eqn:E.
  destruct (fair_loop_spec (S (length matured)) 0 _ H0) as (r & vis & rest & Eo & HT & Hp); simpl in *; [lia|unfold zlen in *; lia|].
  rewrite E in *. eauto 10.
Qed.
Lemma order_submitters : zlen order = zlen (remove_dups (e_Submitter <$> matured)).
Proof.
  unfold zlen. f_equal. apply Permutation_length, NoDup_Permutation; [apply fair_queues_spec|apply NoDup_remove_dups|].
  intros s. rewrite elem_of_remove_dups, list_elem_of_fmap, (q_order _ _ fair_queues_spec). fold (positions s). split.
  - intros Hne. destruct (positions s) as [|i l] eqn:E; [done|].
    assert (Hi : i ∈ positions s) by (rewrite E; by left). apply elem_positions in Hi as (e & He & <-).
    exists e. split; [done|]. by eapply list_elem_of_lookup_2.
  - intros (e & -> & [i Hi]%list_elem_of_lookup) E.
    assert (i ∈ positions (e_Submitter e)) as Hin by (apply elem_positions; eauto).
    rewrite E in Hin. by apply not_elem_of_nil in Hin.
Qed.

(** With a place for every submitter the first pass completes. *)
Lemma first_pass_completes r visited rest st s :
  order = visited ++ rest -> taken (raise visited (level r)) st -> f_picked st = budget -> zlen order <= budget ->
  positions s <> [] -> (1 <= raise visited (level r) s)%nat.
Proof.
  intros Eo HT Hp Hle Hne. assert (Hl : (1 <= length (positions s))%nat) by (destruct (positions s); [done|simpl; lia]).
  unfold raise. destruct (decide (s ∈ visited)) as [|Hv]; [lia|]. unfold level. destruct r as [|r]; [exfalso|lia].
  pose proof (q_nodup _ _ fair_queues_spec) as Hnd. rewrite (t_picked _ _ HT), Eo in *. rewrite sumZ_app in Hp.
  apply NoDup_app in Hnd as (_ & Hdis & _). unfold zlen in Hle. rewrite length_app in Hle.
  rewrite (sumZ_zero _ rest) in Hp.
  2: { apply Forall_forall. intros s' Hs'. unfold raise. rewrite decide_False by (intros ?; by eapply Hdis). done. }
  assert (Hvis : sumZ (fun s => Z.of_nat (raise visited (level 0) s)) visited <= sumZ (fun _ => 1) visited).
  { apply sumZ_le, Forall_forall. intros s' _. unfold raise, level. destruct (decide _); lia. }
  rewrite sumZ_one in Hvis.
  assert (Hs : s ∈ rest).
  { assert (Hin : s ∈ order) by by apply (q_order _ _ fair_queues_spec). rewrite Eo in Hin. set_solver. }
  destruct rest; [by apply not_elem_of_nil in Hs|]. simpl in Hle. lia.
Qed.
End fair.

(** C35: the decryption schedule.  [selectFairDecrypts] returns one flag per matured
    ciphertext and sets exactly as many as the budget allows, so its loop ends with
    the budget used up.  The selected ciphertexts of a submitter are the oldest
    ones, and a submitter with a ciphertext left behind has at most one selected
    ciphertext less than any other. *)
Theorem selectFairDecrypts_fair matured budget :
  0 <= budget ->
  let sel := selectFairDecrypts matured budget in
  length sel = length matured /\ count_true sel = Z.min budget (zlen matured) /\
  (forall s, chosen matured sel s `prefix_of` positions matured s) /\
  (forall s s', chosen matured sel s <> positions matured s ->
     (length (chosen matured sel s') <= length (chosen matured sel s) + 1)%nat).
Proof.
  intros Hb sel. subst sel. destruct (Z.le_gt_cases (zlen matured) budget) as [Hle|Hgt].
  - destruct (select_all matured budget Hle) as [-> Hc]. rewrite (proj1 (count_true_replicate _)), length_replicate.
    unfold zlen in *. split_and!; [done|lia|..]; intros s; [by rewrite Hc|]. intros s' Hne. by rewrite Hc in Hne.
  - destruct (select_some matured budget) as (r & vis & rest & st & Eo & HT & -> & Hp); [lia|].
    split_and!; [apply HT|rewrite (t_count _ _ _ HT); lia|..].
    + intros s. rewrite (chosen_taken _ _ _ s HT). apply prefix_take.
    + intros s s' Hne. rewrite (chosen_taken _ _ _ s HT) in Hne.
      rewrite !(length_chosen_taken _ _ _ _ HT).
      assert (Hlt : (raise matured vis (level matured r) s < length (positions matured s))%nat).
      { apply Nat.nle_gt. intros Hge. by rewrite take_ge in Hne. }
      unfold raise, level in *. repeat destruct (decide _); lia.
Qed.

(** The selection loop terminates.  Go's loop has no bound of its own; after at
    most one pass per matured ciphertext, and whatever further passes are allowed,
    it has used its budget exactly and the selection no longer changes. *)
Theorem selectFairDecrypts_terminates matured budget fuel :
  0 <= budget < zlen matured -> (length matured < fuel)%nat ->
  let st := fair_loop fuel budget (fair_queues matured).1
              (mkFair (fair_queues matured).2 (replicate (length matured) false) 0 true) in
  f_picked st = budget /\ f_sel st = selectFairDecrypts matured budget.
Proof.
  intros Hb Hf st. subst st. pose proof (taken_start matured) as H0.
  destruct (fair_loop_spec matured budget (S (length matured)) 0 _ H0) as (_ & _ & _ & _ & _ & Hp); [simpl; lia|simpl; unfold zlen in *; lia|].
  replace fuel with (S (length matured) + (fuel - S (length matured)))%nat by lia. rewrite fair_loop_more by done.
  split; [done|]. unfold selectFairDecrypts. rewrite (proj2 (Z.leb_gt _ _)) by lia. by destruct (fair_queues matured).
Qed.

(** C36: no submitter is starved.  When there are at most as many submitters as the
    budget has places, the oldest matured ciphertext of every submitter is selected
    in this very block, however many the others have queued. *)
Theorem selectFairDecrypts_serves_all matured budget s :
  zlen (remove_dups (e_Submitter <$> matured)) <= budget ->
  head (chosen matured (selectFairDecrypts matured budget) s) = head (positions matured s).
Proof.
  intros Hle. rewrite <- order_submitters in Hle.
  destruct (Z.le_gt_cases (zlen matured) budget) as [Hall|Hgt]; [by rewrite (proj2 (select_all matured budget Hall))|].
  destruct (select_some matured budget) as (r & vis & rest & st & Eo & HT & -> & Hp); [unfold zlen in *; lia|].
  rewrite (chosen_taken _ _ _ s HT). destruct (positions matured s) as [|i l] eqn:E; [by rewrite take_nil|].
  assert (Hne : positions matured s <> []) by by rewrite E.
  pose proof (first_pass_completes matured budget r vis rest st s Eo HT Hp Hle Hne) as H1.
  destruct (raise _ _ _ _); [lia|done].
Qed.

(** ** Retries *)

Lemma max64_max a b : max64 a b = Z.max a b.
Proof. unfold max64. destruct (Z.ltb_spec b a); lia. Qed.

Lemma backoff_loop_exact ceiling n : forall b,
  0 < b <= ceiling -> ceiling < 2 ^ 64 ->
  backoff_loop ceiling n b = Z.min (b * 2 ^ Z.of_nat n) ceiling.
Proof.
  induction n as [|n IH]; intros b Hb Hc; simpl backoff_loop.
  { rewrite Z.mul_1_r. lia. }
  assert (Hpow : 0 < 2 ^ Z.of_nat n) by (apply Z.pow_pos_nonneg; lia).
  assert (E2 : b * 2 ^ Z.of_nat (S n) = (2 * b) * 2 ^ Z.of_nat n) by (rewrite Nat2Z.inj_succ, Z.pow_succ_r by lia; ring).
  rewrite E2, Z.shiftl_mul_pow2, Z.mul_comm by lia. change (2 ^ 1) with 2. unfold u64.
  destruct (Z.lt_ge_cases (2 * b) ceiling) as [Hlt|Hge].
  - rewrite Z.mod_small by lia. rewrite (proj2 (Z.ltb_ge _ _)), (proj2 (Z.leb_gt _ _)) by lia. simpl. apply IH; lia.
  - rewrite (proj2 (orb_true_iff _ _)); [nia|].
    destruct (Z.lt_ge_cases (2 * b) (2 ^ 64)) as [Hs|Hw].
    + right. rewrite Z.mod_small by lia. apply Z.leb_le. lia.
    + left. apply Z.ltb_lt. rewrite <- (Z.mod_unique_pos (2 * b) (2 ^ 64) 1 (2 * b - 2 ^ 64)); lia.
Qed.

(** The retry delay.  After the failure of attempt [k >= 1] of a round the next
    attempt opens after the configured delay doubled [k - 1] times, up to the
    ceiling; the 64-bit shift never wraps into a short delay, and the delay never
    exceeds the larger of the configured one and the fixed ceiling. *)
Theorem retryBackoff_exact p k :
  is_u64 (DkgRetryBackoff p) -> 1 <= k ->
  let base := Z.max (DkgRetryBackoff p) 1 in
  retryBackoff p k = Z.min (base * 2 ^ (k - 1)) (Z.max base dkgBackoffCeilingBlocks).
Proof.
  intros Hp Hk base. unfold retryBackoff. rewrite <- (Z2Nat.id (k - 1)) at 2 by lia.
  rewrite !max64_max. fold base. apply backoff_loop_exact; unfold is_u64, base, dkgBackoffCeilingBlocks in *; lia.
Qed.

(** ** Concrete runs: two submitters, four and one ciphertexts, three places. *)
Module Example.

Definition submission s q : EncTx := mkEncTx s 1 5 q "a" "n" "b" 1 0 "ulimon" 0.
Definition queue : list EncTx :=
  [submission "alice" 0; submission "alice" 1; submission "alice" 2; submission "bob" 3; submission "alice" 4].

Lemma selectFairDecrypts_fair_witness :
  selectFairDecrypts queue 3 = [true; true; false; true; false] /\
  count_true (selectFairDecrypts queue 3) = 3 /\
  (length (chosen queue (selectFairDecrypts queue 3) "bob") <= length (chosen queue (selectFairDecrypts queue 3) "alice") + 1)%nat.
Proof.
  split; [vm_compute; reflexivity|].
  destruct (selectFairDecrypts_fair queue 3) as (_ & Hc & _ & Hf); [lia|].
  split; [exact Hc|]. apply Hf. vm_compute. discriminate.
Defined.

Lemma selectFairDecrypts_terminates_witness :
  f_sel (fair_loop 100 3 (fair_queues queue).1 (mkFair (fair_queues queue).2 (replicate 5 false) 0 true))
  = selectFairDecrypts queue 3.
Proof.
  assert (Hz : zlen queue = 5) by reflexivity. assert (Hl : (length queue < 100)%nat) by (simpl; lia).
  apply (selectFairDecrypts_terminates queue 3 100); [rewrite Hz; lia|exact Hl].
Defined.

Lemma selectFairDecrypts_serves_all_witness :
  head (chosen queue (selectFairDecrypts queue 2) "bob") = Some 3%nat.
Proof.
  rewrite (selectFairDecrypts_serves_all queue 2 "bob"); [vm_compute; reflexivity|].
  assert (E : zlen (remove_dups (e_Submitter <$> queue)) = 2) by (vm_compute; reflexivity). lia.
Defined.

Lemma retryBackoff_exact_witness : retryBackoff DefaultParams 4 = 40 /\ retryBackoff DefaultParams (2 ^ 64 - 1) = 1000.
Proof.
  assert (Hu : is_u64 (DkgRetryBackoff DefaultParams)) by (vm_compute; split; congruence).
  split; [rewrite (retryBackoff_exact DefaultParams 4 Hu); [reflexivity|lia]|].
  rewrite (retryBackoff_exact DefaultParams (2 ^ 64 - 1) Hu) by lia. cbn [DkgRetryBackoff DefaultParams].
  change (Z.max (Z.max 5 1) dkgBackoffCeilingBlocks) with 1000. apply Z.min_r.
  transitivity (Z.max 5 1 * 2 ^ 10); [vm_compute; congruence|].
  apply Z.mul_le_mono_nonneg_l; [lia|]. apply Z.pow_le_mono_r; lia.
Defined.
End Example.
End EncSchedule.
