(* ===== verification/EncIngest.v ===== *)
(** * x/encmempool/keeper: consumption of vote extensions

    Models the pre-block handler of voteext.go: canonical ordering of the
    extensions, key announcements, dealings, complaints and poison reports, and the
    bounded verification and storage of decryption shares; with the wire records
    of types/voteext.go. *)
From S2P Require Import Prelude Codec Bank Sha256 EncTypes StakeWeight Threshold Dkg EncKeeper EncRegistry EncDkg.
From stdpp Require Import gmap strings list sorting.
From Stdlib Require Import ZArith Lia.

#[local] Set Default Goal Selector "!".
Open Scope Z_scope.

Module EncIngest.
Import EncTypes EncKeeper EncRegistry EncDkg.

Record VoteExtComplaint := mkVoteExtComplaint {
  vc_Epoch : Z; vc_Against : Z; vc_EvalPoint : Z; vc_SharedPoint : string; vc_DleqProof : string
}.
Record VoteExtDealing := mkVoteExtDealing {
  vd_Epoch : Z; vd_Commitments : list string; vd_EncShares : list DkgStoredEncShare
}.
Record VoteExtShare := mkVoteExtShare {
  vs_Epoch : Z; vs_DecryptHeight : Z; vs_Seq : Z; vs_Index : Z; vs_D : string; vs_Proof : string
}.
Record VoteExtension := mkVoteExtension {
  ve_EncPubKey : string;
  ve_EncPubKeyPoP : string;
  ve_Dealing : option VoteExtDealing;
  ve_Shares : list VoteExtShare;
  ve_Complaints : list VoteExtComplaint;
  ve_PoisonReports : list VoteExtComplaint
}.
Record VEEntry := mkVEEntry { ent_Operator : string; ent_VE : VoteExtension }.

(** The wire form: a version byte followed by JSON. *)
Definition VoteExtVersion : Z := 1.
Definition MarshalVoteExtension `{JSON VoteExtension} (ve : VoteExtension) : string :=
  byte_prefix VoteExtVersion +:+ json_Marshal ve.
Definition UnmarshalVoteExtension `{JSON VoteExtension} (b : string) : option VoteExtension :=
  match b with
  | EmptyString => None
  | String c rest => if byte_to_Z c =? VoteExtVersion then json_Unmarshal rest else None
  end.

Definition maxVerifyCiphertextsPerBlock : Z := maxDeferredDecryptsPerBlock.
Definition maxEncShareBodyBytes : Z := 128.

(** [memberByIndex] of msg_server.go. *)
Definition memberByIndex (round : DkgRound) (idx : Z) : option RoundMember :=
  list_find (fun m => Index m = idx) (r_Members round) ≫= fun im => Some im.2.

Definition uint64In (x : Z) (xs : list Z) : bool := Zmem x xs.

Section ingest.
Context {B : Type} `{EncJSON} `{Curve} `{AesGcm} `{MathInt} `{Ecdsa}.
Implicit Types w : World B.

(** ** Dealings *)

Definition check_dealt_share (round : DkgRound) (seen : list Z) (s : DkgStoredEncShare) : outcome (list Z) :=
  if EvalPointOwner (r_Members round) (es_MemberIndex s) =? 0 then Err "enc_share for unowned eval point" else
  if Zmem (es_MemberIndex s) seen then Err "duplicate enc_share" else
  if negb (Dkg.ValidCompressedPoint (es_A s)) then Err "malformed A" else
  if negb (strlen (es_Nonce s) =? NonceSize) then Err "bad nonce length" else
  if (strlen (es_Body s) =? 0) || (maxEncShareBodyBytes <? strlen (es_Body s)) then Err "bad length" else
  Ret (es_MemberIndex s :: seen).

Definition validateDealingShape (round : DkgRound) (commitments : list string) (encShares : list DkgStoredEncShare)
    : outcome unit :=
  if negb (zlen commitments =? r_Threshold round) then Err "expected commitments" else
  match Dkg.ParseCommitmentPoints commitments with
  | None => Err "malformed commitment"
  | Some _ =>
      if negb (zlen encShares =? TotalEvalPoints (r_Members round)) then Err "expected enc_shares" else
      _ ← fold_ok (check_dealt_share round) [] encShares;
      Ret tt
  end.

Definition IngestDealingFromVE (round : DkgRound) (operator : string) (d : VoteExtDealing) w : bool * World B :=
  if negb (vd_Epoch d =? r_Epoch round) then (false, w) else
  let idx := memberIndexByOperator round operator in
  if idx =? 0 then (false, w) else
  match GetDealing (r_Epoch round) idx w with
  | Some _ => (false, w)
  | None =>
      match validateDealingShape round (vd_Commitments d) (vd_EncShares d) with
      | Ret _ =>
          (true, SetDealing (mkDealing (r_Epoch round) idx operator (vd_Commitments d) (vd_EncShares d)) w)
      | Err reason | Panic reason =>
          (false, emit (mkEvent "encmempool_dkg_ve_deal_rejected"
             [("epoch", u64str (r_Epoch round)); ("dealer_index", u64str idx); ("reason", reason)]) w)
      end
  end.

(** ** Complaints *)

Definition find_enc_share (dealing : Dealing) (point : Z) : option DkgStoredEncShare :=
  list_find (fun s => es_MemberIndex s = point) (d_EncShares dealing) ≫= fun im => Some im.2.

Definition record_complaint (round : DkgRound) (against accuser : Z) w : World B :=
  SetComplaint (mkDkgComplaintRec (r_Epoch round) against accuser) w.

(** The counter [*verifies] is an argument and a result. *)
Definition IngestComplaintFromVE (round : DkgRound) (operator : string) (c : VoteExtComplaint) (verifies : Z) w
    : bool * Z * World B :=
  let no := (false, verifies, w) in
  if negb (vc_Epoch c =? r_Epoch round) then no else
  let accuserIdx := memberIndexByOperator round operator in
  if accuserIdx =? 0 then no else
  if (vc_Against c =? 0) || (vc_Against c =? accuserIdx) then no else
  match memberByIndex round (vc_Against c), memberByIndex round accuserIdx with
  | Some _, Some accuser =>
      if negb (OwnsEvalPoint accuser (vc_EvalPoint c)) then no else
      if GetComplaint (r_Epoch round) (vc_Against c) accuserIdx w then no else
      if HasComplaintRejected (r_Epoch round) (vc_Against c) accuserIdx (vc_EvalPoint c) w then no else
      let reject w := SetComplaintRejected (r_Epoch round) (vc_Against c) accuserIdx (vc_EvalPoint c) w in
      match GetDealing (r_Epoch round) (vc_Against c) w with
      | None => (false, verifies, reject w)
      | Some dealing =>
          match find_enc_share dealing (vc_EvalPoint c) with
          | None => (true, verifies, record_complaint round (vc_Against c) accuserIdx w)
          | Some enc =>
              let '(cheated, proofValid) :=
                Dkg.VerifyJustifiedComplaint (vc_EvalPoint c) (EncPubKey accuser) (d_Commitments dealing)
                  (es_A enc) (es_Nonce enc) (es_Body enc) (vc_SharedPoint c) (vc_DleqProof c) in
              if negb proofValid || negb cheated then (false, verifies + 1, reject w)
              else (true, verifies + 1, record_complaint round (vc_Against c) accuserIdx w)
          end
      end
  | _, _ => no
  end.

Definition IngestPoisonReportFromVE (round : DkgRound) (operator : string) (c : VoteExtComplaint) (verifies : Z) w
    : bool * Z * World B :=
  let no := (false, verifies, w) in
  if negb (String.eqb (r_Status round) DkgStatusActive) || negb (vc_Epoch c =? r_Epoch round) then no else
  let accuserIdx := memberIndexByOperator round operator in
  if (accuserIdx =? 0) || (vc_Against c =? 0) || (vc_Against c =? accuserIdx) then no else
  match memberByIndex round (vc_Against c), memberByIndex round accuserIdx with
  | Some _, Some accuser =>
      if negb (OwnsEvalPoint accuser (vc_EvalPoint c)) then no else
      match GetActiveKey (r_Epoch round) w with
      | None => no
      | Some ak =>
          if negb (uint64In (vc_Against c) (ak_Qual ak)) then no else
          if GetComplaint (r_Epoch round) (vc_Against c) accuserIdx w then no else
          if HasComplaintRejected (r_Epoch round) (vc_Against c) accuserIdx (vc_EvalPoint c) w then no else
          let convict w :=
            forceDecryptHealthRekey (r_Epoch round) (record_complaint round (vc_Against c) accuserIdx w) in
          match GetDealing (r_Epoch round) (vc_Against c) w with
          | None => no
          | Some dealing =>
              match find_enc_share dealing (vc_EvalPoint c) with
              | None => (true, verifies, convict w)
              | Some enc =>
                  let '(cheated, proofValid) :=
                    Dkg.VerifyJustifiedComplaint (vc_EvalPoint c) (EncPubKey accuser) (d_Commitments dealing)
                      (es_A enc) (es_Nonce enc) (es_Body enc) (vc_SharedPoint c) (vc_DleqProof c) in
                  if negb proofValid || negb cheated
                  then (false, verifies + 1,
                        SetComplaintRejected (r_Epoch round) (vc_Against c) accuserIdx (vc_EvalPoint c) w)
                  else (true, verifies + 1,
                        emit (mkEvent "encmempool_dkg_poison_detected"
                          [("epoch", u64str (r_Epoch round)); ("against", u64str (vc_Against c));
                           ("accuser_index", u64str accuserIdx); ("eval_point", u64str (vc_EvalPoint c))])
                          (convict w))
              end
          end
      end
  | _, _ => no
  end.

(** The inner loop over one extension's reports: at most [maxPerVE] of them and
    at most eight verifications.  Returns the number stored. *)
Fixpoint ingest_reports (f : VoteExtComplaint -> Z -> World B -> bool * Z * World B) (left : nat) (verifies stored : Z)
    (cs : list VoteExtComplaint) w : Z * World B :=
  match cs, left with
  | [], _ | _, O => (stored, w)
  | c :: rest, S left' =>
      if maxComplaintVerifiesPerAccuser <=? verifies then (stored, w) else
      let '(ok, verifies, w) := f c verifies w in
      ingest_reports f left' verifies (if ok : bool then stored + 1 else stored) rest w
  end.

(** ** Decryption shares *)

Definition verifyDecryptShareDLEQ (epoch : Z) (ctA : string) (index : Z) (d proofBz : string) w : bool :=
  match GetActiveKey epoch w with
  | None => false
  | Some ak =>
      if zlen (ak_PublicCommitments ak) =? 0 then false else
      match Dkg.ParseDLEQProof proofBz with
      | None => false
      | Some proof =>
          let ds := Threshold.mkDecryptShare index d in
          let cold :=
            match Dkg.ParseCommitmentPoints (ak_PublicCommitments ak) with
            | None => false
            | Some commitments => Dkg.VerifyDecryptShare ctA ds (Dkg.SharePubKey commitments index) (Some proof)
            end in
          let yb := getShareKeyCache epoch index w in
          if 0 <? strlen yb then
            match Dkg.ParseCommitmentPoints [yb] with
            | Some [Y] => Dkg.VerifyDecryptShare ctA ds (Some Y) (Some proof)
            | _ => cold
            end
          else cold
      end
  end.

(** The member, ciphertext point and epoch a well-formed share belongs to.  The
    per-block caches of rounds and ciphertexts hold what the store holds: nothing
    the share loop writes changes either. *)
Definition classifyDecryptShare (operator : string) (s : VoteExtShare) w : option (RoundMember * string * Z) :=
  if strlen (vs_D s) =? 0 then None else
  match GetEncTx (vs_DecryptHeight s) (vs_Seq s) w with
  | None => None
  | Some e =>
      if (e_Epoch e =? 0) || negb (e_Epoch e =? vs_Epoch s) then None else
      match GetDkgRound (e_Epoch e) w with
      | None => None
      | Some round =>
          let idx := memberIndexByOperator round operator in
          if idx =? 0 then None else
          match memberByIndex round idx with
          | None => None
          | Some member =>
              if negb (OwnsEvalPoint member (vs_Index s)) then None else
              if hasEncShareAt (vs_DecryptHeight s) (vs_Seq s) (vs_Index s) w then None else
              Some (member, e_A e, e_Epoch e)
          end
      end
  end.

Definition verifyAndStoreDecryptShare (epoch : Z) (ctA operator : string) (s : VoteExtShare) w : bool * World B :=
  if negb (verifyDecryptShareDLEQ epoch ctA (vs_Index s) (vs_D s) (vs_Proof s) w) then
    (false, setRejectedShare (vs_DecryptHeight s) (vs_Seq s) (vs_Index s)
       (emit (mkEvent "encmempool_dkg_ve_share_rejected"
          [("epoch", u64str epoch); ("operator", operator); ("index", u64str (vs_Index s));
           ("decrypt_height", u64str (vs_DecryptHeight s)); ("seq", u64str (vs_Seq s));
           ("reason", "dleq_verification_failed")]) w))
  else
    (true, SetEncShare (mkEncShare operator (vs_DecryptHeight s) (vs_Seq s) (vs_Index s) (vs_D s) (vs_Proof s) true) w).

Definition IngestDecryptShareFromVE (ctx : Ctx) (operator : string) (s : VoteExtShare) w : bool * World B :=
  if u64 (BlockHeight ctx) <? vs_DecryptHeight s then (false, w) else
  match classifyDecryptShare operator s w with
  | None => (false, w)
  | Some (_, ctA, epoch) => verifyAndStoreDecryptShare epoch ctA operator s w
  end.

(** The locals of [ingestDecryptSharesBounded].  The memo [owned] of the per-epoch
    budget holds what [OwnedEvalPoints] of the same member gives. *)
Record share_st := mkShareSt {
  ss_seen : gset (Z * Z * Z);
  ss_spent : gmap (string * Z * Z) Z;
  ss_global : Z;
  ss_shared : Z;
  ss_deferred : bool
}.

(** One share; [None] when the budget ends the extension's loop. *)
Definition ingest_share (p : Params) (ceiling : Z) (processed : gset (Z * Z)) (operator : string) (s : VoteExtShare)
    (st : share_st) w : option (share_st * World B) :=
  let skip := Some (st, w) in
  if negb (bool_decide ((vs_DecryptHeight s, vs_Seq s) ∈ processed)) then skip else
  let slot := (vs_DecryptHeight s, vs_Seq s, vs_Index s) in
  if bool_decide (slot ∈ ss_seen st) then skip else
  if hasRejectedShare (vs_DecryptHeight s) (vs_Seq s) (vs_Index s) w then skip else
  match classifyDecryptShare operator s w with
  | None => skip
  | Some (member, ctA, epoch) =>
      let oc := (operator, vs_DecryptHeight s, vs_Seq s) in
      let spent := default 0 (ss_spent st !! oc) in
      if owned member <=? spent then skip else
      let cost := if strlen (getShareKeyCache epoch (vs_Index s) w) =? 0 then EffectiveShareBudget p else 1 in
      if ceiling <? ss_global st + cost then None else
      let '(ok, w) := verifyAndStoreDecryptShare epoch ctA operator s w in
      Some (mkShareSt ({[slot]} ∪ ss_seen st) (<[oc := spent + 1]> (ss_spent st)) (ss_global st + cost)
              (if ok : bool then ss_shared st + 1 else ss_shared st) (ss_deferred st), w)
  end.

Definition set_deferred (st : share_st) : share_st :=
  mkShareSt (ss_seen st) (ss_spent st) (ss_global st) (ss_shared st) true.

Fixpoint ingest_shares (p : Params) (ceiling : Z) (processed : gset (Z * Z)) (operator : string)
    (l : list VoteExtShare) (st : share_st) w : share_st * World B :=
  match l with
  | [] => (st, w)
  | s :: rest =>
      if ceiling <=? ss_global st then (set_deferred st, w) else
      match ingest_share p ceiling processed operator s st w with
      | None => (set_deferred st, w)
      | Some (st, w) => ingest_shares p ceiling processed operator rest st w
      end
  end.

Fixpoint ingest_entries (p : Params) (shareCap ceiling : Z) (processed : gset (Z * Z)) (canon : list VEEntry)
    (st : share_st) w : share_st * World B :=
  match canon with
  | [] => (st, w)
  | e :: rest =>
      if ceiling <=? ss_global st then (set_deferred st, w) else
      let shares := ve_Shares (ent_VE e) in
      let '(shares, w) :=
        if shareCap <? zlen shares then
          (take (Z.to_nat shareCap) shares,
           emit (mkEvent "encmempool_dkg_ve_shares_clamped"
             [("operator", ent_Operator e); ("submitted", u64str (zlen shares)); ("cap", u64str shareCap)]) w)
        else (shares, w) in
      let '(st, w) := ingest_shares p ceiling processed (ent_Operator e) shares st w in
      ingest_entries p shareCap ceiling processed rest st w
  end.

Definition share_ceiling (p : Params) : Z :=
  let c := maxVerifyCiphertextsPerBlock * EffectiveShareBudget p in
  let kmax := EffectiveMaxVerifyOps p in
  let c := if kmax <? c then kmax else c in
  if c <? VoteExtShareCap p then VoteExtShareCap p else c.

(** The ciphertexts this block verifies shares for: the oldest matured ones still
    within their grace. *)
Definition processed_set (h : Z) w : gset (Z * Z) :=
  let from := if strandedDecryptGraceBlocks <? h then h - strandedDecryptGraceBlocks else 0 in
  list_to_set ((fun e => (e_DecryptHeight e, e_Seq e)) <$>
    List.filter (fun e => e_DecryptHeight e <=? h)
      (IterateInFlightFrom from maxVerifyCiphertextsPerBlock (fun e => e_DecryptHeight e <=? h) w)).

Definition ingestDecryptSharesBounded (ctx : Ctx) (canon : list VEEntry) (p : Params) w : Z * World B :=
  let ceiling := share_ceiling p in
  let h := u64 (BlockHeight ctx) in
  let '(st, w) := ingest_entries p (VoteExtShareCap p) ceiling (processed_set h w) canon
                    (mkShareSt ∅ ∅ 0 0 false) w in
  (ss_shared st,
   if ss_deferred st then
     emit (mkEvent "encmempool_dkg_ve_verify_bounded"
       [("height", u64str h); ("verified", u64str (ss_global st)); ("cap", u64str ceiling)]) w
   else w).

(** ** The handler *)

Definition entry_le (a b : VEEntry) : Prop := str_le (ent_Operator a) (ent_Operator b).
#[export] Instance entry_le_dec : RelDecision entry_le.
Proof. intros a b. unfold entry_le. apply _. Defined.

(** The first extension of each named operator. *)
Fixpoint first_by_operator (seen : list string) (entries : list VEEntry) : list VEEntry :=
  match entries with
  | [] => []
  | e :: rest =>
      if String.eqb (ent_Operator e) "" || contains seen (ent_Operator e) then first_by_operator seen rest
      else e :: first_by_operator (ent_Operator e :: seen) rest
  end.

(** [sort.SliceStable] by operator, then the first entry of each. *)
Definition canonical_entries (entries : list VEEntry) : list VEEntry :=
  first_by_operator [] (merge_sort entry_le entries).

(** Fold a step that answers whether it stored something, counting those. *)
Definition count_steps {A : Type} (f : A -> World B -> bool * World B) (l : list A) w : Z * World B :=
  foldl (fun (st : Z * World B) x =>
    let '(ok, w) := f x st.2 in (if ok : bool then st.1 + 1 else st.1, w)) (0, w) l.

Definition ingest_announcements (h : Z) (canon : list VEEntry) w : Z * World B :=
  count_steps (fun e => RecordEncPubKey h (ent_Operator e) (ve_EncPubKey (ent_VE e)) (ve_EncPubKeyPoP (ent_VE e)))
    canon w.

Definition ingest_dealings (round : DkgRound) (canon : list VEEntry) w : Z * World B :=
  count_steps (fun e w => match ve_Dealing (ent_VE e) with
                          | None => (false, w)
                          | Some d => IngestDealingFromVE round (ent_Operator e) d w
                          end) canon w.

(** Each extension has its own verification quota. *)
Definition ingest_all_reports
    (f : DkgRound -> string -> VoteExtComplaint -> Z -> World B -> bool * Z * World B)
    (get : VoteExtension -> list VoteExtComplaint) (round : DkgRound) (canon : list VEEntry) w : Z * World B :=
  foldl (fun (st : Z * World B) e =>
    ingest_reports (f round (ent_Operator e)) (length (r_Members round)) 0 st.1 (get (ent_VE e)) st.2) (0, w) canon.

Definition consume_body (ctx : Ctx) (entries : list VEEntry) w : World B :=
  let p := GetParams w in
  if negb (DkgEnabled p) || negb (DkgTransparent p) then w else
  let h := u64 (BlockHeight ctx) in
  let canon := canonical_entries entries in
  let '(announced, w) := ingest_announcements h canon w in
  let cur := GetCurrentEpoch w in
  let open := if 0 <? cur then
                match GetDkgRound cur w with
                | Some r => if String.eqb (r_Status r) DkgStatusOpen then Some r else None
                | None => None
                end
              else None in
  let '(dealt, w) :=
    match open with
    | Some round => if h <=? r_DealDeadline round then ingest_dealings round canon w else (0, w)
    | None => (0, w)
    end in
  let w :=
    match open with
    | Some round =>
        if (r_DealDeadline round <? h) && (h <=? r_ComplaintDeadline round) then
          let '(complained, w) := ingest_all_reports IngestComplaintFromVE ve_Complaints round canon w in
          if 0 <? complained then
            emit (mkEvent "encmempool_dkg_ve_complaints" [("height", u64str h); ("stored", u64str complained)]) w
          else w
        else w
    | None => w
    end in
  let activeEpoch := GetActiveEpoch w in
  let '(poisoned, w) :=
    if 0 <? activeEpoch then
      match GetDkgRound activeEpoch w with
      | Some round =>
          if String.eqb (r_Status round) DkgStatusActive
          then ingest_all_reports IngestPoisonReportFromVE ve_PoisonReports round canon w else (0, w)
      | None => (0, w)
      end
    else (0, w) in
  let w := if 0 <? poisoned then
             emit (mkEvent "encmempool_dkg_ve_poison_reports" [("height", u64str h); ("stored", u64str poisoned)]) w
           else w in
  let '(shared, w) := ingestDecryptSharesBounded ctx canon p w in
  if 0 <? announced + dealt + shared + poisoned then
    emit (mkEvent "encmempool_dkg_ve_consumed"
      [("height", u64str h); ("enc_keys", u64str announced); ("dealings", u64str dealt);
       ("shares", u64str shared); ("poison_reports", u64str poisoned)]) w
  else w.

(** No step of the body panics in the model, so its cache is always written. *)
Definition ConsumeVoteExtensions (ctx : Ctx) (entries : list VEEntry) w : World B := consume_body ctx entries w.

End ingest.
End EncIngest.
