(* ===== verification/EncMsg.v ===== *)
(** * x/encmempool/keeper: the message server

    Models msg_server.go (the seven handlers), dkg_runtime.go and the store reads of
    [CommitteeConcentrationBreached].  A handler that returns an error leaves the
    state it has reached; the transaction that carries the message is what rolls it
    back. *)
From S2P Require Import Prelude Codec Bank Sha256 EncTypes StakeWeight Threshold Dkg EncKeeper EncRegistry EncDkg EncIngest.
From stdpp Require Import gmap strings list sorting.
From Stdlib Require Import ZArith Lia.

#[local] Set Default Goal Selector "!".
Open Scope Z_scope.

Module EncMsg.
Import EncTypes EncKeeper EncRegistry EncDkg EncIngest.

(** ** Messages *)
Record MsgUpdateParams := mkMsgUpdateParams { up_Authority : string; up_Params : string }.
Record MsgCommitTx := mkMsgCommitTx { ct_Sender : string; ct_CommitHash : string }.
Record MsgRevealTx := mkMsgRevealTx {
  rv_Sender : string; rv_CommitHeight : Z; rv_Seq : Z; rv_RevealTx : string; rv_Salt : string
}.
Record MsgSubmitEncrypted := mkMsgSubmitEncrypted {
  se_Submitter : string; se_A : string; se_Nonce : string; se_Body : string; se_Pok : string
}.
Record MsgSubmitDecryptionShare := mkMsgSubmitDecryptionShare {
  sd_Keyper : string; sd_DecryptHeight : Z; sd_Seq : Z; sd_Index : Z; sd_D : string; sd_Proof : string
}.
Record MsgDkgDeal := mkMsgDkgDeal {
  dd_Dealer : string; dd_Epoch : Z; dd_Commitments : list string; dd_EncShares : list DkgStoredEncShare
}.
Record MsgDkgComplaint := mkMsgDkgComplaint {
  dc_Accuser : string; dc_Epoch : Z; dc_Against : Z; dc_SharedPoint : string; dc_DleqProof : string
}.

(** ** dkg_runtime.go *)
Definition transparentDkgRuntimeVoteExtensionsInactive : string := "vote_extensions_inactive".
Definition transparentDkgRuntimeInjectionOversize : string := "injected_commit_oversize".

(** The reason the transparent DKG cannot run at this block, if any. *)
Definition transparentDkgRuntimeUnavailable (ctx : Ctx) (cp : ConsensusParams) (p : Params) : option string :=
  if negb (DkgEnabled p) || negb (DkgTransparent p) then None else
  match cp_VoteExtensionsEnableHeight cp with
  | None => Some transparentDkgRuntimeVoteExtensionsInactive
  | Some ve =>
      if negb (VoteExtEnabledAt ve (BlockHeight ctx)) then Some transparentDkgRuntimeVoteExtensionsInactive else
      match cp_Block cp with
      | Some bp =>
          if (0 <? bp_MaxBytes bp) && negb (DkgInjectedCommitFitsMaxTxBytes p (bp_MaxBytes bp))
          then Some transparentDkgRuntimeInjectionOversize else None
      | None => None
      end
  end.

Fixpoint keyper_index_from (i : Z) (keypers : list string) (addr : string) : Z :=
  match keypers with
  | [] => 0
  | k :: rest => if String.eqb k addr then i else keyper_index_from (i + 1) rest addr
  end.
Definition keyperIndex (keypers : list string) (addr : string) : Z := keyper_index_from 1 keypers addr.

Fixpoint index_by_account (members : list RoundMember) (addr : string) : Z :=
  match members with
  | [] => 0
  | m :: rest => if String.eqb (AccountAddr m) addr then Index m else index_by_account rest addr
  end.
Definition memberIndexByAccount (round : DkgRound) (addr : string) : Z := index_by_account (r_Members round) addr.

Section handlers.
Context `{BankKeeper B} `{EncJSON} `{Curve} `{AesGcm} `{MathInt} `{AccAddr} `{SDKDenom}.
Implicit Types w : World B.

(** [CommitteeConcentrationBreached]: the store reads around the guard on the
    members. *)
Definition CommitteeConcentrationBreached (epoch : Z) (strict : bool) w : outcome bool :=
  if epoch =? 0 then Ret false else
  match GetActiveKey epoch w with
  | None => Ret false
  | Some ak =>
      if ak_Threshold ak =? 0 then Ret false else
      match GetDkgRound epoch w with
      | None => Ret false
      | Some round =>
          if zlen (r_Members round) =? 0 then Ret false
          else StakeWeight.concentration_breached (r_Members round) (ak_Threshold ak) strict
      end
  end.

(** The two monotone switches: once on they stay on. *)
Definition ratchet (p stored : Params) : Params :=
  mkParams (RevealDelay p) (MaxRevealWindow p) (EncEnabled p) (EncExecEnabled p) (ThresholdPub p) (Threshold p)
    (Keypers p) (DecryptDelay p) (MaxInFlightEncTx p) (MaxInFlightPerSubmitter p) (EncSubmitBond p)
    (EncSubmitBondDenom p) (EncSubmitBondBurnBps p) (MaxVerifyOpsPerBlock p) (DkgEnabled p) (DkgStartHeight p)
    (DkgDealWindow p) (DkgComplaintWindow p) (DkgThreshold p) (DkgMembers p) (DkgRetryBackoff p) (DkgMaxAttempts p)
    (DkgMinRekeyGap p) (DkgTransparent p) (DkgMaxMembers p) (DkgShareBudget p) (DkgMaxEpochBlocks p)
    (DkgRekeyOnStakeDriftBps p)
    (DkgRetainActiveDealings p || DkgRetainActiveDealings stored)
    (DkgStrictConcentration p || DkgStrictConcentration stored).

(** [govAddr] is [NewModuleAddress("gov").String()]. *)
Definition UpdateParams (govAddr : string) (cp : ConsensusParams) (msg : MsgUpdateParams) : M (World B) unit :=
  if negb (String.eqb (up_Authority msg) govAddr) then fail "unauthorized" else
  match json_Unmarshal (up_Params msg) with
  | None => fail "invalid params json"
  | Some p =>
      match Params_Validate p with
      | Panic m => panic m
      | Err e => fail e
      | Ret _ =>
          stored ← gets GetParams;
          let p := ratchet p stored in
          (if DkgEnabled p && DkgTransparent p then
             match cp_VoteExtensionsEnableHeight cp with
             | None => fail "dkg_transparent requires vote extensions"
             | Some ve =>
                 if ve =? 0 then fail "dkg_transparent requires vote extensions" else
                 match cp_Block cp with
                 | Some bp =>
                     if (0 <? bp_MaxBytes bp) && negb (DkgInjectedCommitFitsMaxTxBytes p (bp_MaxBytes bp))
                     then fail "vote-extension aggregate does not fit" else mret tt
                 | None => mret tt
                 end
             end
           else mret tt);;
          modify (SetParams p);;
          modify (emit (mkEvent "encmempool_params_updated"
            [("enc_enabled", if EncEnabled p then "true" else "false");
             ("dkg_enabled", if DkgEnabled p then "true" else "false")]))
      end
  end.

Definition CommitTx (ctx : Ctx) (msg : MsgCommitTx) : M (World B) (Z * Z) :=
  if negb (strlen (ct_CommitHash msg) =? 32) then fail "commit_hash must be 32 bytes" else
  g ← gets GetGlobalCommitCount;
  if maxInFlightCommits <=? g then fail "commit mempool full" else
  s ← gets (GetSubmitterCommitCount (ct_Sender msg));
  if maxCommitsPerSender <=? s then fail "sender is at its in-flight commit ceiling" else
  let height := u64 (BlockHeight ctx) in
  seq ← nextSeq;
  modify (SetCommit (mkCommit (ct_Sender msg) (ct_CommitHash msg) height seq));;
  modify (emit (mkEvent "encmempool_commit"
    [("sender", ct_Sender msg); ("commit_height", u64str height); ("seq", u64str seq)]));;
  mret (height, seq).

Definition RevealTx (ctx : Ctx) (msg : MsgRevealTx) : M (World B) unit :=
  c ← gets (GetCommit (rv_CommitHeight msg) (rv_Sender msg) (rv_Seq msg));
  match c with
  | None => fail "no matching commit"
  | Some c =>
      if negb (String.eqb (cm_Sender c) (rv_Sender msg)) then fail "sender is not the committer" else
      p ← gets GetParams;
      let matureHeight := addSat (rv_CommitHeight msg) (RevealDelay p) in
      if u64 (BlockHeight ctx) <? matureHeight then fail "reveal too early" else
      if maxCiphertextBodyBytes <? strlen (rv_RevealTx msg) then fail "reveal_tx exceeds the cap" else
      if maxRevealSaltBytes <? strlen (rv_Salt msg) then fail "salt exceeds the cap" else
      if negb (String.eqb (sha256 (rv_RevealTx msg +:+ rv_Salt msg)) (cm_CommitHash c))
      then fail "reveal does not match commitment hash" else
      modify (SetPending (mkPendingReveal (rv_Sender msg) (rv_CommitHeight msg) (rv_Seq msg) (rv_RevealTx msg)
                (rv_Salt msg)));;
      modify (emit (mkEvent "encmempool_reveal_queued"
        [("sender", rv_Sender msg); ("commit_height", u64str (rv_CommitHeight msg)); ("seq", u64str (rv_Seq msg))]))
  end.

(** The non-refundable part of a bond: [bond * bps / 10000], read back as uint64. *)
Definition bond_burn (bond bps : Z) : outcome Z :=
  num ← o_int (bond * bps);
  q ← o_int (Z.quot num 10000);
  if (q <? 0) || (2 ^ 64 <=? q) then Panic "Uint64() out of bounds" else Ret q.

(** The guards before a ciphertext is admitted; the two rate counters are bumped
    on the way.  Returns the epoch it is stamped with. *)
Definition admit_encrypted (ctx : Ctx) (cp : ConsensusParams) (chainID : string) (p : Params)
    (msg : MsgSubmitEncrypted) : M (World B) Z :=
  if negb (EncEnabled p) then fail "encrypted mempool is not enabled" else
  if negb (EncExecEnabled p) then fail "encrypted submissions are disabled" else
  if (strlen (se_A msg) =? 0) || (strlen (se_Body msg) =? 0) then fail "missing ciphertext" else
  if negb (Dkg.ValidCompressedPoint (se_A msg)) then fail "A is not a valid point" else
  if negb (strlen (se_Nonce msg) =? NonceSize) then fail "nonce length" else
  if maxCiphertextBodyBytes <? strlen (se_Body msg) then fail "ciphertext body exceeds the cap" else
  match transparentDkgRuntimeUnavailable ctx cp p with
  | Some reason => fail reason
  | None =>
      g ← gets GetGlobalEncCount;
      if (0 <? MaxInFlightEncTx p) && (MaxInFlightEncTx p <=? g) then fail "encrypted mempool full" else
      s ← gets (GetSubmitterEncCount (se_Submitter msg));
      if (0 <? MaxInFlightPerSubmitter p) && (MaxInFlightPerSubmitter p <=? s)
      then fail "submitter is at its in-flight ceiling" else
      n ← bumpEncSubmitsThisBlock (se_Submitter msg) (u64 (BlockHeight ctx));
      if maxEncSubmitsPerBlockPerSubmitter <? n then fail "per-block admission rate" else
      n ← bumpGlobalEncSubmitsThisBlock (u64 (BlockHeight ctx));
      if maxEncSubmitsPerBlockGlobal <? n then fail "global per-block admission rate" else
      epoch ← (if DkgEnabled p then
                 epoch ← gets GetActiveEpoch;
                 if epoch =? 0 then fail "no active threshold key yet" else mret epoch
               else mret 0);
      breached ← (if 0 <? epoch
                  then (fun w => (CommitteeConcentrationBreached epoch (DkgStrictConcentration p) w, w))
                  else mret false);
      if (breached : bool) then fail "validator stake is too concentrated" else
      derivable ← gets (ActiveEpochCanDeriveShares p);
      if negb derivable then fail "the active DKG epoch has no committed dealings" else
      match Dkg.ParseEncKeyPoK (se_Pok msg) with
      | None => fail "invalid ciphertext key proof"
      | Some pok =>
          if negb (Dkg.VerifyEncKeyPoK chainID (se_A msg) (se_Submitter msg) (se_Nonce msg) (se_Body msg) (Some pok))
          then fail "ciphertext key proof does not bind A to the submitter" else mret epoch
      end
  end.

Definition escrow_bond (k : Keeper) (submitter : string) (bond : Z) (denom : string) : M (World B) unit :=
  if negb (0 <? bond) then mret tt else
  if negb (bankKeeper_set k) then fail "the bank keeper is unavailable" else
  match AccAddressFromBech32 submitter with
  | None => fail "submitter must be a valid bech32 address"
  | Some addr => on_bank (SendCoinsFromAccountToModule addr ModuleName [(denom, bond)])
  end.

Definition SubmitEncrypted (k : Keeper) (ctx : Ctx) (cp : ConsensusParams) (chainID : string)
    (msg : MsgSubmitEncrypted) : M (World B) (Z * Z) :=
  p ← gets GetParams;
  epoch ← admit_encrypted ctx cp chainID p msg;
  let bond := EncSubmitBond p in
  escrow_bond k (se_Submitter msg) bond (EncSubmitBondDenom p);;
  e ← SubmitEncTx (se_Submitter msg) (u64 (BlockHeight ctx)) (DecryptDelay p) (se_A msg) (se_Nonce msg) (se_Body msg)
        epoch;
  (if 0 <? bond then
     burn ← lift_outcome (bond_burn bond (EncSubmitBondBurnBps p));
     modify (stampBond e bond (EncSubmitBondDenom p) burn)
   else mret tt);;
  modify (emit (mkEvent "encmempool_encrypted_submitted"
    [("submitter", se_Submitter msg); ("decrypt_height", u64str (e_DecryptHeight e)); ("seq", u64str (e_Seq e));
     ("epoch", u64str (e_Epoch e)); ("a_hex", hex_bytes (se_A msg))]));;
  mret (e_DecryptHeight e, e_Seq e).

Definition SubmitDecryptionShare (ctx : Ctx) (msg : MsgSubmitDecryptionShare) : M (World B) unit :=
  p ← gets GetParams;
  if negb (EncEnabled p) then fail "encrypted mempool is not enabled" else
  if DkgTransparent p then fail "transparent DKG is active" else
  if strlen (sd_D msg) =? 0 then fail "missing decryption share" else
  if u64 (BlockHeight ctx) <? sd_DecryptHeight msg then fail "decryption share submitted before maturity" else
  idx ← (if DkgEnabled p then
           e ← gets (GetEncTx (sd_DecryptHeight msg) (sd_Seq msg));
           match e with
           | None => fail "no matching encrypted tx"
           | Some e =>
               round ← gets (GetDkgRound (e_Epoch e));
               match round with
               | None => fail "no DKG round for epoch"
               | Some round => mret (memberIndexByAccount round (sd_Keyper msg))
               end
           end
         else mret (keyperIndex (Keypers p) (sd_Keyper msg)));
  if idx =? 0 then fail "not a member" else
  if negb (sd_Index msg =? idx) then fail "index mismatch" else
  already ← gets (hasEncShareAt (sd_DecryptHeight msg) (sd_Seq msg) (sd_Index msg));
  if already : bool then fail "shares are write-once" else
  modify (SetEncShare (mkEncShare (sd_Keyper msg) (sd_DecryptHeight msg) (sd_Seq msg) (sd_Index msg) (sd_D msg)
            (sd_Proof msg) false));;
  modify (emit (mkEvent "encmempool_share_submitted"
    [("keyper", sd_Keyper msg); ("decrypt_height", u64str (sd_DecryptHeight msg)); ("seq", u64str (sd_Seq msg))])).

Definition check_dealt (round : DkgRound) (seen : list Z) (s : DkgStoredEncShare) : outcome (list Z) :=
  match memberByIndex round (es_MemberIndex s) with
  | None => Err "enc_share for non-member index"
  | Some _ =>
      if Zmem (es_MemberIndex s) seen then Err "duplicate enc_share" else
      if negb (Dkg.ValidCompressedPoint (es_A s)) then Err "malformed A" else
      if negb (strlen (es_Nonce s) =? NonceSize) then Err "bad nonce" else
      if strlen (es_Body s) =? 0 then Err "empty enc_share body" else
      Ret (es_MemberIndex s :: seen)
  end.

Definition DkgDeal (ctx : Ctx) (msg : MsgDkgDeal) : M (World B) unit :=
  p ← gets GetParams;
  if negb (DkgEnabled p) then fail "DKG is not enabled" else
  if DkgTransparent p then fail "transparent DKG is active" else
  round ← gets (GetDkgRound (dd_Epoch msg));
  match round with
  | None => fail "no open DKG round"
  | Some round =>
      if negb (String.eqb (r_Status round) DkgStatusOpen) then fail "no open DKG round" else
      if r_DealDeadline round <? u64 (BlockHeight ctx) then fail "deal window closed" else
      let idx := memberIndexByAccount round (dd_Dealer msg) in
      if idx =? 0 then fail "not a member" else
      if negb (zlen (dd_Commitments msg) =? r_Threshold round) then fail "expected commitments" else
      match Dkg.ParseCommitmentPoints (dd_Commitments msg) with
      | None => fail "malformed commitment"
      | Some _ =>
          if negb (zlen (dd_EncShares msg) =? zlen (r_Members round)) then fail "expected enc_shares" else
          _ ← lift_outcome (fold_ok (check_dealt round) [] (dd_EncShares msg));
          old ← gets (GetDealing (dd_Epoch msg) idx);
          match old with
          | Some _ => fail "deals are first-wins"
          | None =>
              let dealing := mkDealing (dd_Epoch msg) idx (dd_Dealer msg) (dd_Commitments msg) (dd_EncShares msg) in
              modify (SetDealing dealing);;
              modify (emit (mkEvent "encmempool_dkg_deal"
                [("epoch", u64str (dd_Epoch msg)); ("dealer_index", u64str idx); ("deal_json", json_Marshal dealing)]))
          end
      end
  end.

Definition recordComplaint (epoch against accuserIdx : Z) : M (World B) unit :=
  modify (SetComplaint (mkDkgComplaintRec epoch against accuserIdx));;
  modify (emit (mkEvent "encmempool_dkg_complaint"
    [("epoch", u64str epoch); ("against", u64str against); ("accuser_index", u64str accuserIdx)])).

Definition DkgComplaint (ctx : Ctx) (msg : MsgDkgComplaint) : M (World B) unit :=
  p ← gets GetParams;
  if negb (DkgEnabled p) then fail "DKG is not enabled" else
  if DkgTransparent p then fail "transparent DKG is active" else
  round ← gets (GetDkgRound (dc_Epoch msg));
  match round with
  | None => fail "no open DKG round"
  | Some round =>
      if negb (String.eqb (r_Status round) DkgStatusOpen) then fail "no open DKG round" else
      if r_ComplaintDeadline round <? u64 (BlockHeight ctx) then fail "complaint window closed" else
      let accuserIdx := memberIndexByAccount round (dc_Accuser msg) in
      if accuserIdx =? 0 then fail "not a member" else
      let accuserKey := match memberByIndex round accuserIdx with Some m => EncPubKey m | None => "" end in
      dealing ← gets (GetDealing (dc_Epoch msg) (dc_Against msg));
      match dealing with
      | None => fail "no dealing from member"
      | Some dealing =>
          match find_enc_share dealing accuserIdx with
          | None => recordComplaint (dc_Epoch msg) (dc_Against msg) accuserIdx
          | Some enc =>
              let '(cheated, proofValid) :=
                Dkg.VerifyJustifiedComplaint accuserIdx accuserKey (d_Commitments dealing)
                  (es_A enc) (es_Nonce enc) (es_Body enc) (dc_SharedPoint msg) (dc_DleqProof msg) in
              if negb proofValid then fail "invalid complaint proof" else
              if negb cheated then fail "frivolous complaint" else
              recordComplaint (dc_Epoch msg) (dc_Against msg) accuserIdx
          end
      end
  end.

End handlers.
End EncMsg.
