(* ===== verification/EncGenesis.v ===== *)
(** * x/encmempool/keeper: genesis

    Models genesis.go: import with its validation and the recomputation of the
    reference counts, and export. *)
From S2P Require Import Prelude Codec Bank Sha256 EncTypes StakeWeight Threshold Dkg EncKeeper EncRegistry.
From stdpp Require Import gmap strings list sorting.
From Stdlib Require Import ZArith Lia.

#[local] Set Default Goal Selector "!".
Open Scope Z_scope.

Module EncGenesis.
Import EncTypes EncKeeper EncRegistry.

Section genesis.
Context {B : Type} `{EncJSON} `{Curve} `{MathInt} `{SDKDenom}.
Implicit Types w : World B.

Definition set_all {A : Type} (f : A -> World B -> World B) (l : list A) w : World B :=
  foldl (fun w x => f x w) w l.

Definition import_enc_key (kr : EncKeyReg) w : World B :=
  sset (encKeyOwnerKey (kr_Key kr)) (kr_Operator kr) (sset (encPubKeyKey (kr_Operator kr)) (kr_Key kr) w).

Definition unverified (s : EncShare) : EncShare :=
  mkEncShare (s_Keyper s) (s_DecryptHeight s) (s_Seq s) (s_Index s) (s_D s) (s_Proof s) false.

(** The global and submitter counts first, then the epoch's. *)
Definition import_enc_tx (e : EncTx) w : World B :=
  let w := incSubmitterEncCount (e_Submitter e) (incGlobalEncCount (set_enc_tx e w)) in
  if 0 <? e_Epoch e then incEpochEncCount (e_Epoch e) w else w.

(** The writes of [InitGenesis], after [Validate] has accepted the state. *)
Definition import_state (gs : GenesisState) w : World B :=
  let w := SetParams (gs_Params gs) w in
  let w := set_all SetCommit (gs_Commits gs) w in
  let w := set_all SetPending (gs_Pending gs) w in
  let w := if 0 <? gs_EncSeq gs then sset EncSeqKey (be64 (gs_EncSeq gs)) w else w in
  let w := if 0 <? gs_CurrentEpoch gs then SetCurrentEpoch (gs_CurrentEpoch gs) w else w in
  let w := if 0 <? gs_ActiveEpoch gs then SetActiveEpoch (gs_ActiveEpoch gs) w else w in
  let w := set_all SetDkgRound (gs_DkgRounds gs) w in
  let w := set_all SetDealing (gs_Dealings gs) w in
  let w := set_all SetActiveKey (gs_ActiveKeys gs) w in
  let w := set_all import_enc_key (gs_EncKeys gs) w in
  let w := set_all (fun s => SetEncShare (unverified s)) (gs_EncShares gs) w in
  set_all import_enc_tx (gs_EncTxs gs) w.

Definition InitGenesis (gs : GenesisState) : M (World B) unit :=
  _ ← lift_outcome (Genesis_Validate gs);
  modify (import_state gs).

Definition ExportGenesis w : GenesisState :=
  mkGenesisState (GetParams w) (IterateCommits w) (IteratePending w) (readU64 EncSeqKey w)
    (iter_json EncTxPrefix w) (iter_json EncSharePrefix w) (iter_json DkgRoundPrefix w)
    (iter_json DkgDealPrefix w) (iter_json ActiveKeyPrefix w) (GetCurrentEpoch w) (GetActiveEpoch w)
    ((fun ok : string * string => mkEncKeyReg ok.1 ok.2) <$> IterateEncPubKeys w).

End genesis.
End EncGenesis.
