(* ===== verification/EncFrame.v ===== *)
(** * x/encmempool: which part of the store an operation writes

    The first byte of a key says which record it holds.  [frame ps w w'] states
    that going from [w] to [w'] changed only keys whose first byte is in [ps], no
    other store and no balance; [framed ps m] that every run of [m] does so.  The
    hint database [frame] proves such facts from the shape of the code. *)
From S2P Require Import Prelude Codec Bank EncTypes StakeWeight Threshold Dkg EncKeeper EncRegistry EncDkg EncAbci EncIngest EncMsg.
From stdpp Require Import gmap strings list sorting.
From Stdlib Require Import ZArith Lia.

#[local] Set Default Goal Selector "!".
Open Scope Z_scope.

Module EncFrame.
Import EncTypes EncKeeper EncRegistry EncDkg EncAbci EncIngest EncMsg.

(** The first byte of [k] is one of [ps]. *)
Definition key_in (ps : list Z) (k : string) : bool :=
  match k with String c _ => Zmem (byte_to_Z c) ps | EmptyString => false end.

Section frames.
Context {B : Type}.
Implicit Types w : World B.

Definition frame (ps : list Z) w w' : Prop :=
  w_bank w' = w_bank w /\
  (forall n, n <> StoreKey -> kvs n w' = kvs n w) /\
  (forall k, key_in ps k = false -> sget k w' = sget k w).

Lemma frame_refl ps w : frame ps w w.
Proof. done. Qed.

Lemma Zmem_spec x l : Zmem x l = true <-> x ∈ l.
Proof.
  induction l as [|y l IH]; simpl; [split; [done|by intros ?%not_elem_of_nil]|].
  rewrite elem_of_cons. destruct (Z.eqb_spec y x); [naive_solver|]. rewrite IH. naive_solver.
Qed.

Lemma key_in_weaken ps qs k : (forall x, x ∈ ps -> x ∈ qs) -> key_in qs k = false -> key_in ps k = false.
Proof.
  intros Hs. destruct k as [|c k]; [done|]. simpl. rewrite <- !not_true_iff_false, !Zmem_spec. auto.
Qed.

(** Inclusion of prefix sets, by computation. *)
Definition subset_of (ps qs : list Z) : bool := forallb (fun p => Zmem p qs) ps.

Lemma subset_of_spec ps qs : subset_of ps qs = true -> forall x, x ∈ ps -> x ∈ qs.
Proof.
  unfold subset_of. rewrite forallb_forall. intros Hs x Hx. apply Zmem_spec, Hs. by apply list_elem_of_In.
Qed.

Lemma keys_in_mono ps qs (ks : list string) :
  Forall (fun k => key_in ps k = true) ks -> subset_of ps qs = true -> Forall (fun k => key_in qs k = true) ks.
Proof.
  intros Hk Hs. eapply Forall_impl; [exact Hk|]. intros [|c k]; [done|]. simpl. rewrite !Zmem_spec.
  by apply subset_of_spec.
Qed.

Lemma frame_weaken ps qs w w' : frame ps w w' -> subset_of ps qs = true -> frame qs w w'.
Proof.
  intros (Hb & Hn & Hk) Hs. split_and!; [done..|]. intros k Hq. apply Hk.
  by apply (key_in_weaken ps qs); [apply subset_of_spec|].
Qed.

Lemma frame_trans ps w1 w2 w3 : frame ps w1 w2 -> frame ps w2 w3 -> frame ps w1 w3.
Proof.
  intros (Hb & Hn & Hk) (Hb' & Hn' & Hk'). split_and!; [congruence|..]; intros.
  - rewrite Hn' by done. by apply Hn.
  - rewrite Hk' by done. by apply Hk.
Qed.

Lemma frame_set ps k v w : key_in ps k = true -> frame ps w (sset k v w).
Proof.
  intros Hk. unfold sset, sget. split_and!; [done|..].
  - intros n Hn. rewrite kvs_set. by rewrite decide_False.
  - intros k' Hk'. unfold sget. rewrite kv_get_set_ne; [done|]. right. congruence.
Qed.

Lemma frame_del ps k w : key_in ps k = true -> frame ps w (sdel k w).
Proof.
  intros Hk. unfold sdel, sget. split_and!; [done|..].
  - intros n Hn. rewrite kvs_delete. by rewrite decide_False.
  - intros k' Hk'. unfold sget. rewrite kv_get_delete_ne; [done|]. right. congruence.
Qed.

Lemma frame_emit ps e w : frame ps w (emit e w).
Proof. done. Qed.

Lemma frame_then ps w1 w2 (f : World B -> World B) :
  frame ps w1 w2 -> (forall w, frame ps w (f w)) -> frame ps w1 (f w2).
Proof. intros H1 H2. by eapply frame_trans. Qed.

Lemma frame_delete_all ps keys w :
  Forall (fun k => key_in ps k = true) keys -> frame ps w (delete_all keys w).
Proof.
  intros Hk. revert w. induction Hk as [|k keys Hk Hks IH]; intros w; [apply frame_refl|].
  unfold delete_all. simpl. eapply frame_trans; [by apply frame_del|apply IH].
Qed.

Lemma frame_foldl {A : Type} ps (f : World B -> A -> World B) (l : list A) w :
  (forall w x, frame ps w (f w x)) -> frame ps w (foldl f w l).
Proof.
  intros Hf. revert w. induction l as [|x l IH]; intros w; [apply frame_refl|].
  simpl. eapply frame_trans; [apply Hf|apply IH].
Qed.

(** The keys an iterator yields start with its prefix. *)
Lemma siter_keys z p w :
  0 <= z < 255 -> Forall (fun k => key_in [z] k = true) (siter (byte_prefix z +:+ p) w).*1.
Proof.
  intros Hz. apply Forall_fmap, Forall_forall. intros [k v] Hkv.
  apply elem_of_kv_iter in Hkv as [_ [t ->]]; [|by apply prefixEnd_byte].
  unfold byte_prefix. rewrite !str_app_cons. simpl. by rewrite byte_to_Z_of, Z.eqb_refl by lia.
Qed.

Lemma siter_keys_0 z w : 0 <= z < 255 -> Forall (fun k => key_in [z] k = true) (siter (byte_prefix z) w).*1.
Proof. intros Hz. by apply (siter_keys z "" w). Qed.

Lemma frame_delete_iter z p w w' : 0 <= z < 255 -> frame [z] w (delete_all (siter (byte_prefix z +:+ p) w').*1 w).
Proof. intros Hz. apply frame_delete_all. by apply siter_keys. Qed.

(** ** Runs *)
Definition framed {A : Type} (ps : list Z) (m : M (World B) A) : Prop :=
  forall w o w', m w = (o, w') -> frame ps w w'.

Lemma framed_bind {A C : Type} ps (m : M (World B) A) (f : A -> M (World B) C) :
  framed ps m -> (forall a, framed ps (f a)) -> framed ps (m ≫= f).
Proof.
  intros Hm Hf w o w'. unfold mbind, M_bind.
  destruct (m w) as [[a|e|p] w1] eqn:E; intros R; simplify_eq; try by apply (Hm _ _ _ E).
  eapply frame_trans; [by apply (Hm _ _ _ E)|by eapply Hf].
Qed.
Lemma framed_mret {A : Type} ps (a : A) : framed ps (mret a).
Proof. intros w o w' [= <- <-]. apply frame_refl. Qed.
Lemma framed_gets {A : Type} ps (f : World B -> A) : framed ps (gets f).
Proof. intros w o w' [= <- <-]. apply frame_refl. Qed.
Lemma framed_pure {A : Type} ps (f : World B -> outcome A) : framed ps (fun w => (f w, w)).
Proof. intros w o w' [= <- <-]. apply frame_refl. Qed.
Lemma framed_lift {A : Type} ps (o : outcome A) : framed ps (lift_outcome o).
Proof. intros w o' w' [= <- <-]. apply frame_refl. Qed.
Lemma framed_fail {A : Type} ps e : framed ps (fail e : M (World B) A).
Proof. intros w o w' [= <- <-]. apply frame_refl. Qed.
Lemma framed_panic {A : Type} ps e : framed ps (panic e : M (World B) A).
Proof. intros w o w' [= <- <-]. apply frame_refl. Qed.
Lemma framed_modify ps (f : World B -> World B) : (forall w, frame ps w (f w)) -> framed ps (modify f).
Proof. intros Hf w o w' [= <- <-]. apply Hf. Qed.
Lemma framed_weaken {A : Type} ps qs (m : M (World B) A) :
  framed ps m -> subset_of ps qs = true -> framed qs m.
Proof. intros Hm Hs w o w' R. eapply frame_weaken; [by eapply Hm|done]. Qed.

Lemma framed_for_each {A : Type} ps (f : A -> M (World B) unit) l :
  (forall x, framed ps (f x)) -> framed ps (for_each f l).
Proof.
  intros Hf. induction l as [|x l IH]; [apply framed_mret|]. simpl.
  apply framed_bind; [apply Hf|intros _; exact IH].
Qed.

(** A cached body either keeps its writes or none of them. *)
Lemma frame_cached ps ev (m : M (World B) unit) w : framed ps m -> frame ps w (cached ev m w).
Proof.
  intros Hm. unfold cached. destruct (m w) as [[[]|e|msg] w'] eqn:E; try by apply (Hm _ _ _ E).
  apply frame_emit.
Qed.

(** Reading a key outside the frame. *)
Lemma frame_sget ps k w w' : frame ps w w' -> key_in ps k = false -> sget k w' = sget k w.
Proof. intros (_ & _ & Hk). apply Hk. Qed.
Lemma frame_readU64 ps k w w' : frame ps w w' -> key_in ps k = false -> readU64 k w' = readU64 k w.
Proof. intros Hf Hk. unfold readU64. by rewrite (frame_sget _ _ _ _ Hf Hk). Qed.
Lemma frame_get_json `{JSON A} ps k w w' :
  frame ps w w' -> key_in ps k = false -> (get_json k w' : option A) = get_json k w.
Proof. intros Hf Hk. unfold get_json. by rewrite (frame_sget _ _ _ _ Hf Hk). Qed.
Lemma frame_bank ps w w' : frame ps w w' -> w_bank w' = w_bank w.
Proof. by intros (? & _). Qed.

End frames.

Create HintDb frame.
#[export] Hint Resolve frame_refl frame_emit framed_mret framed_gets framed_pure framed_lift framed_fail
  framed_panic : frame.

(** [frame_tac] applies the structural rules; [reflexivity] decides the membership
    of a key's first byte and the inclusion of prefix sets. *)
Ltac frame_step :=
  match goal with
  | |- forall _, _ => intros
  | |- framed _ (_ ≫= _) => apply framed_bind
  | |- framed _ (modify _) => apply framed_modify
  | |- framed _ (if ?b then _ else _) => destruct b
  | |- framed _ (match ?o with _ => _ end) => destruct o
  | |- framed _ (let '(_, _) := ?o in _) => destruct o
  | |- framed _ (for_each _ _) => apply framed_for_each
  | |- frame _ _ (if ?b then _ else _) => destruct b
  | |- frame _ _ (match ?o with _ => _ end) => destruct o
  | |- frame _ _ (foldl _ _ _) => apply frame_foldl
  | |- frame _ ?w (sset ?k ?v ?w) => apply frame_set; reflexivity
  | |- frame _ ?w (sdel ?k ?w) => apply frame_del; reflexivity
  | |- frame _ _ (sset ?k ?v ?w) => apply (frame_then _ _ w (sset k v)); [|intros; apply frame_set; reflexivity]
  | |- frame _ _ (sdel ?k ?w) => apply (frame_then _ _ w (sdel k)); [|intros; apply frame_del; reflexivity]
  | |- frame _ _ (emit ?e ?w) => apply (frame_then _ _ w (emit e)); [|intros; apply frame_emit]
  end.
Ltac frame_tac :=
  repeat first
    [ progress (eauto with frame; fail)
    | solve [ eapply frame_weaken; [solve [eauto with frame]|reflexivity] ]
    | solve [ eapply framed_weaken; [solve [eauto with frame]|reflexivity] ]
    | frame_step ].

(** ** The operations of the store *)
Section ops.
Context {B : Type}.
Implicit Types w : World B.

Lemma frame_inc ps k w : key_in ps k = true -> frame ps w (inc_count k w).
Proof. apply frame_set. Qed.
Lemma frame_dec ps k w : key_in ps k = true -> frame ps w (dec_count k w).
Proof. intros Hk. unfold dec_count. destruct (_ =? 0); [by apply frame_del|by apply frame_set]. Qed.
Lemma frame_dec_to_zero ps k w : key_in ps k = true -> frame ps w (dec_to_zero k w).
Proof. intros Hk. unfold dec_to_zero. destruct (1 <? _); [by apply frame_set|by apply frame_del]. Qed.

Lemma framed_next_counter ps k : key_in ps k = true -> framed ps (next_counter k : M (World B) Z).
Proof. intros Hk. unfold next_counter. frame_tac. by apply frame_set. Qed.
Lemma framed_bump_rate ps k : key_in ps k = true -> framed ps (bump_rate k : M (World B) Z).
Proof. intros Hk. unfold bump_rate. frame_tac. by apply frame_set. Qed.

Lemma frame_bumpStreak e w : frame [32] w (bumpDecryptStrandStreak e w).
Proof. by apply frame_inc. Qed.
Lemma frame_resetStreak e w : frame [32] w (resetDecryptStrandStreak e w).
Proof. by apply frame_del. Qed.
Lemma frame_forceRekey e w : frame [32] w (forceDecryptHealthRekey e w).
Proof. unfold forceDecryptHealthRekey. frame_tac. Qed.

Lemma collect_stale_keys (P : string -> Prop) h limit stale (es : list (string * string)) :
  Forall P stale -> Forall P es.*1 -> Forall P (collect_stale h limit stale es).
Proof.
  revert stale. induction es as [|[k v] es IH]; intros stale Hs He; [done|].
  apply Forall_cons in He as [Hk He]. simpl. repeat case_match; try done; apply IH; try done.
  apply Forall_app. by split; [|apply Forall_singleton].
Qed.

Lemma frame_gcRate h w : frame [29; 37] w (gcEncSubmitRate h w).
Proof.
  unfold gcEncSubmitRate. apply frame_delete_all.
  apply collect_stale_keys; [apply collect_stale_keys; [done|]|].
  - eapply keys_in_mono; [by apply siter_keys_0|done].
  - eapply keys_in_mono; [by apply siter_keys_0|done].
Qed.

Lemma frame_purgeDealings e w : frame [17; 18; 28] w (purgeDealings e w).
Proof.
  unfold purgeDealings. apply frame_delete_all. simpl. rewrite app_nil_r.
  rewrite !Forall_app. split_and!; (eapply keys_in_mono; [apply siter_keys; lia|done]).
Qed.
Lemma frame_purgeFailedRound e w : frame [16; 17; 18; 28] w (purgeFailedRound e w).
Proof.
  unfold purgeFailedRound. frame_step.
  eapply frame_weaken; [apply frame_purgeDealings|done].
Qed.
Lemma frame_deleteShareKeyCache e w : frame [30; 31; 32] w (deleteShareKeyCache e w).
Proof.
  unfold deleteShareKeyCache, resetDecryptStrandStreak, deleteShareKeyCursor. repeat frame_step.
  eapply frame_weaken; [by apply frame_delete_iter|done].
Qed.
Lemma frame_DeleteActiveKey e w : frame [19; 30; 31; 32] w (DeleteActiveKey e w).
Proof.
  unfold DeleteActiveKey. eapply frame_trans; [|eapply frame_weaken; [apply frame_deleteShareKeyCache|done]].
  by apply frame_del.
Qed.
Lemma frame_maybePruneEpoch e w : frame [16; 17; 18; 19; 28; 30; 31; 32] w (maybePruneEpoch e w).
Proof.
  unfold maybePruneEpoch. repeat frame_step; try apply frame_refl.
  eapply frame_trans; eapply frame_weaken; [apply frame_purgeDealings|done|apply frame_DeleteActiveKey|done].
Qed.
Lemma frame_purgeIfDrained p e w : frame [17; 18; 28] w (purgeDealingsIfDrained p e w).2.
Proof.
  unfold purgeDealingsIfDrained. repeat case_match; simpl; first [apply frame_emit|apply frame_purgeDealings].
Qed.

Section records.
Context `{EncJSON}.

Lemma frame_SetCommit c w : frame [3; 35; 36] w (SetCommit c w).
Proof.
  unfold SetCommit. frame_step. destruct (sget _ w); [apply frame_refl|].
  unfold incCommitCount. eapply frame_trans; by apply frame_inc.
Qed.
Lemma frame_DeleteCommit h s q w : frame [3; 35; 36] w (DeleteCommit h s q w).
Proof.
  unfold DeleteCommit. frame_step. destruct (sget _ w); [|apply frame_refl].
  unfold decCommitCount. eapply frame_trans; by apply frame_dec_to_zero.
Qed.
Lemma frame_count_enc_tx e w : frame [22; 24; 25] w (count_enc_tx e w).
Proof.
  unfold count_enc_tx. eapply frame_trans; [|by apply frame_inc]. eapply frame_trans; [|by apply frame_inc].
  destruct (0 <? _); [by apply frame_inc|apply frame_refl].
Qed.
Lemma frame_DeleteSharesFor h q w : frame [7] w (DeleteSharesFor h q w).
Proof.
  unfold DeleteSharesFor. apply frame_delete_all, Forall_fmap, Forall_true. done.
Qed.
Lemma frame_deleteRejected h q w : frame [33] w (deleteRejectedSharesFor h q w).
Proof. unfold deleteRejectedSharesFor. by apply frame_delete_iter. Qed.

Lemma frame_set_share_keys `{Curve} e from keys w : frame [30] w (set_share_keys e from keys w).
Proof.
  revert from w. induction keys as [|y ys IH]; intros from w; [apply frame_refl|].
  simpl. eapply frame_trans; [|apply IH]. by apply frame_set.
Qed.
Lemma framed_warm `{Curve} e cs a b : framed [30] (warmShareKeyRange e cs a b : M (World B) unit).
Proof. unfold warmShareKeyRange. frame_tac. apply frame_set_share_keys. Qed.
Lemma framed_PrecomputeShareKeys `{Curve} e cs n : framed [30; 31] (PrecomputeShareKeys e cs n : M (World B) unit).
Proof.
  unfold PrecomputeShareKeys. frame_tac.
  - eapply framed_weaken; [apply framed_warm|done].
  - by apply frame_set.
Qed.
Lemma framed_advanceEpoch `{Curve} e b : framed [30; 31] (advanceEpochPrecompute e b : M (World B) Z).
Proof.
  unfold advanceEpochPrecompute. frame_tac; try first [by apply frame_del|by apply frame_set].
  eapply framed_weaken; [apply framed_warm|done].
Qed.
Lemma framed_advancePrecompute `{Curve} : framed [30; 31] (advancePrecomputeShareKeys : M (World B) unit).
Proof.
  unfold advancePrecomputeShareKeys. apply framed_bind; [apply framed_gets|]. intros es.
  generalize precomputeChunkSize. induction es as [|e es IH]; intros b; [apply framed_mret|].
  simpl. frame_step; [apply framed_mret|]. apply framed_bind; [apply framed_advanceEpoch|]. intros. apply IH.
Qed.

End records.
End ops.

#[export] Hint Resolve frame_bumpStreak frame_resetStreak frame_forceRekey frame_gcRate frame_purgeDealings
  frame_purgeFailedRound frame_DeleteActiveKey frame_maybePruneEpoch frame_purgeIfDrained frame_SetCommit
  frame_DeleteCommit frame_count_enc_tx frame_DeleteSharesFor frame_deleteRejected framed_PrecomputeShareKeys
  framed_advancePrecompute : frame.

(** ** The handlers *)
Section handlers.
Context {B : Type} `{EncJSON} `{Curve} `{AesGcm} `{MathInt} `{Ecdsa} `{SDKDenom}.
Implicit Types w : World B.

Lemma frame_DeleteEncPubKey op w : frame [26; 27; 34] w (DeleteEncPubKey op w).
Proof. unfold DeleteEncPubKey. frame_tac. Qed.
Lemma frame_gcStaleEncKeys k bonded w : frame [26; 27; 34] w (gcStaleEncKeys k bonded w).
Proof. unfold gcStaleEncKeys. frame_tac. apply frame_DeleteEncPubKey. Qed.
Lemma frame_RecordEncPubKey h op key pop w : frame [26; 27; 34] w (RecordEncPubKey h op key pop w).2.
Proof.
  unfold RecordEncPubKey, setEncKeyRotatedHeight. repeat case_match; simpl; frame_tac.
Qed.

Lemma framed_TransparentMembers k bonded p : framed [] (TransparentMembers k bonded p : M (World B) _).
Proof. unfold TransparentMembers. frame_tac. Qed.
Lemma framed_ActiveMembers k bonded p : framed [] (ActiveMembers k bonded p : M (World B) _).
Proof. unfold ActiveMembers. destruct (DkgTransparent p); [apply framed_TransparentMembers|apply framed_mret]. Qed.
Lemma framed_runtime_gate ctx cp p : framed [] (runtime_gate ctx cp p : M (World B) bool).
Proof. unfold runtime_gate. frame_tac. Qed.

Lemma framed_finalizeRound r : framed [16; 17; 18; 19; 21; 28; 30; 31; 32] (finalizeRound r : M (World B) unit).
Proof.
  unfold finalizeRound. frame_tac; try (by apply frame_set).
Qed.
Lemma framed_openRound e ms hash h p a reason : framed [16; 20] (openRound e ms hash h p a reason : M (World B) unit).
Proof. unfold openRound. frame_tac; by apply frame_set. Qed.
Lemma framed_retryFailedRound e r ms hash h p reason :
  framed [16; 17; 18; 20; 28] (retryFailedRound e r ms hash h p reason : M (World B) bool).
Proof.
  unfold retryFailedRound. frame_tac. eapply framed_weaken; [apply framed_openRound|done].
Qed.
Lemma framed_settle_round h cur :
  framed [16; 17; 18; 19; 21; 28; 30; 31; 32] (settle_round h cur : M (World B) _).
Proof. unfold settle_round. frame_tac; apply framed_finalizeRound. Qed.
Lemma framed_member_change cur r ms hash h p :
  framed [16; 17; 18; 20; 23; 28] (member_change cur r ms hash h p : M (World B) unit).
Proof.
  unfold member_change. frame_tac;
    first [by apply frame_set|eapply framed_weaken; [apply framed_retryFailedRound|done]
          |eapply framed_weaken; [apply framed_openRound|done]].
Qed.
Lemma framed_drift_rekey cur r ms hash h p :
  framed [16; 17; 18; 20; 23; 28; 32] (drift_rekey cur r ms hash h p : M (World B) unit).
Proof.
  unfold drift_rekey. frame_tac; first [by apply frame_set|eapply framed_weaken; [apply framed_openRound|done]].
Qed.

Definition endblock_prefixes : list Z := [16; 17; 18; 19; 20; 21; 23; 26; 27; 28; 30; 31; 32; 34].

Lemma framed_endblock_body k ctx cp bonded : framed endblock_prefixes (endblock_body k ctx cp bonded : M (World B) unit).
Proof.
  unfold endblock_body. frame_tac;
    first [ eapply framed_weaken; [apply framed_runtime_gate|done]
          | eapply framed_weaken; [apply framed_settle_round|done]
          | eapply framed_weaken; [apply framed_ActiveMembers|done]
          | eapply framed_weaken; [apply framed_member_change|done]
          | eapply framed_weaken; [apply framed_drift_rekey|done]
          | eapply framed_weaken; [apply framed_retryFailedRound|done]
          | eapply framed_weaken; [apply framed_openRound|done]
          | eapply frame_weaken; [apply frame_gcStaleEncKeys|done] ].
Qed.
Lemma frame_EndBlockDKG k ctx cp bonded w : frame endblock_prefixes w (EndBlockDKG k ctx cp bonded w).
Proof. apply frame_cached, framed_endblock_body. Qed.

Lemma frame_IngestDealing r op d w : frame [17] w (IngestDealingFromVE r op d w).2.
Proof. unfold IngestDealingFromVE. repeat case_match; simpl; frame_tac; by apply frame_set. Qed.
Lemma frame_IngestComplaint r op c v w : frame [18; 28] w (IngestComplaintFromVE r op c v w).2.
Proof. unfold IngestComplaintFromVE. repeat case_match; simpl; frame_tac; by apply frame_set. Qed.
Lemma frame_IngestPoison r op c v w : frame [18; 28; 32] w (IngestPoisonReportFromVE r op c v w).2.
Proof.
  unfold IngestPoisonReportFromVE. repeat case_match; simpl; frame_tac; try by apply frame_set.
  all: eapply frame_trans; [|eapply frame_weaken; [apply frame_forceRekey|done]]; by apply frame_set.
Qed.
Lemma frame_verifyAndStore e A op s w : frame [7; 33] w (verifyAndStoreDecryptShare e A op s w).2.
Proof.
  unfold verifyAndStoreDecryptShare. case_match; simpl; [|by apply frame_set].
  eapply frame_trans; [apply frame_emit|by apply frame_set].
Qed.

Lemma frame_count_steps {A : Type} ps (f : A -> World B -> bool * World B) l w :
  (forall x w, frame ps w (f x w).2) -> frame ps w (count_steps f l w).2.
Proof.
  intros Hf. unfold count_steps. generalize 0. revert w.
  induction l as [|x l IH]; intros w n; [apply frame_refl|]. simpl.
  specialize (Hf x w). destruct (f x w) as [ok w1]. eapply frame_trans; [exact Hf|apply IH].
Qed.
Lemma frame_ingest_reports ps f left v n cs w :
  (forall c v w, frame ps w (f c v w).2) -> frame ps w (ingest_reports f left v n cs w).2.
Proof.
  intros Hf. revert left v n w. induction cs as [|c cs IH]; intros [|left] v n w; simpl; try apply frame_refl.
  case_match; [apply frame_refl|]. specialize (Hf c v w). destruct (f c v w) as [[ok v'] w1].
  eapply frame_trans; [exact Hf|apply IH].
Qed.
Lemma frame_ingest_all ps f get r canon w :
  (forall op c v w, frame ps w (f r op c v w).2) -> frame ps w (ingest_all_reports f get r canon w).2.
Proof.
  intros Hf. unfold ingest_all_reports. generalize 0 at 2. revert w.
  induction canon as [|e canon IH]; intros w n; [apply frame_refl|]. cbn [foldl].
  pose proof (frame_ingest_reports ps (f r (ent_Operator e)) (length (r_Members r)) 0 n (get (ent_VE e)) w
    ltac:(intros; apply Hf)) as R1.
  destruct (ingest_reports _ _ _ _ _ _) as [n1 w1]. eapply frame_trans; [exact R1|apply IH].
Qed.

Lemma frame_ingest_share p c processed op s st w st' w' :
  ingest_share p c processed op s st w = Some (st', w') -> frame [7; 33] w w'.
Proof.
  unfold ingest_share. repeat case_match; intros; simplify_eq; try apply frame_refl.
  all: match goal with E : verifyAndStoreDecryptShare ?e ?A ?o ?s ?w = _ |- _ =>
    pose proof (frame_verifyAndStore e A o s w) as Hf; rewrite E in Hf; exact Hf end.
Qed.
Lemma frame_ingest_shares p c processed op l st w : frame [7; 33] w (ingest_shares p c processed op l st w).2.
Proof.
  revert st w. induction l as [|s l IH]; intros st w; simpl; [apply frame_refl|].
  case_match; [apply frame_refl|]. destruct (ingest_share _ _ _ _ _ _ _) as [[st1 w1]|] eqn:E; [|apply frame_refl].
  eapply frame_trans; [by eapply frame_ingest_share|apply IH].
Qed.
Lemma frame_ingest_entries p cap c processed canon st w :
  frame [7; 33] w (ingest_entries p cap c processed canon st w).2.
Proof.
  revert st w. induction canon as [|e canon IH]; intros st w; simpl; [apply frame_refl|].
  case_match; [apply frame_refl|].
  assert (Hs : forall shares w1, frame [7; 33] w w1 -> frame [7; 33] w
    (let '(st1, w2) := ingest_shares p c processed (ent_Operator e) shares st w1 in
     ingest_entries p cap c processed canon st1 w2).2).
  { intros shares w1 R1. pose proof (frame_ingest_shares p c processed (ent_Operator e) shares st w1) as R2.
    destruct (ingest_shares _ _ _ _ _ _ _) as [st1 w2].
    eapply frame_trans; [exact R1|]. eapply frame_trans; [exact R2|apply IH]. }
  destruct (cap <? _); apply Hs; frame_tac.
Qed.
Lemma frame_ingestBounded ctx canon p w : frame [7; 33] w (ingestDecryptSharesBounded ctx canon p w).2.
Proof.
  unfold ingestDecryptSharesBounded.
  pose proof (frame_ingest_entries p (VoteExtShareCap p) (share_ceiling p)
    (processed_set (u64 (BlockHeight ctx)) w) canon (mkShareSt ∅ ∅ 0 0 false) w) as Hf.
  destruct (ingest_entries _ _ _ _ _ _ _) as [st w1]. simpl in *. frame_tac; exact Hf.
Qed.

Definition consume_prefixes : list Z := [7; 17; 18; 26; 27; 28; 32; 33; 34].

(** The handler in two parts: announcements, dealings and complaints, then the
    bounded ingestion of the shares. *)
Lemma consume_split ctx entries w :
  let canon := canonical_entries entries in
  let w0 := (ingest_announcements (u64 (BlockHeight ctx)) canon w).2 in
  (DkgEnabled (GetParams w) && DkgTransparent (GetParams w) = false /\ ConsumeVoteExtensions ctx entries w = w) \/
  exists w1, frame [17; 18; 28; 32] w0 w1 /\
    frame [] (ingestDecryptSharesBounded ctx canon (GetParams w) w1).2 (ConsumeVoteExtensions ctx entries w).
Proof.
  cbv zeta. unfold ConsumeVoteExtensions, consume_body.
  destruct (DkgEnabled (GetParams w)); [destruct (DkgTransparent (GetParams w)); [right|by left]|by left]. cbn [negb orb].
  destruct (ingest_announcements _ _ w) as [announced w1]. simpl.
  set (rep := [17; 18; 28; 32]). match goal with |- context [let '(dealt, w) := ?m in _] => assert (R2 : frame rep w1 m.2) end.
  { repeat case_match; simpl; try apply frame_refl.
    all: eapply frame_weaken; [|shelve]; apply frame_count_steps; intros; case_match; simpl;
      [apply frame_IngestDealing|apply frame_refl]. }
  destruct (match (if 0 <? GetCurrentEpoch w1 then _ else None) with Some _ => _ | None => _ end) as [dealt w2]. cbn [snd] in R2.
  match goal with |- context [GetActiveEpoch ?x] => assert (R3 : frame rep w1 x); [|revert R3; generalize x] end.
  { eapply frame_trans; [exact R2|]. repeat (case_match; simpl; try apply frame_refl).
    all: match goal with E : ingest_all_reports ?f ?g ?r ?c ?w = (_, ?w4) |- frame _ _ _ =>
      assert (frame rep w w4) by
        (pose proof (frame_ingest_all [18; 28] f g r c w ltac:(intros; apply frame_IngestComplaint)) as R4;
         rewrite E in R4; by eapply frame_weaken) end; frame_tac; assumption. }
  intros w3 R3. match goal with |- context [let '(poisoned, w) := ?m in _] => assert (R4 : frame rep w1 m.2) end.
  { eapply frame_trans; [exact R3|]. repeat case_match; simpl; try apply frame_refl.
    eapply frame_weaken; [|shelve]. apply frame_ingest_all. intros. apply frame_IngestPoison. }
  destruct (if 0 <? GetActiveEpoch w3 then _ else _) as [poisoned w4]. cbn [snd] in R4.
  match goal with |- context [ingestDecryptSharesBounded _ _ _ ?x] => exists x end.
  split; [frame_tac; assumption|]. destruct (ingestDecryptSharesBounded _ _ _ _) as [shared w5]. frame_tac.
  Unshelve. all: reflexivity.
Qed.

(** After the key announcements, only dealings, complaints and shares are written. *)
Definition report_prefixes : list Z := [7; 17; 18; 28; 32; 33].

Lemma frame_consume_reports ctx entries w :
  let w0 := (ingest_announcements (u64 (BlockHeight ctx)) (canonical_entries entries) w).2 in
  ConsumeVoteExtensions ctx entries w = w \/ frame report_prefixes w0 (ConsumeVoteExtensions ctx entries w).
Proof.
  destruct (consume_split ctx entries w) as [[_ ->]|(w1 & R1 & R2)]; [by left|right].
  eapply frame_trans; [by eapply frame_weaken|]. eapply frame_trans; [|by eapply frame_weaken].
  eapply frame_weaken; [apply frame_ingestBounded|done].
Qed.

Lemma frame_ConsumeVoteExtensions ctx entries w : frame consume_prefixes w (ConsumeVoteExtensions ctx entries w).
Proof.
  destruct (frame_consume_reports ctx entries w) as [->|F]; [apply frame_refl|].
  eapply frame_trans; [|eapply frame_weaken; [exact F|done]].
  eapply frame_weaken; [apply frame_count_steps; intros; apply frame_RecordEncPubKey|done].
Qed.

Lemma framed_UpdateParams gov cp msg : framed [1] (UpdateParams gov cp msg : M (World B) unit).
Proof. unfold UpdateParams. frame_tac; by apply frame_set. Qed.
Lemma framed_CommitTx ctx msg : framed [2; 3; 35; 36] (CommitTx ctx msg : M (World B) _).
Proof. unfold CommitTx, nextSeq. frame_tac. by apply framed_next_counter. Qed.
Lemma framed_RevealTx ctx msg : framed [4] (RevealTx ctx msg : M (World B) unit).
Proof. unfold RevealTx. frame_tac. by apply frame_set. Qed.
Lemma framed_SubmitDecryptionShare ctx msg : framed [7] (SubmitDecryptionShare ctx msg : M (World B) unit).
Proof. unfold SubmitDecryptionShare. frame_tac; by apply frame_set. Qed.
Lemma framed_DkgDeal ctx msg : framed [17] (DkgDeal ctx msg : M (World B) unit).
Proof. unfold DkgDeal. frame_tac; by apply frame_set. Qed.
Lemma framed_DkgComplaint ctx msg : framed [18] (DkgComplaint ctx msg : M (World B) unit).
Proof. unfold DkgComplaint, recordComplaint. frame_tac; by apply frame_set. Qed.
Lemma framed_admit_encrypted ctx cp chainID p msg : framed [29; 37] (admit_encrypted ctx cp chainID p msg : M (World B) Z).
Proof.
  unfold admit_encrypted, bumpEncSubmitsThisBlock, bumpGlobalEncSubmitsThisBlock.
  frame_tac; by apply framed_bump_rate.
Qed.

Lemma frame_execute_reveals cur delay order l w : frame [3; 4; 35; 36] w (execute_reveals cur delay order l w).
Proof.
  revert order w. induction l as [|pr l IH]; intros order w; simpl; [apply frame_refl|].
  frame_step; [apply IH|]. eapply frame_trans; [|apply IH].
  eapply frame_trans; [|eapply frame_weaken; [apply frame_DeleteCommit|done]].
  unfold DeletePending. frame_tac.
Qed.
Lemma frame_gc_commits cur window w : frame [3; 4; 35; 36] w (gc_commits cur window w).
Proof.
  unfold gc_commits. frame_step; [apply frame_refl|]. apply frame_foldl. intros w1 c. unfold DeletePending.
  frame_step. eapply frame_weaken; [apply frame_DeleteCommit|done].
Qed.

End handlers.

End EncFrame.
