(* ===== verification/DkgNode.v ===== *)
(** * x/encmempool/dkgnode: the key generation on the node

    Models enckey.go: the stored encryption key, the dealing a node builds for a
    round, the shares it derives from the committed dealings, the search for dealers
    that poisoned them and the proven partial decryptions.  Reading and writing the
    key file is I/O; the random polynomial, scalars and nonces are arguments. *)
From S2P Require Import Prelude Codec Bank Sha256 EncTypes StakeWeight Threshold CurveModel Dkg DkgProofs EncKeeper EncRegistry EncDkg EncIngest EncFrame.
From stdpp Require Import gmap strings list.
From Stdlib Require Import ZArith Lia.

#[local] Set Default Goal Selector "!".
Open Scope Z_scope.

Module DkgNode.
Import EncTypes EncIngest EncFrame Threshold Dkg DkgProofs.

(** ** The key file *)

Record encKeyJSON := mkEncKeyJSON { ekj_Priv : string; ekj_Pub : string }.
Record EncKey := mkEncKey { Priv : Z; ek_Pub : string }.

(** [hex.DecodeString]. *)
Definition hex_value (c : Ascii.ascii) : option Z :=
  let z := byte_to_Z c in
  if (48 <=? z) && (z <=? 57) then Some (z - 48) else
  if (97 <=? z) && (z <=? 102) then Some (z - 87) else
  if (65 <=? z) && (z <=? 70) then Some (z - 55) else None.
Fixpoint DecodeString (s : string) : option string :=
  match s with
  | EmptyString => Some EmptyString
  | String a (String b r) =>
      match hex_value a, hex_value b, DecodeString r with
      | Some x, Some y, Some t => Some (String (byte_of (16 * x + y)) t)
      | _, _, _ => None
      end
  | _ => None
  end.

Section definitions.
Context `{Curve} `{AesGcm}.

Definition parseEncKey `{JSON encKeyJSON} (raw : string) : outcome EncKey :=
  match json_Unmarshal raw with
  | None => Err "malformed enc key file"
  | Some rec =>
      match DecodeString (ekj_Priv rec) with
      | None => Err "enc key priv must be 32-byte hex"
      | Some b =>
          if negb (String.length b =? 32)%nat then Err "enc key priv must be 32-byte hex" else
          let s := SetBytes b in
          if s.2 then Err "enc key is not a canonical scalar" else
          if s.1 =? 0 then Err "enc key must be a non-zero scalar" else
          Ret (mkEncKey s.1 (compressCopy (ScalarBaseMultNonConst s.1)))
      end
  end.

(** The record the first start writes for the drawn scalar. *)
Definition newEncKey (x : Z) : encKeyJSON * EncKey :=
  let pub := compressCopy (ScalarBaseMultNonConst x) in
  (mkEncKeyJSON (hex_bytes (scalar_bytes x)) (hex_bytes pub), mkEncKey x pub).

Definition MyIndex (e : EncKey) (members : list RoundMember) : Z :=
  match list_find (fun m => EncPubKey m = ek_Pub e) members with
  | Some (_, m) => Index m
  | None => 0
  end.

(** ** Dealing *)

(** The members with the points they own, in the order of the loops. *)
Definition owned_points (members : list RoundMember) : list (RoundMember * Z) :=
  concat ((fun m => (fun p => (m, p)) <$> OwnedEvalPoints m) <$> members).

(** [coeffs] is the polynomial [Deal] draws, [seal p] the scalar and nonce that
    [EncryptShareTo] draws for the point [p]. *)
Definition seal_share (seal : Z -> Z * string) (shares : gmap Z Z) (mp : RoundMember * Z) : outcome DkgStoredEncShare :=
  match shares !! mp.2 with
  | None => Err "missing share at eval point"
  | Some s =>
      ct ← EncryptShareTo (seal mp.2).1 (seal mp.2).2 (EncPubKey mp.1) s;
      Ret (mkDkgStoredEncShare mp.2 (ct_A ct) (ct_Nonce ct) (ct_Body ct))
  end.
Definition BuildDealing (coeffs : list Z) (seal : Z -> Z * string) (epoch : Z) (members : list RoundMember) (thr : Z)
    : outcome VoteExtDealing :=
  let evalPoints := concat (OwnedEvalPoints <$> members) in
  d ← Deal coeffs evalPoints thr;
  enc ← map_ok (seal_share seal d.2) (owned_points members);
  Ret (mkVoteExtDealing epoch d.1 enc).

(** ** Deriving the shares *)

Definition ciphertext_of (es : DkgStoredEncShare) : Ciphertext := mkCiphertext (es_A es) (es_Nonce es) (es_Body es).

(** One round of the inner loop; the accumulator is [None] while [first] holds. *)
Definition derive_step (encPriv p : Z) (dealings : gmap Z Dealing) (X : option Z) (dealer : Z) : outcome (option Z) :=
  match dealings !! dealer with
  | None => Err "missing dealing from qual dealer"
  | Some d =>
      match find_enc_share d p with
      | None => Err "no enc-share at eval point"
      | Some es =>
          s ← DecryptShareFrom encPriv p (ciphertext_of es);
          Ret (Some (match X with None => s | Some x => (x + s) mod GroupOrder end))
      end
  end.
Definition derive_point (encPriv : Z) (qual : list Z) (dealings : gmap Z Dealing) (p : Z) : outcome Share :=
  X ← fold_ok (derive_step encPriv p dealings) None qual;
  match X with
  | None => Err "no qual dealers"
  | Some x => Ret (mkShare p x)
  end.
Definition DeriveShares (myEvalPoints : list Z) (encPriv : Z) (qual : list Z) (dealings : gmap Z Dealing) : outcome (list Share) :=
  map_ok (derive_point encPriv qual dealings) myEvalPoints.

(** ** Poisoned dealers *)

Record PoisonReport := mkPoisonReport { pr_Dealer : Z; pr_Point : Z }.
Record dealerData := mkDealerData { dd_commitments : list Point; dd_commitBad : bool; dd_shareByPoint : gmap Z Ciphertext }.

(** The first share of a point wins. *)
Definition index_shares (l : list DkgStoredEncShare) : gmap Z Ciphertext :=
  foldl (fun m es => match m !! es_MemberIndex es with Some _ => m | None => <[es_MemberIndex es := ciphertext_of es]> m end) ∅ l.
Definition parse_dealer (d : Dealing) : dealerData :=
  match ParseCommitmentPoints (d_Commitments d) with
  | Some cps => mkDealerData cps false (index_shares (d_EncShares d))
  | None => mkDealerData [] true (index_shares (d_EncShares d))
  end.
Definition parse_dealers (qual : list Z) (dealings : gmap Z Dealing) : gmap Z dealerData :=
  foldl (fun m dealer => match dealings !! dealer with Some d => <[dealer := parse_dealer d]> m | None => m end) ∅ qual.
Definition judge (encPriv : Z) (parsed : gmap Z dealerData) (p dealer : Z) : list PoisonReport :=
  let report := [mkPoisonReport dealer p] in
  match parsed !! dealer with
  | None => []
  | Some dd =>
      match dd_shareByPoint dd !! p with
      | None => report
      | Some ct =>
          match DecryptShareFrom encPriv p ct with
          | Ret s => if dd_commitBad dd || negb (VerifyShare (dd_commitments dd) p (Some s)) then report else []
          | _ => report
          end
      end
  end.
Definition DetectPoisonedDealers (myEvalPoints : list Z) (encPriv : Z) (qual : list Z) (dealings : gmap Z Dealing) : list PoisonReport :=
  let parsed := parse_dealers qual dealings in
  concat ((fun p => concat (judge encPriv parsed p <$> qual)) <$> myEvalPoints).

(** ** Proven partial decryptions *)
Definition ProveShareFor (fuel : nat) (share : Share) (a : string) : outcome (option (string * string)) :=
  r ← ProveDecryptShare fuel share (mkCiphertext a EmptyString EmptyString);
  Ret (match r with Some (ds, pf) => Some (ds_D ds, MarshalDLEQProof pf) | None => None end).

(** ** The search without the hoisted tables *)

(** The verdict on one dealer at one point, read from the dealing itself. *)
Definition clean (encPriv : Z) (d : Dealing) (p : Z) : bool :=
  match find_enc_share d p with
  | None => false
  | Some es =>
      match DecryptShareFrom encPriv p (ciphertext_of es), ParseCommitmentPoints (d_Commitments d) with
      | Ret s, Some cps => VerifyShare cps p (Some s)
      | _, _ => false
      end
  end.
Definition detect_directly (myEvalPoints : list Z) (encPriv : Z) (qual : list Z) (dealings : gmap Z Dealing) : list PoisonReport :=
  concat ((fun p => concat ((fun dealer =>
    match dealings !! dealer with
    | None => []
    | Some d => if clean encPriv d p then [] else [mkPoisonReport dealer p]
    end) <$> qual)) <$> myEvalPoints).

Lemma index_shares_lookup l p :
  index_shares l !! p = ciphertext_of <$> (list_find (fun s => es_MemberIndex s = p) l ≫= fun im => Some im.2).
Proof.
  unfold index_shares. assert (G : forall m : gmap Z Ciphertext,
    foldl (fun m es => match m !! es_MemberIndex es with Some _ => m | None => <[es_MemberIndex es := ciphertext_of es]> m end) m l !! p =
    match m !! p with Some c => Some c | None => ciphertext_of <$> (list_find (fun s => es_MemberIndex s = p) l ≫= fun im => Some im.2) end).
  2: by rewrite G, lookup_empty.
  induction l as [|es l IH]; intros m; cbn [foldl]; [by destruct (m !! p)|]. rewrite IH. cbn [list_find].
  case_decide as E.
  - subst p. cbn. destruct (m !! es_MemberIndex es) as [c|] eqn:Em; [by rewrite Em|]. by rewrite lookup_insert_eq.
  - assert (Es : (list_find (fun s => es_MemberIndex s = p) l ≫= fun im => Some im.2) =
      ((prod_map S id <$> list_find (fun s => es_MemberIndex s = p) l) ≫= fun im => Some im.2)) by (by destruct (list_find _ l) as [[? ?]|]).
    rewrite <- Es. destruct (m !! es_MemberIndex es); [done|]. by rewrite lookup_insert_ne.
Qed.

Lemma parse_dealers_lookup qual dealings i :
  parse_dealers qual dealings !! i = if decide (i ∈ qual) then parse_dealer <$> dealings !! i else None.
Proof.
  unfold parse_dealers. assert (G : forall m : gmap Z dealerData,
    foldl (fun m dealer => match dealings !! dealer with Some d => <[dealer := parse_dealer d]> m | None => m end) m qual !! i =
    if decide (i ∈ qual) then match dealings !! i with Some d => Some (parse_dealer d) | None => m !! i end else m !! i).
  2: { rewrite G, lookup_empty. case_decide; [|done]. by destruct (dealings !! i). }
  induction qual as [|q qual IH]; intros m; cbn [foldl]; [done|]. rewrite IH.
  destruct (decide (q = i)) as [->|Hne].
  - rewrite (decide_True _ _ (list_elem_of_here i qual)). destruct (dealings !! i) as [d|]; [rewrite lookup_insert_eq|]; by case_decide.
  - assert (Hq : i ∈ q :: qual <-> i ∈ qual) by (rewrite elem_of_cons; naive_solver). rewrite (decide_ext _ _ _ _ Hq).
    destruct (dealings !! q); [|done]. by rewrite lookup_insert_ne.
Qed.

Lemma judge_clean encPriv qual dealings p dealer : dealer ∈ qual ->
  judge encPriv (parse_dealers qual dealings) p dealer =
  match dealings !! dealer with
  | None => []
  | Some d => if clean encPriv d p then [] else [mkPoisonReport dealer p]
  end.
Proof.
  intros Hq. unfold judge. rewrite parse_dealers_lookup, decide_True by done. destruct (dealings !! dealer) as [d|]; [|done]. cbn [fmap option_fmap option_map].
  unfold clean, parse_dealer, find_enc_share. destruct (ParseCommitmentPoints (d_Commitments d)) as [cps|]; cbn [dd_shareByPoint dd_commitBad dd_commitments];
    rewrite index_shares_lookup; destruct (list_find _ _) as [[k es]|]; cbn; try done.
  all: destruct (DecryptShareFrom encPriv p (ciphertext_of es)) as [sh| |]; try done.
  by destruct (match SharePubKey cps p with Some _ => _ | None => _ end).
Qed.

(** The search with one table per dealer reports exactly what the nested loop over
    points and dealers reports, in the same order. *)
Theorem detection_unhoisted myEvalPoints encPriv qual dealings :
  DetectPoisonedDealers myEvalPoints encPriv qual dealings = detect_directly myEvalPoints encPriv qual dealings.
Proof.
  unfold DetectPoisonedDealers, detect_directly. cbv zeta. f_equal. apply list_fmap_ext. intros _ p _. f_equal.
  apply list_fmap_ext. intros k dealer Hk. apply judge_clean. by eapply list_elem_of_lookup_2.
Qed.

Lemma detect_nil myEvalPoints encPriv qual dealings p dealer d :
  DetectPoisonedDealers myEvalPoints encPriv qual dealings = [] ->
  p ∈ myEvalPoints -> dealer ∈ qual -> dealings !! dealer = Some d -> clean encPriv d p = true.
Proof.
  unfold DetectPoisonedDealers. cbv zeta. intros E Hp Hq Hd. destruct (clean encPriv d p) eqn:C; [done|].
  assert (Hin : mkPoisonReport dealer p ∈ @nil PoisonReport); [|by apply not_elem_of_nil in Hin].
  rewrite <- E. apply list_elem_of_In, in_concat. eexists. split; [apply list_elem_of_In, list_elem_of_fmap; eexists; split; [reflexivity|exact Hp]|].
  apply in_concat. eexists. split; [apply list_elem_of_In, list_elem_of_fmap; eexists; split; [reflexivity|exact Hq]|].
  rewrite judge_clean by done. rewrite Hd, C. by left.
Qed.

Lemma detect_clean myEvalPoints encPriv qual dealings :
  (forall p dealer, p ∈ myEvalPoints -> dealer ∈ qual -> match dealings !! dealer with Some d => clean encPriv d p = true | None => True end) ->
  DetectPoisonedDealers myEvalPoints encPriv qual dealings = [].
Proof.
  intros Hc. unfold DetectPoisonedDealers. cbv zeta. apply elem_of_nil_inv. intros r Hr.
  apply list_elem_of_In, in_concat in Hr as (l & Hl & Hr). apply list_elem_of_In, list_elem_of_fmap in Hl as (p & -> & Hp).
  apply in_concat in Hr as (l & Hl & Hr). apply list_elem_of_In, list_elem_of_fmap in Hl as (q & -> & Hq).
  rewrite judge_clean in Hr by done. specialize (Hc p q Hp Hq). destruct (dealings !! q); [|done]. by rewrite Hc in Hr.
Qed.

End definitions.

(** ** The shares a node derives *)
Section derive.
Context `{CurveLaws} `{AesGcm}.

Lemma DecryptShareFrom_canonical x p ct s : DecryptShareFrom x p ct = Ret s -> canonical s.
Proof.
  unfold DecryptShareFrom. destruct (ComputeShare _ ct) as [ds| |]; try done. cbn [mbind outcome_bind].
  destruct (parsePoint (ds_D ds)); [|done]. destruct (Decrypt _ ct) as [plain| |]; try done. cbn [mbind outcome_bind].
  destruct (negb _); [done|]. destruct (SetBytes plain).2; [done|]. intros [= <-]. apply SetBytes_canonical.
Qed.

(** A clean share is the value of the committed polynomial. *)
Lemma clean_value x d p coeffs : d_Commitments d = commits coeffs -> coeffs <> [] -> nonzero coeffs -> clean x d p = true ->
  exists es, find_enc_share d p = Some es /\
    DecryptShareFrom x p (ciphertext_of es) = Ret (peval coeffs (scalarFromUint p) mod GroupOrder).
Proof.
  unfold clean. intros -> Hne Hnz. rewrite (parse_commits coeffs Hnz). destruct (find_enc_share d p) as [es|]; [|done].
  destruct (DecryptShareFrom x p (ciphertext_of es)) as [s| |] eqn:E; try done. intros V. exists es. split; [done|].
  apply VerifyShare_exact in V; [|done]. apply DecryptShareFrom_canonical in E as Hc. rewrite E. f_equal.
  unfold eqq in V. by rewrite <- V, Z.mod_small.
Qed.

Section joint.
Context (x : Z) (degree : Z) (ds : list (Z * list Z)) (qual : list Z) (dealings : gmap Z Dealing) (pts : list Z).
Context (Hd : 1 <= degree) (Hw : well_dealt degree ds) (Hq : forall i, i ∈ qual -> i ∈ ds.*1) (Hqn : qual <> []).
Context (HD : forall q, q ∈ qual -> exists d, dealings !! q = Some d /\ d_Commitments d = commits (poly ds q)).
Context (Hclean : DetectPoisonedDealers pts x qual dealings = []).

Lemma poly_ok q : q ∈ ds.*1 -> poly ds q <> [] /\ nonzero (poly ds q).
Proof.
  intros Hi. destruct Hw as [Hn HF]. apply list_elem_of_fmap in Hi as ([i f] & -> & Hin). unfold poly.
  rewrite (elem_of_list_to_map_1 _ i f) by done. cbn. eapply Forall_forall in HF as [Hl Hz]; [|exact Hin]. cbn in Hl.
  split; [|done]. intros ->. cbn in Hl. lia.
Qed.

Lemma derive_step_joint p X q : p ∈ pts -> q ∈ qual ->
  derive_step x p dealings X q = Ret (Some (match X with None => peval (poly ds q) (scalarFromUint p) mod GroupOrder
    | Some a => (a + peval (poly ds q) (scalarFromUint p) mod GroupOrder) mod GroupOrder end)).
Proof.
  intros Hp Hi. unfold derive_step. destruct (HD q Hi) as (d & Ed & Ec). rewrite Ed. destruct (poly_ok q (Hq q Hi)) as [Hne Hnz].
  destruct (clean_value x d p (poly ds q) Ec Hne Hnz) as (es & -> & ->); [|by destruct X].
  by eapply (detect_nil pts x qual dealings).
Qed.

Lemma derive_fold p l : p ∈ pts -> (forall q, q ∈ l -> q ∈ qual) -> forall a,
  fold_ok (derive_step x p dealings) (Some (a mod GroupOrder)) l =
  Ret (Some ((a + sumZ (fun q => peval (poly ds q) (scalarFromUint p)) l) mod GroupOrder)).
Proof.
  intros Hp. induction l as [|q l IH]; intros Hl a; cbn [fold_ok sumZ]; [by rewrite Z.add_0_r|].
  rewrite derive_step_joint by (done || apply Hl; by left). cbn [mbind outcome_bind].
  rewrite <- Zplus_mod, IH by (intros q' Hq'; apply Hl; by right). by rewrite Z.add_assoc.
Qed.

Lemma derive_joint : Forall (fun p => 0 <= p < 2 ^ 32) pts -> DeriveShares pts x qual dealings = Ret (joint_share ds qual <$> pts).
Proof.
  intros HF. unfold DeriveShares. apply map_ok_Ret, Forall_forall. intros p Hp. unfold derive_point, joint_share.
  assert (Es : scalarFromUint p = p) by (eapply Forall_forall in HF; [|exact Hp]; unfold scalarFromUint, u32; by rewrite Z.mod_small).
  assert (exists q l, qual = q :: l) as (q & l & Eq) by (destruct qual; [done|eauto]).
  replace (fold_ok (derive_step x p dealings) None qual) with (fold_ok (derive_step x p dealings) None (q :: l)) by (by rewrite Eq).
  cbn [fold_ok]. rewrite derive_step_joint by (done || rewrite Eq; by left). cbn [mbind outcome_bind].
  rewrite derive_fold by (done || intros r Hr; rewrite Eq; by right). cbn [mbind outcome_bind]. by rewrite Eq, Es.
Qed.

End joint.

(** A node that finds no poisoned dealer holds its shares of the joint key.  For
    a finalised round whose committed dealings are those that were finalised, if the
    search reports nothing then every share the node derives is the value of the
    joint polynomial at a point it owns, and each partial decryption it proves with
    such a share is accepted under the public key of that point. *)
Theorem derived_shares_joint x ds members degree disq weights minW res dealings pts :
  1 <= degree -> members <> [] -> well_dealt degree ds ->
  FinalizePublicWeighted members degree (publish ds) disq weights minW = Ret res ->
  Qual res <> [] -> (forall q, q ∈ Qual res -> exists d, dealings !! q = Some d /\ d_Commitments d = commits (poly ds q)) ->
  Forall (fun p => 0 <= p < 2 ^ 32) pts ->
  DetectPoisonedDealers pts x (Qual res) dealings = [] ->
  DeriveShares pts x (Qual res) dealings = Ret (joint_share ds (Qual res) <$> pts) /\
  exists cps, ParseCommitmentPoints (PublicCommitments res) = Some cps /\
    forall p fuel a D proof, p ∈ pts -> sh_Xi (joint_share ds (Qual res) p) <> 0 ->
      ProveShareFor fuel (joint_share ds (Qual res) p) a = Ret (Some (D, proof)) ->
      VerifyDecryptShare a (mkDecryptShare p D) (SharePubKey cps p) (ParseDLEQProof proof) = true.
Proof.
  intros Hd Hm Hw HR Hqn HD HF Hc. destruct (finalize_result _ _ _ _ _ _ _ Hd Hm Hw HR) as (HQ & _ & HC & Hnz).
  assert (Hq : forall i, i ∈ Qual res -> i ∈ ds.*1) by (rewrite HQ; intros i Hi; apply elem_of_qualified in Hi; naive_solver).
  split; [by eapply derive_joint|]. rewrite HC, <- HQ in *. eexists. split; [by apply parse_commits|].
  intros p fuel a D proof Hp Hx R. set (sh := joint_share ds (Qual res) p) in *.
  assert (Es : scalarFromUint p = p) by (eapply Forall_forall in HF; [|exact Hp]; unfold scalarFromUint, u32; by rewrite Z.mod_small).
  rewrite SharePubKey_spec by (unfold joint; destruct (Z.to_nat degree) eqn:En; [lia|done]). rewrite (peval_joint degree) by done. rewrite Es.
  unfold ProveShareFor in R. destruct (ProveDecryptShare fuel sh _) as [[[ds' pf]|]| |] eqn:EP; try done. injection R as <- <-.
  destruct (ParsePubKey a) as [A|] eqn:EA; [|by unfold ProveDecryptShare, ComputeShare in EP; cbn in EP; rewrite EA in EP].
  destruct (ProveDecryptShare_accepted sh (mkCiphertext a EmptyString EmptyString) A) as (E1 & _ & E3).
  - unfold eqq, sh, joint_share in *. cbn [sh_Xi] in *. by rewrite Zmod_0_l, Zmod_mod.
  - done.
  - specialize (E3 fuel ds' pf EP). replace (mkDecryptShare p (ds_D ds')) with ds'.
    + etransitivity; [|exact E3]. do 2 f_equal. apply base_eqq. unfold eqq, sh, joint_share. cbn [sh_Xi]. by rewrite Zmod_mod.
    + unfold ProveDecryptShare in EP. rewrite E1 in EP. cbn [mbind outcome_bind] in EP. destruct (parsePoint _) in EP; [|done].
      destruct (parsePoint _) in EP; [|done]. destruct (deriveDLEQNonce _ _ _ _ _ _) in EP; [|done]. by injection EP as <- _.
Qed.

End derive.

(** ** An honest dealing *)

Lemma find_unique {A : Type} (f : A -> Z) (l : list A) (x : A) : NoDup (f <$> l) -> x ∈ l ->
  (list_find (fun y => f y = f x) l ≫= fun im => Some im.2) = Some x.
Proof.
  induction l as [|y l IH]; intros HN Hx; [by apply not_elem_of_nil in Hx|]. rewrite fmap_cons in HN. apply NoDup_cons in HN as [Hy HN].
  cbn [list_find]. apply elem_of_cons in Hx as [<-|Hx]; [by rewrite decide_True|].
  rewrite decide_False by (intros E; apply Hy; rewrite E; by apply list_elem_of_fmap_2).
  specialize (IH HN Hx). by destruct (list_find _ l) as [[? ?]|].
Qed.

Section honest.
Context `{CurveLaws} `{AesGcmLaws}.
Context (key : RoundMember -> Z) (coeffs : list Z) (seal : Z -> Z * string) (epoch : Z) (members : list RoundMember).
Context (Hkey : forall m, m ∈ members -> EncPubKey m = compressCopy (ScalarBaseMultNonConst (key m)) /\ ~ eqq (key m) 0).
Context (Hseal : forall p, ~ eqq (seal p).1 0 /\ String.length (seal p).2 = 12%nat).
Context (Hne : coeffs <> []) (Hcan : Forall canonical coeffs) (Hnz : nonzero coeffs).
Context (HN : NoDup (snd <$> owned_points members)).

(** What the dealer seals for a point. *)
Definition share_at (p : Z) : Z := peval coeffs (scalarFromUint p) mod GroupOrder.
Definition sealed (mp : RoundMember * Z) : DkgStoredEncShare :=
  let '(r, nonce) := seal mp.2 in
  mkDkgStoredEncShare mp.2 (compress (ScalarBaseMultNonConst r)) nonce
    (gcm_Seal (kdf (ScalarMultNonConst r (ScalarBaseMultNonConst (key mp.1)))) nonce (scalar_bytes (share_at mp.2))).

Lemma owned_points_elem m p : (m, p) ∈ owned_points members <-> m ∈ members /\ p ∈ OwnedEvalPoints m.
Proof.
  unfold owned_points. rewrite list_elem_of_In, in_concat. split.
  - intros (l & Hl & Hp). apply list_elem_of_In, list_elem_of_fmap in Hl as (m' & -> & Hm).
    apply list_elem_of_In, list_elem_of_fmap in Hp as (p' & [= -> ->] & Hp). done.
  - intros [Hm Hp]. exists ((fun p => (m, p)) <$> OwnedEvalPoints m). split; apply list_elem_of_In, list_elem_of_fmap; eauto.
Qed.

Lemma points_snd : concat (OwnedEvalPoints <$> members) = snd <$> owned_points members.
Proof.
  unfold owned_points. clear. induction members as [|m ms IH]; [done|]. rewrite !fmap_cons. cbn [concat]. rewrite fmap_app, IH.
  by rewrite <- list_fmap_compose, list_fmap_id.
Qed.

Lemma share_canonical p : canonical (share_at p).
Proof. unfold canonical, share_at. apply Z.mod_pos_bound. pose proof GroupOrder_prime as [? _]. lia. Qed.

Lemma seal_share_ok shares mp : mp ∈ owned_points members -> shares !! mp.2 = Some (share_at mp.2) ->
  seal_share seal shares mp = Ret (sealed mp).
Proof.
  destruct mp as [m p]. intros [Hm _]%owned_points_elem Hs. unfold seal_share, sealed. cbn [fst snd] in *. rewrite Hs.
  destruct (Hkey m Hm) as [-> Hk]. unfold EncryptShareTo, EncryptWithR, compressCopy. rewrite parse_compressed by by apply base_finite.
  by destruct (seal p).
Qed.

Lemma BuildDealing_sealed thr : 1 <= thr -> owned_points members <> [] ->
  BuildDealing coeffs seal epoch members thr = Ret (mkVoteExtDealing epoch (commits coeffs) (sealed <$> owned_points members)).
Proof.
  intros Ht Hp. unfold BuildDealing. rewrite points_snd. unfold Deal. rewrite (proj2 (Z.ltb_ge thr 1)) by lia.
  destruct (snd <$> owned_points members) as [|p0 ps] eqn:Ep; [by apply fmap_nil_inv in Ep|]. rewrite <- Ep.
  rewrite (map_ok_Ret _ (fun m => (m, share_at m))) by (apply Forall_forall; intros m _; by rewrite evalPoly_spec).
  cbn [mbind outcome_bind]. rewrite (map_ok_Ret _ sealed); [done|]. apply Forall_forall. intros mp Hmp. apply seal_share_ok; [done|].
  cbn [snd]. rewrite dealt_lookup, decide_True; [done|]. by apply list_elem_of_fmap_2.
Qed.

(** Every point of every member opens to a share that matches the commitments. *)
Lemma sealed_clean d m p : d_Commitments d = commits coeffs -> d_EncShares d = sealed <$> owned_points members ->
  m ∈ members -> p ∈ OwnedEvalPoints m -> clean (key m) d p = true.
Proof.
  intros Ec Ee Hm Hp. destruct (Hkey m Hm) as [Epk Hk]. destruct (Hseal p) as [Hr Hn]. unfold clean, find_enc_share. rewrite Ec, Ee.
  assert (Hin : sealed (m, p) ∈ sealed <$> owned_points members) by (apply list_elem_of_fmap_2, owned_points_elem; done).
  assert (Ei : forall mp, es_MemberIndex (sealed mp) = mp.2) by (intros mp; unfold sealed; by destruct (seal mp.2)).
  pose proof (find_unique es_MemberIndex (sealed <$> owned_points members) (sealed (m, p))) as F. rewrite Ei in F. cbn [snd] in F.
  assert (Ef : (es_MemberIndex ∘ sealed) <$> owned_points members = snd <$> owned_points members)
    by (apply list_fmap_ext; intros _ mp _; apply Ei).
  rewrite F by (done || by rewrite <- list_fmap_compose, Ef).
  destruct (share_roundtrip (key m) p (seal p).1 (seal p).2 (share_at p) Hk Hr Hn (share_canonical p)) as (ct & Henc & _ & _ & Hdec).
  assert (Ect : ciphertext_of (sealed (m, p)) = ct).
  { unfold EncryptShareTo, EncryptWithR, compressCopy in Henc. rewrite parse_compressed in Henc by by apply base_finite.
    injection Henc as <-. unfold sealed, ciphertext_of. cbn [snd fst]. by destruct (seal p). }
  rewrite Ect, Hdec, (parse_commits coeffs Hnz). apply VerifyShare_exact; [done|]. unfold eqq, share_at. by rewrite Zmod_mod.
Qed.

Lemma check_dealt_ok round es seen : r_Members round = members -> Forall (fun m => Index m <> 0) members ->
  (forall P n msg, strlen msg = 32 -> 0 < strlen (gcm_Seal (kdf P) n msg) <= 128) ->
  es ∈ sealed <$> owned_points members -> es_MemberIndex es ∉ seen ->
  check_dealt_share round seen es = Ret (es_MemberIndex es :: seen).
Proof.
  intros Hr Hi Hg Hin Hs. apply list_elem_of_fmap in Hin as ([m p] & -> & [Hm Hp]%owned_points_elem).
  destruct (Hseal p) as [Hr0 Hn]. unfold check_dealt_share, sealed in *. cbn [fst snd] in *. destruct (seal p) as [r nonce]. cbn [fst snd es_MemberIndex es_A es_Nonce es_Body] in *.
  assert (Ho : forall ms, m ∈ ms -> Forall (fun m => Index m <> 0) ms -> EvalPointOwner ms p <> 0).
  { clear - Hp. induction ms as [|a ms IH]; intros Hm HF; [by apply not_elem_of_nil in Hm|]. inversion_clear HF as [|? ? Ha HF']. cbn [EvalPointOwner].
    destruct (OwnsEvalPoint a p) eqn:E; [done|]. apply IH; [|done]. apply elem_of_cons in Hm as [->|Hm]; [|done].
    unfold OwnsEvalPoint in E. by rewrite (proj2 (Zmem_spec p _) Hp) in E. }
  rewrite Hr, (proj2 (Z.eqb_neq _ _) (Ho members Hm Hi)).
  destruct (Zmem p seen) eqn:Z; [by apply Zmem_spec in Z|]. unfold ValidCompressedPoint, parsePoint, compress.
  rewrite parse_compressed by by apply base_finite. unfold strlen at 1. rewrite Hn. change (negb (Z.of_nat 12 =? NonceSize)) with false. cbn [negb].
  assert (strlen (scalar_bytes (share_at p)) = 32) as E32 by (unfold strlen, scalar_bytes; by rewrite be_bytes_length).
  specialize (Hg (ScalarMultNonConst r (ScalarBaseMultNonConst (key m))) nonce (scalar_bytes (share_at p)) E32).
  set (n := strlen (gcm_Seal _ _ _)) in *. unfold maxEncShareBodyBytes. rewrite (proj2 (Z.eqb_neq n 0)), (proj2 (Z.ltb_ge 128 n)) by lia. done.
Qed.

Lemma check_all_ok round l seen : r_Members round = members -> Forall (fun m => Index m <> 0) members ->
  (forall P n msg, strlen msg = 32 -> 0 < strlen (gcm_Seal (kdf P) n msg) <= 128) ->
  (forall es, es ∈ l -> es ∈ sealed <$> owned_points members) -> NoDup (es_MemberIndex <$> l) ->
  (forall es, es ∈ l -> es_MemberIndex es ∉ seen) -> exists r, fold_ok (check_dealt_share round) seen l = Ret r.
Proof.
  intros Hr Hi Hg. revert seen. induction l as [|es l IH]; intros seen Hin HNl Hs; cbn [fold_ok]; [by eexists|].
  rewrite fmap_cons in HNl. apply NoDup_cons in HNl as [Hes HNl].
  rewrite check_dealt_ok by (done || (apply Hin; by left) || (apply Hs; by left)). cbn [mbind outcome_bind].
  apply IH; [intros e He; apply Hin; by right|done|]. intros e He [E|He']%elem_of_cons; [|eapply Hs; [by right|done]].
  apply Hes. rewrite <- E. by apply list_elem_of_fmap_2.
Qed.

(** C15: a node's own dealing is always admitted.  For a round of members with valid
    keys and distinct points, a drawn polynomial of as many coefficients as the threshold,
    none of them zero, is dealt without error, the dealing has the shape the chain
    demands, and every member finds the share of every point it owns in order; a sealed
    scalar is taken to have at most 128 bytes (AES-GCM adds 16 to its 32). *)
Theorem honest_dealing_accepted round :
  r_Members round = members -> Forall (fun m => Index m <> 0) members -> owned_points members <> [] ->
  Z.of_nat (length coeffs) = r_Threshold round ->
  (forall P n msg, strlen msg = 32 -> 0 < strlen (gcm_Seal (kdf P) n msg) <= 128) ->
  exists d, BuildDealing coeffs seal epoch members (r_Threshold round) = Ret d /\ vd_Epoch d = epoch /\
    validateDealingShape round (vd_Commitments d) (vd_EncShares d) = Ret tt /\
    forall idx operator m, m ∈ members ->
      DetectPoisonedDealers (OwnedEvalPoints m) (key m) [idx] {[ idx := mkDealing epoch idx operator (vd_Commitments d) (vd_EncShares d) ]} = [].
Proof.
  intros Hr Hi Hp Hl Hg. assert (1 <= r_Threshold round) as Ht by (rewrite <- Hl; destruct coeffs; [done|cbn; lia]).
  eexists. split; [by apply BuildDealing_sealed|]. cbn [vd_Epoch vd_Commitments vd_EncShares]. split_and!; [done| |].
  - assert (Ei : es_MemberIndex <$> (sealed <$> owned_points members) = snd <$> owned_points members).
    { rewrite <- list_fmap_compose. apply list_fmap_ext. intros _ mp _. cbn. unfold sealed. by destruct (seal mp.2). }
    unfold validateDealingShape, zlen. unfold commits at 1. rewrite length_fmap, Hl, Z.eqb_refl, (parse_commits coeffs Hnz). cbn [negb].
    replace (Z.of_nat (length (sealed <$> owned_points members))) with (TotalEvalPoints (r_Members round)).
    + rewrite Z.eqb_refl. cbn [negb]. destruct (check_all_ok round (sealed <$> owned_points members) [] Hr Hi Hg) as [r ->]; [done|by rewrite Ei| |done].
      intros es _. apply not_elem_of_nil.
    + rewrite Hr, length_fmap. unfold TotalEvalPoints, owned_points, owned. clear. induction members as [|m ms IH]; [done|].
      rewrite fmap_cons. cbn [sumZ concat]. rewrite length_app, length_fmap, Nat2Z.inj_add, IH. done.
  - intros idx operator m Hm. apply detect_clean. intros p dealer Hp' ->%list_elem_of_singleton. rewrite lookup_singleton_eq.
    by apply sealed_clean.
Qed.

End honest.

(** The key file is read back as written. *)
Section key_file.
Context `{CurveLaws} `{AesGcm} `{JSONLaws encKeyJSON}.

Lemma hex_value_digit n : 0 <= n < 16 -> hex_value (hex_digit n) = Some n.
Proof.
  intros Hn. unfold hex_value, hex_digit. destruct (Z.ltb_spec n 10); rewrite byte_to_Z_of by lia.
  - by rewrite (proj2 (Z.leb_le 48 (48 + n))), (proj2 (Z.leb_le (48 + n) 57)), Z.add_simpl_l by lia.
  - rewrite (proj2 (Z.leb_gt (87 + n) 57)), andb_false_r, (proj2 (Z.leb_le 97 (87 + n))), (proj2 (Z.leb_le (87 + n) 102)) by lia.
    by rewrite Z.add_simpl_l.
Qed.

Lemma DecodeString_hex s : DecodeString (hex_bytes s) = Some s.
Proof.
  induction s as [|c s IH]; [done|]. cbn [hex_bytes DecodeString]. pose proof (byte_to_Z_range c).
  rewrite !hex_value_digit, IH by div_lia. do 2 f_equal. rewrite <- (byte_of_to_Z c) at 3. f_equal. div_lia.
Qed.

Lemma parseEncKey_new x : canonical x -> x <> 0 -> parseEncKey (json_Marshal (newEncKey x).1) = Ret (newEncKey x).2.
Proof.
  intros Hx Hx0. unfold parseEncKey, newEncKey. cbn [fst snd]. rewrite json_roundtrip. cbn [ekj_Priv]. rewrite DecodeString_hex.
  unfold scalar_bytes at 1. rewrite be_bytes_length, Nat.eqb_refl. cbn [negb]. rewrite SetBytes_scalar by done. cbn [fst snd].
  by rewrite (proj2 (Z.eqb_neq x 0) Hx0).
Qed.

End key_file.

(** ** A round of two members *)
Module Example.
Import CurveModel DkgProofs.Example.

Definition key (m : RoundMember) : Z := 4 + Index m.
Definition member (i : Z) (points : list Z) : RoundMember :=
  mkRoundMember i "op" "acc" (compressCopy (ScalarBaseMultNonConst (4 + i))) None points true.
Definition members : list RoundMember := [member 1 [1; 2]; member 2 [3]].
Definition seal (p : Z) : Z * string := (7, "nonce-123456").
Definition round : DkgRound := mkDkgRound 9 0 10 20 members 2 "hash" DkgStatusOpen 0.

Lemma key_ok m : m ∈ members -> EncPubKey m = compressCopy (ScalarBaseMultNonConst (key m)) /\ ~ eqq (key m) 0.
Proof.
  intros Hm. assert (m = member 1 [1; 2] \/ m = member 2 [3]) as [-> | ->] by set_solver; (split; [done|vm_compute; discriminate]).
Qed.

Lemma seal_ok p : ~ eqq (seal p).1 0 /\ String.length (seal p).2 = 12%nat.
Proof. split; [vm_compute; discriminate|done]. Qed.

Lemma points_distinct : NoDup (snd <$> owned_points members).
Proof. apply (bool_decide_unpack _). vm_compute. exact I. Qed.

Lemma gcm_short (P : Point) (n msg : string) : strlen msg = 32 -> 0 < strlen (gcm_Seal (kdf P) n msg) <= 128.
Proof. unfold strlen. cbn [gcm_Seal gcm]. rewrite str_app_length. unfold kdf. rewrite sha256_length. lia. Qed.

Lemma honest_dealing_accepted_witness :
  exists d, BuildDealing [3; 4] seal 9 members 2 = Ret d /\ vd_Epoch d = 9 /\
    validateDealingShape round (vd_Commitments d) (vd_EncShares d) = Ret tt /\
    forall idx operator m, m ∈ members ->
      DetectPoisonedDealers (OwnedEvalPoints m) (key m) [idx] {[ idx := mkDealing 9 idx operator (vd_Commitments d) (vd_EncShares d) ]} = [].
Proof.
  apply (honest_dealing_accepted key [3; 4] seal 9 members key_ok seal_ok ltac:(done) ltac:(repeat constructor; done)
    ltac:(apply nonzero_small; reflexivity) points_distinct round eq_refl); [repeat constructor; done|done|done|exact gcm_short].
Defined.

(** The dealings of two dealers, built for the round. *)
Definition built (i : Z) (f : list Z) : Dealing :=
  match BuildDealing f seal 9 members 2 with
  | Ret d => mkDealing 9 i "op" (vd_Commitments d) (vd_EncShares d)
  | _ => mkDealing 9 i "op" [] []
  end.
Definition dealings : gmap Z Dealing := {[ 1 := built 1 [3; 4]; 2 := built 2 [5; 6] ]}.

(** A dealer that seals a wrong share at one point is named. *)
Definition poisoned : gmap Z Dealing :=
  <[ 2 := mkDealing 9 2 "op" (d_Commitments (built 2 [5; 6])) (d_EncShares (built 2 [5; 7])) ]> dealings.
Lemma poison_named : DetectPoisonedDealers [3] 6 [1; 2] poisoned = [mkPoisonReport 2 3].
Proof. vm_compute. reflexivity. Qed.

End Example.

End DkgNode.
