(* ===== verification/DkgDriver.v ===== *)
(** * x/encmempool: the in-memory key generation and the keyper's share file

    Models the protocol driver of dkg/dkg.go, which runs every party of a key
    generation in one process, and the share file of threshold/threshold.go.  The
    random reader is a byte string; reading past its end is the reader's error. *)
From S2P Require Import Prelude Codec Sha256 Threshold CurveModel Dkg DkgProofs DkgNode.
From stdpp Require Import gmap strings list sorting.
From Stdlib Require Import ZArith Lia.

#[local] Set Default Goal Selector "!".
Open Scope Z_scope.

Module DkgDriver.
Import Threshold Dkg DkgProofs.

Inductive Fault := Honest | BadShare.
#[export] Instance Fault_eq_dec : EqDecision Fault.
Proof. solve_decision. Defined.

(** [coeffs] and [share] are filled during the protocol. *)
Record Party := mkParty {
  Index : Z; pa_n : Z; pa_t : Z; pa_all : list Z; fault : Fault;
  coeffs : list Z; pa_share : option Z
}.
Definition MakeMalicious (p : Party) : Party := mkParty (Index p) (pa_n p) (pa_t p) (pa_all p) BadShare (coeffs p) (pa_share p).
Definition NewParties (n t : Z) : list Party :=
  (fun i => mkParty i n t (seqZ 1 n) Honest [] None) <$> seqZ 1 n.

Section definitions.
Context `{Curve}.

(** A share that is missing and a nil share are both absent from [Shares]. *)
Record Dealing := mkDealing { Dealer : Z; Commitments : list Point; Shares : gmap Z Z }.
Record Complaint := mkComplaint { By : Z; Against : Z }.
Record Result := mkResult {
  re_Pub : string; re_Shares : list Share; re_PublicCommitments : list Point;
  re_Qual : list Z; re_Disqualified : list Z
}.

(** ** The dealer round *)

(** Each attempt takes 32 bytes, so that the length of the reader bounds their
    number. *)
Fixpoint rand_loop (fuel : nat) (rng : string) : outcome (Z * string) :=
  match fuel with
  | O => Err "EOF"
  | S fuel =>
      if (String.length rng <? 32)%nat then Err "EOF" else
      let s := SetBytes (String.substring 0 32 rng) in
      let rng := String.substring 32 (String.length rng - 32) rng in
      if negb s.2 && negb (s.1 =? 0) then Ret (s.1, rng) else rand_loop fuel rng
  end.
Definition randScalarFrom (rng : string) : outcome (Z * string) := rand_loop (S (String.length rng)) rng.

Fixpoint draw (k : nat) (rng : string) : outcome (list Z * string) :=
  match k with
  | O => Ret ([], rng)
  | S k => s ← randScalarFrom rng; r ← draw k s.2; Ret (s.1 :: r.1, r.2)
  end.

Definition victim (p : Party) : Z :=
  match List.filter (fun m => negb (m =? Index p)) (pa_all p) with m :: _ => m | [] => Index p end.

Definition corrupt (p : Party) (shares : gmap Z Z) : outcome (gmap Z Z) :=
  match fault p with
  | Honest => Ret shares
  | BadShare =>
      let v := victim p in
      match shares !! v with
      | None => Panic "nil pointer dereference"
      | Some s => Ret (<[v := (s + scalarFromUint 1) mod GroupOrder]> shares)
      end
  end.

Definition deal (p : Party) (rng : string) : outcome (Party * Dealing * string) :=
  c ← draw (Z.to_nat (pa_t p)) rng;
  let commit := ScalarBaseMultNonConst <$> c.1 in
  shares ← map_ok (fun m => s ← evalPoly c.1 m; Ret (m, s)) (pa_all p);
  shares ← corrupt p (foldl (fun acc ms => <[ms.1 := ms.2]> acc) ∅ shares);
  Ret (mkParty (Index p) (pa_n p) (pa_t p) (pa_all p) (fault p) c.1 (pa_share p), mkDealing (Index p) commit shares, c.2).

Fixpoint DealerRound (parties : list Party) (rng : string) : outcome (list Party * list Dealing) :=
  match parties with
  | [] => Ret ([], [])
  | p :: rest =>
      if pa_t p <? 1 then Err "invalid threshold" else
      d ← deal p rng;
      r ← DealerRound rest d.2;
      Ret (d.1.1 :: r.1, d.1.2 :: r.2)
  end.

(** ** The complaint round *)
Definition ComplaintRound (parties : list Party) (dealings : list Dealing) : list Complaint :=
  concat ((fun p => (fun d => mkComplaint (Index p) (Dealer d)) <$>
    List.filter (fun d => negb (VerifyShare (Commitments d) (Index p) (Shares d !! Index p))) dealings) <$> parties).

(** ** Finalisation *)
Definition by_dealer (dealings : list Dealing) : gmap Z Dealing := foldl (fun m d => <[Dealer d := d]> m) ∅ dealings.
Definition dealsToAll (d : Dealing) (parties : list Party) : bool :=
  forallb (fun q => match Shares d !! Index q with Some _ => true | None => false end) parties.

(** A party whose dealing is missing, has the wrong degree or leaves someone out. *)
Definition malformed (t : Z) (byDealer : gmap Z Dealing) (parties : list Party) (p : Party) : bool :=
  match byDealer !! Index p with
  | None => true
  | Some d => negb (Z.of_nat (length (Commitments d)) =? t) || negb (dealsToAll d parties)
  end.
(** A complaint of a party against a share that does fail. *)
Definition upheld (t : Z) (byDealer : gmap Z Dealing) (parties : list Party) (c : Complaint) : bool :=
  in_list (By c) (Index <$> parties) &&
  match byDealer !! Against c with
  | None => false
  | Some d => (Z.of_nat (length (Commitments d)) =? t) && negb (VerifyShare (Commitments d) (By c) (Shares d !! By c))
  end.

(** The sum of the shares, from the first one on. *)
Definition sum_shares (ss : list Z) : Z :=
  match ss with [] => 0 | s :: rest => foldl (fun X s => (X + s) mod GroupOrder) s rest end.
Definition final_share (byDealer : gmap Z Dealing) (qual : list Z) (m : Z) : outcome Share :=
  ss ← map_ok (fun i => match byDealer !! i with
                        | Some d => match Shares d !! m with Some s => Ret s | None => Panic "nil pointer dereference" end
                        | None => Panic "nil pointer dereference"
                        end) qual;
  Ret (mkShare m (sum_shares ss)).

(** [byIndex[m].share = X]: of two parties with one index the map holds the last. *)
Fixpoint set_share (parties : list Party) (s : Share) : list Party :=
  match parties with
  | [] => []
  | p :: rest =>
      if (Index p =? sh_Index s) && negb (in_list (sh_Index s) (Index <$> rest))
      then mkParty (Index p) (pa_n p) (pa_t p) (pa_all p) (fault p) (coeffs p) (Some (sh_Xi s)) :: rest
      else p :: set_share rest s
  end.

Definition Finalize (parties : list Party) (dealings : list Dealing) (complaints : list Complaint)
    : outcome (Result * list Party) :=
  match parties with
  | [] => Err "no parties"
  | p0 :: _ =>
      let t := pa_t p0 in
      if t <? 1 then Err "invalid threshold" else
      let byDealer := by_dealer dealings in
      let disq := (Index <$> List.filter (malformed t byDealer parties) parties) ++
                  (Against <$> List.filter (upheld t byDealer parties) complaints) in
      let qual := sortUint64 (List.filter (fun i => negb (in_list i disq)) (Index <$> parties)) in
      let disqualified := sortUint64 (List.filter (fun i => in_list i disq) (Index <$> parties)) in
      if Z.of_nat (length qual) <? t then Err "DKG failed" else
      let V := aggregate (Commitments <$> byDealer) qual <$> seq 0 (Z.to_nat t) in
      shares ← map_ok (final_share byDealer qual) qual;
      Ret (mkResult (compressCopy (hd Infinity V)) shares V qual disqualified, foldl set_share parties shares)
  end.

Definition RunDKG (parties : list Party) (rng : string) : outcome (Result * list Party) :=
  d ← DealerRound parties rng;
  Finalize d.1 d.2 (ComplaintRound d.1 d.2).

End definitions.

(** ** Every draw is a non-zero scalar *)
Section draws.
Context `{CurveLaws}.

Lemma rand_loop_scalar fuel rng s rest : rand_loop fuel rng = Ret (s, rest) -> canonical s /\ s <> 0.
Proof.
  revert rng. induction fuel as [|fuel IH]; intros rng; cbn [rand_loop]; [done|]. destruct (_ <? 32)%nat; [done|].
  destruct (negb _ && negb _) eqn:E; [|apply IH]. intros [= <- _]. apply andb_true_iff in E as [_ E].
  apply negb_true_iff, Z.eqb_neq in E. split; [apply SetBytes_canonical|done].
Qed.

Definition drawn (k : nat) (cs : list Z) : Prop := length cs = k /\ Forall canonical cs /\ Forall (fun c => c <> 0) cs.

Lemma draw_drawn k rng cs rest : draw k rng = Ret (cs, rest) -> drawn k cs.
Proof.
  revert rng cs rest. induction k as [|k IH]; intros rng cs rest; cbn [draw]; [intros [= <- _]; by repeat constructor|].
  destruct (randScalarFrom rng) as [[s rng']| |] eqn:E; try done. cbn [mbind outcome_bind fst snd].
  destruct (draw k rng') as [[cs' rest']| |] eqn:E'; try done. intros [= <- _]. cbn [fst].
  apply rand_loop_scalar in E as [Hc Hc0]. destruct (IH _ _ _ E') as (<- & ? & ?). split_and!; [done|by constructor..].
Qed.

Lemma drawn_nonzero k cs : drawn k cs -> nonzero cs.
Proof.
  intros (_ & Hc & Hz). apply Forall_forall. intros c Hin. eapply Forall_forall in Hc; [|exact Hin]. eapply Forall_forall in Hz; [|exact Hin].
  unfold eqq. by rewrite Zmod_0_l, Z.mod_small.
Qed.

(** A reader that holds a non-zero scalar next yields it. *)
Lemma randScalarFrom_next c rest : canonical c -> c <> 0 -> randScalarFrom (scalar_bytes c +:+ rest) = Ret (c, rest).
Proof.
  intros Hc Hc0. assert (Hl : String.length (scalar_bytes c) = 32%nat) by apply be_bytes_length.
  pose proof (SetBytes_scalar c Hc) as Hs. unfold randScalarFrom. revert Hl Hs. generalize (scalar_bytes c). intros b Hl Hs.
  cbn [rand_loop]. rewrite str_app_length, Hl. rewrite (proj2 (Nat.ltb_ge _ _)) by apply Nat.le_add_r.
  rewrite (substring_app_l 32 b rest Hl), (substring_app_r 32 _ b rest Hl), Hs. cbn [fst snd].
  rewrite (proj2 (Z.eqb_neq c 0) Hc0). cbn [negb andb]. do 2 f_equal. rewrite Nat.add_comm, Nat.add_sub. by apply substring_all.
Qed.

End draws.

(** ** Lists *)
Lemma list_filter_fmap {A C : Type} (f : C -> bool) (g : A -> C) l : List.filter f (g <$> l) = g <$> List.filter (fun x => f (g x)) l.
Proof. induction l as [|x l IH]; [done|]. rewrite fmap_cons. cbn [List.filter]. destruct (f (g x)); rewrite ?fmap_cons; by rewrite IH. Qed.

Lemma insert_last x l : Forall (fun y => y <= x) l -> insert_sorted x l = l ++ [x].
Proof. induction 1 as [|y l Hy _ IH]; [done|]. simpl. rewrite (proj2 (Z.leb_le y x) Hy). by rewrite IH. Qed.

Lemma sort_sorted l : StronglySorted Z.le l -> sortUint64 l = l.
Proof.
  intros Hs. unfold sortUint64. change l with ([] ++ l) in Hs at 1. change (_ = l) with (foldl (fun acc x => insert_sorted x acc) [] l = [] ++ l).
  revert Hs. generalize (@nil Z) as acc. induction l as [|x l IH]; intros acc Hs; simpl; [by rewrite app_nil_r|].
  rewrite insert_last, IH.
  - by rewrite <- app_assoc.
  - by rewrite <- app_assoc.
  - apply Forall_forall. intros y Hy. eapply StronglySorted_app_1_elem_of; [exact Hs|done|by left].
Qed.

Lemma filter_sorted (f : Z -> bool) l : StronglySorted Z.le l -> StronglySorted Z.le (List.filter f l).
Proof.
  induction 1 as [|x l _ IH Hx]; simpl; [constructor|]. destruct (f x); [|done]. constructor; [done|].
  apply Forall_forall. intros y Hy%list_elem_of_In%filter_In. eapply Forall_forall in Hx; [exact Hx|]. apply list_elem_of_In. naive_solver.
Qed.

Lemma seqZ_sorted m k : StronglySorted Z.le (seqZ m k).
Proof.
  destruct (Z.le_gt_cases k 0); [rewrite seqZ_nil by lia; constructor|].
  rewrite <- (Z2Nat.id k) by lia. generalize (Z.to_nat k) as j. intros j. revert m.
  induction j as [|j IH]; intros m; [constructor|]. rewrite Nat2Z.inj_succ, seqZ_cons, Z.pred_succ by lia. constructor; [apply IH|].
  apply Forall_forall. intros y Hy%elem_of_seqZ. lia.
Qed.

(** ** The shares a party ends with *)
Definition holds (ps : list Party) (s : Share) : Prop := exists p, p ∈ ps /\ Index p = sh_Index s /\ pa_share p = Some (sh_Xi s).

Lemma set_share_index ps s : Index <$> set_share ps s = Index <$> ps.
Proof. induction ps as [|p ps IH]; [done|]. cbn [set_share]. destruct (_ && _); [done|]. by rewrite !fmap_cons, IH. Qed.

Lemma set_share_holds ps s : sh_Index s ∈ Index <$> ps -> holds (set_share ps s) s.
Proof.
  induction ps as [|p ps IH]; [by intros ?%not_elem_of_nil|]. cbn [set_share]. intros Hin.
  destruct (decide (sh_Index s ∈ Index <$> ps)) as [Hr|Hr].
  - unfold in_list. rewrite (bool_decide_eq_true_2 _ Hr), andb_false_r. destruct (IH Hr) as (q & ? & ?). exists q. split; [by right|done].
  - rewrite fmap_cons in Hin. apply elem_of_cons in Hin as [E|]; [|done]. unfold in_list.
    rewrite (bool_decide_eq_false_2 _ Hr), <- E, Z.eqb_refl. eexists. split; [by left|done].
Qed.

Lemma set_share_other ps s s' : sh_Index s <> sh_Index s' -> holds ps s' -> holds (set_share ps s) s'.
Proof.
  intros Hne (q & Hq & Hi & Hs). induction ps as [|p ps IH]; [by apply not_elem_of_nil in Hq|]. cbn [set_share].
  apply elem_of_cons in Hq as [<-|Hq].
  - rewrite (proj2 (Z.eqb_neq (Index q) (sh_Index s))) by lia. exists q. split; [by left|done].
  - destruct (_ && _); [exists q; split; [by right|done]|]. destruct (IH Hq) as (q' & ? & ?). exists q'. split; [by right|done].
Qed.

Lemma set_shares_hold ss ps :
  NoDup (sh_Index <$> ss) -> (forall s, s ∈ ss -> sh_Index s ∈ Index <$> ps) -> forall s, s ∈ ss -> holds (foldl set_share ps ss) s.
Proof.
  revert ps. induction ss as [|s ss IH]; intros ps Hn Hin s' Hs'; [by apply not_elem_of_nil in Hs'|]. cbn [foldl].
  rewrite fmap_cons in Hn. apply NoDup_cons in Hn as [Hnin Hn].
  assert (G : forall ss ps, holds ps s -> sh_Index s ∉ sh_Index <$> ss -> holds (foldl set_share ps ss) s).
  { clear. induction ss as [|r ss IH]; intros ps Hh Hni; [done|]. cbn [foldl]. rewrite fmap_cons, not_elem_of_cons in Hni.
    apply IH; [apply set_share_other; [|done]|]; naive_solver. }
  apply elem_of_cons in Hs' as [->|Hs'].
  - apply G; [|done]. apply set_share_holds, Hin. by left.
  - apply IH; [done| |done]. intros r Hr. rewrite set_share_index. apply Hin. by right.
Qed.

(** ** A run *)
Section run.
Context `{CurveLaws} `{AesGcmLaws}.
Context (n t : Z).
Hypothesis Ht : 1 <= t <= n.
Hypothesis Hn : n < max_index.
#[local] Infix "≡q" := eqq (at level 70).

(** Parties 1 to [n] with the threshold [t], each honest or not. *)
Definition member (p : Party) : Prop := pa_t p = t /\ pa_all p = seqZ 1 n.
Definition committee (ps : list Party) : Prop := Index <$> ps = seqZ 1 n /\ Forall member ps.
Definition bad (p : Party) : bool := bool_decide (fault p = BadShare).
Definition honest (ps : list Party) : list Z := Index <$> List.filter (fun p => negb (bad p)) ps.
Definition malicious (ps : list Party) : list Z := Index <$> List.filter bad ps.

(** The secret of the honest parties. *)
Definition secret (ps : list Party) : Z := sumZ (fun p => hd 0 (coeffs p)) (List.filter (fun p => negb (bad p)) ps).

(** What [p] sends to [m]. *)
Definition value (p : Party) (m : Z) : Z := peval (coeffs p) (scalarFromUint m) mod GroupOrder.
Definition sent (p : Party) (m : Z) : Z :=
  if bad p && (m =? victim p) then (value p m + scalarFromUint 1) mod GroupOrder else value p m.
Record dealt_by (p : Party) (d : Dealing) : Prop := {
  db_drawn : drawn (Z.to_nat t) (coeffs p);
  db_dealer : Dealer d = Index p;
  db_commitments : Commitments d = ScalarBaseMultNonConst <$> coeffs p;
  db_shares m : m ∈ seqZ 1 n -> Shares d !! m = Some (sent p m)
}.

Lemma drawn_not_nil cs : drawn (Z.to_nat t) cs -> cs <> [].
Proof. intros (Hl & _) ->. simpl in Hl. lia. Qed.

Lemma victim_member p : pa_all p = seqZ 1 n -> Index p ∈ seqZ 1 n -> victim p ∈ seqZ 1 n.
Proof.
  intros Ha Hi. unfold victim. rewrite Ha. destruct (List.filter _ _) as [|m l] eqn:E; [done|].
  apply list_elem_of_In. eapply proj1, filter_In. rewrite E. by left.
Qed.

Lemma deal_spec p rng p' d rest :
  member p -> Index p ∈ seqZ 1 n -> deal p rng = Ret (p', d, rest) ->
  dealt_by p' d /\ member p' /\ Index p' = Index p /\ fault p' = fault p.
Proof.
  intros [Hpt Hpa] Hi. unfold deal. rewrite Hpt. destruct (draw _ rng) as [[cs rng']| |] eqn:E; try done.
  cbn [mbind outcome_bind fst snd]. apply draw_drawn in E.
  rewrite (map_ok_Ret _ (fun m => (m, peval cs (scalarFromUint m) mod GroupOrder)))
    by (apply Forall_forall; intros m _; rewrite evalPoly_spec by (by apply drawn_not_nil || apply E); done).
  rewrite Hpa. cbn [mbind outcome_bind]. set (sh := foldl _ _ _).
  assert (Hsh : forall m, m ∈ seqZ 1 n -> sh !! m = Some (peval cs (scalarFromUint m) mod GroupOrder)).
  { intros m Hm. unfold sh. rewrite (dealt_lookup (fun m => peval cs (scalarFromUint m) mod GroupOrder)), decide_True by done. done. }
  clearbody sh. unfold corrupt. set (p1 := mkParty (Index p) _ _ _ _ _ _).
  assert (Hv : victim p1 = victim p) by (unfold victim; cbn [Index pa_all p1]; by rewrite Hpa).
  destruct (fault p) eqn:Ef; cbn [mbind outcome_bind].
  - intros [= <- <- _]. split_and!; [|done || exact Ef..]. split; [done..|]. intros m Hm. unfold sent, bad. cbn [fault p1]. rewrite ?Ef. by apply Hsh.
  - pose proof (Hsh _ (victim_member p Hpa Hi)) as Hvs. rewrite Hvs. cbn [mbind outcome_bind].
    intros [= <- <- _]. split_and!; [|done || exact Ef..]. split; [done..|]. intros m Hm. unfold sent, bad. cbn [fault]. rewrite Hv.
    cbn [Shares]. destruct (Z.eqb_spec m (victim p)) as [->|Hne]; [by rewrite lookup_insert_eq|]. rewrite lookup_insert_ne by done.
    by apply Hsh.
Qed.

Lemma DealerRound_spec ps rng ps' ds :
  Forall member ps -> (forall i, i ∈ Index <$> ps -> i ∈ seqZ 1 n) -> DealerRound ps rng = Ret (ps', ds) ->
  Forall2 dealt_by ps' ds /\ Forall member ps' /\ Index <$> ps' = Index <$> ps /\ fault <$> ps' = fault <$> ps.
Proof.
  intros Hm. revert rng ps' ds. induction Hm as [|p ps Hp _ IH]; intros rng ps' ds Hin; cbn [DealerRound]; [by intros [= <- <-]|].
  destruct (_ <? 1); [done|]. destruct (deal p rng) as [[[p' d] rest]| |] eqn:E; try done. cbn [mbind outcome_bind fst snd].
  destruct (DealerRound ps rest) as [[ps1 ds1]| |] eqn:E'; try done. intros [= <- <-].
  apply deal_spec in E as (? & ? & HI & HF); [|done|apply Hin; by left].
  destruct (IH _ _ _ ltac:(intros i Hi; apply Hin; by right) E') as (? & ? & HI' & HF'). cbn [fst snd].
  split_and!; [by constructor..| |]; rewrite !fmap_cons; congruence.
Qed.

(** A reader that holds the coefficients is enough. *)
Definition stream (css : list (list Z)) : string := foldr (fun c r => scalar_bytes c +:+ r) EmptyString (concat css).
Definition with_coeffs (p : Party) (cs : list Z) : Party :=
  mkParty (Index p) (pa_n p) (pa_t p) (pa_all p) (fault p) cs (pa_share p).

Lemma draw_stream cs css : Forall canonical cs -> Forall (fun c => c <> 0) cs -> draw (length cs) (stream (cs :: css)) = Ret (cs, stream css).
Proof.
  intros Hc. unfold stream. cbn [concat]. rewrite foldr_app. induction Hc as [|c cs Hc _ IH]; intros Hz; [done|].
  apply Forall_cons in Hz as [Hz0 Hz]. cbn [length draw foldr]. rewrite randScalarFrom_next by done. cbn [mbind outcome_bind snd fst]. by rewrite IH.
Qed.

Lemma DealerRound_total ps css :
  Forall member ps -> (forall i, i ∈ Index <$> ps -> i ∈ seqZ 1 n) -> Forall2 (fun _ cs => drawn (Z.to_nat t) cs) ps css ->
  exists ds, DealerRound ps (stream css) = Ret (zip_with with_coeffs ps css, ds).
Proof.
  intros Hm Hin Hcs. induction Hcs as [|p cs ps css Hd _ IH]; [by exists []|].
  apply Forall_cons in Hm as [[Hpt Hpa] Hm]. destruct IH as [ds HD]; [done|intros i Hi; apply Hin; by right|].
  cbn [DealerRound zip_with]. rewrite Hpt, (proj2 (Z.ltb_ge t 1)) by lia. unfold deal. rewrite Hpt. destruct Hd as (Hl & Hc & Hz).
  rewrite <- Hl, draw_stream by done. cbn [mbind outcome_bind fst snd].
  rewrite (map_ok_Ret _ (fun m => (m, peval cs (scalarFromUint m) mod GroupOrder)))
    by (apply Forall_forall; intros m _; rewrite evalPoly_spec by (by apply drawn_not_nil || done); done).
  cbn [mbind outcome_bind]. unfold corrupt. assert (Hv : victim p ∈ pa_all p).
  { rewrite Hpa. apply victim_member; [done|]. apply Hin. by left. }
  destruct (fault p) eqn:Ef; [|rewrite (dealt_lookup (fun m => peval cs (scalarFromUint m) mod GroupOrder)), decide_True by done];
    cbn [mbind outcome_bind fst snd]; rewrite HD; eexists; cbn [mbind outcome_bind fst snd]; unfold with_coeffs at 2; by rewrite Hpt, Ef.
Qed.

(** ** Finalisation of dealt shares *)
Section dealt.
Context (ps : list Party) (ds : list Dealing).
Hypothesis Hc : committee ps.
Hypothesis Hd : Forall2 dealt_by ps ds.

Definition polys : list (Z * list Z) := (fun p => (Index p, coeffs p)) <$> ps.

Lemma polys_keys : polys.*1 = seqZ 1 n.
Proof. unfold polys. rewrite <- list_fmap_compose. apply Hc. Qed.

Lemma polys_well : well_dealt t polys.
Proof.
  split; [rewrite polys_keys; apply NoDup_seqZ|]. unfold polys. apply Forall_fmap, Forall_forall. intros p Hp.
  apply list_elem_of_lookup in Hp as [k Hk]. destruct (Forall2_lookup_l _ _ _ _ _ Hd Hk) as (d & _ & [Hdr _ _ _]).
  simpl. split; [destruct Hdr as [-> _]; lia|by eapply drawn_nonzero].
Qed.

Lemma dealers : Dealer <$> ds = seqZ 1 n.
Proof.
  rewrite <- (proj1 Hc). clear Hc. pose proof Hd as Hd'. clear Hd. induction Hd' as [|p d ps' ds' [_ E _ _] _ IH]; [done|]. by rewrite !fmap_cons, E, IH.
Qed.

Lemma by_dealer_eq : by_dealer ds = list_to_map ((fun d => (Dealer d, d)) <$> ds).
Proof.
  pose proof dealers as E. assert (Hnd : NoDup (Dealer <$> ds)) by (rewrite E; apply NoDup_seqZ). clear E.
  unfold by_dealer. rewrite <- (right_id_L ∅ (∪) (list_to_map _)). generalize (∅ : gmap Z Dealing) as acc.
  clear Hd. induction ds as [|d l IH]; intros acc; [symmetry; apply (left_id_L ∅ (∪))|]. rewrite fmap_cons in Hnd.
  apply NoDup_cons in Hnd as [Hni Hnd]. cbn [foldl]. rewrite IH, fmap_cons by done. cbn [list_to_map foldr curry fst snd].
  change (list_to_map ((Dealer d, d) :: ?m)) with (<[Dealer d := d]> (list_to_map m : gmap Z Dealing)).
  rewrite <- insert_union_l, insert_union_r; [done|].
  apply not_elem_of_list_to_map_1. by rewrite <- list_fmap_compose.
Qed.

Lemma by_dealer_lookup k p d : ps !! k = Some p -> ds !! k = Some d -> by_dealer ds !! Index p = Some d.
Proof.
  intros Hp Hk. destruct (Forall2_lookup_lr _ _ _ _ _ _ Hd Hp Hk) as [_ <- _ _]. rewrite by_dealer_eq. apply elem_of_list_to_map_1.
  - rewrite <- list_fmap_compose. change (NoDup (Dealer <$> ds)). rewrite dealers. apply NoDup_seqZ.
  - apply list_elem_of_fmap. exists d. split; [done|]. by eapply list_elem_of_lookup_2.
Qed.

Lemma party_dealing p : p ∈ ps -> exists d, by_dealer ds !! Index p = Some d /\ dealt_by p d.
Proof.
  intros [k Hk]%list_elem_of_lookup. destruct (Forall2_lookup_l _ _ _ _ _ Hd Hk) as (d & Hkd & Hpd).
  exists d. split; [by eapply by_dealer_lookup|done].
Qed.

Lemma index_party i : i ∈ seqZ 1 n <-> exists p, p ∈ ps /\ Index p = i.
Proof. rewrite <- (proj1 Hc), list_elem_of_fmap. naive_solver. Qed.

Lemma commitments_by_dealer : Commitments <$> by_dealer ds = dealt_points polys.
Proof.
  rewrite by_dealer_eq. unfold dealt_points, polys. rewrite <- !list_to_map_fmap, <- !list_fmap_compose. f_equal.
  clear Hc. pose proof Hd as Hd'. clear Hd. induction Hd' as [|p d ps' ds' [_ E1 E2 _] _ IH]; [done|]. rewrite !fmap_cons, IH. f_equal. simpl. by rewrite E1, E2.
Qed.

Lemma sent_verifies p d m :
  dealt_by p d -> m ∈ seqZ 1 n -> VerifyShare (Commitments d) m (Shares d !! m) = negb (bad p && (m =? victim p)).
Proof.
  intros [Hdr _ Hcm Hs] Hm. rewrite Hs, Hcm by done. pose proof (drawn_not_nil _ Hdr) as Hne.
  apply eq_true_iff_eq. rewrite VerifyShare_exact by done. unfold sent, value. destruct (_ && _); cbn [negb].
  - split; [|done]. rewrite !eqq_mod. intros E. exfalso. apply one_neq_0. change (scalarFromUint 1) with 1 in E.
    apply eqq_sub_0 in E. rewrite <- E. apply eqq_of_eq. ring.
  - split; [done|]. intros _. apply eqq_mod.
Qed.

Lemma none_malformed : List.filter (malformed t (by_dealer ds) ps) ps = [].
Proof.
  rewrite (filter_ext_in _ (fun _ => false)); [clear; by induction ps|]. intros p Hp%list_elem_of_In.
  destruct (party_dealing p Hp) as (d & E & [(Hl & _) _ Hcm Hs]). unfold malformed. rewrite E, Hcm, length_fmap, Hl, Z2Nat.id, Z.eqb_refl by lia.
  simpl. apply negb_false_iff, forallb_forall. intros q Hq%list_elem_of_In. rewrite Hs; [done|]. apply index_party. eauto.
Qed.

(** A complaint is upheld exactly against the sender of a bad share, by its victim. *)
Lemma upheld_iff c : upheld t (by_dealer ds) ps c = true <-> exists p, p ∈ ps /\ Index p = Against c /\ bad p = true /\ By c = victim p.
Proof.
  unfold upheld. rewrite andb_true_iff. unfold in_list. rewrite bool_decide_eq_true, (proj1 Hc). split.
  - intros [Hby Hm]. destruct (by_dealer ds !! Against c) as [d|] eqn:E; [|done].
    assert (Hin : Against c ∈ seqZ 1 n).
    { rewrite <- dealers. rewrite by_dealer_eq in E. apply elem_of_list_to_map_2, list_elem_of_fmap in E as (d' & [= -> ->] & Hd').
      by apply list_elem_of_fmap_2. }
    apply index_party in Hin as (p & Hp & Hi). destruct (party_dealing p Hp) as (d' & E' & Hpd). rewrite Hi, E in E'. injection E' as <-.
    apply andb_true_iff in Hm as [_ Hv]. rewrite (sent_verifies p d (By c) Hpd Hby), negb_involutive in Hv.
    apply andb_true_iff in Hv as [Hb Hv%Z.eqb_eq]. eauto.
  - intros (p & Hp & Hi & Hb & Hv). destruct (party_dealing p Hp) as (d & E & Hpd).
    assert (Hby : By c ∈ seqZ 1 n).
    { rewrite Hv. apply victim_member; [|apply index_party; eauto]. destruct Hc as [_ Hm]. eapply Forall_forall in Hm; [apply Hm|done]. }
    split; [done|]. rewrite <- Hi, E, (sent_verifies p d (By c) Hpd Hby), Hb, Hv, Z.eqb_refl.
    destruct Hpd as [(Hl & _) _ -> _]. rewrite length_fmap, Hl, Z2Nat.id, Z.eqb_refl by lia. done.
Qed.

(** The qualified parties when [disq] are the accused of upheld complaints. *)
Definition quals (disq : list Z) : list Z := List.filter (fun i => negb (in_list i disq)) (seqZ 1 n).
Definition convicted (cs : list Complaint) : list Z := Against <$> List.filter (upheld t (by_dealer ds) ps) cs.

Definition sum_sent (qual : list Z) (m : Z) : Z :=
  sumZ (fun i => default 0 (d ← by_dealer ds !! i; Shares d !! m)) qual mod GroupOrder.

Lemma sum_shares_spec ss : Forall canonical ss -> sum_shares ss = sumZ id ss mod GroupOrder.
Proof.
  destruct ss as [|s ss]; intros Hs; [by rewrite Zmod_0_l|]. apply Forall_cons in Hs as [Hs _]. cbn [sum_shares].
  rewrite <- (Z.mod_small s GroupOrder) at 1 by done. clear Hs. cbn [sumZ]. unfold id at 1. revert s.
  induction ss as [|x ss IH]; intros s; cbn [foldl sumZ]; [by rewrite Z.add_0_r|]. rewrite Zplus_mod_idemp_l, IH. f_equal. unfold id. lia.
Qed.

Lemma sent_canonical p m : canonical (sent p m).
Proof. unfold sent, value. destruct (_ && _); apply canonical_mod. Qed.

Lemma final_share_spec qual m :
  (forall i, i ∈ qual -> i ∈ seqZ 1 n) -> m ∈ seqZ 1 n -> final_share (by_dealer ds) qual m = Ret (mkShare m (sum_sent qual m)).
Proof.
  intros Hq Hm. unfold final_share. set (g := fun i => default 0 (d ← by_dealer ds !! i; Shares d !! m)).
  assert (G : forall i, i ∈ qual -> exists d, by_dealer ds !! i = Some d /\ Shares d !! m = Some (g i) /\ canonical (g i)).
  { intros i (p & Hp & <-)%Hq%index_party. destruct (party_dealing p Hp) as (d & E & [_ _ _ Hs]). exists d.
    unfold g. rewrite E. cbn [mbind option_bind]. rewrite (Hs m Hm). split_and!; [done..|apply sent_canonical]. }
  rewrite (map_ok_Ret _ g) by (apply Forall_forall; intros i Hi; destruct (G i Hi) as (d & -> & -> & _); done).
  cbn [mbind outcome_bind]. rewrite sum_shares_spec; [by rewrite sumZ_map|].
  apply Forall_fmap, Forall_forall. intros i Hi. by destruct (G i Hi) as (d & _ & _ & ?).
Qed.

Lemma Finalize_spec cs :
  let qual := quals (convicted cs) in
  t <= Z.of_nat (length qual) ->
  let V := ScalarBaseMultNonConst <$> joint t polys qual in
  let shares := (fun m => mkShare m (sum_sent qual m)) <$> qual in
  Finalize ps ds cs = Ret (mkResult (compressCopy (hd Infinity V)) shares V qual
    (List.filter (fun i => in_list i (convicted cs)) (seqZ 1 n)), foldl set_share ps shares).
Proof.
  intros qual Hlen V shares. pose proof none_malformed as Hmal.
  pose proof final_share_spec as Hfs. pose proof commitments_by_dealer as Hcb. pose proof polys_well as Hw. pose proof polys_keys as Hk.
  unfold Finalize.
  destruct ps as [|p0 rest] eqn:Eps; [exfalso; destruct Hc as [E _]; apply (f_equal length) in E; rewrite length_seqZ in E; simpl in E; lia|].
  rewrite <- Eps in *. assert (Hp0 : pa_t p0 = t).
  { destruct Hc as [_ Hm]. eapply Forall_forall in Hm; [apply Hm|]. rewrite Eps. by left. }
  rewrite Hp0, (proj2 (Z.ltb_ge t 1)), Hmal by lia. simpl app. fold (convicted cs). rewrite (proj1 Hc).
  fold (quals (convicted cs)). rewrite !sort_sorted by apply filter_sorted, seqZ_sorted. fold qual.
  rewrite (proj2 (Z.ltb_ge _ t)) by done.
  assert (Hq : forall i, i ∈ qual -> i ∈ seqZ 1 n).
  { intros i. unfold qual, quals. rewrite !list_elem_of_In, filter_In. naive_solver. }
  rewrite (map_ok_Ret _ (fun m => mkShare m (sum_sent qual m))) by (apply Forall_forall; intros m Hm; apply Hfs; auto).
  cbn [mbind outcome_bind]. rewrite Hcb, <- (byDealer_publish t polys Hw), joint_points by (done || by rewrite Hk). done.
Qed.

Lemma convicted_round i : i ∈ convicted (ComplaintRound ps ds) <-> exists p, p ∈ ps /\ Index p = i /\ bad p = true.
Proof.
  unfold convicted. rewrite list_elem_of_fmap. split.
  - intros (c & -> & [_ Hu]%list_elem_of_In%filter_In). apply upheld_iff in Hu. naive_solver.
  - intros (p & Hp & Hi & Hb). exists (mkComplaint (victim p) i). split; [done|]. apply list_elem_of_In, filter_In.
    split; [|apply upheld_iff; by exists p]. apply in_concat.
    assert (Hv : victim p ∈ seqZ 1 n).
    { apply victim_member; [|apply index_party; eauto]. destruct Hc as [_ Hm]. eapply Forall_forall in Hm; [apply Hm|done]. }
    apply index_party in Hv as Hq. destruct Hq as (q & Hq & Hqi). apply list_elem_of_lookup in Hp as [k Hk].
    destruct (Forall2_lookup_l _ _ _ _ _ Hd Hk) as (d & Hkd & Hpd).
    eexists. split; [apply list_elem_of_In, list_elem_of_fmap; exists q; split; [reflexivity|exact Hq]|].
    apply list_elem_of_In, list_elem_of_fmap. exists d.
    split; [rewrite Hqi; f_equal; rewrite <- Hi; symmetry; apply Hpd|]. apply list_elem_of_In, filter_In.
    split; [apply list_elem_of_In; by eapply list_elem_of_lookup_2|]. by rewrite Hqi, (sent_verifies p d _ Hpd Hv), Hb, Z.eqb_refl.
Qed.

Lemma same_party p q : p ∈ ps -> q ∈ ps -> Index p = Index q -> p = q.
Proof.
  intros [i Hi]%list_elem_of_lookup [j Hj]%list_elem_of_lookup E.
  assert (i = j); [|congruence]. eapply (NoDup_lookup (Index <$> ps)); [rewrite (proj1 Hc); apply NoDup_seqZ|..]; rewrite list_lookup_fmap.
  - by rewrite Hi.
  - rewrite Hj. simpl. by rewrite E.
Qed.

Lemma round_verdicts p : p ∈ ps -> in_list (Index p) (convicted (ComplaintRound ps ds)) = bad p.
Proof.
  intros Hp. unfold in_list. apply eq_true_iff_eq. rewrite bool_decide_eq_true, convicted_round. split; [|eauto].
  intros (q & Hq & E & Hb). by rewrite <- (same_party q p Hq Hp E).
Qed.

Lemma quals_round : quals (convicted (ComplaintRound ps ds)) = honest ps.
Proof.
  unfold quals, honest. rewrite <- (proj1 Hc), list_filter_fmap. f_equal. apply filter_ext_in.
  intros p Hp%list_elem_of_In. by rewrite round_verdicts.
Qed.

Lemma disqualified_round : List.filter (fun i => in_list i (convicted (ComplaintRound ps ds))) (seqZ 1 n) = malicious ps.
Proof.
  unfold malicious. rewrite <- (proj1 Hc), list_filter_fmap. f_equal. apply filter_ext_in.
  intros p Hp%list_elem_of_In. by rewrite round_verdicts.
Qed.

(** No complaint disqualifies an honest party. *)
Lemma honest_qualified cs i : i ∈ honest ps -> i ∈ quals (convicted cs).
Proof.
  intros (p & -> & [Hp Hb]%list_elem_of_In%filter_In)%list_elem_of_fmap. apply list_elem_of_In in Hp.
  apply list_elem_of_In, filter_In. split; [apply list_elem_of_In, index_party; eauto|].
  unfold in_list. rewrite bool_decide_eq_false_2; [done|].
  intros (c & E & [_ Hu]%list_elem_of_In%filter_In)%list_elem_of_fmap. apply upheld_iff in Hu as (q & Hq & Hi & Hbq & _).
  rewrite (same_party p q Hp Hq) in Hb by congruence. by rewrite Hbq in Hb.
Qed.

Lemma honest_length cs : Z.of_nat (length (honest ps)) <= Z.of_nat (length (quals (convicted cs))).
Proof.
  apply inj_le, submseteq_length, NoDup_submseteq; [|apply honest_qualified].
  rewrite <- quals_round. apply NoDup_ListNoDup, List.NoDup_filter, NoDup_ListNoDup, NoDup_seqZ.
Qed.

Lemma sumZ_mod_each {A : Type} (g : A -> Z) l : sumZ (fun i => g i mod GroupOrder) l mod GroupOrder = sumZ g l mod GroupOrder.
Proof. induction l as [|x l IH]; [done|]. cbn [sumZ]. by rewrite Zplus_mod_idemp_l, Zplus_mod, IH, <- Zplus_mod. Qed.

Lemma poly_party p : p ∈ ps -> poly polys (Index p) = coeffs p.
Proof.
  intros Hp. unfold poly. rewrite (elem_of_list_to_map_1 _ (Index p) (coeffs p)); [done|apply polys_well|].
  unfold polys. apply list_elem_of_fmap. by exists p.
Qed.

Lemma honest_dealt i : i ∈ honest ps -> i ∈ polys.*1.
Proof.
  intros (p & -> & [Hp _]%list_elem_of_In%filter_In)%list_elem_of_fmap. rewrite polys_keys. apply index_party. exists p. by rewrite list_elem_of_In.
Qed.

Lemma joint_secret : hd 0 (joint t polys (honest ps)) = secret ps.
Proof.
  rewrite <- peval_0, (peval_joint t) by (apply polys_well || apply honest_dealt). unfold honest, secret. rewrite sumZ_map.
  apply sumZ_ext, Forall_forall. intros p [Hp _]%list_elem_of_In%filter_In. rewrite poly_party by by apply list_elem_of_In. apply peval_0.
Qed.

Lemma sum_sent_honest m : m ∈ seqZ 1 n -> sum_sent (honest ps) m = peval (joint t polys (honest ps)) m mod GroupOrder.
Proof.
  intros Hm. rewrite (peval_joint t) by (apply polys_well || apply honest_dealt).
  unfold sum_sent. rewrite <- (sumZ_mod_each (fun i => peval (poly polys i) m)). f_equal. apply sumZ_ext, Forall_forall.
  intros i (p & -> & [Hp Hb]%list_elem_of_In%filter_In)%list_elem_of_fmap. apply list_elem_of_In in Hp.
  destruct (party_dealing p Hp) as (d & -> & [_ _ _ Hs]). cbn [mbind option_bind]. rewrite (Hs m Hm). cbn [default].
  unfold sent. apply negb_true_iff in Hb. rewrite Hb. cbn [andb]. unfold value. f_equal. apply elem_of_seqZ in Hm.
  by rewrite scalarFromUint_index, poly_party by (done || lia).
Qed.
End dealt.

(** ** Decryption with the shares of a polynomial *)
Lemma poly_decrypts F r nonce msg :
  F <> [] -> ~ hd 0 F ≡q 0 -> ~ r ≡q 0 -> String.length nonce = 12%nat ->
  exists ct, EncryptWithR r nonce (compressCopy (ScalarBaseMultNonConst (hd 0 F))) msg = Ret ct /\
  forall subset, (forall s, s ∈ subset -> 0 <= sh_Index s < max_index /\ sh_Xi s = peval F (sh_Index s) mod GroupOrder /\ sh_Xi s <> 0) ->
    NoDup (sh_Index <$> subset) -> (length F <= length subset)%nat ->
  exists ds shared, map_ok (fun s => ComputeShare s ct) subset = Ret ds /\ Recover ds = Ret shared /\ Decrypt shared ct = Ret msg.
Proof.
  intros HF Hx Hr Hnonce. unfold EncryptWithR, compressCopy. rewrite parse_compressed by by apply base_finite.
  eexists. split; [reflexivity|]. set (A := ScalarBaseMultNonConst r). intros subset Hsub Hnd Hlen.
  assert (HA : A <> Infinity) by by apply base_finite.
  exists ((fun s => mkDecryptShare (sh_Index s) (compress (ScalarMultNonConst (sh_Xi s) A))) <$> subset), (ScalarMultNonConst (peval F 0) A).
  split_and!.
  - apply map_ok_Ret, Forall_forall. intros s Hs. unfold ComputeShare, compress at 1. cbn [ct_A]. by rewrite parse_compressed.
  - apply Recover_interp.
    + apply Forall_fmap, Forall_forall. intros s Hs. destruct (Hsub s Hs) as (_ & E & Hs0). simpl. unfold compress. rewrite E in *.
      rewrite smul_mod. apply parse_compressed, smul_finite; [done|]. unfold eqq. by rewrite Zmod_0_l.
    + by rewrite <- list_fmap_compose.
    + apply Forall_fmap, Forall_forall. intros s Hs. by destruct (Hsub s Hs).
    + destruct subset; [destruct F; simpl in *; lia || done|done].
    + by rewrite length_fmap.
  - unfold Decrypt. cbn [ct_Nonce ct_Body]. rewrite Hnonce. change (negb (Z.of_nat 12 =? NonceSize)) with false. cbv iota.
    replace (ScalarMultNonConst (peval F 0) A) with (ScalarMultNonConst r (ScalarBaseMultNonConst (hd 0 F))); [by rewrite gcm_open_seal|].
    unfold A. rewrite !base_mul, peval_0. f_equal. ring.
Qed.

Lemma parties_kept ps ps' :
  Index <$> ps' = Index <$> ps -> fault <$> ps' = fault <$> ps -> honest ps' = honest ps /\ malicious ps' = malicious ps.
Proof.
  unfold honest, malicious. revert ps'. induction ps as [|p ps IH]; intros [|p' ps']; try done. rewrite !fmap_cons.
  intros [= Ei Hi] [= Ef Hf]. destruct (IH ps' Hi Hf) as [E1 E2]. cbn [List.filter]. assert (Hb : bad p' = bad p) by (unfold bad; by rewrite Ef).
  rewrite Hb. destruct (bad p); cbn [negb]; rewrite ?fmap_cons; split; congruence.
Qed.

(** C7: a key generation with enough honest parties succeeds whatever the others do.
    When the reader lasts for the dealer round and at least the threshold of the parties
    are honest, [RunDKG] returns a result in which exactly the honest parties are
    qualified, and each of them ends holding its share; no list of complaints, forged
    ones included, makes [Finalize] fail or disqualifies an honest party; the public key
    is that of the sum of the honest secrets, and unless this sum is zero what is
    encrypted to it is decrypted by any threshold of the shares. *)
Theorem RunDKG_correct ps rng ps1 ds :
  committee ps -> DealerRound ps rng = Ret (ps1, ds) -> t <= Z.of_nat (length (honest ps)) ->
  exists res ps', RunDKG ps rng = Ret (res, ps') /\
  re_Qual res = honest ps /\ re_Disqualified res = malicious ps /\ (forall s, s ∈ re_Shares res -> holds ps' s) /\
  (forall cs, exists res' ps'', Finalize ps1 ds cs = Ret (res', ps'') /\ forall i, i ∈ honest ps -> i ∈ re_Qual res') /\
  re_Pub res = compressCopy (ScalarBaseMultNonConst (secret ps1)) /\
  (~ secret ps1 ≡q 0 ->
   forall r nonce msg, ~ r ≡q 0 -> String.length nonce = 12%nat ->
   exists ct, EncryptWithR r nonce (re_Pub res) msg = Ret ct /\
   forall subset, (forall s, s ∈ subset -> s ∈ re_Shares res) -> NoDup (sh_Index <$> subset) ->
     t <= Z.of_nat (length subset) -> Forall (fun s => sh_Xi s <> 0) subset ->
   exists partials shared, map_ok (fun s => ComputeShare s ct) subset = Ret partials /\
     Recover partials = Ret shared /\ Decrypt shared ct = Ret msg).
Proof.
  intros [Hi Hm] HD Hh. assert (Hin : forall i, i ∈ Index <$> ps -> i ∈ seqZ 1 n) by (intros i; by rewrite Hi).
  destruct (DealerRound_spec ps rng ps1 ds Hm Hin HD) as (Hd & Hm1 & Hi1 & Hf1).
  assert (Hc : committee ps1) by (split; [by rewrite Hi1|done]). destruct (parties_kept ps ps1 Hi1 Hf1) as [Eh Em]. rewrite <- Eh, <- Em in *.
  pose proof (fun cs => Finalize_spec ps1 ds Hc Hd cs ltac:(etransitivity; [exact Hh|by apply honest_length])) as HF.
  pose proof (HF (ComplaintRound ps1 ds)) as HR. rewrite quals_round, disqualified_round in HR by done.
  set (F := joint t (polys ps1) (honest ps1)) in HR.
  assert (HlF : length F = Z.to_nat t) by (unfold F, joint; by rewrite length_fmap, length_seq).
  assert (HFn : F <> []) by (intros E; rewrite E in HlF; simpl in HlF; lia).
  assert (Hhs : forall i, i ∈ honest ps1 -> i ∈ seqZ 1 n).
  { intros i (p & -> & [Hp _]%list_elem_of_In%filter_In)%list_elem_of_fmap. rewrite <- Hi, <- Hi1. by apply list_elem_of_fmap_2, list_elem_of_In. }
  eexists _, _. split; [unfold RunDKG; rewrite HD; exact HR|]. cbn [re_Qual re_Disqualified re_Shares re_Pub]. split_and!; [done..| | | |].
  - apply set_shares_hold; [|intros s (m & -> & Hs)%list_elem_of_fmap; rewrite Hi1, Hi; by apply Hhs].
    rewrite <- list_fmap_compose. change (NoDup (id <$> honest ps1)). rewrite list_fmap_id, <- (quals_round ps1 ds) by done.
    apply NoDup_ListNoDup, List.NoDup_filter, NoDup_ListNoDup, NoDup_seqZ.
  - intros cs. eexists _, _. split; [apply HF|]. intros i. by apply honest_qualified.
  - rewrite <- (joint_secret ps1 ds) by done. fold F. by destruct F.
  - intros Hx r nonce msg Hr Hnonce. rewrite <- (joint_secret ps1 ds) in Hx by done. fold F in Hx.
    replace (hd Infinity (ScalarBaseMultNonConst <$> F)) with (ScalarBaseMultNonConst (hd 0 F)) by by destruct F.
    destruct (poly_decrypts F r nonce msg HFn Hx Hr Hnonce) as (ct & Henc & Hdec). exists ct. split; [done|].
    intros subset Hsub Hnd Hlen Hnz. apply Hdec; [|done|lia]. intros s Hs. eapply Forall_forall in Hnz; [|exact Hs].
    apply Hsub, list_elem_of_fmap in Hs as (m & -> & Hm'). cbn [sh_Index sh_Xi] in *. apply Hhs in Hm'.
    rewrite (sum_sent_honest ps1 ds) in * by done. apply elem_of_seqZ in Hm'. split_and!; [lia..|done|done].
Qed.

End run.

(** [NewParties] and [MakeMalicious] give such committees. *)
Lemma NewParties_committee n t (mal : Z -> bool) :
  committee n t ((fun p => if mal (Index p) then MakeMalicious p else p) <$> NewParties n t).
Proof.
  unfold committee, NewParties. rewrite <- !list_fmap_compose. split.
  - rewrite <- (list_fmap_id (seqZ 1 n)) at 2. apply list_fmap_ext. intros k i _. simpl. by destruct (mal i).
  - apply Forall_fmap, Forall_forall. intros i _. simpl. by destruct (mal i).
Qed.

(** ** Three parties, the second of which cheats *)
Module Example.
Import CurveModel.

Definition parties : list Party := (fun p => if Index p =? 2 then MakeMalicious p else p) <$> NewParties 3 2.
Definition polynomials : list (list Z) := [[3; 4]; [5; 6]; [7; 8]].

Lemma polynomials_drawn : Forall2 (fun _ cs => drawn 2 cs) parties polynomials.
Proof. repeat constructor; done. Qed.

Lemma RunDKG_correct_witness :
  exists res ps', RunDKG parties (stream polynomials) = Ret (res, ps') /\ re_Qual res = [1; 3] /\ re_Disqualified res = [2] /\
    exists ct, EncryptWithR 7 "nonce-123456" (re_Pub res) "secret" = Ret ct.
Proof.
  assert (Hc : committee 3 2 parties) by exact (NewParties_committee 3 2 (fun i => i =? 2)).
  destruct (DealerRound_total 3 2 ltac:(lia) parties polynomials) as [ds HD];
    [apply Hc|intros i; by rewrite (proj1 Hc)|apply polynomials_drawn|].
  assert (Hn : 3 < max_index) by reflexivity.
  destruct (RunDKG_correct 3 2 ltac:(lia) Hn parties _ _ ds Hc HD) as (res & ps' & HR & HQ & HX & _ & _ & _ & HE).
  { vm_compute. discriminate. }
  exists res, ps'. split; [exact HR|]. split; [exact HQ|]. split; [exact HX|].
  assert (Hs : ~ eqq (secret (zip_with with_coeffs parties polynomials)) 0) by (vm_compute; discriminate).
  assert (Hr : ~ eqq 7 0) by (vm_compute; discriminate).
  destruct (HE Hs 7 "nonce-123456" "secret" Hr eq_refl) as (ct & Hct & _).
  by exists ct.
Defined.
End Example.
End DkgDriver.

Module ShareFile.
Import Threshold Dkg DkgProofs DkgNode.

(** ** The share file of a keyper *)
Record shareJSON := mkShareJSON { sj_Index : Z; sj_Xi : string }.

Section definitions.
Context `{Curve} `{JSON shareJSON}.

(** The scalar of a [Share] is never nil here. *)
Definition MarshalShare (s : Share) : string := json_Marshal (mkShareJSON (sh_Index s) (hex_bytes (scalar_bytes (sh_Xi s)))).

Definition ParseShare (data : string) : outcome Share :=
  match json_Unmarshal data with
  | None => Err "malformed share"
  | Some j =>
      match DecodeString (sj_Xi j) with
      | None => Err "invalid xi hex"
      | Some raw =>
          if negb (String.length raw =? 32)%nat then Err "xi must be 32 bytes" else
          let xi := SetBytes raw in
          if xi.2 then Err "xi is not a canonical scalar" else
          if xi.1 =? 0 then Err "xi must be a non-zero scalar" else
          if sj_Index j <? 1 then Err "share index must be >= 1" else
          Ret (mkShare (sj_Index j) xi.1)
      end
  end.
End definitions.

Section theorems.
Context `{CurveLaws} `{JSONLaws shareJSON}.

(** A stored share is read back; and whatever is read is a share that, written and
    read again, stays itself: no corrupt file yields a zero or reduced scalar. *)
Theorem share_file_roundtrip :
  (forall s, 1 <= sh_Index s -> canonical (sh_Xi s) -> sh_Xi s <> 0 -> ParseShare (MarshalShare s) = Ret s) /\
  (forall data s, ParseShare data = Ret s ->
     1 <= sh_Index s /\ canonical (sh_Xi s) /\ sh_Xi s <> 0 /\ ParseShare (MarshalShare s) = Ret s /\
     exists j, json_Unmarshal data = Some j /\ sj_Index j = sh_Index s /\ DecodeString (sj_Xi j) = Some (scalar_bytes (sh_Xi s))).
Proof.
  assert (G : forall s, 1 <= sh_Index s -> canonical (sh_Xi s) -> sh_Xi s <> 0 -> ParseShare (MarshalShare s) = Ret s).
  { intros [i x] Hi Hx Hx0. cbn [sh_Index sh_Xi] in *. unfold ParseShare, MarshalShare. rewrite json_roundtrip. cbn [sj_Xi sj_Index sh_Index sh_Xi].
    rewrite DecodeString_hex. unfold scalar_bytes at 1. rewrite be_bytes_length, Nat.eqb_refl, SetBytes_scalar by done. cbn [negb fst snd].
    by rewrite (proj2 (Z.eqb_neq x 0) Hx0), (proj2 (Z.ltb_ge i 1) Hi). }
  split; [exact G|]. intros data s E. unfold ParseShare in E. destruct (json_Unmarshal data) as [j|] eqn:Ej; [|done].
  destruct (DecodeString (sj_Xi j)) as [raw|] eqn:Er; [|done]. destruct (Nat.eqb_spec (String.length raw) 32) as [Hl|]; [|done].
  cbn [negb] in E. destruct (SetBytes raw).2 eqn:Eo; [done|]. destruct (Z.eqb_spec (SetBytes raw).1 0) as [|Hz]; [done|].
  destruct (Z.ltb_spec (sj_Index j) 1) as [|Hi]; [done|]. injection E as <-. cbn [sh_Index sh_Xi].
  pose proof (SetBytes_canonical raw) as Hc. split_and!; [done..|by apply G|]. exists j. split_and!; [done..|].
  rewrite Er. f_equal. symmetry. by apply scalar_SetBytes.
Qed.
End theorems.
End ShareFile.
