(* ===== verification/VoteExt.v ===== *)
(** * evmd: the vote-extension handlers

    Models dkg_voteext.go: what a validator's node attaches to its vote, which
    extensions its peers accept, how the proposer injects the votes of the last
    height, how the others check the injection and how it is consumed before the
    block.  The trimming of an oversized injection is in [VoteTrim], the node's
    cryptography in [DkgNode] and the consumption in [EncIngest]. *)
From S2P Require Import Prelude Codec Bank Sha256 VoteTrim EncTypes StakeWeight Threshold CurveModel Dkg DkgProofs EncKeeper EncRegistry EncDkg EncIngest EncFrame DkgNode.
From stdpp Require Import gmap strings list sorting.
From Stdlib Require Import ZArith Lia.

#[local] Set Default Goal Selector "!".
Open Scope Z_scope.

(** Signing with the secp256k1 package: a DER signature over a digest. *)
Class EcdsaSign : Type := { ecdsa_Sign : Z -> string -> string }.
Class EcdsaLaws `{Curve, Ecdsa, EcdsaSign} : Prop := {
  ecdsa_verifies x d : x mod GroupOrder <> 0 -> ecdsa_Verify (Dkg.compressCopy (ScalarBaseMultNonConst x)) d (ecdsa_Sign x d) = true;
  ecdsa_length x d : String.length d = 32%nat -> 0 < Z.of_nat (String.length (ecdsa_Sign x d)) <= 72
}.

Module VoteExt.
Import EncTypes EncKeeper EncRegistry EncDkg EncIngest EncFrame Threshold Dkg DkgNode.

Definition veMaxPointBytes : Z := 33.
Definition veMaxDleqProofBytes : Z := 64.
Definition veMaxEncShareBodyBytes : Z := 128.
Definition veMaxPoPBytes : Z := 128.
Definition VoteExtMaxBytes : Z := Z.shiftl 1 20.
Definition dkgPoisonCacheMax : Z := 4.
(** The byte that opens a JSON object. *)
Definition veObjectOpen : Ascii.ascii := byte_of 123.

(** The node's own state: its encryption key, its consensus address (empty when it
    could not be read) and the verdicts of earlier searches for poisoned dealings. *)
Record Node := mkNode {
  dkgEncKey : option EncKey;
  dkgConsAddr : string;
  dkgPoisonRpts : gmap Z (list PoisonReport)
}.

Record sharedCache := mkSharedCache { sc_ok : bool; sc_shares : list Share }.

Record RequestPrepareProposal := mkRequestPrepareProposal {
  rp_MaxTxBytes : Z; rp_Txs : list string; rp_LocalLastCommit : ExtendedCommitInfo
}.
Record RequestProcessProposal := mkRequestProcessProposal { pp_Txs : list string; pp_Height : Z }.

(** [bytes.Count] of one byte. *)
Fixpoint count_byte (c : Ascii.ascii) (s : string) : Z :=
  match s with
  | EmptyString => 0
  | String d r => (if Ascii.eqb d c then 1 else 0) + count_byte c r
  end.

(** ** The cache of poison verdicts *)

Section cache.
Context `{Curve} `{AesGcm}.

Definition oldest_epoch (cache : gmap Z (list PoisonReport)) : Z :=
  foldl (fun oldest e => if (oldest =? 0) || (e <? oldest) then e else oldest) 0 (map_to_list cache).*1.
Fixpoint evict (fuel : nat) (cache : gmap Z (list PoisonReport)) : gmap Z (list PoisonReport) :=
  match fuel with
  | O => cache
  | S n => if dkgPoisonCacheMax <=? Z.of_nat (size cache) then evict n (delete (oldest_epoch cache) cache) else cache
  end.
Definition cachedPoisonReports (epoch : Z) (myPoints : list Z) (ek : EncKey) (qual : list Z) (dealings : gmap Z Dealing)
    (cache : gmap Z (list PoisonReport)) : list PoisonReport * gmap Z (list PoisonReport) :=
  match cache !! epoch with
  | Some rpts => (rpts, cache)
  | None =>
      let rpts := DetectPoisonedDealers myPoints (Priv ek) qual dealings in
      (rpts, <[epoch := rpts]> (evict (size cache) cache))
  end.

End cache.

(** [SignEncKeyPoP] of dkg/pop.go. *)
Definition SignEncKeyPoP `{EcdsaSign} (encPriv : Z) (operator : string) : string :=
  if String.eqb operator "" then EmptyString else ecdsa_Sign encPriv (popDigest operator).

(** [dkgAttackShares] of dkg_attack_noop.go, the default build. *)
Definition dkgAttackShares (honest : list VoteExtShare) : list VoteExtShare := honest.

Section handlers.
Context {B : Type} `{EncJSON} `{Curve} `{AesGcm} `{MathInt} `{Ecdsa} `{EcdsaSign} `{JSON VoteExtension} `{CommitProto}.
(** The consensus parameters and the staking module's index of validators by
    consensus address, as committed before the height in question. *)
Variable cp : ConsensusParams.
Variable GetValidatorByConsAddr : string -> option string.
Implicit Types w : World B.

Definition veActive (ctx : Ctx) w : bool :=
  let p := GetParams w in
  if negb (DkgEnabled p) || negb (DkgTransparent p) then false else
  match cp_VoteExtensionsEnableHeight cp with
  | None => false
  | Some enableHeight => VoteExtEnabledAt enableHeight (BlockHeight ctx)
  end.

Definition myOperator (n : Node) : string :=
  if String.eqb (dkgConsAddr n) "" then EmptyString else default EmptyString (GetValidatorByConsAddr (dkgConsAddr n)).

(** ** ExtendVote *)

(** The evaluation points of the member with the index [idx]. *)
Definition points_of (round : DkgRound) (idx : Z) : list Z :=
  match memberByIndex round idx with Some m => OwnedEvalPoints m | None => [] end.
Definition dealings_map (epoch : Z) w : gmap Z Dealing :=
  foldl (fun m d => <[d_DealerIndex d := d]> m) ∅ (IterateDealings epoch w).

Definition deriveEpochShares (ek : EncKey) (op : string) (epoch : Z) w (cache : gmap Z (list PoisonReport))
    : sharedCache * gmap Z (list PoisonReport) :=
  let none := (mkSharedCache false [], cache) in
  match GetDkgRound epoch w with
  | None => none
  | Some round =>
      let idx := MemberIndexByOperator (r_Members round) op in
      if idx =? 0 then none else
      let myPoints := points_of round idx in
      if zlen myPoints =? 0 then none else
      match GetActiveKey epoch w with
      | None => none
      | Some ak =>
          let dealings := dealings_map epoch w in
          let '(reports, cache) := cachedPoisonReports epoch myPoints ek (ak_Qual ak) dealings cache in
          if 0 <? zlen reports then (mkSharedCache false [], cache) else
          match DeriveShares myPoints (Priv ek) (ak_Qual ak) dealings with
          | Ret shares => (mkSharedCache true shares, cache)
          | _ => (mkSharedCache false [], cache)
          end
      end
  end.

(** [IterateInFlightFrom] of the keeper with a callback that threads a state. *)
Fixpoint visit_in_flight_st {S : Type} (fn : S -> EncTx -> bool * S) (limit : nat) (entries : list (string * string)) (st : S) : S :=
  match limit, entries with
  | O, _ | _, [] => st
  | Datatypes.S n, (_, v) :: rest =>
      match json_Unmarshal v with
      | Some e => let '(more, st) := fn st e in if more then visit_in_flight_st fn n rest st else st
      | None => visit_in_flight_st fn limit rest st
      end
  end.

(** What the callback of [buildDecryptShares] closes over. *)
Record serve_st := mkServeSt {
  sv_out : list VoteExtShare;
  shareByEpoch : gmap Z sharedCache;
  sv_cache : gmap Z (list PoisonReport)
}.

(** The shares of one ciphertext, appended while the budget lasts; [fuel] bounds the
    search for a proof nonce. *)
Fixpoint serve_points (fuel : nat) (shareCap : Z) (storedIdx : list Z) (e : EncTx) (shares : list Share) (out : list VoteExtShare)
    : list VoteExtShare :=
  match shares with
  | [] => out
  | sh :: rest =>
      if shareCap <=? zlen out then out else
      if Zmem (sh_Index sh) storedIdx then serve_points fuel shareCap storedIdx e rest out else
      match ProveShareFor fuel sh (e_A e) with
      | Ret (Some (d, proof)) =>
          serve_points fuel shareCap storedIdx e rest
            (out ++ [mkVoteExtShare (e_Epoch e) (e_DecryptHeight e) (e_Seq e) (sh_Index sh) d proof])
      | _ => serve_points fuel shareCap storedIdx e rest out
      end
  end.

Definition serve (fuel : nat) (h shareCap : Z) (ek : EncKey) (op : string) w (st : serve_st) (e : EncTx) : bool * serve_st :=
  if shareCap <=? zlen (sv_out st) then (false, st) else
  if h <? e_DecryptHeight e then (false, st) else
  if e_Epoch e =? 0 then (true, st) else
  let '(sc, st) :=
    match shareByEpoch st !! e_Epoch e with
    | Some sc => (sc, st)
    | None =>
        let '(sc, cache) := deriveEpochShares ek op (e_Epoch e) w (sv_cache st) in
        (sc, mkServeSt (sv_out st) (<[e_Epoch e := sc]> (shareByEpoch st)) cache)
    end in
  if negb (sc_ok sc) then (true, st) else
  let stored := CollectShares (e_DecryptHeight e) (e_Seq e) w in
  if match GetActiveKey (e_Epoch e) w with
     | Some ak => (0 <? ak_Threshold ak) && (ak_Threshold ak <=? zlen stored)
     | None => false
     end then (true, st) else
  (true, mkServeSt (serve_points fuel shareCap (s_Index <$> stored) e (sc_shares sc) (sv_out st)) (shareByEpoch st) (sv_cache st)).

Definition buildDecryptShares (fuel : nat) (ctx : Ctx) (ek : EncKey) (op : string) w (cache : gmap Z (list PoisonReport))
    : list VoteExtShare * gmap Z (list PoisonReport) :=
  let h := u64 (BlockHeight ctx) in
  let shareCap := VoteExtShareCap (GetParams w) in
  let from := if strandedDecryptGraceBlocks <? h then h - strandedDecryptGraceBlocks else 0 in
  let st := visit_in_flight_st (serve fuel h shareCap ek op w) (Z.to_nat shareCap)
              (kv_range StoreKey (EncTxPrefix +:+ be64 from) (prefixEnd EncTxPrefix) w) (mkServeSt [] ∅ cache) in
  (sv_out st, sv_cache st).

(** The complaint about one report: nothing when it was already judged or cannot be
    proven. *)
Definition report_complaint (fuel : nat) (ek : EncKey) (epoch myIdx : Z) (dealings : gmap Z Dealing) w (r : PoisonReport)
    : option VoteExtComplaint :=
  if GetComplaint epoch (pr_Dealer r) myIdx w || HasComplaintRejected epoch (pr_Dealer r) myIdx (pr_Point r) w then None else
  match dealings !! pr_Dealer r with
  | None => None
  | Some dealing =>
      match find_enc_share dealing (pr_Point r) with
      | None => Some (mkVoteExtComplaint epoch (pr_Dealer r) (pr_Point r) EmptyString EmptyString)
      | Some enc =>
          match ProveDecryptShare fuel (mkShare (pr_Point r) (Priv ek)) (mkCiphertext (es_A enc) EmptyString EmptyString) with
          | Ret (Some (ds, proof)) => Some (mkVoteExtComplaint epoch (pr_Dealer r) (pr_Point r) (ds_D ds) (MarshalDLEQProof proof))
          | _ => None
          end
      end
  end.
Fixpoint collect_reports (limit : Z) (f : PoisonReport -> option VoteExtComplaint) (reports : list PoisonReport)
    (out : list VoteExtComplaint) : list VoteExtComplaint :=
  match reports with
  | [] => out
  | r :: rest => if limit <=? zlen out then out else collect_reports limit f rest (out ++ option_list (f r))
  end.
Definition buildDkgPoisonReports (fuel : nat) (ek : EncKey) (op : string) w (cache : gmap Z (list PoisonReport))
    : list VoteExtComplaint * gmap Z (list PoisonReport) :=
  let epoch := GetActiveEpoch w in
  if epoch =? 0 then ([], cache) else
  match GetDkgRound epoch w with
  | None => ([], cache)
  | Some round =>
      if negb (String.eqb (r_Status round) DkgStatusActive) then ([], cache) else
      let myIdx := MemberIndexByOperator (r_Members round) op in
      if myIdx =? 0 then ([], cache) else
      let myPoints := points_of round myIdx in
      if zlen myPoints =? 0 then ([], cache) else
      match GetActiveKey epoch w with
      | None => ([], cache)
      | Some ak =>
          let dealings := dealings_map epoch w in
          let '(reports, cache) := cachedPoisonReports epoch myPoints ek (ak_Qual ak) dealings cache in
          (collect_reports (zlen (r_Members round)) (report_complaint fuel ek epoch myIdx dealings w) reports [], cache)
      end
  end.

(** The first owned point at which the dealer cheated and the fault can be shown. *)
Fixpoint first_fault (fuel : nat) (ek : EncKey) (epoch d : Z) (dealing : Dealing) (commitments : list Point) (points : list Z)
    : option VoteExtComplaint :=
  match points with
  | [] => None
  | p :: rest =>
      match find_enc_share dealing p with
      | None => Some (mkVoteExtComplaint epoch d p EmptyString EmptyString)
      | Some enc =>
          if match DecryptShareFrom (Priv ek) p (ciphertext_of enc) with
             | Ret s => VerifyShare commitments p (Some s)
             | _ => false
             end then first_fault fuel ek epoch d dealing commitments rest else
          match ProveDecryptShare fuel (mkShare p (Priv ek)) (mkCiphertext (es_A enc) EmptyString EmptyString) with
          | Ret (Some (ds, proof)) => Some (mkVoteExtComplaint epoch d p (ds_D ds) (MarshalDLEQProof proof))
          | _ => first_fault fuel ek epoch d dealing commitments rest
          end
      end
  end.
Definition complaint_about (fuel : nat) (ek : EncKey) (round : DkgRound) (myIdx : Z) (myPoints : list Z) w (m : RoundMember)
    : option VoteExtComplaint :=
  if Index m =? myIdx then None else
  match GetDealing (r_Epoch round) (Index m) w with
  | None => None
  | Some dealing =>
      match ParseCommitmentPoints (d_Commitments dealing) with
      | None => None
      | Some commitments => first_fault fuel ek (r_Epoch round) (Index m) dealing commitments myPoints
      end
  end.
Definition buildDkgComplaints (fuel : nat) (ek : EncKey) (op : string) (round : DkgRound) w : list VoteExtComplaint :=
  let myIdx := MemberIndexByOperator (r_Members round) op in
  if myIdx =? 0 then [] else
  let myPoints := points_of round myIdx in
  if zlen myPoints =? 0 then [] else
  omap (complaint_about fuel ek round myIdx myPoints w) (r_Members round).

(** The round of the current epoch while it is open. *)
Definition open_round w : option DkgRound :=
  let cur := GetCurrentEpoch w in
  if 0 <? cur then
    match GetDkgRound cur w with
    | Some round => if String.eqb (r_Status round) DkgStatusOpen then Some round else None
    | None => None
    end
  else None.

(** [coeffs] and [seal] are the randomness of the dealing. *)
Definition own_dealing (coeffs : list Z) (seal : Z -> Z * string) (h : Z) (op : string) w : option VoteExtDealing :=
  match open_round w with
  | Some round =>
      if h <=? r_DealDeadline round then
        let idx := MemberIndexByOperator (r_Members round) op in
        if idx =? 0 then None else
        match GetDealing (r_Epoch round) idx w with
        | Some _ => None
        | None =>
            match BuildDealing coeffs seal (r_Epoch round) (r_Members round) (r_Threshold round) with
            | Ret d => Some d
            | _ => None
            end
        end
      else None
  | None => None
  end.
Definition own_complaints (fuel : nat) (h : Z) (ek : EncKey) (op : string) w : list VoteExtComplaint :=
  match open_round w with
  | Some round =>
      if (r_DealDeadline round <? h) && (h <=? r_ComplaintDeadline round)
      then buildDkgComplaints fuel ek op round w else []
  | None => []
  end.

Definition extension_of (fuel : nat) (coeffs : list Z) (seal : Z -> Z * string) (ctx : Ctx) (ek : EncKey) (op : string) w
    (cache : gmap Z (list PoisonReport)) : VoteExtension * gmap Z (list PoisonReport) :=
  let h := u64 (BlockHeight ctx) in
  let dealing := own_dealing coeffs seal h op w in
  let '(shares, cache) := buildDecryptShares fuel ctx ek op w cache in
  let '(reports, cache) := buildDkgPoisonReports fuel ek op w cache in
  let complaints := own_complaints fuel h ek op w in
  (mkVoteExtension (ek_Pub ek) (SignEncKeyPoP (Priv ek) op) dealing (dkgAttackShares shares) complaints reports, cache).

Definition dkgExtendVoteHandler (fuel : nat) (coeffs : list Z) (seal : Z -> Z * string) (ctx : Ctx) w (n : Node) : string * Node :=
  if negb (veActive ctx w) then (EmptyString, n) else
  match dkgEncKey n with
  | None => (EmptyString, n)
  | Some ek =>
      let op := myOperator n in
      if String.eqb op "" then (EmptyString, n) else
      let '(ve, cache) := extension_of fuel coeffs seal ctx ek op w (dkgPoisonRpts n) in
      (MarshalVoteExtension ve, mkNode (dkgEncKey n) (dkgConsAddr n) cache)
  end.

(** ** VerifyVoteExtension *)

(** No ciphertext is given more than [limit] shares. *)
Fixpoint per_ct_ok (limit : Z) (counts : gmap (Z * Z) Z) (shares : list VoteExtShare) : bool :=
  match shares with
  | [] => true
  | s :: rest =>
      let k := (vs_DecryptHeight s, vs_Seq s) in
      let c := default 0 (counts !! k) + 1 in
      if limit <? c then false else per_ct_ok limit (<[k := c]> counts) rest
  end.
Definition small (limit : Z) (s : string) : bool := strlen s <=? limit.
Definition dealing_small (s : Z) (d : VoteExtDealing) : bool :=
  negb ((s <? zlen (vd_Commitments d)) || (s <? zlen (vd_EncShares d))) &&
  forallb (small veMaxPointBytes) (vd_Commitments d) &&
  forallb (fun es => small veMaxPointBytes (es_A es) && small veMaxEncShareBodyBytes (es_Body es) && small NonceSize (es_Nonce es))
    (vd_EncShares d).
Definition complaint_small (c : VoteExtComplaint) : bool :=
  small veMaxPointBytes (vc_SharedPoint c) && small veMaxDleqProofBytes (vc_DleqProof c).

(** The checks after decoding, in the order of the code. *)
Definition extension_ok (p : Params) (ve : VoteExtension) : bool :=
  if VoteExtShareCap p <? zlen (ve_Shares ve) then false else
  let perCiphertext := EffectiveShareBudget p in
  if (perCiphertext <? zlen (ve_Shares ve)) && negb (per_ct_ok perCiphertext ∅ (ve_Shares ve)) then false else
  if (EffectiveMaxMembers p <? zlen (ve_Complaints ve)) || (EffectiveMaxMembers p <? zlen (ve_PoisonReports ve)) then false else
  if negb (small veMaxPointBytes (ve_EncPubKey ve)) || negb (small veMaxPoPBytes (ve_EncPubKeyPoP ve)) then false else
  if match ve_Dealing ve with Some d => negb (dealing_small (EffectiveShareBudget p) d) | None => false end then false else
  forallb (fun s => small veMaxPointBytes (vs_D s) && small veMaxDleqProofBytes (vs_Proof s)) (ve_Shares ve) &&
  forallb complaint_small (ve_Complaints ve) &&
  forallb complaint_small (ve_PoisonReports ve).

(** The bound checked on the bytes alone, here and before consumption. *)
Definition wire_ok (p : Params) (b : string) : bool :=
  negb (VoteExtMaxBytes <? strlen b) && negb (8 + 4 * VoteExtShareCap p <? count_byte veObjectOpen b).

(** Whether the extension is accepted. *)
Definition dkgVerifyVoteExtensionHandler (ctx : Ctx) (VoteExtension : string) w : bool :=
  if strlen VoteExtension =? 0 then true else
  if negb (veActive ctx w) then false else
  if negb (wire_ok (GetParams w) VoteExtension) then false else
  match UnmarshalVoteExtension VoteExtension with
  | None => false
  | Some ve => extension_ok (GetParams w) ve
  end.

(** ** Proposals *)

(** The handlers of the SDK that are wrapped: the transactions proposed and whether
    a proposal is accepted; and the SDK's check of an extended commit, for a height. *)
Variable inner_prepare : Ctx -> RequestPrepareProposal -> outcome (list string).
Variable inner_process : Ctx -> RequestProcessProposal -> outcome bool.
Variable ValidateVoteExtensions : Z -> ExtendedCommitInfo -> bool.

Definition wrapDkgPrepareProposal (ctx : Ctx) (req : RequestPrepareProposal) w : outcome (list string) :=
  if negb (veActive ctx w) || (zlen (ec_Votes (rp_LocalLastCommit req)) =? 0) then inner_prepare ctx req else
  match VoteTrim.boundedInjectedCommit (rp_LocalLastCommit req) (rp_MaxTxBytes req) with
  | None => inner_prepare ctx req
  | Some blob =>
      txs ← inner_prepare ctx (mkRequestPrepareProposal (i64 (rp_MaxTxBytes req - strlen blob)) (rp_Txs req) (rp_LocalLastCommit req));
      Ret (blob :: txs)
  end.

Definition dkgInjectionRequired (ctx : Ctx) w : bool :=
  if negb (veActive ctx w) then false else
  let p := GetParams w in
  if u64 (BlockHeight ctx) <? DkgStartHeight p then false else
  if match cp_VoteExtensionsEnableHeight cp with Some enableHeight => BlockHeight ctx <=? i64 (enableHeight + 1) | None => false end then false else
  if match cp_Block cp with Some b => (0 <? bp_MaxBytes b) && negb (DkgInjectedCommitFitsMaxTxBytes p (bp_MaxBytes b)) | None => false end
  then false else
  match open_round w with
  | Some _ => true
  | None => 0 <? GetGlobalEncCount w
  end.

(** [tx[len(veInjectMarker):]]. *)
Definition strip_marker (tx : string) : string :=
  String.substring (String.length VoteTrim.veInjectMarker) (String.length tx - String.length VoteTrim.veInjectMarker) tx.

Definition wrapDkgProcessProposal (ctx : Ctx) (req : RequestProcessProposal) w : outcome bool :=
  match pp_Txs req with
  | tx :: txs =>
      if VoteTrim.isVeInjectMarkerTx tx then
        if negb (veActive ctx w) then Ret false else
        match ec_Unmarshal (strip_marker tx) with
        | None => Ret false
        | Some ext =>
            if negb (ValidateVoteExtensions (pp_Height req) ext) then Ret false else
            inner_process ctx (mkRequestProcessProposal txs (pp_Height req))
        end
      else if dkgInjectionRequired ctx w then Ret false else inner_process ctx req
  | [] => if dkgInjectionRequired ctx w then Ret false else inner_process ctx req
  end.

(** ** Consumption before the block *)

Definition entry_of (p : Params) (v : ExtendedVoteInfo) : option VEEntry :=
  if negb (v_BlockIdFlag v =? BlockIDFlagCommit) || (strlen (v_Extension v) =? 0) then None else
  if negb (wire_ok p (v_Extension v)) then None else
  match UnmarshalVoteExtension (v_Extension v) with
  | None => None
  | Some ve =>
      match GetValidatorByConsAddr (v_Address v) with
      | None => None
      | Some operator => Some (mkVEEntry operator ve)
      end
  end.
Definition consumeDkgVoteExtensions (ctx : Ctx) (txs : list string) w : World B :=
  match txs with
  | tx :: _ =>
      if negb (VoteTrim.isVeInjectMarkerTx tx) || negb (veActive ctx w) then w else
      match ec_Unmarshal (strip_marker tx) with
      | None => w
      | Some ext => ConsumeVoteExtensions ctx (omap (entry_of (GetParams w)) (ec_Votes ext)) w
      end
  | [] => w
  end.

End handlers.
End VoteExt.
