(* ===== verification/EncInvariant.v ===== *)
(** * x/encmempool: the in-flight ciphertexts and their reference counts

    The keeper counts the ciphertexts in flight in three ways — in all, per
    submitter and per DKG epoch — and relies on the counts at admission, at
    shedding and when it decides whether an epoch's key may be deleted.
    [enc_inv] says that the stored counts are the true ones; the lemmas show
    that admission, bond stamping and release preserve it. *)
From S2P Require Import Prelude Codec Bank EncTypes Threshold Dkg EncKeeper EncFrame.
From stdpp Require Import gmap strings list sorting.
From Stdlib Require Import ZArith Lia.

#[local] Set Default Goal Selector "!".
Open Scope Z_scope.

Module EncInvariant.
Import EncTypes EncKeeper EncFrame.

(** ** Numbers in the store *)

Section numbers.
Context {B : Type}.
Implicit Types w : World B.

Lemma readU64_range k w : is_u64 (readU64 k w).
Proof.
  unfold readU64, is_u64. destruct (sget k w) as [bz|]; [|lia].
  destruct (Nat.eqb_spec (String.length bz) 8) as [E|]; [|lia].
  pose proof (be_decode_acc_range bz 0 ltac:(lia)) as Hr. rewrite E in Hr.
  change (256 ^ Z.of_nat 8) with (2 ^ 64) in Hr. unfold be_decode. lia.
Qed.

Lemma sget_sset k k' v w : sget k (sset k' v w) = if decide (k' = k) then Some v else sget k w.
Proof. unfold sget, sset. rewrite kv_get_set. repeat case_decide; naive_solver. Qed.
Lemma sget_sdel k k' w : sget k (sdel k' w) = if decide (k' = k) then None else sget k w.
Proof. unfold sget, sdel. rewrite kv_get_delete. repeat case_decide; naive_solver. Qed.

Lemma readU64_sset k k' n w :
  is_u64 n -> readU64 k (sset k' (be64 n) w) = if decide (k' = k) then n else readU64 k w.
Proof.
  intros Hn. unfold readU64. rewrite sget_sset. case_decide; [|done].
  unfold be64 at 1. rewrite be_bytes_length. by apply be_decode_be64.
Qed.
Lemma readU64_sdel k k' w : readU64 k (sdel k' w) = if decide (k' = k) then 0 else readU64 k w.
Proof. unfold readU64. rewrite sget_sdel. by case_decide. Qed.

Lemma readU64_inc k k' w :
  readU64 k' w + 1 < 2 ^ 64 ->
  readU64 k (inc_count k' w) = readU64 k w + (if decide (k' = k) then 1 else 0).
Proof.
  intros Hn. pose proof (readU64_range k' w) as Hr. unfold inc_count, is_u64 in *.
  rewrite u64_id by (unfold is_u64; lia).
  rewrite readU64_sset by (unfold is_u64; lia). case_decide; subst; lia.
Qed.
Lemma readU64_dec k k' w :
  0 < readU64 k' w ->
  readU64 k (dec_count k' w) = readU64 k w - (if decide (k' = k) then 1 else 0).
Proof.
  intros Hn. pose proof (readU64_range k' w) as Hr. unfold dec_count, is_u64 in *.
  rewrite (proj2 (Z.ltb_lt 0 _)) by lia. destruct (Z.eqb_spec (readU64 k' w - 1) 0) as [E|E].
  - rewrite readU64_sdel. case_decide; subst; lia.
  - rewrite readU64_sset by (unfold is_u64; lia). case_decide; subst; lia.
Qed.

End numbers.

(** ** Records under a prefix *)
Section iter.
Context {B A : Type} `{JSON A}.
Implicit Types w : World B.

Lemma iter_json_frame ps z p w w' :
  frame ps w w' -> 0 <= z < 255 -> Zmem z ps = false ->
  (iter_json (byte_prefix z +:+ p) w' : list A) = iter_json (byte_prefix z +:+ p) w.
Proof.
  intros Hf Hz Hm. unfold iter_json, siter. f_equal. apply kv_iter_ext; [by apply prefixEnd_byte|].
  intros t. apply (frame_sget _ _ _ _ Hf). unfold byte_prefix. rewrite !str_app_cons. simpl.
  by rewrite byte_to_Z_of by lia.
Qed.

Lemma iter_json_split p t w :
  is_Some (prefixEnd p) ->
  (iter_json p w : list A) ≡ₚ
  match get_json (p +:+ t) w with Some a => [a] | None => [] end ++ iter_json p (sdel (p +:+ t) w).
Proof.
  intros Hp. unfold iter_json, siter, get_json. rewrite (kv_iter_split StoreKey p t w Hp).
  unfold sget. rewrite omap_app. apply Permutation_app_tail.
  destruct (kv_get StoreKey (p +:+ t) w) as [v|]; [|done]. simpl. by destruct (json_Unmarshal v).
Qed.

Lemma iter_json_sset p t v w :
  is_Some (prefixEnd p) ->
  (iter_json p (sset (p +:+ t) v w) : list A) ≡ₚ
  match json_Unmarshal v with Some a => [a] | None => [] end ++ iter_json p (sdel (p +:+ t) w).
Proof.
  intros Hp. rewrite (iter_json_split p t) by done.
  unfold get_json. rewrite sget_sset, decide_True by done.
  apply Permutation_app_head. unfold iter_json, siter. rewrite (kv_iter_ext _ p (sdel (p +:+ t) w)); [done|done|].
  intros t'. change (sget (p +:+ t') (sdel (p +:+ t) (sset (p +:+ t) v w)) = sget (p +:+ t') (sdel (p +:+ t) w)).
  rewrite !sget_sdel, sget_sset. by case_decide.
Qed.

Lemma elem_of_iter_json p a w :
  is_Some (prefixEnd p) -> a ∈ (iter_json p w : list A) <-> exists t, get_json (p +:+ t) w = Some a.
Proof.
  intros Hp. unfold iter_json, siter, get_json, sget. rewrite list_elem_of_omap. split.
  - intros ([k v] & Hkv & Ha). apply elem_of_kv_iter in Hkv as [Hg [t ->]]; [|done].
    exists t. by rewrite Hg.
  - intros [t Ht]. destruct (kv_get StoreKey (p +:+ t) w) as [v|] eqn:Hg; [|done].
    exists (p +:+ t, v). split; [|done]. apply elem_of_kv_iter; [done|]. split; [done|]. by exists t.
Qed.

End iter.

(** ** The invariant *)

Lemma EncTxPrefix_end : is_Some (prefixEnd EncTxPrefix).
Proof. by eexists. Qed.
#[local] Hint Resolve EncTxPrefix_end : core.

Section enc.
Context {B : Type} `{EncJSON}.
Implicit Types (w : World B) (e : EncTx).

(** The ciphertexts in flight, in key order: what [iterateAllEncTx] visits. *)
Definition enc_txs w : list EncTx := iter_json EncTxPrefix w.

(** The total of [f] over them. *)
Definition tally (f : EncTx -> Z) w : Z := sumZ f (enc_txs w).

Definition in_flight w e : Prop := GetEncTx (e_DecryptHeight e) (e_Seq e) w = Some e.

Definition tx_ok e : Prop :=
  is_u64 (e_DecryptHeight e) /\ is_u64 (e_Seq e) /\ is_u64 (e_Epoch e).

(** The number of ciphertexts in flight for which [P] holds. *)
Definition one (P : EncTx -> bool) : EncTx -> Z := fun e => if P e then 1 else 0.
Definition count_if (P : EncTx -> bool) w : Z := zlen (List.filter P (enc_txs w)).
Definition by_submitter (s : string) (e : EncTx) : bool := String.eqb (e_Submitter e) s.
Definition by_epoch (ep : Z) (e : EncTx) : bool := e_Epoch e =? ep.

Lemma count_if_tally P w : count_if P w = tally (one P) w.
Proof.
  unfold count_if, tally, one. generalize (enc_txs w). intros l. unfold zlen.
  induction l as [|e l IH]; simpl; [done|]. destruct (P e); simpl; lia.
Qed.

(** The three stored counts are the totals [T] gives of the ciphertexts. *)
Definition counts_ok w (T : (EncTx -> Z) -> Z) : Prop :=
  GetGlobalEncCount w = T (fun _ => 1) /\
  (forall s, GetSubmitterEncCount s w = T (one (by_submitter s))) /\
  (forall ep, 0 < ep < 2 ^ 64 -> getEpochEncCount ep w = T (one (by_epoch ep))).

Record enc_inv w : Prop := {
  inv_wf t v : sget (EncTxPrefix +:+ t) w = Some v ->
    exists e, json_Unmarshal v = Some e /\ EncTxPrefix +:+ t = encTxKey (e_DecryptHeight e) (e_Seq e) /\ tx_ok e;
  inv_seq e : in_flight w e -> e_Seq e < readU64 EncSeqKey w;
  inv_size : tally (fun _ => 1) w <= readU64 EncSeqKey w;
  inv_counts : counts_ok w (fun f => tally f w)
}.

Definition enc_prefixes : list Z := [5; 6; 22; 24; 25].

(** *** Keys *)
Lemma encTxKey_inj h s h' s' :
  is_u64 h -> is_u64 s -> is_u64 h' -> is_u64 s' -> encTxKey h s = encTxKey h' s' -> h = h' /\ s = s'.
Proof.
  intros ???? E%byte_prefix_inj. apply str_app_inv in E as [E1 E2]; [|done].
  by apply be64_inj in E1, E2.
Qed.

Lemma epochEncCountKey_inj a b : is_u64 a -> is_u64 b -> epochEncCountKey a = epochEncCountKey b -> a = b.
Proof. intros ?? E%byte_prefix_inj. by apply be64_inj. Qed.

Lemma submitterEncCountKey_inj a b : submitterEncCountKey a = submitterEncCountKey b -> a = b.
Proof. apply byte_prefix_inj. Qed.

Lemma in_flight_elem w e : enc_inv w -> e ∈ enc_txs w <-> in_flight w e /\ tx_ok e.
Proof.
  intros Hi. unfold enc_txs. rewrite elem_of_iter_json by done. split.
  - intros [t Ht]. unfold get_json in Ht. destruct (sget _ w) as [v|] eqn:Hg; [|done].
    destruct (inv_wf w Hi _ _ Hg) as (e' & He' & Hk & Hok). simplify_eq.
    split; [|done]. unfold in_flight, GetEncTx, get_json. by rewrite <- Hk, Hg.
  - intros [He _]. eexists. exact He.
Qed.

Lemma in_flight_ok w e : enc_inv w -> in_flight w e -> tx_ok e.
Proof.
  intros Hi He. assert (Hin : e ∈ enc_txs w).
  { unfold enc_txs. apply elem_of_iter_json; [done|]. eexists. exact He. }
  by apply in_flight_elem in Hin as [_ ?].
Qed.

(** Entries with different keys hold different ciphertexts. *)
Lemma entries_NoDup (es : list (string * string)) :
  NoDup es.*1 ->
  (forall k v e, (k, v) ∈ es -> json_Unmarshal v = Some e -> k = encTxKey (e_DecryptHeight e) (e_Seq e)) ->
  NoDup (omap (fun kv : string * string => json_Unmarshal kv.2) es : list EncTx).
Proof.
  induction es as [|[k v] es IH]; simpl; [constructor|]. intros [Hnin Hnd]%NoDup_cons Hes.
  assert (Hrest : NoDup (omap (fun kv : string * string => json_Unmarshal kv.2) es : list EncTx)).
  { apply IH; [done|]. intros k' v' e' Hin. apply Hes. by right. }
  destruct (json_Unmarshal v) as [e|] eqn:E; [|done]. apply NoDup_cons. split; [|done].
  intros ([k' v'] & Hin' & He')%list_elem_of_omap. apply Hnin.
  rewrite (Hes k v e) by (done || by left). rewrite <- (Hes k' v' e) by (done || by right).
  apply list_elem_of_fmap. by exists (k', v').
Qed.

Lemma enc_txs_NoDup w : enc_inv w -> NoDup (enc_txs w).
Proof.
  intros Hi. unfold enc_txs, iter_json. apply entries_NoDup; [apply NoDup_kv_range|].
  intros k v e Hin He. apply elem_of_kv_iter in Hin as [Hg [t ->]]; [|done].
  destruct (inv_wf w Hi t v Hg) as (e' & He' & -> & _). by simplify_eq.
Qed.

Lemma tally_nonneg f w : (forall e, 0 <= f e) -> 0 <= tally f w.
Proof. intros Hf. apply sumZ_nonneg, Forall_true. done. Qed.

Lemma one_bounds P e : 0 <= one P e <= 1.
Proof. unfold one. destruct (P e); lia. Qed.

Lemma tally_one_le P w : 0 <= tally (one P) w <= tally (fun _ => 1) w.
Proof.
  split.
  - apply tally_nonneg. intros. apply one_bounds.
  - apply sumZ_le, Forall_true. intros. apply one_bounds.
Qed.

Lemma tally_in_flight f w e :
  in_flight w e -> tally f w = f e + tally f (sdel (encTxKey (e_DecryptHeight e) (e_Seq e)) w).
Proof.
  intros He. unfold tally, enc_txs.
  rewrite (sumZ_perm _ _ _ (iter_json_split EncTxPrefix (be64 (e_DecryptHeight e) +:+ be64 (e_Seq e)) w EncTxPrefix_end)).
  unfold in_flight, GetEncTx, encTxKey in He. by rewrite He.
Qed.

(** *** The counts *)
Lemma counts_ok_ext T T' w : (forall f, T' f = T f) -> counts_ok w T -> counts_ok w T'.
Proof. intros HT (Hg & Hs & He). split_and!; intros; rewrite HT; auto. Qed.

Lemma counts_frame ps w w' T :
  frame ps w w' -> forallb (fun z => negb (Zmem z ps)) [22; 24; 25] = true -> counts_ok w T -> counts_ok w' T.
Proof.
  intros Hf Hp (Hg & Hs & He). simpl in Hp. bool_prop.
  unfold counts_ok, GetGlobalEncCount, GetSubmitterEncCount, getEpochEncCount.
  split_and!; intros; rewrite (frame_readU64 _ _ _ _ Hf) by done; [exact Hg|exact (Hs _)|by apply He].
Qed.

Lemma counts_take w T e :
  counts_ok w T -> T (fun _ => 1) + 1 < 2 ^ 64 -> (forall P, 0 <= T (one P) <= T (fun _ => 1)) -> is_u64 (e_Epoch e) ->
  counts_ok (count_enc_tx e w) (fun f => f e + T f).
Proof.
  intros (Hg & Hs & He) Hsz HP Hep. unfold count_enc_tx, incSubmitterEncCount, incGlobalEncCount.
  set (w1 := if 0 <? e_Epoch e then incEpochEncCount (e_Epoch e) w else w).
  assert (H1 : forall k, readU64 k w1 = readU64 k w +
    (if decide (0 < e_Epoch e /\ epochEncCountKey (e_Epoch e) = k) then 1 else 0)).
  { intros k. unfold w1. destruct (0 <? e_Epoch e) eqn:E; bool_prop.
    - unfold incEpochEncCount. rewrite readU64_inc; [repeat case_decide; naive_solver lia|].
      fold (getEpochEncCount (e_Epoch e) w). unfold is_u64 in Hep. rewrite He by lia.
      specialize (HP (by_epoch (e_Epoch e))). lia.
    - rewrite decide_False by lia. lia. }
  assert (Hg1 : readU64 GlobalEncCountKey w1 = T (fun _ => 1)).
  { rewrite H1, decide_False by (intros [_ ?]; discriminate). fold (GetGlobalEncCount w). lia. }
  assert (Hs1 : forall s, readU64 (submitterEncCountKey s) w1 = T (one (by_submitter s))).
  { intros s. rewrite H1, decide_False by (intros [_ ?]; discriminate). fold (GetSubmitterEncCount s w).
    rewrite Hs. lia. }
  assert (H2 : forall k, readU64 k (inc_count (submitterEncCountKey (e_Submitter e)) (inc_count GlobalEncCountKey w1)) =
    readU64 k w1 + (if decide (GlobalEncCountKey = k) then 1 else 0)
                 + (if decide (submitterEncCountKey (e_Submitter e) = k) then 1 else 0)).
  { intros k. pose proof (HP (by_submitter (e_Submitter e))).
    rewrite readU64_inc; rewrite readU64_inc by lia; [done|].
    rewrite Hs1, decide_False by discriminate. lia. }
  unfold counts_ok, GetGlobalEncCount, GetSubmitterEncCount, getEpochEncCount. split_and!; intros; rewrite H2.
  - rewrite Hg1, decide_True, decide_False by done. lia.
  - rewrite Hs1, (decide_False (P := GlobalEncCountKey = _)) by discriminate.
    unfold one, by_submitter. destruct (String.eqb_spec (e_Submitter e) s) as [->|Hn].
    + rewrite decide_True by done. lia.
    + rewrite decide_False; [lia|]. by intros ?%submitterEncCountKey_inj.
  - rewrite H1, !(decide_False (P := _ = epochEncCountKey ep)) by discriminate.
    fold (getEpochEncCount ep w). rewrite He by done. unfold one, by_epoch.
    destruct (Z.eqb_spec (e_Epoch e) ep) as [->|Hn].
    + rewrite decide_True by (split; [lia|done]). lia.
    + rewrite decide_False; [lia|]. intros [_ E%epochEncCountKey_inj]; [done..|unfold is_u64; lia].
Qed.

Definition release_counts e w : World B :=
  let w := decSubmitterEncCount (e_Submitter e) (decGlobalEncCount w) in
  if 0 <? e_Epoch e then decEpochEncCount (e_Epoch e) w else w.

Lemma counts_release w T e :
  counts_ok w (fun f => f e + T f) -> (forall P, 0 <= T (one P)) -> 0 <= T (fun _ => 1) -> is_u64 (e_Epoch e) ->
  counts_ok (release_counts e w) T.
Proof.
  intros (Hg & Hs & He) HP H1 Hep. unfold release_counts, decSubmitterEncCount, decGlobalEncCount.
  assert (Hg0 : readU64 GlobalEncCountKey w = 1 + T (fun _ => 1)) by exact Hg.
  assert (Hs0 : forall s, readU64 (submitterEncCountKey s) w = one (by_submitter s) e + T (one (by_submitter s)))
    by exact Hs.
  assert (Hse : one (by_submitter (e_Submitter e)) e = 1) by (unfold one, by_submitter; by rewrite String.eqb_refl).
  set (w1 := dec_count (submitterEncCountKey (e_Submitter e)) (dec_count GlobalEncCountKey w)).
  assert (R1 : forall k, readU64 k w1 = readU64 k w - (if decide (GlobalEncCountKey = k) then 1 else 0)
    - (if decide (submitterEncCountKey (e_Submitter e) = k) then 1 else 0)).
  { intros k. unfold w1. specialize (HP (by_submitter (e_Submitter e))).
    rewrite readU64_dec; rewrite readU64_dec by lia; [done|].
    rewrite decide_False by discriminate. rewrite Hs0. lia. }
  assert (R2 : forall k, readU64 k (if 0 <? e_Epoch e then dec_count (epochEncCountKey (e_Epoch e)) w1 else w1) =
    readU64 k w1 - (if decide (0 < e_Epoch e /\ epochEncCountKey (e_Epoch e) = k) then 1 else 0)).
  { intros k. destruct (0 <? e_Epoch e) eqn:E; bool_prop; [|rewrite decide_False by lia; lia].
    rewrite readU64_dec; [repeat case_decide; naive_solver lia|].
    rewrite R1, !decide_False by discriminate. fold (getEpochEncCount (e_Epoch e) w). unfold is_u64 in Hep.
    rewrite He by lia. unfold one at 1, by_epoch at 1. rewrite Z.eqb_refl. specialize (HP (by_epoch (e_Epoch e))). lia. }
  unfold counts_ok, GetGlobalEncCount, GetSubmitterEncCount, getEpochEncCount, decEpochEncCount.
  split_and!; intros; rewrite R2, R1.
  - rewrite decide_True, !decide_False by (first [done|intros [_ ?]; discriminate]). lia.
  - rewrite (decide_False (P := 0 < _ /\ _)), (decide_False (P := GlobalEncCountKey = _))
      by (first [discriminate|intros [_ ?]; discriminate]).
    rewrite Hs0. unfold one at 1, by_submitter at 1. destruct (String.eqb_spec (e_Submitter e) s) as [->|Hn].
    + rewrite decide_True by done. lia.
    + rewrite decide_False; [lia|]. by intros ?%submitterEncCountKey_inj.
  - rewrite !(decide_False (P := _ = epochEncCountKey ep)) by discriminate.
    fold (getEpochEncCount ep w). rewrite He by done. unfold one at 1, by_epoch at 1.
    destruct (Z.eqb_spec (e_Epoch e) ep) as [->|Hn].
    + rewrite decide_True by (split; [lia|done]). lia.
    + rewrite decide_False; [lia|]. intros [_ E%epochEncCountKey_inj]; [done..|unfold is_u64; lia].
Qed.

(** *** Framing *)
Lemma tally_frame ps f w w' : frame ps w w' -> Zmem 6 ps = false -> tally f w' = tally f w.
Proof. intros Hf Hp. unfold tally, enc_txs. by rewrite (iter_json_frame ps 6 "" w w'). Qed.

Lemma enc_inv_frame ps w w' :
  frame ps w w' -> forallb (fun z => negb (Zmem z ps)) enc_prefixes = true -> enc_inv w -> enc_inv w'.
Proof.
  intros Hf Hp Hi. simpl in Hp. bool_prop.
  assert (Ht : forall f, tally f w' = tally f w).
  { intros f. unfold tally, enc_txs.
    by rewrite (iter_json_frame ps 6 "" w w') by done. }
  split.
  - intros t v. rewrite (frame_sget _ _ _ _ Hf) by done. apply (inv_wf w Hi).
  - intros e. unfold in_flight, GetEncTx. rewrite (frame_get_json _ _ _ _ Hf) by done.
    rewrite (frame_readU64 _ _ _ _ Hf) by done. apply (inv_seq w Hi).
  - rewrite Ht, (frame_readU64 _ _ _ _ Hf) by done. apply (inv_size w Hi).
  - apply (counts_ok_ext (fun f => tally f w)); [done|].
    apply (counts_frame ps w); [done| |apply (inv_counts w Hi)]. simpl. by rewrite !andb_true_iff, !negb_true_iff.
Qed.

Lemma in_flight_frame ps w w' e :
  frame ps w w' -> Zmem 6 ps = false -> in_flight w' e <-> in_flight w e.
Proof. intros Hf Hp. unfold in_flight, GetEncTx. by rewrite (frame_get_json _ _ _ _ Hf). Qed.

(** *** Admission *)
Section admission.
Context `{!EncJSONLaws}.

Lemma get_enc_sset k e w :
  get_json k (set_enc_tx e w) =
  if decide (encTxKey (e_DecryptHeight e) (e_Seq e) = k) then Some e else (get_json k w : option EncTx).
Proof. unfold get_json, set_enc_tx. rewrite sget_sset. case_decide; [apply json_roundtrip|done]. Qed.

Lemma tally_set f e w :
  tally f (set_enc_tx e w) = f e + tally f (sdel (encTxKey (e_DecryptHeight e) (e_Seq e)) w).
Proof.
  unfold tally, enc_txs, set_enc_tx.
  rewrite (sumZ_perm _ _ _ (iter_json_sset EncTxPrefix (be64 (e_DecryptHeight e) +:+ be64 (e_Seq e)) _ w EncTxPrefix_end)).
  by rewrite json_roundtrip.
Qed.

Lemma tally_sdel_none f h q w : sget (encTxKey h q) w = None -> tally f (sdel (encTxKey h q) w) = tally f w.
Proof.
  intros Hn. unfold tally, enc_txs, iter_json, siter. f_equal. f_equal. apply kv_iter_ext; [done|].
  intros t. change (sget (EncTxPrefix +:+ t) (sdel (encTxKey h q) w) = sget (EncTxPrefix +:+ t) w).
  rewrite sget_sdel. case_decide as E; [|done]. by rewrite <- E.
Qed.

Lemma enc_inv_fresh h w : enc_inv w -> is_u64 h -> sget (encTxKey h (readU64 EncSeqKey w)) w = None.
Proof.
  intros Hi Hh. destruct (sget _ w) as [v|] eqn:E; [|done].
  destruct (inv_wf w Hi _ _ E) as (e & He & Hk & Hd & Hq & _).
  apply encTxKey_inj in Hk as [-> Hs]; [|done|apply readU64_range|done..].
  assert (Hf : in_flight w e). { unfold in_flight, GetEncTx, get_json. by rewrite <- Hs, E. }
  apply (inv_seq w Hi) in Hf. lia.
Qed.

(** The state of [SubmitEncTx]: a fresh sequence number, the record, the counts. *)
Lemma enc_inv_admit w e :
  enc_inv w -> readU64 EncSeqKey w + 1 < 2 ^ 64 -> tx_ok e -> e_Seq e = readU64 EncSeqKey w ->
  let w' := count_enc_tx e (set_enc_tx e (sset EncSeqKey (be64 (u64 (readU64 EncSeqKey w + 1))) w)) in
  enc_inv w' /\ in_flight w' e /\ (forall f, tally f w' = f e + tally f w) /\
  (forall e', in_flight w' e' <-> e' = e \/ in_flight w e') /\ readU64 EncSeqKey w' = readU64 EncSeqKey w + 1.
Proof.
  intros Hi Hq Hok Hs. pose proof (readU64_range EncSeqKey w) as Hr. unfold is_u64 in Hr.
  cbv zeta. rewrite u64_id by (unfold is_u64; lia).
  set (w1 := sset EncSeqKey (be64 (readU64 EncSeqKey w + 1)) w).
  set (w2 := set_enc_tx e w1). set (w' := count_enc_tx e w2).
  assert (F1 : frame [5] w w1) by by apply frame_set.
  assert (F12 : frame [6] w1 w2) by by apply frame_set.
  assert (F2 : frame [22; 24; 25] w2 w') by apply frame_count_enc_tx.
  assert (Hnone : sget (encTxKey (e_DecryptHeight e) (e_Seq e)) w1 = None).
  { rewrite (frame_sget _ _ _ _ F1) by done. rewrite Hs. apply enc_inv_fresh; [done|apply Hok]. }
  assert (Ht2 : forall f, tally f w2 = f e + tally f w).
  { intros f. unfold w2. rewrite tally_set, tally_sdel_none by done. by rewrite (tally_frame _ _ _ _ F1). }
  assert (Hseq : readU64 EncSeqKey w' = readU64 EncSeqKey w + 1).
  { rewrite (frame_readU64 _ _ _ _ F2), (frame_readU64 _ _ _ _ F12) by done. unfold w1.
    rewrite readU64_sset, decide_True; [done..|unfold is_u64; lia]. }
  assert (Hget : forall k, key_in [22; 24; 25] k = false -> get_json k w' =
    if decide (encTxKey (e_DecryptHeight e) (e_Seq e) = k) then Some e else (get_json k w1 : option EncTx)).
  { intros k Hk. rewrite (frame_get_json _ _ _ _ F2) by done. apply get_enc_sset. }
  pose proof (inv_size w Hi) as Hsz. split_and!; [split| | | |exact Hseq].
  - intros t v Hv. rewrite (frame_sget _ _ _ _ F2) in Hv by done. unfold w2, set_enc_tx in Hv.
    rewrite sget_sset in Hv. case_decide as E.
    + injection Hv as <-. exists e. by rewrite json_roundtrip.
    + apply (inv_wf w Hi t). by rewrite <- (frame_sget _ _ _ _ F1).
  - intros e' He'. rewrite Hseq. unfold in_flight, GetEncTx in He'. rewrite Hget in He' by done.
    case_decide; [simplify_eq; lia|]. rewrite (frame_get_json _ _ _ _ F1) in He' by done.
    apply (inv_seq w Hi) in He'. lia.
  - rewrite Hseq, (tally_frame _ _ _ _ F2), Ht2 by done. lia.
  - apply (counts_ok_ext (fun f => f e + tally f w)); [intros f; by rewrite (tally_frame _ _ _ _ F2)|].
    apply counts_take; [|lia|intros; apply tally_one_le|apply Hok].
    apply (counts_frame [5; 6] w); [|done|apply (inv_counts w Hi)].
    eapply frame_trans; eapply frame_weaken; [exact F1|done|exact F12|done].
  - unfold in_flight, GetEncTx. rewrite Hget by done. by rewrite decide_True.
  - intros f. by rewrite (tally_frame _ _ _ _ F2), Ht2.
  - intros e'. unfold in_flight, GetEncTx. rewrite Hget by done. case_decide as E.
    + split; [intros [= ->]; by left|]. intros [->|He']; [done|].
      rewrite <- E, <- (frame_get_json _ _ _ _ F1) in He' by done. unfold get_json in He'. by rewrite Hnone in He'.
    + rewrite (frame_get_json _ _ _ _ F1) by done. split; [by right|]. intros [->|?]; done.
Qed.

(** Stamping a bond keeps everything but the three bond fields. *)
Lemma enc_inv_stamp w e e' :
  enc_inv w -> in_flight w e ->
  e_Submitter e' = e_Submitter e -> e_DecryptHeight e' = e_DecryptHeight e -> e_Seq e' = e_Seq e ->
  e_Epoch e' = e_Epoch e ->
  enc_inv (set_enc_tx e' w) /\ in_flight (set_enc_tx e' w) e' /\
  (forall f, tally f (set_enc_tx e' w) = tally f w - f e + f e') /\
  (forall e0, in_flight (set_enc_tx e' w) e0 -> e0 = e' \/ (in_flight w e0 /\ e0 <> e)).
Proof.
  intros Hi He Es Ed Eq Ee. assert (F : frame [6] w (set_enc_tx e' w)) by by apply frame_set.
  assert (Ht : forall f, tally f (set_enc_tx e' w) = tally f w - f e + f e').
  { intros f. rewrite tally_set, Ed, Eq, (tally_in_flight f w e He). lia. }
  split_and!; [split| |done|].
  - intros t v Hv. unfold set_enc_tx in Hv. rewrite sget_sset in Hv. case_decide as E; [|by apply (inv_wf w Hi t)].
    injection Hv as <-. exists e'. rewrite json_roundtrip. split_and!; [done..|].
    pose proof (in_flight_ok w e Hi He). unfold tx_ok. by rewrite Ed, Eq, Ee.
  - intros e0 He0. rewrite (frame_readU64 _ _ _ _ F) by done. unfold in_flight, GetEncTx in He0.
    rewrite get_enc_sset in He0. case_decide; [simplify_eq; rewrite Eq|]; by apply (inv_seq w Hi).
  - rewrite Ht, (frame_readU64 _ _ _ _ F) by done. pose proof (inv_size w Hi). lia.
  - apply (counts_frame [6] w); [done..|]. destruct (inv_counts w Hi) as (Hg & Hs & Hep).
    unfold counts_ok. rewrite Hg. split_and!; [rewrite Ht; lia|..]; intros.
    + rewrite Hs, Ht. unfold one, by_submitter. rewrite Es. lia.
    + rewrite Hep, Ht by done. unfold one, by_epoch. rewrite Ee. lia.
  - unfold in_flight, GetEncTx. rewrite get_enc_sset. by rewrite decide_True.
  - intros e0. unfold in_flight at 1, GetEncTx. rewrite get_enc_sset. case_decide as E; [intros [= ->]; by left|].
    intros He0. right. split; [done|]. intros ->. by rewrite Ed, Eq in E.
Qed.

End admission.
(** *** Release *)

(** The store part of a release that precedes the counts. *)
Definition forget e w : World B :=
  deleteRejectedSharesFor (e_DecryptHeight e) (e_Seq e)
    (DeleteSharesFor (e_DecryptHeight e) (e_Seq e) (DeleteEncTx (e_DecryptHeight e) (e_Seq e) w)).

Lemma drop_enc_tx_split e w :
  drop_enc_tx e w = if 0 <? e_Epoch e then maybePruneEpoch (e_Epoch e) (release_counts e (forget e w))
                    else release_counts e (forget e w).
Proof. unfold drop_enc_tx, release_counts, forget. by destruct (0 <? e_Epoch e). Qed.

Lemma frame_release_counts e w : frame [22; 24; 25] w (release_counts e w).
Proof.
  unfold release_counts, decSubmitterEncCount, decGlobalEncCount, decEpochEncCount.
  assert (frame [22; 24; 25] w (dec_count (submitterEncCountKey (e_Submitter e)) (dec_count GlobalEncCountKey w)))
    by (eapply frame_trans; by apply frame_dec).
  destruct (0 <? e_Epoch e); [|done]. eapply frame_trans; [done|by apply frame_dec].
Qed.

Lemma frame_forget e w : frame [6; 7; 33] w (forget e w).
Proof.
  unfold forget. eapply frame_trans; [|eapply frame_weaken; [apply frame_deleteRejected|done]].
  eapply frame_trans; [|eapply frame_weaken; [apply frame_DeleteSharesFor|done]]. by apply frame_del.
Qed.

Lemma get_enc_forget e k w :
  key_in [7; 33] k = false ->
  get_json k (forget e w) =
  if decide (encTxKey (e_DecryptHeight e) (e_Seq e) = k) then None else (get_json k w : option EncTx).
Proof.
  intros Hk. unfold forget.
  assert (F : frame [7; 33] (DeleteEncTx (e_DecryptHeight e) (e_Seq e) w) (forget e w)).
  { unfold forget. eapply frame_trans; eapply frame_weaken;
      [apply frame_DeleteSharesFor|done|apply frame_deleteRejected|done]. }
  rewrite (frame_get_json _ _ _ _ F Hk). unfold get_json, DeleteEncTx. rewrite sget_sdel. by case_decide.
Qed.

Lemma tally_forget f e w : tally f (forget e w) = tally f (sdel (encTxKey (e_DecryptHeight e) (e_Seq e)) w).
Proof.
  unfold forget. rewrite (tally_frame _ _ _ _ (frame_deleteRejected _ _ _)) by done.
  by rewrite (tally_frame _ _ _ _ (frame_DeleteSharesFor _ _ _)) by done.
Qed.

Lemma enc_inv_forget w e :
  enc_inv w -> in_flight w e ->
  let w' := release_counts e (forget e w) in
  enc_inv w' /\ (forall f, tally f w = f e + tally f w') /\ (forall e', in_flight w' e' <-> in_flight w e' /\ e' <> e).
Proof.
  intros Hi He w'. assert (F2 : frame [22; 24; 25] (forget e w) w') by apply frame_release_counts.
  pose proof (in_flight_ok w e Hi He) as Hok.
  assert (Ht : forall f, tally f w = f e + tally f w').
  { intros f. by rewrite (tally_frame _ _ _ _ F2), tally_forget, <- tally_in_flight. }
  assert (Hfl : forall e', in_flight w' e' <-> in_flight w e' /\ e' <> e).
  { intros e'. unfold in_flight, GetEncTx. rewrite (frame_get_json _ _ _ _ F2), get_enc_forget by done.
    case_decide as E.
    - split; [done|]. intros [He' Hne]. exfalso. apply Hne. unfold in_flight, GetEncTx in He. congruence.
    - split; [|naive_solver]. intros He'. split; [done|]. by intros ->. }
  split_and!; [split|done..].
  - intros t v Hv. rewrite (frame_sget _ _ _ _ F2) in Hv by done. apply (inv_wf w Hi t).
    unfold forget in Hv. rewrite (frame_sget _ _ _ _ (frame_deleteRejected _ _ _)) in Hv by done.
    rewrite (frame_sget _ _ _ _ (frame_DeleteSharesFor _ _ _)) in Hv by done.
    unfold DeleteEncTx in Hv. rewrite sget_sdel in Hv. by case_decide.
  - intros e' [He' _]%Hfl. rewrite (frame_readU64 _ _ _ _ F2), (frame_readU64 _ _ _ _ (frame_forget e w)) by done.
    by apply (inv_seq w Hi).
  - rewrite (frame_readU64 _ _ _ _ F2), (frame_readU64 _ _ _ _ (frame_forget e w)) by done.
    pose proof (inv_size w Hi) as Hsz. rewrite Ht in Hsz. lia.
  - apply counts_release; [|intros; apply tally_one_le|apply tally_nonneg; lia|apply Hok].
    apply (counts_frame _ _ _ _ (frame_forget e w)); [done|].
    apply (counts_ok_ext (fun f => tally f w)); [|apply (inv_counts w Hi)]. intros f. by rewrite (Ht f).
Qed.

Lemma enc_inv_drop w e :
  enc_inv w -> in_flight w e ->
  enc_inv (drop_enc_tx e w) /\ (forall f, tally f w = f e + tally f (drop_enc_tx e w)) /\
  (forall e', in_flight (drop_enc_tx e w) e' <-> in_flight w e' /\ e' <> e).
Proof.
  intros Hi He. destruct (enc_inv_forget w e Hi He) as (H1 & H2 & H3). rewrite drop_enc_tx_split.
  destruct (0 <? e_Epoch e); [|done]. pose proof (frame_maybePruneEpoch (e_Epoch e) (release_counts e (forget e w))) as F.
  split_and!.
  - by apply (enc_inv_frame _ _ _ F).
  - intros f. by rewrite (tally_frame _ _ _ _ F).
  - intros e'. by rewrite (in_flight_frame _ _ _ _ F).
Qed.

End enc.
End EncInvariant.
