(* ===== verification/VoteExtProofs.v ===== *)
(** * evmd: properties of the vote-extension handlers

    What an honest node attaches to its vote is safe, is accepted by its peers, is
    carried by an honest proposal and takes effect when it is consumed. *)
From S2P Require Import Prelude Codec Bank Sha256 VoteTrim EncTypes StakeWeight Threshold CurveModel Dkg DkgProofs EncKeeper EncRegistry EncDkg EncIngest EncFrame DkgNode EncInvariant VoteExt.
From stdpp Require Import gmap strings list sorting.
From Stdlib Require Import ZArith Lia.

#[local] Set Default Goal Selector "!".
Open Scope Z_scope.

Module VoteExtProofs.
Import EncTypes EncKeeper EncRegistry EncDkg EncIngest EncFrame EncInvariant Threshold Dkg DkgProofs DkgNode VoteExt.

(** ** The cache of poison verdicts *)
Section cache.


Lemma evict_subseteq fuel cache : evict fuel cache ⊆ cache.
Proof.
  revert cache. induction fuel as [|n IH]; intros cache; cbn [evict]; [done|]. destruct (_ <=? _); [|done].
  etransitivity; [apply IH|apply delete_subseteq].
Qed.

Lemma oldest_elem (l : list Z) o :
  foldl (fun oldest e => if (oldest =? 0) || (e <? oldest) then e else oldest) o l ∈ o :: l.
Proof.
  revert o. induction l as [|e l IH]; intros o; cbn [foldl]; [by left|].
  destruct ((o =? 0) || (e <? o)); [specialize (IH e)|specialize (IH o)]; set_solver.
Qed.

Lemma oldest_in (cache : gmap Z (list PoisonReport)) : cache <> ∅ -> 0 ∉ dom cache -> is_Some (cache !! oldest_epoch cache).
Proof.
  intros Hne Hz. unfold oldest_epoch. destruct (map_to_list cache) as [|[e r] l] eqn:El; [by apply map_to_list_empty_iff in El|].
  cbn [fmap list_fmap foldl fst]. rewrite Z.eqb_refl. cbn [orb].
  pose proof (oldest_elem l.*1 e) as Hin. change (e :: l.*1) with ((e, r) :: l).*1 in Hin. rewrite <- El in Hin.
  apply list_elem_of_fmap in Hin as ([k v] & Ek & Hin). apply elem_of_map_to_list in Hin. cbn [fst] in Ek. rewrite Ek. by eexists.
Qed.

(** Room for one more entry is always made. *)
Lemma evict_size cache : 0 ∉ dom cache -> Z.of_nat (size (evict (size cache) cache)) < dkgPoisonCacheMax.
Proof.
  intros Hz. assert (G : forall fuel (cache : gmap Z (list PoisonReport)), (size cache <= fuel)%nat -> 0 ∉ dom cache ->
    Z.of_nat (size (evict fuel cache)) < dkgPoisonCacheMax); [|by apply G].
  clear. induction fuel as [|n IH]; intros c Hs Hz; cbn [evict].
  - replace (size c) with O by lia. done.
  - destruct (Z.leb_spec dkgPoisonCacheMax (Z.of_nat (size c))) as [Hl|]; [|done].
    assert (Hin : is_Some (c !! oldest_epoch c)).
    { apply oldest_in; [|done]. intros ->. unfold dkgPoisonCacheMax in Hl. rewrite map_size_empty in Hl. lia. }
    apply IH; [|set_solver]. pose proof (map_size_delete_Some (oldest_epoch c) c Hin). lia.
Qed.

End cache.

Section cached.
Context {B : Type} `{EncJSON} `{Curve} `{AesGcm} `{EcdsaSign}.
Implicit Types (w : World B) (cache : gmap Z (list PoisonReport)).

(** What a search on the committed state finds now. *)
Definition detect_now (ek : EncKey) (op : string) (epoch : Z) w : option (list PoisonReport) :=
  match GetDkgRound epoch w, GetActiveKey epoch w with
  | Some round, Some ak =>
      Some (DetectPoisonedDealers (points_of round (MemberIndexByOperator (r_Members round) op)) (Priv ek) (ak_Qual ak) (dealings_map epoch w))
  | _, _ => None
  end.
Record cache_ok (ek : EncKey) (op : string) w cache : Prop := {
  cache_small : Z.of_nat (size cache) <= dkgPoisonCacheMax;
  cache_nonzero : 0 ∉ dom cache;
  cache_fresh epoch r : cache !! epoch = Some r -> detect_now ek op epoch w = Some r
}.

Lemma cache_ok_empty ek op w : cache_ok ek op w ∅.
Proof. split; [done|set_solver|by intros ep r ?%lookup_empty_Some]. Qed.

Lemma cached_ok ek op w cache epoch round ak : cache_ok ek op w cache -> epoch <> 0 ->
  GetDkgRound epoch w = Some round -> GetActiveKey epoch w = Some ak ->
  let pts := points_of round (MemberIndexByOperator (r_Members round) op) in
  let r := cachedPoisonReports epoch pts ek (ak_Qual ak) (dealings_map epoch w) cache in
  r.1 = DetectPoisonedDealers pts (Priv ek) (ak_Qual ak) (dealings_map epoch w) /\ cache_ok ek op w r.2.
Proof.
  intros Hc He HR HA pts r. unfold r, cachedPoisonReports. destruct (cache !! epoch) as [rp|] eqn:E.
  - split; [|done]. apply (cache_fresh _ _ _ _ Hc) in E. unfold detect_now in E. rewrite HR, HA in E. by injection E.
  - cbn [fst snd]. split; [done|]. pose proof (evict_size cache (cache_nonzero _ _ _ _ Hc)) as Hs.
    pose proof (evict_subseteq (size cache) cache) as Hsub. split.
    + assert (evict (size cache) cache !! epoch = None) as En by (eapply lookup_weaken_None; [exact E|done]).
      rewrite map_size_insert_None by done. lia.
    + rewrite dom_insert. apply subseteq_dom in Hsub. pose proof (cache_nonzero _ _ _ _ Hc). set_solver.
    + intros ep rp. destruct (decide (epoch = ep)) as [<-|Hne].
      * rewrite lookup_insert_eq. intros [= <-]. unfold detect_now. by rewrite HR, HA.
      * rewrite lookup_insert_ne by done. intros Hl. eapply (cache_fresh _ _ _ _ Hc), lookup_weaken; [exact Hl|done].
Qed.

Lemma derive_cached ek op w cache epoch : cache_ok ek op w cache -> epoch <> 0 ->
  (deriveEpochShares ek op epoch w cache).1 = (deriveEpochShares ek op epoch w ∅).1 /\
  cache_ok ek op w (deriveEpochShares ek op epoch w cache).2.
Proof.
  intros Hc He. unfold deriveEpochShares. destruct (GetDkgRound epoch w) as [round|] eqn:HR; [|done]. cbv zeta.
  destruct (_ =? 0); [done|]. destruct (_ =? 0); [done|]. destruct (GetActiveKey epoch w) as [ak|] eqn:HA; [|done].
  pose proof (cached_ok ek op w cache epoch round ak Hc He HR HA) as [E1 Hc1]. cbv zeta in E1, Hc1.
  pose proof (cached_ok ek op w ∅ epoch round ak (cache_ok_empty _ _ _) He HR HA) as [E2 _]. cbv zeta in E2.
  destruct (cachedPoisonReports epoch _ ek _ _ cache) as [r1 c1]. destruct (cachedPoisonReports epoch _ ek _ _ ∅) as [r2 c2].
  cbn [fst snd] in *. subst r1 r2. destruct (0 <? _); [done|]. by destruct (DeriveShares _ _ _ _).
Qed.

(** Two runs of the loop with right caches stay in step. *)
Definition in_step ek op w (s t : serve_st) : Prop :=
  sv_out s = sv_out t /\ shareByEpoch s = shareByEpoch t /\ cache_ok ek op w (sv_cache s) /\ cache_ok ek op w (sv_cache t).

Lemma serve_in_step fuel h cap ek op w s t e : in_step ek op w s t ->
  (serve fuel h cap ek op w s e).1 = (serve fuel h cap ek op w t e).1 /\
  in_step ek op w (serve fuel h cap ek op w s e).2 (serve fuel h cap ek op w t e).2.
Proof.
  intros (Eo & Em & Hs & Ht). unfold serve. rewrite Eo, Em. destruct (_ <=? _); [done|]. destruct (_ <? _); [done|].
  destruct (Z.eqb_spec (e_Epoch e) 0) as [|He]; [done|]. destruct (shareByEpoch t !! e_Epoch e) as [sc|].
  - destruct (negb _); [done|]. cbv zeta. destruct (match GetActiveKey _ w with Some _ => _ | None => _ end); (split; [done|]; unfold in_step; by rewrite ?Eo, ?Em).
  - destruct (derive_cached ek op w _ _ Hs He) as [E1 K1]. destruct (derive_cached ek op w _ _ Ht He) as [E2 K2].
    destruct (deriveEpochShares ek op (e_Epoch e) w (sv_cache s)) as [sc c1].
    destruct (deriveEpochShares ek op (e_Epoch e) w (sv_cache t)) as [sc2 c2]. cbn [fst snd] in *.
    assert (sc = sc2) as -> by congruence. destruct (negb _); [done|]. cbv zeta.
    destruct (match GetActiveKey _ w with Some _ => _ | None => _ end); (split; [done|]; unfold in_step; by rewrite ?Eo, ?Em).
Qed.

Lemma visit_in_step fuel h cap ek op w entries : forall limit s t, in_step ek op w s t ->
  in_step ek op w (visit_in_flight_st (serve fuel h cap ek op w) limit entries s)
    (visit_in_flight_st (serve fuel h cap ek op w) limit entries t).
Proof.
  induction entries as [|[k v] es IH]; intros [|limit] s t Hst; cbn [visit_in_flight_st]; try done.
  destruct (json_Unmarshal v) as [e|]; [|by apply IH]. destruct (serve_in_step fuel h cap ek op w s t e Hst) as [E1 E2].
  destruct (serve fuel h cap ek op w s e) as [m1 s1]. destruct (serve fuel h cap ek op w t e) as [m2 t1]. cbn [fst snd] in *. subst m2.
  destruct m1; [by apply IH|done].
Qed.

Lemma build_cached fuel ctx ek op w cache : cache_ok ek op w cache ->
  (buildDecryptShares fuel ctx ek op w cache).1 = (buildDecryptShares fuel ctx ek op w ∅).1 /\
  cache_ok ek op w (buildDecryptShares fuel ctx ek op w cache).2.
Proof.
  intros Hc. unfold buildDecryptShares. cbv zeta. cbn [fst snd].
  match goal with |- context [visit_in_flight_st ?f ?l ?es (mkServeSt [] ∅ cache)] =>
    destruct (visit_in_step fuel (u64 (BlockHeight ctx)) (VoteExtShareCap (GetParams w)) ek op w es l (mkServeSt [] ∅ cache) (mkServeSt [] ∅ ∅))
      as (E & _ & Hk & _) end; [|done].
  split_and!; [done..|apply cache_ok_empty].
Qed.

Lemma reports_cached fuel ek op w cache : cache_ok ek op w cache ->
  (buildDkgPoisonReports fuel ek op w cache).1 = (buildDkgPoisonReports fuel ek op w ∅).1 /\
  cache_ok ek op w (buildDkgPoisonReports fuel ek op w cache).2.
Proof.
  intros Hc. unfold buildDkgPoisonReports. cbv zeta. destruct (Z.eqb_spec (GetActiveEpoch w) 0) as [|He]; [done|].
  destruct (GetDkgRound (GetActiveEpoch w) w) as [round|] eqn:HR; [|done]. destruct (negb _); [done|].
  destruct (_ =? 0); [done|]. destruct (_ =? 0); [done|]. destruct (GetActiveKey (GetActiveEpoch w) w) as [ak|] eqn:HA; [|done].
  pose proof (cached_ok ek op w cache _ round ak Hc He HR HA) as [E1 Hc1]. cbv zeta in E1, Hc1.
  pose proof (cached_ok ek op w ∅ _ round ak (cache_ok_empty _ _ _) He HR HA) as [E2 _]. cbv zeta in E2.
  destruct (cachedPoisonReports _ _ ek _ _ cache) as [r1 c1]. destruct (cachedPoisonReports _ _ ek _ _ ∅) as [r2 c2].
  cbn [fst snd] in *. by subst r1 r2.
Qed.

(** C14: the verdict cache changes nothing a node says.  While every cached verdict is
    what a search on the committed state gives now, the extension built with the cache
    is the one built without it, and the cache it leaves is again right and within its
    bound of four entries, whatever had to be evicted. *)
Theorem cache_transparent fuel coeffs seal ctx ek op w cache (Hc : cache_ok ek op w cache) :
  (extension_of fuel coeffs seal ctx ek op w cache).1 = (extension_of fuel coeffs seal ctx ek op w ∅).1 /\
  cache_ok ek op w (extension_of fuel coeffs seal ctx ek op w cache).2.
Proof.
  unfold extension_of. cbv zeta.
  destruct (build_cached fuel ctx ek op w cache Hc) as [E1 K1]. destruct (build_cached fuel ctx ek op w ∅ (cache_ok_empty _ _ _)) as [_ K2].
  destruct (buildDecryptShares fuel ctx ek op w cache) as [o1 c1]. destruct (buildDecryptShares fuel ctx ek op w ∅) as [o2 c2].
  cbn [fst snd] in *. destruct (reports_cached fuel ek op w c1 K1) as [E3 K3]. destruct (reports_cached fuel ek op w c2 K2) as [E4 _].
  destruct (buildDkgPoisonReports fuel ek op w c1) as [r1 d1]. destruct (buildDkgPoisonReports fuel ek op w c2) as [r2 d2].
  cbn [fst snd] in *. split; [|done]. congruence.
Qed.

End cached.

(** ** The decryption shares a node serves *)
Section served.
Context {B : Type} `{EncJSON} `{Curve} `{AesGcm}.
Context (fuel : nat) (h shareCap : Z) (ek : EncKey) (op : string) (w : World B) (cache0 : gmap Z (list PoisonReport)).
Implicit Types (e : EncTx) (s : VoteExtShare) (c : list VoteExtShare).

Definition my_points (round : DkgRound) : list Z := points_of round (MemberIndexByOperator (r_Members round) op).

(** The node derived [shares] for the epoch from the committed dealings. *)
Record derived (epoch : Z) (shares : list Share) (round : DkgRound) (ak : ActiveThresholdKey) : Prop := {
  der_round : GetDkgRound epoch w = Some round;
  der_member : MemberIndexByOperator (r_Members round) op <> 0;
  der_key : GetActiveKey epoch w = Some ak;
  der_shares : DeriveShares (my_points round) (Priv ek) (ak_Qual ak) (dealings_map epoch w) = Ret shares;
  der_clean : cache_ok ek op w cache0 -> DetectPoisonedDealers (my_points round) (Priv ek) (ak_Qual ak) (dealings_map epoch w) = []
}.

(** [s] is a partial decryption of [e] at a point the node owns and nobody stored. *)
Record served_for e s : Prop := {
  sf_epoch : vs_Epoch s = e_Epoch e;
  sf_height : vs_DecryptHeight s = e_DecryptHeight e;
  sf_seq : vs_Seq s = e_Seq e;
  sf_encrypted : e_Epoch e <> 0;
  sf_matured : e_DecryptHeight e <= h;
  sf_marginal : vs_Index s ∉ s_Index <$> CollectShares (e_DecryptHeight e) (e_Seq e) w;
  sf_proven : exists round ak shares sh, derived (e_Epoch e) shares round ak /\ sh ∈ shares /\ sh_Index sh = vs_Index s /\
    ProveShareFor fuel sh (e_A e) = Ret (Some (vs_D s, vs_Proof s))
}.
Definition chunk_ok e c : Prop :=
  Forall (served_for e) c /\
  (c = [] \/ exists round, GetDkgRound (e_Epoch e) w = Some round /\ sublist (vs_Index <$> c) (my_points round)).

Lemma DeriveShares_index pts x qual dealings shares : DeriveShares pts x qual dealings = Ret shares -> sh_Index <$> shares = pts.
Proof.
  unfold DeriveShares. revert shares. induction pts as [|p pts IH]; intros shares; cbn [map_ok]; [by intros [= <-]|].
  destruct (derive_point x qual dealings p) as [sh| |] eqn:Ep; cbn [mbind outcome_bind]; try done.
  destruct (map_ok _ pts) as [l| |]; cbn [mbind outcome_bind]; try done. intros [= <-]. cbn [fmap list_fmap]. rewrite (IH l eq_refl). f_equal.
  unfold derive_point in Ep. destruct (fold_ok _ None qual) as [[a|]| |]; cbn [mbind outcome_bind] in Ep; try done. by injection Ep as <-.
Qed.

Lemma serve_points_spec stored e shares : forall out, exists c,
  serve_points fuel shareCap stored e shares out = out ++ c /\ sublist (vs_Index <$> c) (sh_Index <$> shares) /\
  Forall (fun s => vs_Epoch s = e_Epoch e /\ vs_DecryptHeight s = e_DecryptHeight e /\ vs_Seq s = e_Seq e /\ (vs_Index s ∉ stored) /\
    exists sh, sh ∈ shares /\ sh_Index sh = vs_Index s /\ ProveShareFor fuel sh (e_A e) = Ret (Some (vs_D s, vs_Proof s))) c /\
  (zlen out <= shareCap -> zlen (out ++ c) <= shareCap).
Proof.
  induction shares as [|sh shares IH]; intros out; cbn [serve_points fmap list_fmap].
  { exists []. rewrite app_nil_r. split_and!; [done|constructor|constructor|done]. }
  assert (G : forall out, exists c, serve_points fuel shareCap stored e shares out = out ++ c /\
    sublist (vs_Index <$> c) (sh_Index sh :: (sh_Index <$> shares)) /\
    Forall (fun s => vs_Epoch s = e_Epoch e /\ vs_DecryptHeight s = e_DecryptHeight e /\ vs_Seq s = e_Seq e /\ (vs_Index s ∉ stored) /\
      exists sh', sh' ∈ sh :: shares /\ sh_Index sh' = vs_Index s /\ ProveShareFor fuel sh' (e_A e) = Ret (Some (vs_D s, vs_Proof s))) c /\
    (zlen out <= shareCap -> zlen (out ++ c) <= shareCap)).
  { intros o. destruct (IH o) as (c & -> & Hs & HF & Hl). exists c. split_and!; [done|by constructor| |done].
    eapply Forall_impl; [exact HF|]. intros s (? & ? & ? & ? & sh' & ? & ? & ?). split_and!; [done..|]. exists sh'. by split; [right|]. }
  destruct (Z.leb_spec shareCap (zlen out)).
  { exists []. rewrite app_nil_r. split_and!; [done|apply sublist_nil_l|constructor|done]. }
  destruct (Zmem (sh_Index sh) stored) eqn:Em; [apply G|].
  destruct (ProveShareFor fuel sh (e_A e)) as [[[d proof]|]| |] eqn:Ep; [|apply G..].
  set (s := mkVoteExtShare (e_Epoch e) (e_DecryptHeight e) (e_Seq e) (sh_Index sh) d proof).
  destruct (IH (out ++ [s])) as (c & -> & Hs & HF & Hl). exists (s :: c). rewrite <- app_assoc. split_and!; [done|by constructor| |].
  - constructor.
    + split_and!; [done..| |]; [|exists sh; split_and!; [by left|done..]]. intros Hin. apply Zmem_spec in Hin. cbn in Hin. by rewrite Em in Hin.
    + eapply Forall_impl; [exact HF|]. intros t (? & ? & ? & ? & sh' & ? & ? & ?). split_and!; [done..|]. exists sh'. by split; [right|].
  - intros _. replace (out ++ s :: c) with ((out ++ [s]) ++ c) by (by rewrite <- app_assoc). apply Hl. unfold zlen in *. rewrite length_app. cbn. lia.
Qed.

(** What the loop keeps: the caches it consults hold what was derived. *)
Definition loop_inv (st : serve_st) : Prop :=
  (cache_ok ek op w cache0 -> cache_ok ek op w (sv_cache st)) /\
  forall epoch sc, shareByEpoch st !! epoch = Some sc -> sc_ok sc = true -> exists round ak, derived epoch (sc_shares sc) round ak.

Lemma derive_spec epoch cache sc cache' : (cache_ok ek op w cache0 -> cache_ok ek op w cache) -> epoch <> 0 ->
  deriveEpochShares ek op epoch w cache = (sc, cache') ->
  (cache_ok ek op w cache0 -> cache_ok ek op w cache') /\ (sc_ok sc = true -> exists round ak, derived epoch (sc_shares sc) round ak).
Proof.
  intros Hc He E. split.
  { intros K. pose proof (derive_cached ek op w cache epoch (Hc K) He) as [_ K2]. by rewrite E in K2. }
  revert E. unfold deriveEpochShares. destruct (GetDkgRound epoch w) as [round|] eqn:HR; [|by intros [= <- _]]. cbv zeta.
  destruct (Z.eqb_spec (MemberIndexByOperator (r_Members round) op) 0) as [|Hm]; [by intros [= <- _]|].
  destruct (_ =? 0); [by intros [= <- _]|]. destruct (GetActiveKey epoch w) as [ak|] eqn:HA; [|by intros [= <- _]].
  pose proof (fun K => cached_ok ek op w cache epoch round ak (Hc K) He HR HA) as Hk. cbv zeta in Hk.
  destruct (cachedPoisonReports epoch _ ek _ _ cache) as [r1 c1]. cbn [fst snd] in Hk.
  destruct (Z.ltb_spec 0 (zlen r1)) as [|Hz]; [by intros [= <- _]|].
  assert (r1 = []) as -> by (destruct r1; [done|unfold zlen in Hz; cbn in Hz; lia]).
  destruct (DeriveShares _ _ _ _) as [shares| |] eqn:Ed; intros [= <- _]; try done. intros _. exists round, ak.
  split; [done..|]. intros K. symmetry. apply (Hk K).
Qed.

Lemma serve_spec st e more st' : loop_inv st -> zlen (sv_out st) <= shareCap -> serve fuel h shareCap ek op w st e = (more, st') ->
  loop_inv st' /\ exists c, sv_out st' = sv_out st ++ c /\ chunk_ok e c /\ zlen (sv_out st') <= shareCap.
Proof.
  assert (Hnil : forall st, zlen (sv_out st) <= shareCap ->
    exists c, sv_out st = sv_out st ++ c /\ chunk_ok e c /\ zlen (sv_out st) <= shareCap).
  { intros st0 Hl. exists []. rewrite app_nil_r. split_and!; [done|split; [constructor|by left]|done]. }
  intros Hi Hl. unfold serve. destruct (_ <=? _); [intros [= _ <-]; by auto|]. destruct (Z.ltb_spec h (e_DecryptHeight e)) as [|Hh]; [intros [= _ <-]; by auto|].
  destruct (Z.eqb_spec (e_Epoch e) 0) as [|He]; [intros [= _ <-]; by auto|].
  set (found := match shareByEpoch st !! e_Epoch e with Some sc => _ | None => _ end).
  assert (G : loop_inv found.2 /\ sv_out found.2 = sv_out st /\
    (sc_ok found.1 = true -> exists round ak, derived (e_Epoch e) (sc_shares found.1) round ak)).
  { unfold found. destruct (shareByEpoch st !! e_Epoch e) as [sc|] eqn:E; [split_and!; [done..|by apply Hi]|].
    destruct (deriveEpochShares ek op (e_Epoch e) w (sv_cache st)) as [sc c1] eqn:Ed. destruct (derive_spec _ _ _ _ (proj1 Hi) He Ed) as [K1 K2].
    cbn [fst snd sv_out]. split_and!; [split; [done|]|done|done]. cbn [shareByEpoch]. intros ep sc'.
    destruct (decide (e_Epoch e = ep)) as [<-|Hne]; [rewrite lookup_insert_eq; by intros [= <-]|rewrite lookup_insert_ne by done; apply Hi]. }
  clearbody found. destruct found as [sc st1]. cbn [fst snd] in G. destruct G as (Hi1 & Eo & Hd). rewrite <- Eo in *.
  destruct (sc_ok sc) eqn:Eok; cbn [negb]; [|intros [= _ <-]; by auto]. cbv zeta.
  destruct (match GetActiveKey (e_Epoch e) w with Some _ => _ | None => _ end); [intros [= _ <-]; by auto|]. intros [= _ <-].
  split; [exact Hi1|]. cbn [sv_out]. destruct (Hd eq_refl) as (round & ak & D).
  destruct (serve_points_spec (s_Index <$> CollectShares (e_DecryptHeight e) (e_Seq e) w) e (sc_shares sc) (sv_out st1)) as (c & -> & Hs & HF & Hc).
  exists c. split_and!; [done| |by apply Hc]. split.
  - eapply Forall_impl; [exact HF|]. intros s (? & ? & ? & ? & sh & ? & ? & ?). split; [done..|]. by exists round, ak, (sc_shares sc), sh.
  - right. exists round. split; [apply D|]. by rewrite (DeriveShares_index _ _ _ _ _ (der_shares _ _ _ _ D)) in Hs.
Qed.

Lemma visit_spec entries : forall limit st, loop_inv st -> zlen (sv_out st) <= shareCap ->
  let st' := visit_in_flight_st (serve fuel h shareCap ek op w) limit entries st in
  zlen (sv_out st') <= shareCap /\
  exists es cs, sublist es (omap (fun kv : string * string => json_Unmarshal kv.2) entries) /\ Forall2 chunk_ok es cs /\
    sv_out st' = sv_out st ++ concat cs.
Proof.
  induction entries as [|[k v] entries IH]; intros [|limit] st Hi Hl; cbn [visit_in_flight_st omap list_omap snd];
    try (split; [done|]; exists [], []; rewrite app_nil_r; split_and!; [apply sublist_nil_l|constructor|done]).
  destruct (json_Unmarshal v) as [e|]; [|by apply IH]. destruct (serve fuel h shareCap ek op w st e) as [more st1] eqn:Es.
  destruct (serve_spec _ _ _ _ Hi Hl Es) as (Hi1 & c & Eo & Hc & Hl1). destruct more.
  - destruct (IH limit st1 Hi1 Hl1) as (Hz & es & cs & Hs & HF & E). split; [done|]. exists (e :: es), (c :: cs).
    split_and!; [by constructor|by constructor|]. cbn [concat]. by rewrite E, Eo, app_assoc.
  - split; [done|]. exists [e], [c]. split_and!; [constructor; apply sublist_nil_l|constructor; [done|constructor]|]. cbn [concat]. by rewrite app_nil_r.
Qed.

End served.

Section window.
Context {B : Type} `{EncJSON}.
Implicit Types (w : World B) (e : EncTx).

Definition window (h : Z) w : list (string * string) :=
  kv_range StoreKey (EncTxPrefix +:+ be64 (if strandedDecryptGraceBlocks <? h then h - strandedDecryptGraceBlocks else 0)) (prefixEnd EncTxPrefix) w.

Lemma range_from a b k : is_u64 a -> is_u64 b -> (exists rest, k = EncTxPrefix +:+ (be64 b +:+ rest)) ->
  in_range (EncTxPrefix +:+ be64 a) (prefixEnd EncTxPrefix) k = true -> a <= b.
Proof.
  intros Ha Hb [rest ->]. unfold in_range. rewrite andb_true_iff, str_leb_compare. intros [Hc _].
  change (EncTxPrefix +:+ be64 a) with (String (byte_of 6) (be64 a)) in Hc.
  change (EncTxPrefix +:+ (be64 b +:+ rest)) with (String (byte_of 6) (be64 b +:+ rest)) in Hc.
  rewrite compare_cons, Z.compare_refl in Hc. rewrite <- (str_app_nil_r (be64 a)) in Hc. unfold be64 in Hc.
  rewrite be_bytes_compare in Hc by done. destruct (Z.compare_spec a b); [lia..|done].
Qed.

Lemma range_prefix a k : in_range (EncTxPrefix +:+ a) (prefixEnd EncTxPrefix) k = true -> exists t, k = EncTxPrefix +:+ t.
Proof.
  unfold in_range. change (prefixEnd EncTxPrefix) with (Some (String (byte_of 7) EmptyString)).
  change (EncTxPrefix +:+ a) with (String (byte_of 6) a). rewrite !str_leb_compare. destruct k as [|d u]; [done|]. rewrite !compare_cons.
  change (byte_to_Z (byte_of 6)) with 6. change (byte_to_Z (byte_of 7)) with 7. intros Hr. exists u.
  assert (byte_to_Z d = 6) as Ed.
  { destruct (Z.compare_spec 6 (byte_to_Z d)); [done| |done]. destruct (Z.compare_spec 7 (byte_to_Z d)) as [E|E|E]; [|done|lia]. by destruct u. }
  rewrite <- (byte_of_to_Z d), Ed. done.
Qed.

Lemma window_entry h w k v e : enc_inv w -> is_u64 h -> (k, v) ∈ window h w -> json_Unmarshal v = Some e ->
  in_flight w e /\ h - strandedDecryptGraceBlocks <= e_DecryptHeight e /\ k = encTxKey (e_DecryptHeight e) (e_Seq e).
Proof.
  intros Hi Hh Hin He. unfold window in Hin. set (from := if _ <? _ then _ else _) in Hin. apply elem_of_kv_range in Hin as [Hg Hr].
  destruct (range_prefix _ _ Hr) as [t ->]. destruct (inv_wf w Hi t v Hg) as (e' & He' & Hkey & Hok). assert (e' = e) as -> by congruence.
  split_and!; [unfold in_flight, GetEncTx, get_json; rewrite <- Hkey; unfold sget; by rewrite Hg| |done].
  assert (is_u64 from /\ h - strandedDecryptGraceBlocks <= from) as [Hf Hl].
  { unfold from, is_u64, strandedDecryptGraceBlocks in *. destruct (Z.ltb_spec 32 h); lia. }
  rewrite Hkey in Hr. apply range_from with (b := e_DecryptHeight e) in Hr; [lia|done|apply Hok|by eexists].
Qed.

Lemma window_txs h w : enc_inv w -> is_u64 h ->
  NoDup (omap (fun kv : string * string => json_Unmarshal kv.2) (window h w) : list EncTx) /\
  forall e, e ∈ (omap (fun kv : string * string => json_Unmarshal kv.2) (window h w) : list EncTx) ->
    in_flight w e /\ h - strandedDecryptGraceBlocks <= e_DecryptHeight e.
Proof.
  intros Hi Hh. split.
  - apply entries_NoDup; [apply NoDup_kv_range|]. intros k v e Hin He. by destruct (window_entry h w k v e Hi Hh Hin He) as (_ & _ & ->).
  - intros e ([k v] & Hin & He)%list_elem_of_omap. by destruct (window_entry h w k v e Hi Hh Hin He) as (? & ? & _).
Qed.

End window.

Section shares.
Context {B : Type} `{EncJSON} `{Curve} `{AesGcm}.
Implicit Types (w : World B) (e : EncTx).

(** The shares a node serves, ciphertext by ciphertext. *)
Lemma build_spec fuel ctx ek op w cache : enc_inv w ->
  let h := u64 (BlockHeight ctx) in
  let out := (buildDecryptShares fuel ctx ek op w cache).1 in
  zlen out <= VoteExtShareCap (GetParams w) /\
  exists es cs, NoDup es /\ Forall (fun e => in_flight w e /\ h - strandedDecryptGraceBlocks <= e_DecryptHeight e) es /\
    Forall2 (chunk_ok fuel h ek op w cache) es cs /\ out = concat cs.
Proof.
  intros Hi h out. assert (Hc : 0 <= VoteExtShareCap (GetParams w)).
  { unfold VoteExtShareCap, voteExtShareFloor. destruct (Z.ltb_spec 256 (EffectiveShareBudget (GetParams w))); lia. }
  destruct (visit_spec fuel h (VoteExtShareCap (GetParams w)) ek op w cache (window h w) (Z.to_nat (VoteExtShareCap (GetParams w))) (mkServeSt [] ∅ cache))
    as (Hl & es & cs & Hs & HF & E); [split; [done|intros ep sc Hsc; cbn [shareByEpoch] in Hsc; by apply lookup_empty_Some in Hsc]|done|].
  split; [exact Hl|]. exists es, cs. destruct (window_txs h w Hi) as [Hn Hw]; [apply u64_range|]. split_and!; [by eapply sublist_NoDup| |done|exact E].
  apply Forall_forall. intros e He. apply Hw. by eapply elem_of_sublist.
Qed.

(** C6: no share leaves the node early.  The extension carries at most the share cap
    of decryption shares, and each one is for a ciphertext in flight that has reached
    its decryption height and is still within its grace, under a key of the node's
    epoch, at an evaluation point the node owns and for which the chain stores no
    share yet. *)
Theorem no_early_share fuel ctx ek op w cache (Hi : enc_inv w) :
  let h := u64 (BlockHeight ctx) in
  let out := (buildDecryptShares fuel ctx ek op w cache).1 in
  zlen out <= VoteExtShareCap (GetParams w) /\
  forall s, s ∈ out -> exists e round,
    in_flight w e /\ vs_DecryptHeight s = e_DecryptHeight e /\ vs_Seq s = e_Seq e /\ vs_Epoch s = e_Epoch e /\ e_Epoch e <> 0 /\
    h - strandedDecryptGraceBlocks <= e_DecryptHeight e <= h /\
    GetDkgRound (e_Epoch e) w = Some round /\ vs_Index s ∈ my_points op round /\
    vs_Index s ∉ s_Index <$> CollectShares (e_DecryptHeight e) (e_Seq e) w.
Proof.
  cbv zeta. destruct (build_spec fuel ctx ek op w cache Hi) as (Hl & es & cs & _ & HW & HF & E). split; [exact Hl|].
  intros s Hs. rewrite E in Hs. apply list_elem_of_In, in_concat in Hs as (c & Hc & Hs). apply list_elem_of_In in Hc, Hs.
  apply list_elem_of_lookup in Hc as [i Hc]. destruct (Forall2_lookup_r _ _ _ _ _ HF Hc) as (e & He & Hok & _).
  eapply Forall_forall in Hok; [|exact Hs]. eapply Forall_lookup_1 in HW as [? ?]; [|exact He]. destruct Hok as [? ? ? ? ? ? (round & ak & shares & sh & D & Hsh & Ei & _)].
  exists e, round. split_and!; [done..|apply D| |done]. rewrite <- Ei, <- (DeriveShares_index _ _ _ _ _ (der_shares _ _ _ _ _ _ _ _ D)).
  apply list_elem_of_fmap. by exists sh.
Qed.

End shares.

(** ** What is served is stored *)
Section accepted.
Context {B : Type} `{EncJSON} `{CurveLaws} `{AesGcm} `{MathInt} `{Ecdsa}.
Implicit Types (w : World B) (e : EncTx).

Lemma prove_shape fuel sh a d proof : ProveShareFor fuel sh a = Ret (Some (d, proof)) -> strlen d = 33 /\ strlen proof = 64.
Proof.
  unfold ProveShareFor, ProveDecryptShare, ComputeShare. cbn [ct_A]. destruct (ParsePubKey a) as [A|]; [|done]. cbn [mbind outcome_bind ds_D].
  destruct (parsePoint a); [|done]. destruct (parsePoint _); [|done]. cbv zeta. cbn [mbind outcome_bind].
  destruct (deriveDLEQNonce _ _ _ _ _ _); [|done]. intros [= <- <-]. cbn [ds_D]. unfold strlen, MarshalDLEQProof, compress.
  by rewrite compressed_length, pair_length.
Qed.

(** The key of the epoch was finalised from the polynomials [ds], and the dealings of
    its qualified dealers are still committed. *)
Record epoch_ready w (epoch degree : Z) (ds : list (Z * list Z)) (res : PublicResult) : Prop := {
  er_degree : 1 <= degree;
  er_dealt : well_dealt degree ds;
  er_final : exists members disq weights minW, members <> [] /\ FinalizePublicWeighted members degree (publish ds) disq weights minW = Ret res;
  er_qual : Qual res <> [];
  er_key ak : GetActiveKey epoch w = Some ak -> ak_PublicCommitments ak = PublicCommitments res /\ ak_Qual ak = Qual res;
  er_dealings q : (q ∈ Qual res) -> exists d, dealings_map epoch w !! q = Some d /\ d_Commitments d = commits (poly ds q)
}.

(** Every cached share key of the epoch that parses is the key of its index. *)
Definition keys_cached w (epoch : Z) (res : PublicResult) : Prop :=
  forall i cps P, ParseCommitmentPoints (PublicCommitments res) = Some cps ->
    ParseCommitmentPoints [getShareKeyCache epoch i w] = Some [P] -> SharePubKey cps i = Some P.

(** A share derived and proven in the state [w] verifies in a state [w'] with the same
    key and right cached share keys. *)
Lemma ready_verifies w w' epoch degree ds res fuel x ak shares sh a D proof pts : epoch_ready w epoch degree ds res ->
  keys_cached w' epoch res -> GetActiveKey epoch w = Some ak -> GetActiveKey epoch w' = Some ak -> Forall (fun p => 0 <= p < 2 ^ 32) pts ->
  DetectPoisonedDealers pts x (ak_Qual ak) (dealings_map epoch w) = [] ->
  DeriveShares pts x (ak_Qual ak) (dealings_map epoch w) = Ret shares -> sh ∈ shares ->
  sh_Xi (joint_share ds (Qual res) (sh_Index sh)) <> 0 -> ProveShareFor fuel sh a = Ret (Some (D, proof)) ->
  verifyDecryptShareDLEQ epoch a (sh_Index sh) D proof w' = true.
Proof.
  intros [Hd Hw (members & disq & weights & minW & Hm & HR) Hq Hk HD] Hc HA HA' HF Hdet Hder Hsh Hx HP. destruct (Hk ak HA) as [EC EQ]. rewrite EQ in *.
  destruct (derived_shares_joint x ds members degree disq weights minW res _ pts Hd Hm Hw HR Hq HD HF Hdet) as [E (cps & Ecps & HV)].
  rewrite Hder in E. injection E as ->. apply list_elem_of_fmap in Hsh as (p & -> & Hp). cbn [sh_Index joint_share] in *.
  specialize (HV p fuel a D proof Hp Hx HP). unfold verifyDecryptShareDLEQ. rewrite HA', EC.
  destruct (finalize_result _ _ _ _ _ _ _ Hd Hm Hw HR) as (_ & _ & HC & _).
  assert ((zlen (PublicCommitments res) =? 0) = false) as ->.
  { apply Z.eqb_neq. rewrite HC. unfold zlen, commits, joint. rewrite !length_fmap, length_seq. lia. }
  destruct (ParseDLEQProof proof) as [pf|]; [|done]. rewrite Ecps. cbv zeta.
  destruct (0 <? _); [|done]. destruct (ParseCommitmentPoints [getShareKeyCache epoch p w']) as [[|P [|]]|] eqn:Ec; try done.
  by rewrite <- (Hc p cps P Ecps Ec).
Qed.

End accepted.

(** ** Complaints *)
Section complaints.
Context {B : Type} `{EncJSON} `{CurveLaws} `{AesGcm} `{MathInt} `{Ecdsa}.
Implicit Types (w : World B) (c : VoteExtComplaint).

(** What a complaint states: no share at the point, or a share that is not clean with
    the node's proven opening of it. *)
Definition stated (fuel : nat) (ek : EncKey) (dealing : Dealing) c : Prop :=
  clean (Priv ek) dealing (vc_EvalPoint c) = false /\
  match find_enc_share dealing (vc_EvalPoint c) with
  | None => True
  | Some enc => exists ds proof,
      ProveDecryptShare fuel (mkShare (vc_EvalPoint c) (Priv ek)) (mkCiphertext (es_A enc) EmptyString EmptyString) = Ret (Some (ds, proof)) /\
      vc_SharedPoint c = ds_D ds /\ vc_DleqProof c = MarshalDLEQProof proof
  end.

Lemma first_fault_spec fuel ek epoch d dealing cps points c : ParseCommitmentPoints (d_Commitments dealing) = Some cps ->
  first_fault fuel ek epoch d dealing cps points = Some c ->
  vc_Epoch c = epoch /\ vc_Against c = d /\ vc_EvalPoint c ∈ points /\ stated fuel ek dealing c.
Proof.
  intros Hc. induction points as [|p points IH]; cbn [first_fault]; [done|].
  assert (G : first_fault fuel ek epoch d dealing cps points = Some c ->
    vc_Epoch c = epoch /\ vc_Against c = d /\ vc_EvalPoint c ∈ p :: points /\ stated fuel ek dealing c).
  { intros E. destruct (IH E) as (? & ? & ? & ?). split_and!; [done..|by right|done]. }
  destruct (find_enc_share dealing p) as [enc|] eqn:Ef.
  - destruct (match DecryptShareFrom _ _ _ with Ret _ => _ | _ => _ end) eqn:Ev; [exact G|].
    destruct (ProveDecryptShare fuel _ _) as [[[ds proof]|]| |] eqn:Ep; [|exact G..]. intros [= <-]. cbn [vc_Epoch vc_Against vc_EvalPoint].
    split_and!; [done..|by left|]. split; cbn [vc_EvalPoint vc_SharedPoint vc_DleqProof].
    + unfold clean. rewrite Ef, Hc. by destruct (DecryptShareFrom _ _ _).
    + rewrite Ef. by exists ds, proof.
  - intros [= <-]. split_and!; [done..|by left|]. unfold stated, clean. cbn [vc_EvalPoint]. by rewrite Ef.
Qed.

(** The chain finds the dealer guilty of what is stated. *)
Lemma stated_verdict fuel ek dealing c cps enc : ~ eqq (Priv ek) 0 -> ParseCommitmentPoints (d_Commitments dealing) = Some cps ->
  find_enc_share dealing (vc_EvalPoint c) = Some enc -> stated fuel ek dealing c ->
  VerifyJustifiedComplaint (vc_EvalPoint c) (compressCopy (ScalarBaseMultNonConst (Priv ek))) (d_Commitments dealing)
    (es_A enc) (es_Nonce enc) (es_Body enc) (vc_SharedPoint c) (vc_DleqProof c) = (true, true).
Proof.
  intros Hx Hc Hf [Hcl Hp]. rewrite Hf in Hp. destruct Hp as (ds & proof & Hp & -> & ->). revert Hp. unfold ProveDecryptShare, ComputeShare.
  cbn [ct_A]. destruct (ParsePubKey (es_A enc)) as [A|] eqn:EA; [|done]. cbn [mbind outcome_bind ds_D sh_Index sh_Xi].
  assert (parsePoint (es_A enc) = Some A) as EP by (unfold parsePoint; by rewrite EA). rewrite EP.
  destruct (parsePoint (compress _)) as [D|] eqn:ED; [|done]. destruct (deriveDLEQNonce _ _ _ _ _ _) as [k|]; [|done]. intros [= <- <-].
  destruct (Nat.eq_dec (String.length (es_Nonce enc)) 12) as [Hn|Hn].
  - pose proof (complain_verdict k (Priv ek) (vc_EvalPoint c) A (d_Commitments dealing) cps (ciphertext_of enc) Hx EA Hn Hc) as V.
    unfold complain in V. cbn [ciphertext_of ct_A ct_Nonce ct_Body] in V. cbv zeta in V.
    unfold parsePoint, compress in ED. rewrite parse_compressed in ED by (apply smul_finite; [by eapply parse_finite|done]). injection ED as <-.
    etransitivity; [exact V|]. f_equal. unfold clean in Hcl. rewrite Hf, Hc in Hcl. change (ciphertext_of enc) with (mkCiphertext (es_A enc) (es_Nonce enc) (es_Body enc)) in *.
    by destruct (DecryptShareFrom _ _ _); [rewrite Hcl|..].
  - unfold VerifyJustifiedComplaint. rewrite EP, (proj2 (Z.eqb_neq _ _)); [done|]. unfold NonceSize. lia.
Qed.

(** C11: an honest complaint is upheld.  A complaint that a member holding its
    registered key attaches names another member's dealing that is not clean at a
    point the accuser owns; and unless that pair of members was already judged, the
    chain records it against the dealer. *)
Theorem complaint_upheld fuel ek op round w c me :
  c ∈ buildDkgComplaints fuel ek op round w -> memberByIndex round (MemberIndexByOperator (r_Members round) op) = Some me ->
  EncPubKey me = compressCopy (ScalarBaseMultNonConst (Priv ek)) -> ~ eqq (Priv ek) 0 -> Forall (fun m => Index m <> 0) (r_Members round) ->
  vc_Against c <> Index me /\
  (exists dealing, GetDealing (r_Epoch round) (vc_Against c) w = Some dealing /\ clean (Priv ek) dealing (vc_EvalPoint c) = false) /\
  forall verifies, GetComplaint (r_Epoch round) (vc_Against c) (Index me) w = false ->
    HasComplaintRejected (r_Epoch round) (vc_Against c) (Index me) (vc_EvalPoint c) w = false ->
    exists n, IngestComplaintFromVE round op c verifies w = (true, n, record_complaint round (vc_Against c) (Index me) w).
Proof.
  intros Hin Hme Hkey Hx HI. assert (Ei : Index me = MemberIndexByOperator (r_Members round) op).
  { unfold memberByIndex in Hme. destruct (list_find _ _) as [[j m]|] eqn:E; [|done]. injection Hme as ->. by apply list_find_Some in E as (_ & ? & _). }
  revert Hin. unfold buildDkgComplaints. cbv zeta. destruct (Z.eqb_spec (MemberIndexByOperator (r_Members round) op) 0) as [|Hne]; [by intros ?%not_elem_of_nil|].
  destruct (_ =? 0); [by intros ?%not_elem_of_nil|]. unfold points_of. rewrite Hme, <- Ei in *.
  intros (m & Hm & Hc)%list_elem_of_omap. unfold complaint_about in Hc. destruct (Z.eqb_spec (Index m) (Index me)) as [|Hd]; [done|].
  destruct (GetDealing (r_Epoch round) (Index m) w) as [dealing|] eqn:Ed; [|done].
  destruct (ParseCommitmentPoints (d_Commitments dealing)) as [cps|] eqn:Ec; [|done].
  destruct (first_fault_spec _ _ _ _ _ _ _ _ Ec Hc) as (E1 & E2 & E3 & E4). rewrite E2. split_and!; [done|by exists dealing; split; [|apply E4]|].
  intros verifies Hg Hr. unfold IngestComplaintFromVE. cbv zeta. rewrite E1, E2, Z.eqb_refl. cbn [negb]. unfold memberIndexByOperator. rewrite <- Ei.
  rewrite (proj2 (Z.eqb_neq _ _) Hne), (proj2 (Z.eqb_neq (Index m) 0)) by (eapply Forall_forall in HI; [exact HI|done]).
  rewrite (proj2 (Z.eqb_neq _ _) Hd), Hme. cbn [orb].
  assert (is_Some (memberByIndex round (Index m))) as [m' ->].
  { unfold memberByIndex. destruct (list_find _ (r_Members round)) as [[j m']|] eqn:E; [by eexists|].
    apply list_find_None in E. eapply Forall_forall in E; [|exact Hm]. by destruct E. }
  unfold OwnsEvalPoint. rewrite (proj2 (Zmem_spec _ _) E3), Hg, Hr, Ed. cbn [negb].
  destruct (find_enc_share dealing (vc_EvalPoint c)) as [enc|] eqn:Ef; [|by eexists].
  rewrite Hkey, (stated_verdict fuel ek dealing c cps enc Hx Ec Ef E4). by eexists.
Qed.

End complaints.

(** ** Acceptance by the peers *)

Lemma map_ok_Forall2 {X Y : Type} (f : X -> outcome Y) l l' : map_ok f l = Ret l' -> Forall2 (fun x y => f x = Ret y) l l'.
Proof.
  revert l'. induction l as [|x l IH]; intros l'; cbn [map_ok]; [by intros [= <-]|].
  destruct (f x) as [y| |] eqn:E; cbn [mbind outcome_bind]; try done. destruct (map_ok f l) as [ys| |]; cbn [mbind outcome_bind]; try done.
  intros [= <-]. constructor; [done|by apply IH].
Qed.

(** The number of shares given for one ciphertext. *)
Definition for_ct (k : Z * Z) (s : VoteExtShare) : bool := bool_decide ((vs_DecryptHeight s, vs_Seq s) = k).
Definition count_ct (k : Z * Z) (l : list VoteExtShare) : Z := zlen (List.filter (for_ct k) l).

Lemma count_ct_le k l : 0 <= count_ct k l <= zlen l.
Proof. unfold count_ct, zlen. pose proof (List.filter_length_le (for_ct k) l). lia. Qed.

Lemma per_ct_spec limit l : forall counts, (forall k, default 0 (counts !! k) + count_ct k l <= limit) -> per_ct_ok limit counts l = true.
Proof.
  induction l as [|s l IH]; intros counts Hk; cbn [per_ct_ok]; [done|]. cbv zeta.
  assert (Hc : forall k, count_ct k (s :: l) = (if for_ct k s then 1 else 0) + count_ct k l).
  { intros k. unfold count_ct, zlen. cbn [List.filter]. destruct (for_ct k s); cbn [length]; lia. }
  set (k0 := (vs_DecryptHeight s, vs_Seq s)). assert (F0 : for_ct k0 s = true) by (by apply bool_decide_eq_true).
  pose proof (Hk k0) as K0. rewrite Hc, F0 in K0. pose proof (count_ct_le k0 l). rewrite (proj2 (Z.ltb_ge _ _)) by lia.
  apply IH. intros k. destruct (decide (k0 = k)) as [<-|Hne].
  - rewrite lookup_insert_eq. simpl default. lia.
  - rewrite lookup_insert_ne by done. specialize (Hk k). rewrite Hc in Hk. destruct (for_ct k s); lia.
Qed.

(** More shares for one ciphertext than the budget in force are refused, whoever sent
    them: an epoch generated under a larger budget gives its members more points. *)
Lemma per_ct_over limit l k : forall counts, limit < default 0 (counts !! k) + count_ct k l -> 0 < count_ct k l -> per_ct_ok limit counts l = false.
Proof.
  induction l as [|s l IH]; intros counts Hk Hp; [done|]. cbn [per_ct_ok]. cbv zeta.
  assert (Hc : count_ct k (s :: l) = (if for_ct k s then 1 else 0) + count_ct k l).
  { unfold count_ct, zlen. cbn [List.filter]. destruct (for_ct k s); cbn [length]; lia. }
  rewrite Hc in Hk, Hp. destruct (Z.ltb_spec limit (default 0 (counts !! (vs_DecryptHeight s, vs_Seq s)) + 1)) as [|Hle]; [done|].
  destruct (for_ct k s) eqn:F.
  - apply bool_decide_eq_true in F as <-. pose proof (count_ct_le (vs_DecryptHeight s, vs_Seq s) l).
    apply IH; [rewrite lookup_insert_eq; simpl default; lia|lia].
  - apply bool_decide_eq_false in F. apply IH; [rewrite lookup_insert_ne by done; lia|lia].
Qed.

Lemma over_budget_refused p ve k : 0 <= EffectiveShareBudget p < count_ct k (ve_Shares ve) -> extension_ok p ve = false.
Proof.
  intros Hk. unfold extension_ok. cbv zeta. destruct (_ <? _); [done|]. pose proof (count_ct_le k (ve_Shares ve)).
  rewrite (proj2 (Z.ltb_lt _ (zlen (ve_Shares ve)))), (per_ct_over _ _ k) by (rewrite ?lookup_empty; simpl default; lia). done.
Qed.

Lemma small_true limit s : strlen s <= limit -> small limit s = true.
Proof. intros Hs. by apply Z.leb_le. Qed.

Lemma zlen_sublist {A : Type} (l l' : list A) : sublist l l' -> zlen l <= zlen l'.
Proof. intros Hs. unfold zlen. apply sublist_length in Hs. lia. Qed.

Section limits.
Context {B : Type} `{EncJSON} `{CurveLaws} `{AesGcm}.
Implicit Types (w : World B).

(** Every stored round is within the parameters in force. *)
Record within (p : Params) w : Prop := {
  wi_unsigned : 0 <= EffectiveShareBudget p /\ 0 <= EffectiveMaxMembers p;
  wi_members : EffectiveMaxMembers p <= VoteExtShareCap p;
  wi_round epoch round : GetDkgRound epoch w = Some round ->
    zlen (r_Members round) <= EffectiveMaxMembers p /\ TotalEvalPoints (r_Members round) <= EffectiveShareBudget p
}.

Lemma points_total round idx : zlen (points_of round idx) <= TotalEvalPoints (r_Members round).
Proof.
  unfold points_of. destruct (memberByIndex round idx) as [m|] eqn:E; [|apply sumZ_nonneg, Forall_true, StakeWeight.owned_nonneg].
  unfold memberByIndex in E. destruct (list_find _ _) as [[j m']|] eqn:Ef; [|done]. injection E as ->.
  apply list_find_Some in Ef as (Hj & _ & _). apply StakeWeight.owned_le_total. by eapply list_elem_of_lookup_2.
Qed.

(** The shares of one ciphertext are one of the chunks. *)
Lemma chunks_filter fuel h ek op w cache k es : forall cs, NoDup es -> Forall (fun e => in_flight w e) es ->
  Forall2 (chunk_ok fuel h ek op w cache) es cs ->
  List.filter (for_ct k) (concat cs) = [] \/
  exists e, in_flight w e /\ (e_DecryptHeight e, e_Seq e) = k /\ chunk_ok fuel h ek op w cache e (List.filter (for_ct k) (concat cs)).
Proof.
  induction es as [|e es IH]; intros cs Hn HF HP2; inversion HP2 as [|? c ? cs' Hc HP2' E1 E2]; subst; [by left|].
  apply NoDup_cons in Hn as [Hnin Hn]. inversion HF as [|? ? He HF']; subst. cbn [concat]. rewrite List.filter_app.
  assert (Hk : forall s, s ∈ c -> (vs_DecryptHeight s, vs_Seq s) = (e_DecryptHeight e, e_Seq e)).
  { intros s Hs. destruct Hc as [HS _]. eapply Forall_forall in HS; [|exact Hs]. f_equal; apply HS. }
  destruct (decide ((e_DecryptHeight e, e_Seq e) = k)) as [<-|Hne].
  - replace (List.filter _ (concat cs')) with (@nil VoteExtShare).
    + right. exists e. split_and!; [done..|]. rewrite app_nil_r. rewrite List.forallb_filter_id; [done|].
      apply List.forallb_forall. intros s Hs. apply bool_decide_eq_true, Hk. by apply list_elem_of_In.
    + symmetry. apply elem_of_nil_inv. intros s Hs.
      apply list_elem_of_In, List.filter_In in Hs as [Hs Hf]. apply bool_decide_eq_true in Hf. injection Hf as Eh Eq.
      apply in_concat in Hs as (c' & Hc' & Hs). apply list_elem_of_In in Hc', Hs. apply list_elem_of_lookup in Hc' as [i Hc'].
      destruct (Forall2_lookup_r _ _ _ _ _ HP2' Hc') as (e' & He' & HS' & _). eapply Forall_forall in HS'; [|exact Hs].
      eapply Forall_lookup_1 in HF' as Hfl; [|exact He']. apply Hnin. apply list_elem_of_lookup. exists i. rewrite He'. f_equal.
      unfold in_flight in He, Hfl. rewrite <- (sf_height _ _ _ _ _ _ _ _ HS'), <- (sf_seq _ _ _ _ _ _ _ _ HS'), Eh, Eq, He in Hfl. congruence.
  - replace (List.filter _ c) with (@nil VoteExtShare); [exact (IH cs' Hn HF' HP2')|]. symmetry. apply elem_of_nil_inv. intros s Hs.
    apply list_elem_of_In, List.filter_In in Hs as [Hs Hf]. apply bool_decide_eq_true in Hf. apply list_elem_of_In in Hs.
    apply Hne. rewrite <- Hf. symmetry. by apply Hk.
Qed.

Lemma chunks_count fuel h ek op w cache k p es cs : within p w -> NoDup es -> Forall (fun e => in_flight w e) es ->
  Forall2 (chunk_ok fuel h ek op w cache) es cs ->
  count_ct k (concat cs) <= EffectiveShareBudget p \/ count_ct k (concat cs) = 0.
Proof.
  intros Hw Hn HF HP2. unfold count_ct. destruct (chunks_filter fuel h ek op w cache k es cs Hn HF HP2) as [->|(e & _ & _ & _ & Hlen)]; [by right|].
  revert Hlen. generalize (List.filter (for_ct k) (concat cs)). intros c [->|(round & HR & Hsub)]; [by right|]. left.
  apply zlen_sublist in Hsub. unfold zlen at 1 in Hsub. rewrite length_fmap in Hsub. fold (zlen c) in Hsub.
  pose proof (points_total round (MemberIndexByOperator (r_Members round) op)). destruct (wi_round _ _ Hw _ _ HR). unfold my_points in Hsub. lia.
Qed.

Lemma prove_point_shape fuel sh a ds proof : ProveDecryptShare fuel sh (mkCiphertext a EmptyString EmptyString) = Ret (Some (ds, proof)) ->
  strlen (ds_D ds) = 33 /\ strlen (MarshalDLEQProof proof) = 64.
Proof.
  intros E. apply (prove_shape fuel sh a (ds_D ds) (MarshalDLEQProof proof)). unfold ProveShareFor. by rewrite E.
Qed.

Lemma complaint_shape epoch d pt D pf : strlen D = 33 -> strlen pf = 64 -> complaint_small (mkVoteExtComplaint epoch d pt D pf) = true.
Proof. intros E1 E2. unfold complaint_small, small. cbn. by rewrite E1, E2. Qed.

Lemma complaints_small fuel h ek op w p : within p w ->
  zlen (own_complaints fuel h ek op w) <= EffectiveMaxMembers p \/ own_complaints fuel h ek op w = [].
Proof.
  intros Hw. unfold own_complaints, open_round. cbv zeta. destruct (0 <? _); [|by right]. destruct (GetDkgRound _ w) as [round|] eqn:E; [|by right].
  destruct (String.eqb _ _); [|by right]. destruct (_ && _); [|by right]. unfold buildDkgComplaints. cbv zeta. destruct (_ =? 0); [by right|].
  destruct (_ =? 0); [by right|]. left. destruct (wi_round _ _ Hw _ _ E) as [Hm _]. etransitivity; [|exact Hm]. unfold zlen.
  match goal with |- context [omap ?f _] => generalize f end. intros f. generalize (r_Members round). intros l.
  induction l as [|m l IH]; [done|]. cbn. destruct (f m); cbn; lia.
Qed.

Lemma first_fault_small fuel ek epoch d dealing cps points c : first_fault fuel ek epoch d dealing cps points = Some c -> complaint_small c = true.
Proof.
  induction points as [|p points IH]; cbn [first_fault]; [done|]. destruct (find_enc_share dealing p) as [enc|]; [|by intros [= <-]].
  destruct (match DecryptShareFrom _ _ _ with Ret _ => _ | _ => _ end); [done|].
  destruct (ProveDecryptShare fuel _ _) as [[[ds proof]|]| |] eqn:Ep; [|done..]. intros [= <-].
  destruct (prove_point_shape _ _ _ _ _ Ep). by apply complaint_shape.
Qed.

Lemma own_complaints_small fuel h ek op w : forallb complaint_small (own_complaints fuel h ek op w) = true.
Proof.
  unfold own_complaints. destruct (open_round w) as [round|]; [|done]. destruct (_ && _); [|done]. unfold buildDkgComplaints. cbv zeta.
  destruct (_ =? 0); [done|]. destruct (_ =? 0); [done|]. apply forallb_forall. intros c Hc. apply list_elem_of_In, list_elem_of_omap in Hc as (m & _ & Hc).
  unfold complaint_about in Hc. destruct (_ =? _); [done|]. destruct (GetDealing _ _ w); [|done]. destruct (ParseCommitmentPoints _); [|done].
  by eapply first_fault_small.
Qed.

Lemma report_small fuel ek epoch idx dealings w r c : report_complaint fuel ek epoch idx dealings w r = Some c -> complaint_small c = true.
Proof.
  unfold report_complaint. destruct (_ || _); [done|]. destruct (dealings !! _); [|done]. destruct (find_enc_share _ _); [|by intros [= <-]].
  destruct (ProveDecryptShare fuel _ _) as [[[ds proof]|]| |] eqn:Ep; try done. intros [= <-].
  destruct (prove_point_shape _ _ _ _ _ Ep). by apply complaint_shape.
Qed.

Lemma collect_spec limit f reports : (forall r c, f r = Some c -> complaint_small c = true) -> forall out,
  zlen out <= limit -> forallb complaint_small out = true ->
  zlen (collect_reports limit f reports out) <= limit /\ forallb complaint_small (collect_reports limit f reports out) = true.
Proof.
  intros Hf. induction reports as [|r reports IH]; intros out Hl Ho; cbn [collect_reports]; [done|]. destruct (Z.leb_spec limit (zlen out)); [done|].
  apply IH; unfold option_list; destruct (f r) as [c|] eqn:E; rewrite ?app_nil_r; try done.
  - unfold zlen in *. rewrite length_app. simpl. lia.
  - rewrite forallb_app, Ho. simpl. by rewrite (Hf r c E).
Qed.

Lemma reports_small fuel ek op w cache p : within p w ->
  let l := (buildDkgPoisonReports fuel ek op w cache).1 in
  (zlen l <= EffectiveMaxMembers p \/ l = []) /\ forallb complaint_small l = true.
Proof.
  intros Hw. unfold buildDkgPoisonReports. cbv zeta. destruct (_ =? 0); [by split; [right|]|].
  destruct (GetDkgRound _ w) as [round|] eqn:E; [|by split; [right|]]. destruct (negb _); [by split; [right|]|]. destruct (_ =? 0); [by split; [right|]|].
  destruct (_ =? 0); [by split; [right|]|]. destruct (GetActiveKey _ w) as [ak|]; [|by split; [right|]].
  destruct (cachedPoisonReports _ _ _ _ _ _) as [reports c1]. cbn [fst]. destruct (wi_round _ _ Hw _ _ E) as [Hm _].
  match goal with |- context [collect_reports ?l ?f reports []] =>
    destruct (collect_spec l f reports (fun r c => report_small fuel ek _ _ _ w r c) [] ltac:(unfold zlen; cbn; lia) eq_refl) as [Hl Hs] end.
  split; [left; lia|done].
Qed.

Lemma owned_points_length members : zlen (owned_points members) = TotalEvalPoints members.
Proof.
  unfold owned_points, TotalEvalPoints, zlen. induction members as [|m l IH]; [done|]. rewrite fmap_cons. cbn [concat sumZ].
  rewrite length_app, length_fmap, Nat2Z.inj_add, IH. done.
Qed.

Lemma own_dealing_small coeffs seal h op w p d : within p w -> zlen coeffs <= EffectiveShareBudget p ->
  (forall pt, String.length (seal pt).2 = 12%nat) -> (forall P n msg, strlen msg = 32 -> strlen (gcm_Seal (kdf P) n msg) <= 128) ->
  own_dealing coeffs seal h op w = Some d ->
  dealing_small (EffectiveShareBudget p) d = true /\ zlen (vd_EncShares d) <= EffectiveShareBudget p.
Proof.
  intros Hw Hc Hn Hg. unfold own_dealing, open_round. cbv zeta. destruct (0 <? _); [|done]. destruct (GetDkgRound _ w) as [round|] eqn:HR; [|done].
  destruct (String.eqb _ _); [|done]. destruct (_ <=? _); [|done]. destruct (_ =? 0); [done|]. destruct (GetDealing _ _ w); [done|].
  unfold BuildDealing, Deal. destruct (r_Threshold round <? 1); [done|]. destruct (concat _) as [|p0 ps]; [done|].
  destruct (map_ok (fun m => s ← evalPoly coeffs m; Ret (m, s)) (p0 :: ps)) as [shares| |]; cbn [mbind outcome_bind]; try done.
  destruct (map_ok _ (owned_points (r_Members round))) as [enc| |] eqn:Em; cbn [mbind outcome_bind]; try done. intros [= <-].
  apply map_ok_Forall2 in Em. destruct (wi_round _ _ Hw _ _ HR) as [_ Ht].
  assert (He : zlen enc <= EffectiveShareBudget p) by (rewrite <- (owned_points_length (r_Members round)) in Ht; unfold zlen in *; rewrite <- (Forall2_length _ _ _ Em); lia).
  split; [|done]. unfold dealing_small. cbn [vd_Commitments vd_EncShares fst].
  rewrite (proj2 (Z.ltb_ge _ (zlen enc))) by done. unfold zlen at 1. rewrite length_fmap. fold (zlen coeffs). rewrite (proj2 (Z.ltb_ge _ (zlen coeffs))) by done.
  cbn [negb orb andb]. apply andb_true_iff. split; apply forallb_forall; intros x Hx; apply list_elem_of_In in Hx.
  - apply list_elem_of_fmap in Hx as (cf & -> & _). apply small_true. unfold strlen, compressCopy. by rewrite compressed_length.
  - apply list_elem_of_lookup in Hx as [i Hx]. destruct (Forall2_lookup_r _ _ _ _ _ Em Hx) as (mp & _ & E). unfold seal_share in E.
    destruct (_ !! mp.2) as [sc|]; [|done]. unfold EncryptShareTo, EncryptWithR in E. destruct (ParsePubKey _); [|done]. cbn [mbind outcome_bind] in E.
    injection E as <-. cbn [es_A es_Body es_Nonce ct_A ct_Nonce ct_Body]. rewrite !small_true; [done|..].
    + unfold strlen. by rewrite Hn.
    + apply Hg. unfold strlen, scalar_bytes. by rewrite be_bytes_length.
    + unfold strlen, compress. by rewrite compressed_length.
Qed.

End limits.

Section peers.
Context {B : Type} `{EncJSON} `{CurveLaws} `{AesGcm} `{MathInt} `{!Ecdsa} `{!EcdsaSign} `{!EcdsaLaws} `{JSONLaws VoteExtension}.
Implicit Types (w : World B).

(** The JSON objects of an extension. *)
Definition objects (ve : VoteExtension) : Z :=
  1 + match ve_Dealing ve with Some d => 1 + zlen (vd_EncShares d) | None => 0 end + zlen (ve_Shares ve) +
  zlen (ve_Complaints ve) + zlen (ve_PoisonReports ve).

Lemma cap_budget p : EffectiveShareBudget p <= VoteExtShareCap p /\ 256 <= VoteExtShareCap p.
Proof. unfold VoteExtShareCap, voteExtShareFloor. destruct (Z.ltb_spec 256 (EffectiveShareBudget p)); lia. Qed.

Lemma pop_small ek op : strlen (SignEncKeyPoP (Priv ek) op) <= 72.
Proof. unfold SignEncKeyPoP, strlen. destruct (String.eqb op ""); [by cbn|]. apply ecdsa_length, sha256_length. Qed.

(** The hypotheses on the randomness and the cipher. *)
Definition dealable (p : Params) (coeffs : list Z) (seal : Z -> Z * string) : Prop :=
  zlen coeffs <= EffectiveShareBudget p /\ (forall pt, String.length (seal pt).2 = 12%nat) /\
  forall P n msg, strlen msg = 32 -> strlen (gcm_Seal (kdf P) n msg) <= 128.

Lemma shares_ok fuel ctx ek op w cache : enc_inv w -> within (GetParams w) w ->
  let l := (buildDecryptShares fuel ctx ek op w cache).1 in
  zlen l <= VoteExtShareCap (GetParams w) /\
  (EffectiveShareBudget (GetParams w) <? zlen l) && negb (per_ct_ok (EffectiveShareBudget (GetParams w)) ∅ l) = false /\
  forallb (fun s => small veMaxPointBytes (vs_D s) && small veMaxDleqProofBytes (vs_Proof s)) l = true.
Proof.
  intros Hi Hw. cbv zeta. destruct (build_spec fuel ctx ek op w cache Hi) as (Hl & es & cs & Hn & HW & HF & E). rewrite E in *. split_and!; [done| |].
  - rewrite per_ct_spec; [by rewrite andb_false_r|]. intros k. rewrite lookup_empty. change (default 0 None) with 0.
    destruct (chunks_count fuel _ ek op w cache k (GetParams w) es cs Hw Hn (Forall_impl _ _ _ HW (fun e He => proj1 He)) HF) as [|E0]; [lia|].
    rewrite E0. apply (wi_unsigned _ _ Hw).
  - apply forallb_forall. intros s Hs. apply in_concat in Hs as (c & Hc & Hs). apply list_elem_of_In in Hc, Hs.
    apply list_elem_of_lookup in Hc as [i Hc]. destruct (Forall2_lookup_r _ _ _ _ _ HF Hc) as (e & _ & HS & _).
    eapply Forall_forall in HS; [|exact Hs]. destruct (sf_proven _ _ _ _ _ _ _ _ HS) as (_ & _ & _ & sh & _ & _ & _ & HP).
    destruct (prove_shape _ _ _ _ _ HP) as [E1 E2]. unfold small. by rewrite E1, E2.
Qed.

(** Everything an honest node attaches is within the bounds. *)
Lemma extension_checks fuel coeffs seal ctx ek op w cache : enc_inv w -> within (GetParams w) w -> dealable (GetParams w) coeffs seal ->
  strlen (ek_Pub ek) = 33 ->
  let ve := (extension_of fuel coeffs seal ctx ek op w cache).1 in
  extension_ok (GetParams w) ve = true /\ objects ve <= 8 + 4 * VoteExtShareCap (GetParams w).
Proof.
  intros Hi Hw (Hc & Hn & Hg) Hk. unfold extension_of. cbv zeta. pose proof (shares_ok fuel ctx ek op w cache Hi Hw) as (S1 & S2 & S3).
  destruct (buildDecryptShares fuel ctx ek op w cache) as [shares c1]. cbn [fst] in S1, S2, S3.
  pose proof (reports_small fuel ek op w c1 (GetParams w) Hw) as [R1 R2].
  destruct (buildDkgPoisonReports fuel ek op w c1) as [reports c2]. cbn [fst] in R1, R2. cbn [fst].
  pose proof (wi_unsigned _ _ Hw) as [U1 U2]. pose proof (wi_members _ _ Hw) as HM. pose proof (cap_budget (GetParams w)) as [HB _].
  assert (R1' : zlen reports <= EffectiveMaxMembers (GetParams w)) by (destruct R1 as [| ->]; [done|exact U2]). clear R1.
  set (h := u64 (BlockHeight ctx)).
  assert (C1 : zlen (own_complaints fuel h ek op w) <= EffectiveMaxMembers (GetParams w))
    by (destruct (complaints_small fuel h ek op w _ Hw) as [| ->]; [done|exact U2]).
  pose proof (own_complaints_small fuel h ek op w) as C2. pose proof (pop_small ek op) as P1.
  pose proof (own_dealing_small coeffs seal h op w (GetParams w)) as HD. unfold extension_ok, objects. cbn [ve_Shares ve_Complaints ve_PoisonReports ve_EncPubKey ve_EncPubKeyPoP ve_Dealing].
  unfold dkgAttackShares. rewrite (proj2 (Z.ltb_ge _ (zlen shares))), (proj2 (Z.ltb_ge _ (zlen reports))), (proj2 (Z.ltb_ge _ (zlen (own_complaints _ _ _ _ _)))) by done.
  rewrite S2, S3, C2, R2, !small_true by (unfold veMaxPoPBytes, veMaxPointBytes; lia). cbn [orb negb andb].
  destruct (own_dealing coeffs seal h op w) as [d|].
  - destruct (HD d Hw Hc Hn Hg eq_refl) as [-> Hs]. split; [done|]. lia.
  - split; [done|]. lia.
Qed.

(** ** The size of the encoding

    An upper bound of the length [encoding/json] gives an extension: the names and the
    punctuation of each object, twenty digits for an unsigned 64-bit number, base64 for a
    byte string and [null] for an absent one. *)
Definition base64_size (s : string) : Z := 4 * ((strlen s + 2) / 3).
Definition number_size : Z := 20.
Definition share_size (s : VoteExtShare) : Z := 67 + 4 * number_size + base64_size (vs_D s) + base64_size (vs_Proof s).
Definition complaint_size (c : VoteExtComplaint) : Z := 70 + 3 * number_size + base64_size (vc_SharedPoint c) + base64_size (vc_DleqProof c).
Definition enc_share_size (es : DkgStoredEncShare) : Z :=
  52 + number_size + base64_size (es_A es) + base64_size (es_Nonce es) + base64_size (es_Body es).
Definition dealing_size (d : VoteExtDealing) : Z :=
  47 + number_size + sumZ (fun c => 5 + base64_size c) (vd_Commitments d) + sumZ enc_share_size (vd_EncShares d).
Definition json_size (ve : VoteExtension) : Z :=
  96 + base64_size (ve_EncPubKey ve) + base64_size (ve_EncPubKeyPoP ve) +
  match ve_Dealing ve with Some d => dealing_size d | None => 0 end + sumZ share_size (ve_Shares ve) +
  sumZ complaint_size (ve_Complaints ve) + sumZ complaint_size (ve_PoisonReports ve).

Lemma base64_small limit k s : small limit s = true -> 4 * ((limit + 2) / 3) <= k -> base64_size s <= k.
Proof.
  intros Hs%Z.leb_le Hk. unfold base64_size. pose proof (Z.div_le_mono (strlen s + 2) (limit + 2) 3 ltac:(lia) ltac:(lia)). lia.
Qed.

Lemma sum_bounded {A : Type} (f : A -> Z) k n l : 0 <= k -> zlen l <= n -> (forall x, x ∈ l -> f x <= k) -> sumZ f l <= k * n.
Proof.
  intros Hk Hn Hf. transitivity (k * zlen l); [|nia]. unfold zlen. clear Hn. induction l as [|x l IH]; [simpl; lia|]. cbn [sumZ length].
  pose proof (Hf x ltac:(by left)). specialize (IH ltac:(intros y Hy; apply Hf; by right)). lia.
Qed.

Lemma complaints_sized l n : zlen l <= n -> forallb complaint_small l = true -> sumZ complaint_size l <= 262 * n.
Proof.
  intros Hn Hs. apply sum_bounded; [lia|done|]. intros c Hc. rewrite forallb_forall in Hs. specialize (Hs c (proj1 (list_elem_of_In _ _) Hc)).
  apply andb_true_iff in Hs as [Hp Hd]. apply (base64_small _ 44) in Hp; [|done]. apply (base64_small _ 88) in Hd; [|done].
  unfold complaint_size, number_size. lia.
Qed.

Lemma dealing_sized n d : 0 <= n -> dealing_small n d = true -> dealing_size d <= 67 + 353 * n.
Proof.
  intros Hn. unfold dealing_small, dealing_size, number_size. intros [[Hl Hc]%andb_true_iff He]%andb_true_iff. apply negb_true_iff, orb_false_iff in Hl as [L1%Z.ltb_ge L2%Z.ltb_ge].
  rewrite forallb_forall in Hc, He.
  assert (sumZ (fun c => 5 + base64_size c) (vd_Commitments d) <= 49 * n).
  { apply sum_bounded; [lia|done|]. intros c Hin. specialize (Hc c (proj1 (list_elem_of_In _ _) Hin)). apply (base64_small _ 44) in Hc; [lia|done]. }
  assert (sumZ enc_share_size (vd_EncShares d) <= 304 * n); [|lia]. apply sum_bounded; [lia|done|]. intros es Hin.
  specialize (He es (proj1 (list_elem_of_In _ _) Hin)). apply andb_true_iff in He as [[Ha Hbd]%andb_true_iff Hnc].
  apply (base64_small _ 44) in Ha; [|done]. apply (base64_small _ 172) in Hbd; [|done]. apply (base64_small _ 16) in Hnc; [|done].
  unfold enc_share_size, number_size. lia.
Qed.

(** An extension within the bounds fits the limit of one mebibyte. *)
Lemma extension_sized p ve : 0 <= EffectiveShareBudget p <= maxDkgShareBudget -> 0 <= EffectiveMaxMembers p <= maxDkgCommittee ->
  extension_ok p ve = true -> 1 + json_size ve <= VoteExtMaxBytes.
Proof.
  unfold maxDkgShareBudget, maxDkgCommittee. intros Hb Hm. unfold extension_ok. cbv zeta.
  destruct (Z.ltb_spec (VoteExtShareCap p) (zlen (ve_Shares ve))) as [|Hs]; [done|]. destruct (_ && _); [done|].
  destruct (Z.ltb_spec (EffectiveMaxMembers p) (zlen (ve_Complaints ve))) as [|Hc]; [done|].
  destruct (Z.ltb_spec (EffectiveMaxMembers p) (zlen (ve_PoisonReports ve))) as [|Hr]; [done|]. cbn [orb].
  destruct (small _ (ve_EncPubKey ve)) eqn:E1; [|done]. destruct (small _ (ve_EncPubKeyPoP ve)) eqn:E2; [|done]. cbn [negb orb].
  intros HD. assert (Hd : match ve_Dealing ve with Some d => dealing_size d | None => 0 end <= 67 + 353 * 1024).
  { destruct (ve_Dealing ve) as [d|]; [|lia]. destruct (dealing_small _ d) eqn:E; [|done]. apply dealing_sized in E; lia. }
  destruct (match ve_Dealing ve with Some d => _ | None => _ end) in HD; [done|]. apply andb_true_iff in HD as [[HS HC]%andb_true_iff HR].
  apply (complaints_sized _ _ Hc) in HC. apply (complaints_sized _ _ Hr) in HR.
  apply (base64_small _ 44) in E1; [|done]. apply (base64_small _ 172) in E2; [|done].
  assert (Hcap : zlen (ve_Shares ve) <= 1024) by (unfold VoteExtShareCap, voteExtShareFloor in Hs; destruct (_ <? _) in Hs; lia).
  assert (sumZ share_size (ve_Shares ve) <= 279 * 1024).
  { apply sum_bounded; [lia|done|]. intros s Hin. rewrite forallb_forall in HS. specialize (HS s (proj1 (list_elem_of_In _ _) Hin)).
    apply andb_true_iff in HS as [Hp Hpf]. apply (base64_small _ 44) in Hp; [|done]. apply (base64_small _ 88) in Hpf; [|done].
    unfold share_size, number_size. lia. }
  unfold json_size. change VoteExtMaxBytes with 1048576. lia.
Qed.

Lemma validated_limits p : ValidateDkgWindows p = Ret tt -> EffectiveShareBudget p <= maxDkgShareBudget /\ EffectiveMaxMembers p <= maxDkgCommittee.
Proof.
  unfold ValidateDkgWindows. destruct (fold_ok _ _ _); cbn [mbind outcome_bind]; try done. do 2 (destruct (_ <? _); [done|]).
  destruct (Z.ltb_spec maxDkgCommittee (DkgMaxMembers p)); [done|]. destruct (_ && _); [done|].
  destruct (Z.ltb_spec maxDkgShareBudget (DkgShareBudget p)); [done|]. intros _. unfold EffectiveShareBudget, EffectiveMaxMembers.
  split; destruct (_ =? 0); done.
Qed.

(** C12: an honest extension is never refused.  While the parameters in force are valid
    and every stored round is within their limits, what the node attaches at a height is
    accepted by its peers at that height: it is empty, or it decodes, fits the limit of
    one mebibyte, respects every count and size bound and opens no more JSON objects than
    the decoder allows.  JSON is taken to write at most one opening brace per object, and
    the extension in no more bytes than [json_size] counts for its fields. *)
Theorem honest_extension_accepted cp GetValidatorByConsAddr fuel coeffs seal ctx w n :
  enc_inv w -> ValidateDkgWindows (GetParams w) = Ret tt -> within (GetParams w) w -> dealable (GetParams w) coeffs seal ->
  (forall ek, dkgEncKey n = Some ek -> strlen (ek_Pub ek) = 33) ->
  (forall ve, count_byte veObjectOpen (json_Marshal ve) <= objects ve) ->
  (forall ek, dkgEncKey n = Some ek ->
    let ve := (extension_of fuel coeffs seal ctx ek (myOperator GetValidatorByConsAddr n) w (dkgPoisonRpts n)).1 in
    strlen (json_Marshal ve) <= json_size ve) ->
  let ext := (dkgExtendVoteHandler cp GetValidatorByConsAddr fuel coeffs seal ctx w n).1 in
  dkgVerifyVoteExtensionHandler cp ctx ext w = true.
Proof.
  intros Hi Hp Hw Hd Hk Hj Hsz. cbv zeta. unfold dkgExtendVoteHandler. destruct (veActive cp ctx w) eqn:Ha; cbn [negb]; [|done].
  destruct (dkgEncKey n) as [ek|] eqn:Ek; [|done]. destruct (String.eqb _ _); [done|]. specialize (Hsz ek eq_refl). cbv zeta in Hsz.
  pose proof (extension_checks fuel coeffs seal ctx ek (myOperator GetValidatorByConsAddr n) w (dkgPoisonRpts n) Hi Hw Hd (Hk ek eq_refl)) as [HE HO].
  destruct (extension_of _ _ _ _ _ _ _ _) as [ve c1]. cbn [fst] in HE, HO, Hsz |- *. unfold dkgVerifyVoteExtensionHandler. rewrite Ha. cbn [negb].
  destruct (_ =? 0); [done|]. destruct (validated_limits _ Hp) as [Hb Hm]. destruct (wi_unsigned _ _ Hw) as [Hb0 Hm0].
  pose proof (extension_sized _ ve (conj Hb0 Hb) (conj Hm0 Hm) HE) as Hl.
  assert (strlen (MarshalVoteExtension ve) <= VoteExtMaxBytes) as Hl'.
  { unfold MarshalVoteExtension, strlen in *. rewrite str_app_length, Nat2Z.inj_add. change (Z.of_nat (String.length (byte_prefix VoteExtVersion))) with 1. lia. }
  unfold wire_ok. rewrite (proj2 (Z.ltb_ge _ _) Hl'). specialize (Hj ve).
  assert (count_byte veObjectOpen (MarshalVoteExtension ve) <= 8 + 4 * VoteExtShareCap (GetParams w)) as Hob by (unfold MarshalVoteExtension; change (0 + count_byte veObjectOpen (json_Marshal ve) <= 8 + 4 * VoteExtShareCap (GetParams w)); lia).
  rewrite (proj2 (Z.ltb_ge _ _) Hob). cbn [negb andb].
  assert (UnmarshalVoteExtension (MarshalVoteExtension ve) = Some ve) as ->; [|done].
  change (json_Unmarshal (json_Marshal ve) = Some ve). apply json_roundtrip.
Qed.

End peers.

(** ** Proposals *)
Section proposals.
Context {B : Type} `{EncJSON} `{Curve} `{AesGcm} `{MathInt} `{Ecdsa} `{JSON VoteExtension} `{CommitProtoLaws}.
Context (cp : ConsensusParams) (GetValidatorByConsAddr : string -> option string).
Implicit Types (w : World B) (ec : ExtendedCommitInfo).

Lemma marker_blob ec blob : VoteTrim.marshalInjectedCommit ec = Some blob ->
  VoteTrim.isVeInjectMarkerTx blob = true /\ ec_Unmarshal (strip_marker blob) = Some ec.
Proof.
  unfold VoteTrim.marshalInjectedCommit. destruct (ec_Marshal ec) as [bz|] eqn:E; [|done]. intros [= <-]. split; [apply str_prefix_app|].
  unfold strip_marker. rewrite str_app_length, Nat.add_comm, Nat.add_sub, substring_app_r by done. rewrite substring_all by done. by apply ec_roundtrip.
Qed.

(** The SDK's handlers: what the proposer's accepts within the size it is given, the
    other's accepts, and no proposed transaction carries the marker; and its check of
    an extended commit, which ignores the votes marked absent as long as more than two
    thirds of the power remain. *)
Record sdk_ok (inner_prepare : Ctx -> RequestPrepareProposal -> outcome (list string))
    (inner_process : Ctx -> RequestProcessProposal -> outcome bool) (Validate : Z -> ExtendedCommitInfo -> bool) : Prop := {
  inner_accepts ctx req txs height : inner_prepare ctx req = Ret txs -> inner_process ctx (mkRequestProcessProposal txs height) = Ret true;
  inner_size ctx req txs : inner_prepare ctx req = Ret txs -> sumZ strlen txs <= rp_MaxTxBytes req;
  inner_plain ctx req txs : inner_prepare ctx req = Ret txs -> Forall (fun tx => VoteTrim.isVeInjectMarkerTx tx = false) txs;
  validate_absent height ec ec' : Validate height ec = true -> VoteTrim.injectable ec ec' -> Validate height ec' = true
}.

(** C5: an honest proposal carries the votes.  When the local commit is genuine, what
    an honest proposer proposes fits the block, and one of two things holds.  Either it
    is the marshalled commit, whole or with votes marked absent such that those that
    still carry an extension have more than two thirds of the power, followed by what
    the wrapped handler proposes in the room that is left; then the others accept it
    and the block consumes exactly the extensions left in it.  Or the handlers are not
    active, there are no votes or no commit could be made to fit; then it is what the
    wrapped handler proposes for the unchanged request, nothing is consumed, and the
    others accept it unless the protocol requires an injection at this height. *)
Theorem proposal_carries_votes inner_prepare inner_process Validate ctx ctx' req w height txs :
  sdk_ok inner_prepare inner_process Validate -> is_i64 (rp_MaxTxBytes req) ->
  VoteTrim.powers_ok (ec_Votes (rp_LocalLastCommit req)) -> Validate height (rp_LocalLastCommit req) = true ->
  BlockHeight ctx' = BlockHeight ctx ->
  wrapDkgPrepareProposal cp inner_prepare ctx req w = Ret txs ->
  sumZ strlen txs <= rp_MaxTxBytes req /\
  ((exists ec blob rest, VoteTrim.injectable (rp_LocalLastCommit req) ec /\ VoteTrim.marshalInjectedCommit ec = Some blob /\
      txs = blob :: rest /\
      inner_prepare ctx (mkRequestPrepareProposal (rp_MaxTxBytes req - strlen blob) (rp_Txs req) (rp_LocalLastCommit req)) = Ret rest /\
      wrapDkgProcessProposal cp inner_process Validate ctx (mkRequestProcessProposal txs height) w = Ret true /\
      consumeDkgVoteExtensions cp GetValidatorByConsAddr ctx' txs w =
      ConsumeVoteExtensions ctx' (omap (entry_of GetValidatorByConsAddr (GetParams w)) (ec_Votes ec)) w) \/
   ((veActive cp ctx w = false \/ ec_Votes (rp_LocalLastCommit req) = [] \/
     VoteTrim.boundedInjectedCommit (rp_LocalLastCommit req) (rp_MaxTxBytes req) = None) /\
    inner_prepare ctx req = Ret txs /\
    wrapDkgProcessProposal cp inner_process Validate ctx (mkRequestProcessProposal txs height) w = Ret (negb (dkgInjectionRequired cp ctx w)) /\
    consumeDkgVoteExtensions cp GetValidatorByConsAddr ctx' txs w = w)).
Proof.
  intros [Hacc Hsz Hpl Hab] Hm HP HV Hh. assert (Hva : veActive cp ctx' w = veActive cp ctx w) by (unfold veActive; by rewrite Hh).
  assert (Plain : inner_prepare ctx req = Ret txs -> sumZ strlen txs <= rp_MaxTxBytes req /\ inner_prepare ctx req = Ret txs /\
     wrapDkgProcessProposal cp inner_process Validate ctx (mkRequestProcessProposal txs height) w = Ret (negb (dkgInjectionRequired cp ctx w)) /\
     consumeDkgVoteExtensions cp GetValidatorByConsAddr ctx' txs w = w).
  { intros E. split; [by eapply Hsz|]. split; [done|]. pose proof (Hpl _ _ _ E) as HF. pose proof (Hacc _ _ _ height E) as Ha.
    unfold wrapDkgProcessProposal, consumeDkgVoteExtensions. cbn [pp_Txs].
    destruct txs as [|tx rest]; [|apply Forall_cons in HF as [Hf _]; rewrite Hf]; rewrite Ha; by destruct (dkgInjectionRequired cp ctx w). }
  unfold wrapDkgPrepareProposal. destruct (veActive cp ctx w) eqn:Hact; cbn [negb orb].
  2: { intros (? & ?)%Plain. split; [done|]. right. split; [by left|done]. }
  destruct (Z.eqb_spec (zlen (ec_Votes (rp_LocalLastCommit req))) 0) as [E0|_].
  { assert (ec_Votes (rp_LocalLastCommit req) = []) as En by (apply length_zero_iff_nil; unfold zlen in E0; lia).
    intros (? & ?)%Plain. split; [done|]. right. split; [by right; left|done]. }
  destruct (VoteTrim.boundedInjectedCommit _ _) as [blob|] eqn:Eb.
  2: { intros (? & ?)%Plain. split; [done|]. right. split; [by right; right|done]. }
  destruct (VoteTrim.trim_sound _ _ _ HP Eb) as (Hl & ec & Emc & Hinj). destruct (marker_blob _ _ Emc) as [Hmk Hun].
  clear Plain. destruct (inner_prepare ctx _) as [rest| |] eqn:Er; cbn [mbind outcome_bind]; try done. intros [= <-].
  pose proof (Hsz _ _ _ Er) as Hs. cbn [rp_MaxTxBytes] in Hs. change (VoteTrim.strlen blob) with (strlen blob) in Hl.
  assert (0 <= strlen blob) by (unfold strlen; lia). rewrite i64_id in Hs, Er by (unfold is_i64 in *; lia).
  split; [cbn [sumZ]; lia|]. left. exists ec, blob, rest. split_and!; [done..| |].
  all: unfold wrapDkgProcessProposal, consumeDkgVoteExtensions; cbn [pp_Txs pp_Height]; rewrite Hmk, ?Hact, ?Hva, ?Hun, ?(Hab _ _ _ HV Hinj); cbn [negb orb].
  - by eapply Hacc.
  - done.
Qed.

End proposals.
End VoteExtProofs.
