(* ===== verification/EncBond.v ===== *)
(** * x/encmempool: the submit bonds

    A submitter escrows a bond in the module account; the bond is stamped on its
    ciphertext and, when the ciphertext leaves the store, one part is burned and
    the rest returned.  [solvent] says that the module account always covers the
    bonds of the ciphertexts in flight. *)
From S2P Require Import Prelude Codec Bank EncTypes StakeWeight Threshold Dkg EncKeeper EncDkg EncIngest EncMsg EncFrame EncInvariant.
From stdpp Require Import gmap strings list sorting.
From Stdlib Require Import ZArith Lia.

#[local] Set Default Goal Selector "!".
Open Scope Z_scope.

Module EncBond.
Import EncTypes EncKeeper EncMsg EncFrame EncInvariant.

Section bonds.
Context `{BankLaws B} `{EncJSON} `{!EncJSONLaws} `{AccAddr}.
Implicit Types (w : World B) (e : EncTx) (d : string).

(** The bond of [e] in denomination [d]. *)
Definition bond_in d e : Z := if String.eqb (e_BondDenom e) d then e_Bond e else 0.
Definition escrowed d w : Z := tally (bond_in d) w.
Definition module_balance d w : Z := GetBalance (w_bank w) (NewModuleAddress ModuleName) d.

Definition bond_ok e : Prop := 0 <= e_Bond e /\ 0 <= e_BondBurn e.

Record solvent w : Prop := {
  sol_bank : bank_valid (w_bank w);
  sol_bonds e : in_flight w e -> bond_ok e;
  sol_covered d : escrowed d w <= module_balance d w
}.

(** The bank part of a step: the module account loses at most [x] of [d]. *)
Definition pays_at_most (x : Z) d w w' : Prop :=
  bank_valid (w_bank w') /\ w_kv w' = w_kv w /\
  (forall d', module_balance d' w - (if String.eqb d d' then x else 0) <= module_balance d' w').

Lemma encmempool_burner : has_perm ModuleName Burner = true.
Proof. reflexivity. Qed.

Lemma burn_pays w d x :
  bank_valid (w_bank w) -> 0 <= x <= module_balance d w ->
  exists w', (if 0 <? x then ignore_err (on_bank (BurnCoins ModuleName [(d, x)])) else mret tt) w = (Ret tt, w') /\
    pays_at_most x d w w' /\
    (forall d', GetSupply (w_bank w') d' = GetSupply (w_bank w) d' - (if decide (d = d') then x else 0)) /\
    (forall a d', GetBalance (w_bank w') a d' =
       GetBalance (w_bank w) a d' - (if decide (a = NewModuleAddress ModuleName /\ d = d') then x else 0)).
Proof.
  intros Hv Hx. destruct (opt_burn_run w ModuleName d x Hv encmempool_burner Hx) as (b & R & Hvb & Hc).
  exists (set_bank b w). split_and!.
  - destruct (0 <? x); [|exact R]. unfold ignore_err. by rewrite R.
  - split_and!; [done..|]. intros d'. unfold module_balance; simpl.
    rewrite (created_balance _ _ _ _ _ _ _ _ Hc). destruct (String.eqb_spec d d'); bank_lia.
  - intros d'. simpl. rewrite (created_supply _ _ _ _ _ _ _ Hc). bank_lia.
  - intros a d'. simpl. rewrite (created_balance _ _ _ _ _ _ _ _ Hc). bank_lia.
Qed.

Lemma refund_pays w addr d x w' o :
  bank_valid (w_bank w) -> 0 <= x ->
  ignore_err (on_bank (SendCoinsFromModuleToAccount ModuleName addr [(d, x)])) w = (o, w') ->
  match o with Ret _ => pays_at_most x d w w' | Err _ => False | Panic _ => True end.
Proof.
  intros Hv Hx. unfold ignore_err.
  destruct (on_bank _ w) as [o1 w1] eqn:R. apply on_bank_inv in R as (b & R & ->).
  destruct o1 as [[]|er|p]; intros [= <- <-]; [..|done].
  - pose proof R as R1. apply m2a_moved in R. split_and!; [by eapply m2a_valid|done|].
    intros d'. unfold module_balance; simpl. rewrite (moved_balance _ _ _ _ _ _ _ _ R).
    destruct (String.eqb_spec d d'); bank_lia.
  - split_and!; [by eapply m2a_valid|done|]. intros d'. unfold module_balance; simpl.
    rewrite (m2a_err _ _ _ _ _ _ _ _ _ R). destruct (String.eqb d d'); lia.
Qed.

Definition burned_part e : Z := if e_Bond e <? e_BondBurn e then e_Bond e else e_BondBurn e.

Lemma burned_part_range e : bond_ok e -> 0 <= burned_part e <= e_Bond e.
Proof. unfold burned_part, bond_ok. destruct (e_Bond e <? e_BondBurn e) eqn:E; bool_prop; lia. Qed.

(** Returning a covered bond never takes more than the bond out of the module
    account, and never returns an error. *)
Lemma refundBond_pays k e w o w' :
  bank_valid (w_bank w) -> bond_ok e -> e_Bond e <= module_balance (e_BondDenom e) w ->
  refundBond k e w = (o, w') ->
  match o with Ret _ => pays_at_most (e_Bond e) (e_BondDenom e) w w' | Err _ => False | Panic _ => True end.
Proof.
  intros Hv Hok Hc. pose proof (burned_part_range e Hok) as Hb. unfold refundBond.
  destruct ((e_Bond e =? 0) || negb (bankKeeper_set k)).
  { intros [= <- <-]. split_and!; [done..|]. intros d'. destruct Hok. destruct (String.eqb _ _); lia. }
  fold (burned_part e).
  destruct (burn_pays w (e_BondDenom e) (burned_part e) Hv ltac:(lia)) as (w1 & R1 & (Hv1 & Hk1 & Hm1) & _).
  cbv zeta. rewrite (bind_Ret _ _ _ _ _ R1).
  assert (Hdone : pays_at_most (e_Bond e) (e_BondDenom e) w w1).
  { split_and!; [done..|]. intros d'. specialize (Hm1 d'). destruct (String.eqb _ _); lia. }
  destruct (e_Bond e - burned_part e =? 0); [by intros [= <- <-]|].
  destruct (AccAddressFromBech32 (e_Submitter e)) as [addr|]; [|by intros [= <- <-]].
  intros R2. apply refund_pays in R2; [|done|lia]. destruct o as [[]| |]; [|done..].
  destruct R2 as (Hv2 & Hk2 & Hm2). split_and!; [done|congruence|]. intros d'.
  specialize (Hm1 d'). specialize (Hm2 d'). destruct (String.eqb _ _); lia.
Qed.

(** Returning a covered bond to an account that can receive it: the burned part
    leaves the supply, the rest goes to the submitter. *)
Lemma refundBond_exact k e w addr :
  bank_valid (w_bank w) -> bond_ok e -> e_Bond e <= module_balance (e_BondDenom e) w -> bankKeeper_set k = true ->
  AccAddressFromBech32 (e_Submitter e) = Some addr -> BlockedAddr addr = false -> addr <> NewModuleAddress ModuleName ->
  GetBalance (w_bank w) addr (e_BondDenom e) + e_Bond e < 2 ^ 256 ->
  exists w', refundBond k e w = (Ret tt, w') /\ w_kv w' = w_kv w /\
    (forall d, GetSupply (w_bank w') d = GetSupply (w_bank w) d - (if decide (e_BondDenom e = d) then burned_part e else 0)) /\
    (forall a d, GetBalance (w_bank w') a d = GetBalance (w_bank w) a d
       - (if decide (a = NewModuleAddress ModuleName /\ e_BondDenom e = d) then e_Bond e else 0)
       + (if decide (a = addr /\ e_BondDenom e = d) then e_Bond e - burned_part e else 0)).
Proof.
  intros Hv Hok Hc Hk Ha Hbl Hne Hroom. pose proof (burned_part_range e Hok) as Hb. unfold refundBond. rewrite Hk.
  destruct (Z.eqb_spec (e_Bond e) 0) as [E0|E0]; cbn [orb negb].
  { exists w. split_and!; [done..| |]; intros; assert (burned_part e = 0) as -> by lia; rewrite ?E0; repeat case_decide; lia. }
  fold (burned_part e). destruct (burn_pays w (e_BondDenom e) (burned_part e) Hv ltac:(lia)) as (w1 & R1 & (Hv1 & Hk1 & _) & Hs1 & Hb1).
  cbv zeta. rewrite (bind_Ret _ _ _ _ _ R1). destruct (Z.eqb_spec (e_Bond e - burned_part e) 0) as [E1|E1].
  { exists w1. split_and!; [done..|]. intros a d. rewrite Hb1. repeat case_decide; naive_solver lia. }
  rewrite Ha. pose proof (Hb1 (NewModuleAddress ModuleName) (e_BondDenom e)) as Hm. rewrite decide_True in Hm by done.
  pose proof (Hb1 addr (e_BondDenom e)) as Hd. rewrite decide_False in Hd by naive_solver. unfold module_balance in Hc.
  destruct (m2a_enough ModuleName addr (e_BondDenom e) (e_Bond e - burned_part e) (w_bank w1)) as (b & R2); [done|done|done|lia|lia|].
  exists (set_bank b w1). pose proof (m2a_moved _ _ _ _ _ R2) as Hmv. split_and!; [|done| |].
  - unfold ignore_err, on_bank. by rewrite R2.
  - intros d. simpl. rewrite (proj2 Hmv). apply Hs1.
  - intros a d. simpl. rewrite (moved_balance _ _ _ _ _ _ _ _ Hmv), Hb1. repeat case_decide; naive_solver lia.
Qed.

(** ** Preservation *)

Lemma solvent_frame ps w w' :
  frame ps w w' -> Zmem 6 ps = false -> solvent w -> solvent w'.
Proof.
  intros Hf Hp Hs. split.
  - rewrite (frame_bank _ _ _ Hf). apply (sol_bank w Hs).
  - intros e He. apply (sol_bonds w Hs). by apply (in_flight_frame _ _ _ _ Hf).
  - intros d. unfold escrowed, module_balance. rewrite (tally_frame _ _ _ _ Hf), (frame_bank _ _ _ Hf) by done.
    apply (sol_covered w Hs).
Qed.

Lemma kvs_same w w' : w_kv w' = w_kv w -> kvs StoreKey w' = kvs StoreKey w.
Proof. unfold kvs. by intros ->. Qed.

(** A step that keeps the module's store and does not debit its account. *)
Definition outside w w' : Prop :=
  kvs StoreKey w' = kvs StoreKey w /\
  (bank_valid (w_bank w) -> bank_valid (w_bank w')) /\
  (forall d, module_balance d w <= module_balance d w').

Lemma store_sget w w' k : kvs StoreKey w' = kvs StoreKey w -> sget k w' = sget k w.
Proof. unfold sget, kv_get. by intros ->. Qed.

Lemma store_tally w w' f : kvs StoreKey w' = kvs StoreKey w -> tally f w' = tally f w.
Proof.
  intros E. unfold tally, enc_txs, iter_json, siter, kv_iter, kv_range. by rewrite E.
Qed.

Lemma store_in_flight w w' e : kvs StoreKey w' = kvs StoreKey w -> in_flight w' e <-> in_flight w e.
Proof. intros E. unfold in_flight, GetEncTx, get_json. by rewrite (store_sget _ _ _ E). Qed.

Lemma store_readU64 w w' k : kvs StoreKey w' = kvs StoreKey w -> readU64 k w' = readU64 k w.
Proof. intros E. unfold readU64. by rewrite (store_sget _ _ _ E). Qed.

Lemma enc_inv_store w w' : kvs StoreKey w' = kvs StoreKey w -> enc_inv w -> enc_inv w'.
Proof.
  intros Hk Hi. split.
  - intros t v. rewrite (store_sget _ _ _ Hk). apply (inv_wf _ Hi).
  - intros e'. rewrite (store_in_flight _ _ _ Hk), (store_readU64 _ _ _ Hk). apply (inv_seq _ Hi).
  - rewrite (store_tally _ _ _ Hk), (store_readU64 _ _ _ Hk). apply (inv_size _ Hi).
  - destruct (inv_counts _ Hi) as (Hg & Hsub & Hep).
    unfold counts_ok, GetGlobalEncCount, GetSubmitterEncCount, getEpochEncCount in *.
    split_and!; intros; rewrite (store_readU64 _ _ _ Hk), (store_tally _ _ _ Hk); auto.
Qed.

Lemma solvent_outside w w' : outside w w' -> solvent w -> solvent w'.
Proof.
  intros (Hk & Hv & Hm) Hs. split.
  - apply Hv, (sol_bank w Hs).
  - intros e He. apply (sol_bonds w Hs). by apply (store_in_flight _ _ _ Hk).
  - intros d. unfold escrowed. rewrite (store_tally _ _ _ Hk). pose proof (sol_covered w Hs d) as Hc.
    specialize (Hm d). unfold escrowed in Hc. lia.
Qed.

Lemma escrowed_nonneg d w : enc_inv w -> solvent w -> 0 <= escrowed d w.
Proof.
  intros Hi Hs. apply sumZ_nonneg, Forall_forall. intros e He. apply in_flight_elem in He as [He _]; [|done].
  apply (sol_bonds w Hs) in He as [? _]. unfold bond_in. destruct (String.eqb _ _); lia.
Qed.

Lemma bond_covered w e : enc_inv w -> solvent w -> in_flight w e -> e_Bond e <= module_balance (e_BondDenom e) w.
Proof.
  intros Hi Hs He. pose proof (sol_covered w Hs (e_BondDenom e)) as Hc. unfold escrowed in Hc.
  rewrite (tally_in_flight _ _ _ He) in Hc. unfold bond_in at 1 in Hc. rewrite String.eqb_refl in Hc.
  destruct (enc_inv_forget w e Hi He) as (Hi' & Ht & Hfl). specialize (Ht (bond_in (e_BondDenom e))).
  rewrite (tally_in_flight _ _ _ He) in Ht.
  assert (0 <= tally (bond_in (e_BondDenom e)) (release_counts e (forget e w))); [|lia].
  apply sumZ_nonneg, Forall_forall. intros e' He'. apply in_flight_elem in He' as [[He' _]%Hfl _]; [|done].
  apply (sol_bonds w Hs) in He' as [? _]. unfold bond_in. destruct (String.eqb _ _); lia.
Qed.

(** Releasing a ciphertext in flight: the counts, the escrow and the rest of the
    store. *)
Lemma release_preserves k e w o w' :
  enc_inv w -> solvent w -> in_flight w e -> releaseEncTx k e w = (o, w') ->
  match o with
  | Ret _ => enc_inv w' /\ solvent w' /\ kvs StoreKey w' = kvs StoreKey (drop_enc_tx e w) /\
             (forall e', in_flight w' e' <-> in_flight w e' /\ e' <> e)
  | Err _ => False
  | Panic _ => True
  end.
Proof.
  intros Hi Hs He. unfold releaseEncTx. rewrite (bind_Ret _ _ _ _ _ (modify_run _ _)). intros R.
  destruct (enc_inv_drop w e Hi He) as (Hi1 & Ht1 & Hf1).
  assert (Hbank : w_bank (drop_enc_tx e w) = w_bank w).
  { rewrite drop_enc_tx_split. destruct (0 <? e_Epoch e); rewrite ?(frame_bank _ _ _ (frame_maybePruneEpoch _ _));
      rewrite (frame_bank _ _ _ (frame_release_counts _ _)); apply (frame_bank _ _ _ (frame_forget _ _)). }
  apply refundBond_pays in R; [|by rewrite Hbank; apply (sol_bank w Hs)|by apply (sol_bonds w Hs)|].
  2: { unfold module_balance. rewrite Hbank. by apply bond_covered. }
  destruct o as [[]| |]; [|done..]. destruct R as (Hv & Hk & Hm). apply kvs_same in Hk. split_and!.
  - by apply (enc_inv_store _ _ Hk).
  - split; [done|..].
    + intros e'. rewrite (store_in_flight _ _ _ Hk), Hf1. intros [He' _]. by apply (sol_bonds w Hs).
    + intros d. unfold escrowed. rewrite (store_tally _ _ _ Hk). specialize (Ht1 (bond_in d)). specialize (Hm d).
      unfold module_balance in Hm at 1. rewrite Hbank in Hm. fold (module_balance d w) in Hm.
      pose proof (sol_covered w Hs d) as Hc. unfold escrowed in Hc. unfold bond_in at 2 in Ht1.
      destruct (String.eqb (e_BondDenom e) d); lia.
  - done.
  - intros e'. by rewrite (store_in_flight _ _ _ Hk).
Qed.

(** ** Admission *)
Section submit.
Context `{Curve} `{AesGcm} `{MathInt} `{SDKDenom}.

Lemma escrow_bond_run k s bond d w w' :
  bank_valid (w_bank w) -> AccAddressFromBech32 s <> Some (NewModuleAddress ModuleName) ->
  escrow_bond k s bond d w = (Ret tt, w') ->
  bank_valid (w_bank w') /\ kvs StoreKey w' = kvs StoreKey w /\
  (forall d', module_balance d' w + (if String.eqb d d' then Z.max 0 bond else 0) <= module_balance d' w').
Proof.
  intros Hv Hs. unfold escrow_bond. destruct (0 <? bond) eqn:E; bool_prop; cbn [negb].
  2: { intros [= <-]. split_and!; [done..|]. intros d'. destruct (String.eqb _ _); lia. }
  destruct (bankKeeper_set k); [|discriminate]. cbn [negb].
  destruct (AccAddressFromBech32 s) as [addr|]; [|discriminate].
  intros (b & R & ->)%on_bank_inv. pose proof R as R1. apply a2m_moved in R.
  split_and!; [by eapply a2m_valid|done|]. intros d'. unfold module_balance; simpl.
  rewrite (moved_balance _ _ _ _ _ _ _ _ R). assert (addr <> NewModuleAddress ModuleName) by congruence.
  rewrite Z.max_r by lia. destruct (String.eqb_spec d d'); bank_lia.
Qed.

Lemma bond_burn_nonneg bond bps q : bond_burn bond bps = Ret q -> 0 <= q.
Proof.
  unfold bond_burn. intros (num & _ & R)%o_bind_Ret. apply o_bind_Ret in R as (q' & _ & R).
  destruct ((q' <? 0) || (2 ^ 64 <=? q')) eqn:E; [done|]. injection R as <-. bool_prop. lia.
Qed.

(** The record a successful submission stores. *)
Record submitted (ctx : Ctx) (msg : MsgSubmitEncrypted) (epoch seq : Z) (p : Params) (e : EncTx) : Prop := {
  sub_submitter : e_Submitter e = se_Submitter msg;
  sub_height : e_DecryptHeight e = u64 (u64 (BlockHeight ctx) + DecryptDelay p);
  sub_seq : e_Seq e = seq;
  sub_epoch : e_Epoch e = epoch;
  sub_cipher : e_A e = se_A msg /\ e_Nonce e = se_Nonce msg /\ e_Body e = se_Body msg;
  sub_bond : e_Bond e = Z.max 0 (EncSubmitBond p) /\ 0 <= e_BondBurn e;
  sub_denom : 0 < EncSubmitBond p -> e_BondDenom e = EncSubmitBondDenom p
}.

Lemma SubmitEncTx_admit w s h delay a n b epoch e w' :
  enc_inv w -> readU64 EncSeqKey w + 1 < 2 ^ 64 -> is_u64 epoch ->
  SubmitEncTx s h delay a n b epoch w = (Ret e, w') ->
  enc_inv w' /\ in_flight w' e /\ (forall f, tally f w' = f e + tally f w) /\
  (forall e', in_flight w' e' <-> e' = e \/ in_flight w e') /\ frame enc_prefixes w w' /\
  readU64 EncSeqKey w' = readU64 EncSeqKey w + 1 /\ e = mkEncTx s h (u64 (h + delay)) (readU64 EncSeqKey w) a n b epoch 0 "" 0.
Proof.
  intros Hi Hq He. set (e0 := mkEncTx s h (u64 (h + delay)) (readU64 EncSeqKey w) a n b epoch 0 "" 0).
  intros [= <- <-]. fold e0. change (e_Epoch e0) with epoch. set (e := e0).
  assert (Hok : tx_ok e) by (split_and!; [apply u64_range|apply readU64_range|done]).
  destruct (enc_inv_admit w e Hi Hq Hok eq_refl) as (I1 & I2 & I3 & I4 & I5).
  split_and!; [exact I1|exact I2|exact I3|exact I4| |exact I5|done].
  eapply frame_trans; [|eapply frame_weaken; [apply frame_count_enc_tx|done]].
  eapply frame_trans; [|by apply frame_set]. by apply frame_set.
Qed.

(** What a ciphertext has passed when it is admitted. *)
Record admitted (ctx : Ctx) (cp : ConsensusParams) (chainID : string) (p : Params) (msg : MsgSubmitEncrypted)
    (epoch : Z) w : Prop := {
  adm_enabled : EncEnabled p = true /\ EncExecEnabled p = true;
  adm_point : Dkg.ValidCompressedPoint (se_A msg) = true;
  adm_nonce : strlen (se_Nonce msg) = EncTypes.NonceSize;
  adm_body : 0 < strlen (se_Body msg) <= maxCiphertextBodyBytes;
  adm_runtime : transparentDkgRuntimeUnavailable ctx cp p = None;
  adm_global : 0 < MaxInFlightEncTx p -> GetGlobalEncCount w < MaxInFlightEncTx p;
  adm_submitter : 0 < MaxInFlightPerSubmitter p ->
    GetSubmitterEncCount (se_Submitter msg) w < MaxInFlightPerSubmitter p;
  adm_rate : u64 (readU64 (encSubmitRateKey (u64 (BlockHeight ctx)) (se_Submitter msg)) w + 1)
    <= maxEncSubmitsPerBlockPerSubmitter;
  adm_global_rate : u64 (readU64 (encSubmitGlobalRateKey (u64 (BlockHeight ctx))) w + 1) <= maxEncSubmitsPerBlockGlobal;
  adm_epoch : epoch = if DkgEnabled p then GetActiveEpoch w else 0;
  adm_keyed : DkgEnabled p = true -> epoch <> 0;
  adm_unconcentrated : 0 < epoch ->
    CommitteeConcentrationBreached epoch (DkgStrictConcentration p) w = Ret false;
  adm_derivable : ActiveEpochCanDeriveShares p w = true;
  adm_proof : exists pok, Dkg.ParseEncKeyPoK (se_Pok msg) = Some pok /\
    Dkg.VerifyEncKeyPoK chainID (se_A msg) (se_Submitter msg) (se_Nonce msg) (se_Body msg) (Some pok) = true
}.

Lemma bump_rate_run key w n w' :
  bump_rate key w = (Ret n, w') -> n = u64 (readU64 key w + 1) /\ w' = sset key (be64 n) w.
Proof. unfold bump_rate. by intros [= <- <-]. Qed.

(** The store reads the guards make do not see the rate counters. *)
Lemma concentration_frame ps epoch strict w w' :
  frame ps w w' -> Zmem 16 ps = false -> Zmem 19 ps = false ->
  CommitteeConcentrationBreached epoch strict w' = CommitteeConcentrationBreached epoch strict w.
Proof.
  intros Hf H16 H19. unfold CommitteeConcentrationBreached, GetActiveKey, GetDkgRound.
  by rewrite !(frame_get_json _ _ _ _ Hf) by done.
Qed.

Lemma derivable_frame ps p w w' :
  frame ps w w' -> Zmem 17 ps = false -> Zmem 21 ps = false ->
  ActiveEpochCanDeriveShares p w' = ActiveEpochCanDeriveShares p w.
Proof.
  intros Hf H17 H21. unfold ActiveEpochCanDeriveShares, GetActiveEpoch, hasAnyDealing, siter.
  rewrite (frame_readU64 _ _ _ _ Hf) by done.
  rewrite (kv_iter_ext StoreKey (DkgDealPrefix +:+ be64 (readU64 ActiveEpochKey w)) w w'); [done| |].
  - by apply prefixEnd_byte.
  - intros t. by apply (frame_sget _ _ _ _ Hf).
Qed.

Lemma stamp_epoch_run p w epoch w' :
  (if DkgEnabled p then epoch ← gets GetActiveEpoch; if epoch =? 0 then fail "no active threshold key yet" else mret epoch
   else mret 0 : M (World B) Z) w = (Ret epoch, w') ->
  w' = w /\ epoch = (if DkgEnabled p then GetActiveEpoch w else 0) /\ (DkgEnabled p = true -> epoch <> 0).
Proof. intros R. run_inv R; bool_prop; done. Qed.

Lemma breach_run epoch strict w b w' :
  ((if 0 <? epoch then (fun w => (CommitteeConcentrationBreached epoch strict w, w)) else mret false)
     : M (World B) bool) w = (Ret b, w') ->
  w' = w /\ (0 < epoch -> CommitteeConcentrationBreached epoch strict w = Ret b).
Proof. destruct (0 <? epoch) eqn:E; intros [= R1 R2]; bool_prop; subst; split; try done; lia. Qed.

Ltac pass_guard R :=
  match type of R with (if ?b then _ else _) _ = _ => let E := fresh "G" in destruct b eqn:E; [discriminate R|] end.

Lemma admit_spec ctx cp chainID p msg w epoch w' :
  admit_encrypted ctx cp chainID p msg w = (Ret epoch, w') -> admitted ctx cp chainID p msg epoch w.
Proof.
  unfold admit_encrypted, bumpEncSubmitsThisBlock, bumpGlobalEncSubmitsThisBlock. intros R. do 6 pass_guard R.
  destruct (transparentDkgRuntimeUnavailable ctx cp p) eqn:Hrt; [discriminate|].
  rewrite (bind_Ret (gets _) _ _ _ _ (gets_run _ _)) in R. pass_guard R.
  rewrite (bind_Ret (gets _) _ _ _ _ (gets_run _ _)) in R. pass_guard R.
  apply bind_Ret_inv in R as (n1 & w1 & [-> R1]%bump_rate_run & R). pass_guard R.
  apply bind_Ret_inv in R as (n2 & w2 & [-> R2]%bump_rate_run & R). pass_guard R.
  apply bind_Ret_inv in R as (ep & w3 & (-> & Hep & Hne)%stamp_epoch_run & R).
  apply bind_Ret_inv in R as (br & w4 & [-> Hbr]%breach_run & R). destruct br; [discriminate|].
  rewrite (bind_Ret (gets _) _ _ _ _ (gets_run _ _)) in R. pass_guard R.
  destruct (Dkg.ParseEncKeyPoK (se_Pok msg)) as [pok|] eqn:Hpok; [|discriminate]. pass_guard R. injection R as <- <-.
  assert (F1 : frame [29] w w1) by (rewrite R1; by apply frame_set).
  assert (F2 : frame [29; 37] w w2).
  { eapply frame_trans; [eapply frame_weaken; [exact F1|done]|]. rewrite R2. by apply frame_set. }
  rewrite (concentration_frame _ _ _ _ _ F2) in Hbr by done.
  match goal with E : negb (ActiveEpochCanDeriveShares _ _) = false |- _ => rewrite (derivable_frame _ _ _ _ F2) in E by done end.
  match goal with E : context [readU64 (encSubmitGlobalRateKey _) _] |- _ => rewrite (frame_readU64 _ _ _ _ F1) in E by done end.
  unfold GetActiveEpoch in Hep. rewrite (frame_readU64 _ _ _ _ F2) in Hep by done.
  bool_prop. split; try done; try (intros; lia); [|by exists pok].
  match goal with E : strlen (se_Body msg) <> 0 |- _ => unfold strlen in * end. lia.
Qed.

Lemma stamp_run e p w w' :
  enc_inv w -> in_flight w e -> e_Bond e = 0 -> e_BondBurn e = 0 ->
  (if 0 <? EncSubmitBond p then
     burn ← lift_outcome (bond_burn (EncSubmitBond p) (EncSubmitBondBurnBps p));
     modify (stampBond e (EncSubmitBond p) (EncSubmitBondDenom p) burn)
   else mret tt : M (World B) unit) w = (Ret tt, w') ->
  exists e', enc_inv w' /\ in_flight w' e' /\ (forall f, tally f w' = tally f w - f e + f e') /\
    (forall e0, in_flight w' e0 -> e0 = e' \/ (in_flight w e0 /\ e0 <> e)) /\ frame [6] w w' /\
    e_Submitter e' = e_Submitter e /\ e_DecryptHeight e' = e_DecryptHeight e /\ e_Seq e' = e_Seq e /\
    e_Epoch e' = e_Epoch e /\ (e_A e' = e_A e /\ e_Nonce e' = e_Nonce e /\ e_Body e' = e_Body e) /\
    (e_Bond e' = Z.max 0 (EncSubmitBond p) /\ 0 <= e_BondBurn e') /\
    (0 < EncSubmitBond p -> e_BondDenom e' = EncSubmitBondDenom p).
Proof.
  intros Hi He Hb Hbb R. destruct (0 <? EncSubmitBond p) eqn:E; bool_prop.
  - apply bind_Ret_inv in R as (burn & w1 & R1 & R). injection R1 as R1 <-. injection R as <-.
    apply bond_burn_nonneg in R1. unfold stampBond. set (e' := mkEncTx _ _ _ _ _ _ _ _ _ _ _).
    destruct (enc_inv_stamp w e e' Hi He) as (I1 & I2 & I3 & I4); [done..|].
    exists e'. split_and!; try done; [by apply frame_set|simpl; lia].
  - injection R as <-. exists e. split_and!; try done; try lia.
    intros e0 He0. destruct (decide (encTxKey (e_DecryptHeight e0) (e_Seq e0) = encTxKey (e_DecryptHeight e) (e_Seq e))) as [E'|].
    + left. unfold in_flight, GetEncTx in *. congruence.
    + right. split; [done|]. by intros ->.
Qed.

(** A successful submission: the new record, and what it leaves unchanged. *)
Lemma SubmitEncrypted_run k ctx cp chainID msg w r w' :
  enc_inv w -> solvent w -> readU64 EncSeqKey w + 1 < 2 ^ 64 ->
  AccAddressFromBech32 (se_Submitter msg) <> Some (NewModuleAddress ModuleName) ->
  SubmitEncrypted k ctx cp chainID msg w = (Ret r, w') ->
  exists epoch e, admitted ctx cp chainID (GetParams w) msg epoch w /\
   enc_inv w' /\ solvent w' /\ in_flight w' e /\
   (forall f, tally f w' = f e + tally f w) /\
   submitted ctx msg epoch (readU64 EncSeqKey w) (GetParams w) e /\ r = (e_DecryptHeight e, e_Seq e) /\
   (forall k, key_in (29 :: 37 :: enc_prefixes) k = false -> sget k w' = sget k w) /\
   (forall e', in_flight w' e' -> e' = e \/ in_flight w e') /\
   readU64 EncSeqKey w' = readU64 EncSeqKey w + 1.
Proof.
  intros Hi Hs Hq Ha R. unfold SubmitEncrypted in R. rewrite (bind_Ret (gets _) _ _ _ _ (gets_run _ _)) in R.
  apply bind_Ret_inv in R as (epoch & w0 & R0 & R). apply bind_Ret_inv in R as ([] & w1 & R1 & R).
  apply bind_Ret_inv in R as (e & w2 & R2 & R). apply bind_Ret_inv in R as ([] & w3 & R3 & R).
  rewrite (bind_Ret _ _ _ _ _ (modify_run _ _)) in R. injection R as <- <-.
  pose proof (framed_admit_encrypted _ _ _ _ _ _ _ _ R0) as F0.
  pose proof (admit_spec _ _ _ _ _ _ _ _ R0) as Hadm.
  assert (Hep : is_u64 epoch).
  { rewrite (adm_epoch _ _ _ _ _ _ _ Hadm). destruct (DkgEnabled _); [apply readU64_range|unfold is_u64; lia]. }
  assert (Hi0 : enc_inv w0) by by eapply enc_inv_frame.
  assert (Hs0 : solvent w0) by by eapply solvent_frame.
  apply escrow_bond_run in R1 as (Hv1 & Hk1 & Hm1); [|apply (sol_bank w0 Hs0)|done].
  assert (Hq1 : readU64 EncSeqKey w1 = readU64 EncSeqKey w).
  { rewrite (store_readU64 _ _ _ Hk1). by apply (frame_readU64 _ _ _ _ F0). }
  apply SubmitEncTx_admit in R2 as (Hi2 & Hf2 & Ht2 & Ho2 & F2 & Hq2 & ->); [|by eapply enc_inv_store|by rewrite Hq1|done].
  set (e := mkEncTx _ _ _ _ _ _ _ _ _ _ _) in *.
  apply (stamp_run e) in R3 as (e' & Hi3 & Hf3 & Ht3 & Ho3 & F3 & Es & Ed & Eq & Ee & Ec & Eb & En); [|done..].
  assert (Ht : forall f, tally f w3 = f e' + tally f w).
  { intros f. rewrite Ht3, Ht2, (store_tally _ _ _ Hk1), (tally_frame _ _ _ _ F0) by done. lia. }
  assert (Hold : forall e0, in_flight w3 e0 -> e0 = e' \/ in_flight w e0).
  { intros e0 He0. apply Ho3 in He0 as [->|[He0 Hne0]]; [by left|right]. apply Ho2 in He0 as [?|He0]; [done|].
    rewrite (store_in_flight _ _ _ Hk1) in He0. by apply (in_flight_frame _ _ _ _ F0) in He0. }
  exists epoch, e'. split_and!; [done|by apply (enc_inv_frame [] w3); [apply frame_emit|..]| |done|exact Ht| |by rewrite Ed, Eq| |exact Hold|].
  - apply (solvent_frame [] w3); [apply frame_emit|done|]. split.
    + by rewrite (frame_bank _ _ _ F3), (frame_bank _ _ _ F2).
    + intros e0 He0. apply Hold in He0 as [->|He0]; [split; [rewrite (proj1 Eb); lia|apply Eb]|].
      by apply (sol_bonds w Hs).
    + intros d. unfold escrowed, module_balance. rewrite Ht, (frame_bank _ _ _ F3), (frame_bank _ _ _ F2).
      specialize (Hm1 d). pose proof (sol_covered w Hs d) as Hc. unfold escrowed, module_balance in *.
      rewrite (frame_bank _ _ _ F0) in Hm1. unfold bond_in at 1. rewrite (proj1 Eb).
      destruct (Z.le_gt_cases (EncSubmitBond (GetParams w)) 0).
      * rewrite Z.max_l in * by lia. destruct (String.eqb _ _), (String.eqb (e_BondDenom e') d); lia.
      * rewrite En by lia. destruct (String.eqb _ _); lia.
  - split; try done; by rewrite ?Ed, ?Es, ?Eq, ?Ee, <- ?Hq1.
  - intros k0 Hk0. change (sget k0 w3 = sget k0 w).
    assert (Hsub : forall qs, subset_of qs (29 :: 37 :: enc_prefixes) = true -> key_in qs k0 = false)
      by (intros qs Hqs; eapply key_in_weaken; [by apply subset_of_spec|exact Hk0]).
    rewrite (frame_sget _ _ _ _ F3), (frame_sget _ _ _ _ F2), (store_sget _ _ _ Hk1) by by apply Hsub.
    apply (frame_sget _ _ _ _ F0). by apply Hsub.
  - change (readU64 EncSeqKey w3 = readU64 EncSeqKey w + 1). rewrite (frame_readU64 _ _ _ _ F3), Hq2 by done. lia.
Qed.

End submit.

End bonds.
End EncBond.
