(* ===== verification/EncEpoch.v ===== *)
(** * x/encmempool: the key of every ciphertext in flight is kept

    Epochs are superseded by rekeys and their records pruned, while ciphertexts
    encrypted to an old key may still be in flight.  [epoch_inv] says that the
    serving epoch and the epoch of every ciphertext in flight have an installed
    threshold key and an active round; the lemmas show that opening, finalising,
    retrying and purging rounds and releasing ciphertexts preserve it. *)
From S2P Require Import Prelude Codec Bank EncTypes StakeWeight Threshold Dkg EncKeeper EncRegistry EncDkg EncIngest EncMsg EncFrame EncInvariant.
From stdpp Require Import gmap strings list sorting.
From Stdlib Require Import ZArith Lia.

#[local] Set Default Goal Selector "!".
Open Scope Z_scope.

Module EncEpoch.
Import EncTypes EncKeeper EncRegistry EncDkg EncFrame EncInvariant.

Section epochs.
Context {B : Type} `{EncJSON} `{!EncJSONLaws}.
Implicit Types (w : World B) (ep : Z) (r : DkgRound).

(** The epoch has an installed key and its round is active. *)
Definition usable ep w : Prop :=
  (exists ak, GetActiveKey ep w = Some ak /\ ak_Epoch ak = ep) /\
  (exists r, GetDkgRound ep w = Some r /\ r_Status r = DkgStatusActive).

Record epoch_inv w : Prop := {
  ep_round ep r : is_u64 ep -> GetDkgRound ep w = Some r -> r_Epoch r = ep /\ ep <= GetCurrentEpoch w;
  ep_serving : GetActiveEpoch w <> 0 -> usable (GetActiveEpoch w) w;
  ep_in_flight e : in_flight w e -> 0 < e_Epoch e -> usable (e_Epoch e) w
}.

Definition epoch_prefixes : list Z := [6; 16; 19; 20; 21].

Lemma usable_frame ps ep w w' :
  frame ps w w' -> Zmem 16 ps = false -> Zmem 19 ps = false -> usable ep w' <-> usable ep w.
Proof.
  intros Hf H16 H19. unfold usable, GetActiveKey, GetDkgRound. by rewrite !(frame_get_json _ _ _ _ Hf) by done.
Qed.

Lemma epoch_inv_frame ps w w' :
  frame ps w w' -> forallb (fun z => negb (Zmem z ps)) epoch_prefixes = true -> epoch_inv w -> epoch_inv w'.
Proof.
  intros Hf Hp Hi. simpl in Hp. bool_prop.
  assert (Hu : forall ep, usable ep w' <-> usable ep w) by (intros; by eapply usable_frame).
  split.
  - intros ep r. unfold GetDkgRound, GetCurrentEpoch.
    rewrite (frame_get_json _ _ _ _ Hf), (frame_readU64 _ _ _ _ Hf) by done. apply (ep_round w Hi).
  - unfold GetActiveEpoch. rewrite (frame_readU64 _ _ _ _ Hf) by done. rewrite Hu. apply (ep_serving w Hi).
  - intros e He. rewrite Hu. apply (ep_in_flight w Hi). by apply (in_flight_frame _ _ _ _ Hf).
Qed.

(** *** Keys *)
Lemma dkgRoundKey_inj a b : is_u64 a -> is_u64 b -> dkgRoundKey a = dkgRoundKey b -> a = b.
Proof. intros ?? E%byte_prefix_inj. by apply be64_inj. Qed.
Lemma activeKeyKey_inj a b : is_u64 a -> is_u64 b -> activeKeyKey a = activeKeyKey b -> a = b.
Proof. intros ?? E%byte_prefix_inj. by apply be64_inj. Qed.

Lemma get_round_set ep r w :
  is_u64 ep -> is_u64 (r_Epoch r) ->
  GetDkgRound ep (SetDkgRound r w) = if decide (r_Epoch r = ep) then Some (round_stored r) else GetDkgRound ep w.
Proof.
  intros He Hr. unfold GetDkgRound, SetDkgRound, get_json. rewrite sget_sset. case_decide as E.
  - apply dkgRoundKey_inj in E; [|done..]. rewrite decide_True by done. apply round_roundtrip.
  - rewrite decide_False; [done|]. congruence.
Qed.
Lemma get_round_del ep ep' w :
  is_u64 ep -> is_u64 ep' ->
  GetDkgRound ep (sdel (dkgRoundKey ep') w) = if decide (ep' = ep) then None else GetDkgRound ep w.
Proof.
  intros He Hr. unfold GetDkgRound, get_json. rewrite sget_sdel. case_decide as E.
  - apply dkgRoundKey_inj in E; [|done..]. by rewrite decide_True.
  - rewrite decide_False; [done|]. congruence.
Qed.
Lemma get_key_set ep a w :
  is_u64 ep -> is_u64 (ak_Epoch a) ->
  GetActiveKey ep (SetActiveKey a w) = if decide (ak_Epoch a = ep) then Some a else GetActiveKey ep w.
Proof.
  intros He Hr. unfold GetActiveKey, SetActiveKey, get_json. rewrite sget_sset. case_decide as E.
  - apply activeKeyKey_inj in E; [|done..]. rewrite decide_True by done. apply json_roundtrip.
  - rewrite decide_False; [done|]. congruence.
Qed.
Lemma get_key_del ep ep' w :
  is_u64 ep -> is_u64 ep' ->
  GetActiveKey ep (sdel (activeKeyKey ep') w) = if decide (ep' = ep) then None else GetActiveKey ep w.
Proof.
  intros He Hr. unfold GetActiveKey, get_json. rewrite sget_sdel. case_decide as E.
  - apply activeKeyKey_inj in E; [|done..]. by rewrite decide_True.
  - rewrite decide_False; [done|]. congruence.
Qed.

Lemma in_flight_u64 w e : enc_inv w -> in_flight w e -> is_u64 (e_Epoch e).
Proof. intros Hi He. apply (in_flight_ok w e Hi He). Qed.

(** A change of the records that keeps every usable epoch that is needed. *)
Lemma epoch_inv_step w w' :
  enc_inv w -> epoch_inv w -> (forall e, in_flight w' e -> in_flight w e) ->
  (forall ep r, is_u64 ep -> GetDkgRound ep w' = Some r -> r_Epoch r = ep /\ ep <= GetCurrentEpoch w') ->
  (GetActiveEpoch w' <> 0 -> usable (GetActiveEpoch w') w') ->
  (forall e, in_flight w' e -> 0 < e_Epoch e -> usable (e_Epoch e) w -> usable (e_Epoch e) w') ->
  epoch_inv w'.
Proof. intros Hi Hp Hf Hr Ha Hu. split; [done..|]. intros e He Hpos. apply Hu; [done..|]. apply (ep_in_flight w Hp); auto. Qed.

(** *** Opening a round *)
Lemma open_epoch_inv r w :
  enc_inv w -> epoch_inv w -> r_Epoch r = GetCurrentEpoch w + 1 -> is_u64 (r_Epoch r) ->
  epoch_inv (SetCurrentEpoch (r_Epoch r) (SetDkgRound r w)).
Proof.
  intros Hi Hp Her Hu. set (w1 := SetDkgRound r w).
  assert (F1 : frame [16] w w1) by by apply frame_set.
  assert (F2 : frame [20] w1 (SetCurrentEpoch (r_Epoch r) w1)) by by apply frame_set.
  assert (Hcur : GetCurrentEpoch (SetCurrentEpoch (r_Epoch r) w1) = r_Epoch r).
  { unfold GetCurrentEpoch, SetCurrentEpoch. rewrite readU64_sset by done. by rewrite decide_True. }
  assert (Hget : forall ep, is_u64 ep -> GetDkgRound ep (SetCurrentEpoch (r_Epoch r) w1) =
    if decide (r_Epoch r = ep) then Some (round_stored r) else GetDkgRound ep w).
  { intros ep He. unfold GetDkgRound at 1. rewrite (frame_get_json _ _ _ _ F2) by done. by apply get_round_set. }
  assert (Huse : forall ep, is_u64 ep -> usable ep w -> usable ep (SetCurrentEpoch (r_Epoch r) w1)).
  { intros ep He [Hk (r0 & Hr0 & Hst)]. split.
    - unfold GetActiveKey. by rewrite (frame_get_json _ _ _ _ F2), (frame_get_json _ _ _ _ F1).
    - exists r0. rewrite Hget, decide_False by (try done; destruct (ep_round w Hp _ _ He Hr0); lia). done. }
  apply (epoch_inv_step w); [done..| | | |].
  - intros e. by rewrite (in_flight_frame _ _ _ _ F2), (in_flight_frame _ _ _ _ F1).
  - intros ep r0 He. rewrite Hget, Hcur by done. case_decide; [intros [= <-]; simpl; lia|].
    intros Hr0. destruct (ep_round w Hp _ _ He Hr0). lia.
  - unfold GetActiveEpoch. rewrite (frame_readU64 _ _ _ _ F2), (frame_readU64 _ _ _ _ F1) by done.
    intros Ha. apply Huse; [apply readU64_range|]. by apply (ep_serving w Hp).
  - intros e He _. apply Huse. apply (in_flight_u64 w); [done|].
    by rewrite (in_flight_frame _ _ _ _ F2), (in_flight_frame _ _ _ _ F1) in He.
Qed.

(** *** Deleting or rewriting a round that is not active *)
Lemma inactive_not_usable ep w r :
  GetDkgRound ep w = Some r -> r_Status r <> DkgStatusActive -> ~ usable ep w.
Proof. intros Hr Hs [_ (r0 & Hr0 & Hs0)]. congruence. Qed.

Lemma purge_epoch_inv cur w r :
  enc_inv w -> epoch_inv w -> is_u64 cur -> GetDkgRound cur w = Some r -> r_Status r <> DkgStatusActive ->
  epoch_inv (purgeFailedRound cur w).
Proof.
  intros Hi Hp Hc Hr Hs. unfold purgeFailedRound. set (w1 := purgeDealings cur w).
  assert (F1 : frame [17; 18; 28] w w1) by apply frame_purgeDealings.
  assert (Hp1 : epoch_inv w1) by by eapply epoch_inv_frame.
  assert (F2 : frame [16] w1 (sdel (dkgRoundKey cur) w1)) by by apply frame_del.
  assert (Huse : forall ep, is_u64 ep -> usable ep w -> usable ep (sdel (dkgRoundKey cur) w1)).
  { intros ep He Hu. assert (ep <> cur) by (intros ->; by eapply inactive_not_usable).
    rewrite <- (usable_frame _ _ _ _ F1) in Hu by done. destruct Hu as [Hk Hr0]. split.
    - unfold GetActiveKey. by rewrite (frame_get_json _ _ _ _ F2).
    - rewrite get_round_del, decide_False by done. exact Hr0. }
  apply (epoch_inv_step w); [done..| | | |].
  - intros e. by rewrite (in_flight_frame _ _ _ _ F2), (in_flight_frame _ _ _ _ F1).
  - intros ep r0 He. rewrite get_round_del by done. case_decide; [done|].
    unfold GetCurrentEpoch. rewrite (frame_readU64 _ _ _ _ F2) by done. by apply (ep_round w1 Hp1).
  - unfold GetActiveEpoch. rewrite (frame_readU64 _ _ _ _ F2), (frame_readU64 _ _ _ _ F1) by done.
    intros Ha. apply Huse; [apply readU64_range|]. by apply (ep_serving w Hp).
  - intros e He _. apply Huse. apply (in_flight_u64 w); [done|].
    by rewrite (in_flight_frame _ _ _ _ F2), (in_flight_frame _ _ _ _ F1) in He.
Qed.

(** *** Pruning *)
Lemma no_in_flight_epoch w ep e :
  enc_inv w -> 0 < ep -> getEpochEncCount ep w = 0 -> in_flight w e -> e_Epoch e <> ep.
Proof.
  intros Hi Hpos Hz He E. pose proof (in_flight_ok w e Hi He) as (_ & _ & Hu). unfold is_u64 in Hu.
  destruct (inv_counts w Hi) as (_ & _ & Hc). rewrite Hc in Hz by lia.
  rewrite (tally_in_flight _ _ _ He) in Hz. unfold one at 1, by_epoch at 1 in Hz.
  rewrite E, Z.eqb_refl in Hz. assert (0 <= tally (one (by_epoch ep)) (sdel (encTxKey (e_DecryptHeight e) (e_Seq e)) w)).
  { apply tally_nonneg. intros. apply one_bounds. }
  lia.
Qed.

Lemma usable_pruned ep w0 ep' w :
  is_u64 ep -> is_u64 ep' -> ep <> ep' -> usable ep w ->
  frame [17; 18; 28] w w0 ->
  usable ep (sdel (dkgRoundKey ep') (DeleteActiveKey ep' w0)).
Proof.
  intros He He' Hne Hu F0. rewrite <- (usable_frame _ _ _ _ F0) in Hu by done. destruct Hu as [Hk Hr].
  set (w1 := DeleteActiveKey ep' w0).
  assert (F1 : frame [19; 30; 31; 32] w0 w1) by apply frame_DeleteActiveKey.
  assert (F2 : frame [16] w1 (sdel (dkgRoundKey ep') w1)) by by apply frame_del.
  split.
  - unfold GetActiveKey. rewrite (frame_get_json _ _ _ _ F2) by done. unfold w1, DeleteActiveKey.
    rewrite (frame_get_json _ _ _ _ (frame_deleteShareKeyCache _ _)) by done.
    fold (GetActiveKey ep (sdel (activeKeyKey ep') w0)). rewrite get_key_del, decide_False by done. exact Hk.
  - rewrite get_round_del, decide_False by done. unfold GetDkgRound. by rewrite (frame_get_json _ _ _ _ F1).
Qed.

Lemma prune_epoch_inv ep w :
  enc_inv w -> epoch_inv w -> is_u64 ep -> epoch_inv (maybePruneEpoch ep w).
Proof.
  intros Hi Hp He. pose proof (frame_maybePruneEpoch ep w) as F. revert F. unfold maybePruneEpoch.
  destruct (Z.eqb_spec ep 0); [done|]. destruct ((ep =? GetActiveEpoch w) || (ep =? GetCurrentEpoch w)) eqn:E; [done|].
  destruct (Z.eqb_spec (getEpochEncCount ep w) 0) as [Hz|]; [|done]. cbn [negb]. intros F. bool_prop.
  set (w0 := purgeDealings ep w) in *. assert (F0 : frame [17; 18; 28] w w0) by apply frame_purgeDealings.
  set (w2 := sdel (dkgRoundKey ep) (DeleteActiveKey ep w0)) in *.
  apply (epoch_inv_frame [] w2); [apply frame_emit|done|].
  assert (F2 : frame [16; 17; 18; 19; 28; 30; 31; 32] w w2).
  { eapply frame_trans; [eapply frame_weaken; [exact F0|done]|]. apply frame_then; [|intros; by apply frame_del].
    eapply frame_weaken; [apply frame_DeleteActiveKey|done]. }
  assert (Hpos : 0 < ep) by (unfold is_u64 in He; lia).
  apply (epoch_inv_step w); [done..| | | |].
  - intros e. by rewrite (in_flight_frame _ _ _ _ F2).
  - intros ep0 r0 He0. unfold w2. rewrite get_round_del by done. case_decide; [done|].
    unfold GetDkgRound, GetCurrentEpoch. fold w2. rewrite (frame_readU64 _ _ _ _ F2) by done.
    rewrite (frame_get_json _ _ _ _ (frame_DeleteActiveKey _ _)), (frame_get_json _ _ _ _ F0) by done.
    by apply (ep_round w Hp).
  - unfold GetActiveEpoch. rewrite (frame_readU64 _ _ _ _ F2) by done. intros Ha.
    apply (usable_pruned _ _ _ w); [apply readU64_range|done| |by apply (ep_serving w Hp)|done].
    unfold GetActiveEpoch in *. congruence.
  - intros e Hf Hpe Hu. rewrite (in_flight_frame _ _ _ _ F2) in Hf by done.
    apply (usable_pruned _ _ _ w); [by apply (in_flight_u64 w)|done| |done..].
    by apply (no_in_flight_epoch w).
Qed.

(** *** Finalising a round *)
Lemma set_key_usable a ep w : is_u64 (ak_Epoch a) -> is_u64 ep -> usable ep w -> usable ep (SetActiveKey a w).
Proof.
  intros Ha He [(ak & Hk & Hak) Hr]. assert (F : frame [19] w (SetActiveKey a w)) by by apply frame_set. split.
  - rewrite get_key_set by done. case_decide; eauto.
  - unfold GetDkgRound. by rewrite (frame_get_json _ _ _ _ F).
Qed.

Lemma set_key_epoch_inv a w :
  enc_inv w -> epoch_inv w -> is_u64 (ak_Epoch a) -> epoch_inv (SetActiveKey a w).
Proof.
  intros Hi Hp Ha. assert (F : frame [19] w (SetActiveKey a w)) by by apply frame_set.
  apply (epoch_inv_step w); [done..| | | |].
  - intros e. by rewrite (in_flight_frame _ _ _ _ F).
  - intros ep r He. unfold GetDkgRound, GetCurrentEpoch.
    rewrite (frame_get_json _ _ _ _ F), (frame_readU64 _ _ _ _ F) by done. by apply (ep_round w Hp).
  - unfold GetActiveEpoch. rewrite (frame_readU64 _ _ _ _ F) by done. intros Hz.
    apply set_key_usable; [done|apply readU64_range|]. by apply (ep_serving w Hp).
  - intros e He _ Hu. apply set_key_usable; [done| |done]. apply (in_flight_u64 w); [done|].
    by apply (in_flight_frame _ _ _ _ F).
Qed.

(** Rewriting the status of a round that was not active. *)
Lemma set_status_epoch_inv r st w :
  enc_inv w -> epoch_inv w -> is_u64 (r_Epoch r) -> GetDkgRound (r_Epoch r) w = Some r ->
  r_Status r <> DkgStatusActive -> epoch_inv (SetDkgRound (with_status r st) w).
Proof.
  intros Hi Hp Hr Hg Hs. set (w' := SetDkgRound (with_status r st) w).
  assert (F : frame [16] w w') by by apply frame_set.
  assert (Hget : forall ep, is_u64 ep -> GetDkgRound ep w' =
    if decide (r_Epoch r = ep) then Some (round_stored (with_status r st)) else GetDkgRound ep w).
  { intros ep He. unfold w'. by rewrite get_round_set. }
  assert (Huse : forall ep, is_u64 ep -> usable ep w -> usable ep w').
  { intros ep He Hu. assert (r_Epoch r <> ep) by (intros <-; by eapply inactive_not_usable).
    destruct Hu as [Hk Hr0]. split; [unfold GetActiveKey; by rewrite (frame_get_json _ _ _ _ F)|].
    by rewrite Hget, decide_False. }
  apply (epoch_inv_step w); [done..| | | |].
  - intros e. by rewrite (in_flight_frame _ _ _ _ F).
  - intros ep r0 He. rewrite Hget by done. unfold GetCurrentEpoch. rewrite (frame_readU64 _ _ _ _ F) by done.
    case_decide as E; [|by apply (ep_round w Hp)]. intros [= <-]. simpl. split; [done|].
    rewrite <- E. by apply (ep_round w Hp _ _ Hr Hg).
  - unfold GetActiveEpoch. rewrite (frame_readU64 _ _ _ _ F) by done. intros Ha.
    apply Huse; [apply readU64_range|]. by apply (ep_serving w Hp).
  - intros e He _. apply Huse. apply (in_flight_u64 w); [done|]. by apply (in_flight_frame _ _ _ _ F).
Qed.

(** Serving an epoch once its key is installed and its round active. *)
Lemma serve_epoch_inv ep w :
  enc_inv w -> epoch_inv w -> is_u64 ep -> usable ep w -> epoch_inv (SetActiveEpoch ep w).
Proof.
  intros Hi Hp He Hu. assert (F : frame [21] w (SetActiveEpoch ep w)) by by apply frame_set.
  assert (Huse : forall ep', usable ep' (SetActiveEpoch ep w) <-> usable ep' w) by (intros; by eapply usable_frame).
  split.
  - intros ep0 r0. unfold GetDkgRound, GetCurrentEpoch.
    rewrite (frame_get_json _ _ _ _ F), (frame_readU64 _ _ _ _ F) by done. apply (ep_round w Hp).
  - intros _. rewrite Huse. unfold GetActiveEpoch, SetActiveEpoch. rewrite readU64_sset by done. by rewrite decide_True.
  - intros e. rewrite (in_flight_frame _ _ _ _ F), Huse by done. apply (ep_in_flight w Hp).
Qed.

(** The two writes that install a key commute: the pointer first, as in the code,
    or the round first. *)
Lemma serve_set_round_comm ep r w :
  frame [] (SetActiveEpoch ep (SetDkgRound r w)) (SetDkgRound r (SetActiveEpoch ep w)).
Proof.
  unfold SetDkgRound, SetActiveEpoch. split_and!; [done|..].
  - intros n Hn. unfold sset. rewrite !kvs_set. by rewrite !decide_False by done.
  - intros k _. rewrite !sget_sset. repeat case_decide; subst; done.
Qed.

(** *** The round machine

    The triples of the prelude with the invariants as the condition on errors. *)
Definition inv w : Prop := enc_inv w /\ epoch_inv w.
Abbreviation hoare := (triple inv).

(** The predicates on the current epoch [cur] and its round survive a step that
    writes none of the records they read. *)
Definition at_epoch (cur : Z) (last : option DkgRound) w : Prop :=
  inv w /\ GetCurrentEpoch w = cur /\ (0 < cur -> GetDkgRound cur w = last).

Definition apart (ps : list Z) : bool := forallb (fun z => negb (Zmem z ps)) (epoch_prefixes ++ enc_prefixes).

Lemma inv_frame ps w w' : frame ps w w' -> apart ps = true -> inv w -> inv w'.
Proof.
  intros F Hp [Hi He]. unfold apart in Hp. rewrite forallb_app in Hp. apply andb_true_iff in Hp as [H1 H2].
  split; [by eapply (enc_inv_frame ps)|by eapply (epoch_inv_frame ps)].
Qed.
Lemma at_epoch_frame ps cur last w w' : frame ps w w' -> apart ps = true -> at_epoch cur last w -> at_epoch cur last w'.
Proof.
  intros F Hp (Hi & Hc & Hr). split_and!; [by eapply inv_frame|..]; unfold apart in Hp; simpl in Hp; bool_prop.
  - unfold GetCurrentEpoch. by rewrite (frame_readU64 _ _ _ _ F).
  - unfold GetDkgRound. by rewrite (frame_get_json _ _ _ _ F).
Qed.
Lemma hoare_framed {A : Type} ps cur last (m : M (World B) A) :
  framed ps m -> apart ps = true -> hoare (at_epoch cur last) m (fun _ => at_epoch cur last).
Proof.
  intros Hm Hp w o w' Hw R. apply (Hm w o w') in R.
  assert (Ha : at_epoch cur last w') by by eapply at_epoch_frame. destruct o; [done|apply Ha|done].
Qed.

Section machine.
Context `{Curve} `{MathInt}.

Lemma finalizeRound_keeps r w o w' :
  inv w -> is_u64 (r_Epoch r) -> GetDkgRound (r_Epoch r) w = Some r -> r_Status r <> DkgStatusActive ->
  finalizeRound r w = (o, w') -> match o with Panic _ => True | _ => inv w' end.
Proof.
  intros [Hi Hp] Hu Hg Hs R. pose proof (framed_finalizeRound _ _ _ _ R) as F.
  assert (Hi' : enc_inv w') by by eapply enc_inv_frame.
  assert (Hgoal : (forall msg, o <> Panic msg) -> epoch_inv w'); [|destruct o; [split; auto..|done]].
  intros Hnp. unfold finalizeRound in R. do 2 rewrite (bind_Ret (gets _) _ _ _ _ (gets_run _ _)) in R.
  destruct (Dkg.FinalizePublicWeighted _ _ _ _ _ _) as [res|e|msg].
  2: { rewrite (bind_Ret _ _ _ _ _ (modify_run _ _)) in R. injection R as _ <-.
       eapply (epoch_inv_frame []); [apply frame_emit|done|]. by apply set_status_epoch_inv. }
  2: { injection R as <- _. by destruct (Hnp msg). }
  rewrite (bind_Ret _ _ _ _ _ (modify_run _ _)) in R. set (ak := mkActiveThresholdKey _ _ _ _ _) in R.
  assert (Hp1 : epoch_inv (SetActiveKey ak w)) by by apply set_key_epoch_inv.
  assert (F1 : frame [19] w (SetActiveKey ak w)) by by apply frame_set.
  assert (Hi1 : enc_inv (SetActiveKey ak w)) by by eapply enc_inv_frame.
  unfold mbind at 1, M_bind at 1 in R. destruct (PrecomputeShareKeys _ _ _ _) as [o2 w2] eqn:R2 in R.
  pose proof (framed_PrecomputeShareKeys _ _ _ _ _ _ R2) as F2.
  assert (Hp2 : epoch_inv w2) by by eapply epoch_inv_frame.
  assert (Hi2 : enc_inv w2) by by eapply enc_inv_frame.
  destruct o2 as [[]|e|msg]; [|by injection R as _ <-|by injection R as <- _; destruct (Hnp msg)].
  rewrite (bind_Ret (gets _) _ _ _ _ (gets_run _ _)) in R. do 2 rewrite (bind_Ret _ _ _ _ _ (modify_run _ _)) in R.
  set (w4 := SetDkgRound _ _) in R.
  assert (F4 : frame [16; 21] w2 w4).
  { unfold w4, SetDkgRound. apply frame_then; [by apply frame_set|intros; by apply frame_set]. }
  assert (Hi4 : enc_inv w4) by by eapply enc_inv_frame.
  assert (Hp4 : epoch_inv w4).
  { eapply (epoch_inv_frame []); [apply serve_set_round_comm|done|].
    assert (Hg2 : GetDkgRound (r_Epoch r) w2 = Some r).
    { unfold GetDkgRound. by rewrite (frame_get_json _ _ _ _ F2), (frame_get_json _ _ _ _ F1). }
    assert (F3 : frame [16] w2 (SetDkgRound (with_status r DkgStatusActive) w2)) by by apply frame_set.
    apply serve_epoch_inv; [by eapply enc_inv_frame|by apply set_status_epoch_inv|done|]. split.
    - exists ak. unfold GetActiveKey. rewrite (frame_get_json _ _ _ _ F3), (frame_get_json _ _ _ _ F2) by done.
      fold (GetActiveKey (r_Epoch r) (SetActiveKey ak w)). rewrite get_key_set by done. by rewrite decide_True.
    - eexists. rewrite get_round_set, decide_True by done. by split. }
  assert (Hp5 : forall ev, epoch_inv (emit ev w4) /\ epoch_inv (emit ev (maybePruneEpoch (GetActiveEpoch w2) w4))).
  { intros ev. split; (eapply (epoch_inv_frame []); [apply frame_emit|done|]); [done|].
    apply prune_epoch_inv; [done..|apply readU64_range]. }
  destruct (_ && _) in R; [rewrite (bind_Ret _ _ _ _ _ (modify_run _ _)) in R|rewrite (bind_Ret _ _ _ _ _ (mret_run _ _)) in R];
    injection R as _ <-; apply Hp5.
Qed.

Definition inv_post {A : Type} : A -> World B -> Prop := fun _ => inv.
Lemma hoare_done {A C : Type} (c : C) (a : A) : hoare (inv_post c) (mret a) inv_post.
Proof. intros w o w' Hi [= <- <-]. exact Hi. Qed.

Lemma openRound_hoare cur last ms hash h p a reason :
  0 <= cur -> cur + 1 < 2 ^ 64 -> hoare (at_epoch cur last) (openRound (u64 (cur + 1)) ms hash h p a reason) inv_post.
Proof.
  intros Hn0 Hc w o w' ([Hi Hp] & Hcur & _) R. rewrite u64_id in R by (unfold is_u64; lia).
  pose proof (framed_openRound _ _ _ _ _ _ _ _ _ _ R) as F.
  assert (Hi' : enc_inv w') by by eapply enc_inv_frame.
  unfold openRound in R. unfold mbind at 1, M_bind at 1, lift_outcome in R.
  destruct (seat_members p (cur + 1) ms) as [[ms' t]|e|msg]; [|injection R as <- <-; by split|by injection R as <- _].
  do 2 rewrite (bind_Ret _ _ _ _ _ (modify_run _ _)) in R. injection R as <- <-. split; [done|].
  eapply (epoch_inv_frame []); [apply frame_emit|done|].
  set (r := new_round (cur + 1) ms' t hash h p a). change (cur + 1) with (r_Epoch r).
  apply open_epoch_inv; [done..|simpl; lia|unfold is_u64; simpl; lia].
Qed.

Lemma purge_open_hoare cur r : is_u64 cur -> 0 < cur -> r_Status r <> DkgStatusActive ->
  hoare (at_epoch cur (Some r)) (modify (purgeFailedRound cur)) (fun _ => at_epoch cur None).
Proof.
  intros Hu Hpos Hs. apply hoare_modify. intros w ([Hi Hp] & Hc & Hr). pose proof (frame_purgeFailedRound cur w) as F.
  split_and!.
  - split; [by eapply enc_inv_frame|]. eapply purge_epoch_inv; try done. by apply Hr.
  - unfold GetCurrentEpoch. by rewrite (frame_readU64 _ _ _ _ F).
  - intros _. unfold purgeFailedRound. rewrite get_round_del by done. by rewrite decide_True.
Qed.

Lemma retry_hoare cur r ms hash h p reason :
  0 < cur -> cur + 1 < 2 ^ 64 -> r_Status r <> DkgStatusActive ->
  hoare (at_epoch cur (Some r)) (retryFailedRound cur r ms hash h p reason) inv_post.
Proof.
  intros Hpos Hc Hs. unfold retryFailedRound. destruct (h <? _).
  { intros w o w' (Hi & _) [= <- <-]. exact Hi. }
  eapply (hoare_bind _ _ (fun _ => at_epoch cur (Some r))).
  { destruct (_ && _); (eapply (hoare_framed []); [|done]); [apply framed_modify; intros; apply frame_emit|apply framed_mret]. }
  intros ?; cbv beta. eapply hoare_bind; [apply purge_open_hoare; [unfold is_u64; lia|done..]|]. intros ?; cbv beta.
  eapply hoare_bind; [apply openRound_hoare; lia|]. intros ?. apply hoare_done.
Qed.

Lemma status_open_inactive r : String.eqb (r_Status r) DkgStatusOpen = true -> r_Status r <> DkgStatusActive.
Proof. intros ->%String.eqb_eq. discriminate. Qed.

Lemma finalize_hoare cur r :
  0 < cur < 2 ^ 64 -> r_Status r <> DkgStatusActive ->
  hoare (at_epoch cur (Some r)) (finalizeRound r;; gets (GetDkgRound cur)) (fun last => at_epoch cur last).
Proof.
  intros Hcur Hs. eapply (hoare_bind _ _ (fun _ w => inv w /\ GetCurrentEpoch w = cur)).
  - intros w o w' ([Hi Hp] & Hc & Hr) R. specialize (Hr ltac:(lia)).
    assert (Hu : is_u64 cur) by (unfold is_u64; lia).
    destruct (ep_round w Hp _ _ Hu Hr) as [Her _]. pose proof (framed_finalizeRound _ _ _ _ R) as F.
    eapply finalizeRound_keeps in R; [|by split|by rewrite Her|by rewrite Her|done].
    destruct o; [|done..]. split; [done|]. unfold GetCurrentEpoch. by rewrite (frame_readU64 _ _ _ _ F).
  - intros ?; cbv beta. eapply hoare_post; [|apply hoare_gets]. intros last w [[Hi Hc] ->]. by split_and!.
Qed.

Lemma settle_hoare h cur :
  is_u64 cur ->
  hoare (fun w => inv w /\ GetCurrentEpoch w = cur) (settle_round h cur)
    (fun last w => at_epoch cur last w /\ (last <> None -> 0 < cur)).
Proof.
  intros Hu. unfold settle_round.
  eapply (hoare_bind _ _ (fun last w => at_epoch cur last w /\ (last <> None -> 0 < cur))).
  { eapply hoare_post; [|apply hoare_gets]. intros last w [[Hi Hc] ->]. unfold at_epoch.
    destruct (0 <? cur) eqn:E; bool_prop; split_and!; try done; lia. }
  intros last. eapply (hoare_bind _ _ (fun last w => at_epoch cur last w /\ (last <> None -> 0 < cur))).
  { destruct last as [r|]; [|apply (hoare_mret (fun last w => at_epoch cur last w /\ (last <> None -> 0 < cur)))].
    destruct (_ && _) eqn:E; [|apply (hoare_mret (fun last w => at_epoch cur last w /\ (last <> None -> 0 < cur)))].
    apply andb_true_iff in E as [E _]. intros w o w' [Ha Hpos]. specialize (Hpos ltac:(done)). intros R.
    eapply finalize_hoare in R; [|unfold is_u64 in Hu; lia|by apply status_open_inactive|exact Ha].
    destruct o; [by split|done..]. }
  clear last. intros [r|]; [|apply (hoare_mret (fun last w => at_epoch cur last w /\ (last <> None -> 0 < cur)))].
  eapply hoare_bind; [apply hoare_gets|]. intros early. simpl. destruct early.
  2: { eapply hoare_pre; [|apply (hoare_mret (fun last w => at_epoch cur last w /\ (last <> None -> 0 < cur)))]. by intros w [? _]. }
  intros w o w' [[Ha Hpos] Hearly]. specialize (Hpos ltac:(done)). symmetry in Hearly. bool_prop.
  rewrite (bind_Ret _ _ _ _ _ (modify_run _ _)). intros R.
  eapply finalize_hoare in R; [|unfold is_u64 in Hu; lia| |eapply (at_epoch_frame []); [apply frame_emit|done|exact Ha]].
  - destruct o; [by split|done..].
  - apply status_open_inactive. by apply String.eqb_eq.
Qed.

Lemma member_change_hoare cur r ms hash h p :
  0 < cur -> cur + 1 < 2 ^ 64 -> r_Status r <> DkgStatusOpen ->
  hoare (at_epoch cur (Some r)) (member_change cur r ms hash h p) inv_post.
Proof.
  intros Hpos Hc Hs. unfold member_change. eapply hoare_bind; [apply hoare_gets|]. intros last.
  eapply hoare_pre; [by intros w [? _]|]. destruct (_ && _).
  - eapply hoare_bind; [eapply (hoare_framed []); [apply framed_modify; intros; apply frame_emit|done]|]. intros ?; cbv beta.
    destruct (String.eqb_spec (r_Status r) DkgStatusFailed) as [E|].
    + eapply hoare_bind; [apply retry_hoare; [done..|rewrite E; discriminate]|]. intros ?. apply hoare_done.
    + intros w o w' (Hi & _) [= <- <-]. exact Hi.
  - eapply (hoare_bind _ _ (fun _ w => exists l, at_epoch cur l w)).
    { destruct (String.eqb_spec (r_Status r) DkgStatusActive).
      - eapply hoare_post; [|eapply hoare_framed; [apply framed_modify; intros; apply frame_purgeIfDrained|done]].
        intros [] w Ha. by exists (Some r).
      - eapply hoare_post; [|apply purge_open_hoare; [unfold is_u64; lia|done..]]. intros [] w Ha. by exists None. }
    intros ? w o w' [l Ha]. revert w o w' Ha. change (hoare (at_epoch cur l)
      (modify (SetLastRekeyHeight h);; openRound (u64 (cur + 1)) ms hash h p 1 "member_change") inv_post).
    eapply hoare_bind; [eapply (hoare_framed [23]); [apply framed_modify; intros; by apply frame_set|done]|].
    intros ?; cbv beta. apply openRound_hoare; lia.
Qed.

Lemma drift_hoare cur r ms hash h p :
  0 < cur -> cur + 1 < 2 ^ 64 -> hoare (at_epoch cur (Some r)) (drift_rekey cur r ms hash h p) inv_post.
Proof.
  intros Hpos Hc. unfold drift_rekey.
  do 6 (eapply hoare_bind; [eapply (hoare_framed [17; 18; 23; 28; 32]); [frame_tac; try by apply frame_set|done]|intros ?; cbv beta]).
  apply openRound_hoare; lia.
Qed.

(** A step that touches neither the ciphertexts nor the epochs, in front of the rest. *)
Lemma hoare_then_framed {A C : Type} ps cur last (m : M (World B) A) (f : A -> M (World B) C) Q :
  framed ps m -> apart ps = true -> (forall a, hoare (at_epoch cur last) (f a) Q) ->
  hoare (at_epoch cur last) (m ≫= f) Q.
Proof. intros Hm Hp Hf. eapply hoare_bind; [by eapply hoare_framed|exact Hf]. Qed.

Lemma hoare_stop cur last : hoare (at_epoch cur last) (mret tt) inv_post.
Proof. intros w o w' (Hi & _) [= <- <-]. exact Hi. Qed.

Lemma round_driver_hoare cur last active hash h p :
  0 <= cur -> cur + 1 < 2 ^ 64 -> (last <> None -> 0 < cur) ->
  (forall r, last = Some r -> r_Status r <> DkgStatusOpen) ->
  hoare (at_epoch cur last)
    (match last with
     | None => openRound (u64 (cur + 1)) active hash h p 1 "start"
     | Some lastRound =>
         if cur =? 0 then openRound (u64 (cur + 1)) active hash h p 1 "start" else
         if negb (String.eqb (r_MembersHash lastRound) hash) then member_change cur lastRound active hash h p else
         due ← (if String.eqb (r_Status lastRound) DkgStatusActive
                then (fun w => (stakeDriftRekeyDue lastRound active h p w, w)) else mret false);
         if due : bool then drift_rekey cur lastRound active hash h p
         else if String.eqb (r_Status lastRound) DkgStatusFailed
         then _ ← retryFailedRound cur lastRound active hash h p "retry"; mret tt
         else mret tt
     end) inv_post.
Proof.
  intros Hn0 Hc Hl Hopen. destruct last as [r|]; [|by apply openRound_hoare].
  specialize (Hl ltac:(done)). destruct (cur =? 0) eqn:E; bool_prop; [lia|].
  destruct (negb _); [apply member_change_hoare; auto|].
  apply (hoare_then_framed []); [frame_tac|done|]. intros [].
  - by apply drift_hoare.
  - destruct (String.eqb_spec (r_Status r) DkgStatusFailed) as [Ef|]; [|apply hoare_stop].
    eapply hoare_bind; [apply retry_hoare; [done..|rewrite Ef; discriminate]|]. intros ?. apply hoare_done.
Qed.

Lemma hoare_inv_framed {A : Type} ps cur (m : M (World B) A) :
  framed ps m -> apart ps = true -> hoare (fun w => inv w /\ GetCurrentEpoch w = cur) m (fun _ w => inv w /\ GetCurrentEpoch w = cur).
Proof.
  intros Hm Hp w o w' [Hi Hc] R. apply (Hm w o w') in R. assert (Hi' : inv w') by by eapply inv_frame.
  destruct o; [|done..]. split; [done|]. unfold apart in Hp; simpl in Hp; bool_prop.
  unfold GetCurrentEpoch. by rewrite (frame_readU64 _ _ _ _ R).
Qed.

Lemma endblock_hoare k ctx cp bonded cur :
  is_u64 cur -> cur + 1 < 2 ^ 64 ->
  hoare (fun w => inv w /\ GetCurrentEpoch w = cur) (endblock_body k ctx cp bonded) inv_post.
Proof.
  intros Hu Hc. unfold endblock_body.
  assert (Hstop : hoare (fun w => inv w /\ GetCurrentEpoch w = cur) (mret tt) inv_post).
  { intros w o w' [Hi _] [= <- <-]. exact Hi. }
  eapply hoare_bind; [by apply (hoare_inv_framed []), eq_refl; frame_tac|]. intros p; cbv beta.
  destruct (negb _); [done|].
  eapply hoare_bind; [by apply (hoare_inv_framed []); [apply framed_runtime_gate|]|]. intros go; cbv beta.
  destruct (negb go); [done|]. destruct (_ <? _); [done|].
  eapply hoare_bind; [by apply (hoare_inv_framed [30; 31]); [apply framed_advancePrecompute|]|]. intros ?; cbv beta.
  eapply hoare_bind; [apply (hoare_inv_framed [26; 27; 34]); [frame_tac; apply frame_gcStaleEncKeys|done]|]. intros ?; cbv beta.
  eapply hoare_bind; [apply hoare_gets|]. intros cur'; cbv beta. intros w o w' [[Hi Hw] ->] R. rewrite Hw in R.
  revert R. apply (hoare_bind (fun w => inv w /\ GetCurrentEpoch w = cur) _ _ _ _ (settle_hoare _ cur Hu)); [|done].
  intros last. apply hoare_assume. intros Hl. destruct last as [r|].
  2: { simpl. apply (hoare_then_framed []); [apply framed_ActiveMembers|done|]. intros ms.
       destruct (zlen ms =? 0); [apply hoare_stop|]. apply (round_driver_hoare cur None); [unfold is_u64 in Hu; lia|done..]. }
  destruct (String.eqb_spec (r_Status r) DkgStatusOpen) as [|Ho]; [apply hoare_stop|].
  apply (hoare_then_framed []); [apply framed_ActiveMembers|done|]. intros ms.
  destruct (zlen ms =? 0); [apply hoare_stop|].
  apply (round_driver_hoare cur (Some r)); [unfold is_u64 in Hu; lia|done..|]. by intros ? [= <-].
Qed.

(** The end-blocker of the key generation keeps the invariants: a round that
    panics is discarded, every other one goes through the rules above. *)
Lemma EndBlockDKG_inv k ctx cp bonded w :
  inv w -> GetCurrentEpoch w + 1 < 2 ^ 64 -> inv (EndBlockDKG k ctx cp bonded w).
Proof.
  intros Hi Hc. unfold EndBlockDKG, cached. destruct (endblock_body k ctx cp bonded w) as [o w'] eqn:R.
  apply (endblock_hoare k ctx cp bonded (GetCurrentEpoch w) (readU64_range _ _) Hc) in R; [|done].
  destruct o; [exact R|exact R|]. by eapply (inv_frame []); [apply frame_emit|done|].
Qed.

End machine.

End epochs.
End EncEpoch.
