(* ===== verification/EncBlock.v ===== *)
(** * x/encmempool: one block keeps the invariants

    [good] joins the counts of the ciphertexts in flight, the epochs they need and
    the bonds they carry.  The file shows that the begin-block handler (drain,
    shedding, decryption with execution, deferral), the end-block handler, the
    ingestion of vote extensions and a submission keep it.  The EVM is an
    interface: [EvmLaws] says its calls do not write the module's store nor debit
    the module's account. *)
From S2P Require Import Prelude Codec Bank EncTypes StakeWeight Threshold Dkg EncKeeper EncRegistry EncDkg EncAbci EncIngest EncMsg EncFrame EncInvariant EncBond EncEpoch.
From stdpp Require Import gmap strings list sorting.
From Stdlib Require Import ZArith Lia.

#[local] Set Default Goal Selector "!".
Open Scope Z_scope.

Module EncBlock.
Import EncTypes EncKeeper EncRegistry EncDkg EncAbci EncIngest EncMsg EncFrame EncInvariant EncBond EncEpoch.

Section block.
Context `{BankLaws B} `{EncJSON} `{!EncJSONLaws} `{AccAddr}.
Implicit Types (w : World B) (e : EncTx).

Record good w : Prop := {
  good_enc : enc_inv w;
  good_epoch : epoch_inv w;
  good_bonds : solvent w
}.

Lemma good_frame ps w w' : frame ps w w' -> apart ps = true -> good w -> good w'.
Proof.
  intros F Hp [Hi Hep Hs]. destruct (inv_frame ps w w' F Hp (conj Hi Hep)) as [Hi' Hep'].
  split; [done..|]. unfold apart in Hp; simpl in Hp; bool_prop. by eapply solvent_frame.
Qed.

Lemma epoch_inv_store w w' : kvs StoreKey w' = kvs StoreKey w -> epoch_inv w -> epoch_inv w'.
Proof.
  intros E Hep. assert (Hj : forall T (HT : JSON T) k, get_json k w' = (get_json k w : option T)).
  { intros T HT k. unfold get_json. by rewrite (store_sget _ _ _ E). }
  split; unfold usable, GetDkgRound, GetActiveKey, GetCurrentEpoch, GetActiveEpoch, in_flight, GetEncTx.
  - intros ep r. rewrite Hj, (store_readU64 _ _ _ E). apply (ep_round w Hep).
  - rewrite (store_readU64 _ _ _ E), !Hj. apply (ep_serving w Hep).
  - intros e. rewrite !Hj. apply (ep_in_flight w Hep).
Qed.

Lemma good_outside w w' : outside w w' -> good w -> good w'.
Proof.
  intros Ho [Hi Hep Hs]. split; [by eapply enc_inv_store; [apply Ho|]|by eapply epoch_inv_store; [apply Ho|]|].
  by eapply solvent_outside.
Qed.

Lemma epoch_inv_drop w e : enc_inv w -> epoch_inv w -> in_flight w e -> epoch_inv (drop_enc_tx e w).
Proof.
  intros Hi Hep He. rewrite drop_enc_tx_split. destruct (enc_inv_forget w e Hi He) as (Hi1 & _ & Hf1).
  set (w1 := release_counts e (forget e w)) in *.
  assert (F : frame [6; 7; 22; 24; 25; 33] w w1).
  { eapply frame_trans; [|eapply frame_weaken; [apply frame_release_counts|done]].
    eapply frame_weaken; [apply frame_forget|done]. }
  assert (Hp1 : epoch_inv w1).
  { apply (epoch_inv_step w); [done..| | | |].
    - intros e'. rewrite Hf1. by intros [? _].
    - intros ep r. unfold GetDkgRound, GetCurrentEpoch.
      rewrite (frame_get_json _ _ _ _ F), (frame_readU64 _ _ _ _ F) by done. apply (ep_round w Hep).
    - unfold GetActiveEpoch. rewrite (frame_readU64 _ _ _ _ F), (usable_frame _ _ _ _ F) by done. apply (ep_serving w Hep).
    - intros e' _ _. by rewrite (usable_frame _ _ _ _ F). }
  destruct (0 <? e_Epoch e); [|done]. apply prune_epoch_inv; [done..|apply (in_flight_ok w e Hi He)].
Qed.

(** ** Lists of ciphertexts to release

    The handlers of one block start from a state [w0] at height [cur0]: ciphertexts
    only leave, and none before its height. *)
Context (cur0 : Z) (w0 : World B).

Definition later w : Prop :=
  forall e, (in_flight w e -> in_flight w0 e) /\ (cur0 < e_DecryptHeight e -> in_flight w0 e -> in_flight w e).

Record kept w : Prop := { kept_good : good w; kept_later : later w }.

Lemma kept_frame ps w w' : frame ps w w' -> apart ps = true -> kept w -> kept w'.
Proof.
  intros F Hp [Hg Hl]. split; [by eapply good_frame|]. intros e. unfold apart in Hp; simpl in Hp; bool_prop.
  rewrite (in_flight_frame _ _ _ _ F) by done. apply Hl.
Qed.
Lemma kept_outside w w' : outside w w' -> kept w -> kept w'.
Proof.
  intros Ho [Hg Hl]. split; [by eapply good_outside|]. intros e. rewrite (store_in_flight w w' e (proj1 Ho)). apply Hl.
Qed.

Definition matured w e : Prop := in_flight w e /\ e_DecryptHeight e <= cur0.
Definition queue (l : list EncTx) w : Prop := kept w /\ NoDup l /\ Forall (matured w) l.

Lemma queue_frame ps l w w' : frame ps w w' -> apart ps = true -> queue l w -> queue l w'.
Proof.
  intros F Hp (Hg & Hn & Hl). split_and!; [by eapply kept_frame|done|]. eapply Forall_impl; [exact Hl|].
  intros e [He Hc]. split; [|done]. unfold apart in Hp; simpl in Hp; bool_prop. by apply (in_flight_frame _ _ _ _ F).
Qed.
Lemma queue_outside l w w' : outside w w' -> queue l w -> queue l w'.
Proof.
  intros Ho (Hg & Hn & Hl). split_and!; [by eapply kept_outside|done|]. eapply Forall_impl; [exact Hl|].
  intros e [He Hc]. split; [|done]. by apply (store_in_flight _ _ _ (proj1 Ho)).
Qed.
Lemma queue_sub l l' w : l' ⊆+ l -> queue l w -> queue l' w.
Proof.
  intros [l2 Hs]%submseteq_Permutation (Hg & Hn & Hl). rewrite Hs in Hn, Hl.
  apply NoDup_app in Hn as (Hn & _). apply Forall_app in Hl as [Hl _]. done.
Qed.

Lemma release_queue k e l : triple kept (queue (e :: l)) (releaseEncTx k e) (fun _ => queue l).
Proof.
  intros w o w' ([[Hi Hep Hs] Hlat] & Hn & Hl) R. apply NoDup_cons in Hn as [Hnin Hn]. apply Forall_cons in Hl as [[He Hm] Hl].
  apply release_preserves in R; [|done..]. destruct o as [[]| |]; [|done..].
  destruct R as (Hi' & Hs' & Hk & Hf). split_and!; [|done|].
  - split; [split; [done| |done]; eapply epoch_inv_store; [exact Hk|by apply epoch_inv_drop]|].
    intros e'. rewrite Hf. destruct (Hlat e') as [H1' H2']. split; [naive_solver|]. intros Hc Hin. split; [auto|]. intros ->. lia.
  - apply Forall_forall. intros e' He'. pose proof (proj1 (Forall_forall _ _) Hl e' He') as [Hin Hc]. split; [|done].
    apply Hf. split; [done|]. by intros ->.
Qed.

Lemma emit_queue ev l : triple kept (queue l) (modify (emit ev)) (fun _ => queue l).
Proof. apply hoare_modify. intros w. by apply (queue_frame []); [apply frame_emit|]. Qed.

(** A loop that announces each ciphertext and releases it. *)
Lemma release_each k (ev : EncTx -> Event) rest l :
  triple kept (queue (l ++ rest)) (for_each (fun e => modify (emit (ev e));; releaseEncTx k e) l) (fun _ => queue rest).
Proof.
  apply (hoare_for_each _ (fun l => queue (l ++ rest))). intros e l'.
  eapply hoare_bind; [apply emit_queue|]. intros ?. apply release_queue.
Qed.

(** ** The scan *)
Lemma collect_matured_omap limit out entries :
  exists n, (collect_matured limit out entries).1 = out ++ omap (fun kv => json_Unmarshal kv.2) (take n entries).
Proof.
  revert out. induction entries as [|[k v] entries IH]; intros out; simpl.
  { exists 0%nat. by rewrite app_nil_r. }
  destruct (limit <=? zlen out); [exists 0%nat; by rewrite app_nil_r|].
  destruct (json_Unmarshal v) as [e|] eqn:E.
  - destruct (IH (out ++ [e])) as [n Hn]. exists (S n). rewrite Hn. simpl. rewrite E. by rewrite <- app_assoc.
  - destruct (IH out) as [n Hn]. exists (S n). rewrite Hn. simpl. by rewrite E.
Qed.

(** The keys below the bound of the scan belong to matured ciphertexts. *)
Lemma addSat_succ h : is_u64 h -> is_u64 (addSat h 1) /\ addSat h 1 <= h + 1.
Proof.
  unfold addSat, is_u64. intros Hh. cbv zeta. destruct (Z.lt_ge_cases (h + 1) (2 ^ 64)).
  - rewrite u64_id by (unfold is_u64; lia). rewrite (proj2 (Z.ltb_ge _ _)) by lia. lia.
  - assert (h = 2 ^ 64 - 1) as -> by lia. vm_compute. split; [by split|by intros].
Qed.

Lemma range_height a b rest :
  is_u64 a -> is_u64 b -> in_range EncTxPrefix (Some (EncTxPrefix +:+ be64 b)) (EncTxPrefix +:+ (be64 a +:+ rest)) = true -> a < b.
Proof.
  intros Ha Hb. unfold in_range. rewrite andb_true_iff, negb_true_iff, !str_leb_compare. intros [_ Hc].
  change (EncTxPrefix +:+ be64 b) with (String (byte_of 6) (be64 b)) in Hc.
  change (EncTxPrefix +:+ (be64 a +:+ rest)) with (String (byte_of 6) (be64 a +:+ rest)) in Hc.
  rewrite compare_cons, Z.compare_refl in Hc. rewrite <- (str_app_nil_r (be64 b)) in Hc.
  unfold be64 in Hc. rewrite be_bytes_compare in Hc by done.
  destruct (Z.compare_spec b a) as [->|?|?]; [by destruct rest|done|lia].
Qed.

Lemma matured_entry w k v e :
  enc_inv w -> is_u64 cur0 -> (k, v) ∈ matured_entries cur0 w -> json_Unmarshal v = Some e ->
  matured w e /\ k = encTxKey (e_DecryptHeight e) (e_Seq e).
Proof.
  intros Hi Hu Hin He. unfold matured_entries in Hin. apply elem_of_kv_range in Hin as [Hg Hr].
  assert (Hk : exists t, k = EncTxPrefix +:+ t).
  { apply in_range_byte in Hr as [t ->]. by exists t. }
  destruct Hk as [t ->]. destruct (inv_wf w Hi t v Hg) as (e' & He' & Hkey & Hok).
  assert (e' = e) as -> by congruence. split; [split|done].
  - unfold in_flight, GetEncTx, get_json. rewrite <- Hkey. unfold sget. by rewrite Hg.
  - rewrite Hkey in Hr. unfold encTxKey in Hr. destruct (addSat_succ cur0 Hu) as [Hs Hle].
    apply range_height in Hr; [lia|apply Hok|done].
Qed.

Lemma collect_queue limit w : kept w -> is_u64 cur0 -> queue (CollectMaturedUpTo cur0 limit w).1 w.
Proof.
  intros Hg Hu. destruct (collect_matured_omap limit [] (matured_entries cur0 w)) as [n Hn].
  unfold CollectMaturedUpTo. rewrite Hn. clear Hn. simpl. set (es := take n (matured_entries cur0 w)).
  assert (Hes : forall k v e, (k, v) ∈ es -> json_Unmarshal v = Some e ->
    matured w e /\ k = encTxKey (e_DecryptHeight e) (e_Seq e)).
  { intros k v e Hin. apply matured_entry; [apply Hg|done|].
    eapply elem_of_take in Hin as (i & Hin & _). by eapply list_elem_of_lookup_2. }
  assert (Hnd : NoDup es.*1).
  { unfold es. rewrite fmap_take. eapply sublist_NoDup; [|apply sublist_take]. apply NoDup_kv_range. }
  split_and!; [done| |].
  - apply entries_NoDup; [done|]. intros k v e Hin He. by destruct (Hes k v e Hin He).
  - apply Forall_forall. intros e ([k v] & Hin & He)%list_elem_of_omap. by destruct (Hes k v e).
Qed.

Lemma shed_queue k p l :
  triple kept (queue l) (shed_excess k p l) (fun l' => queue l').
Proof.
  unfold shed_excess. eapply hoare_bind; [apply hoare_gets|]. intros global; cbv beta.
  apply (hoare_pre _ (queue l)); [by intros w [? _]|].
  set (ceiling := if _ && _ then _ else _). clearbody ceiling. destruct (negb _); [apply (hoare_mret (fun l' => queue l'))|].
  set (excess := if zlen l <? _ then _ else _). clearbody excess.
  destruct (excess <? 0) eqn:Ed; [apply hoare_panic|]. set (n := Z.to_nat excess).
  eapply (hoare_bind _ _ (fun _ => queue (take (length l - n) l))).
  - eapply hoare_pre; [|apply release_each]. intros w. apply queue_sub.
    rewrite firstn_rev, <- (Permutation_rev (drop _ _)), (Permutation_app_comm (drop _ _)). by rewrite take_drop.
  - intros ?. apply (hoare_mret (fun l' => queue l')).
Qed.

(** ** The EVM

    A transaction runs on the accounts and balances of its sender: no call writes
    the module's store, and none debits the module's account, whose address no
    signature recovers to. *)
Class EvmLaws `{EvmExec (World B)} : Prop := {
  sender_not_module w tx from : TransactionSender w tx = Some from -> from <> NewModuleAddress ModuleName;
  netcap_outside from to v w o w' : NetCap_CheckAndRecord from to v w = (o, w') -> outside w w';
  deduct_outside fees from w o w' :
    from <> NewModuleAddress ModuleName -> DeductTxCosts fees from w = (o, w') -> outside w w';
  apply_outside tx w o w' : ApplyTransaction tx w = (o, w') -> outside w w';
  nonce_outside from n w o w' : IncrementNonce from n w = (o, w') -> outside w w'
}.

Lemma outside_refl w : outside w w.
Proof. by split_and!. Qed.
Lemma outside_trans w1 w2 w3 : outside w1 w2 -> outside w2 w3 -> outside w1 w3.
Proof.
  intros (K1 & V1 & D1) (K2 & V2 & D2). split_and!; [congruence|auto|].
  intros d. specialize (D1 d); specialize (D2 d). lia.
Qed.
Lemma outside_frame w w' : frame [] w w' -> outside w w'.
Proof.
  intros F. split_and!; [|by rewrite (frame_bank _ _ _ F)|intros d; unfold module_balance; by rewrite (frame_bank _ _ _ F)].
  apply map_eq. intros k. apply (frame_sget [] k w w' F). by destruct k.
Qed.

Definition stays {A : Type} (m : M (World B) A) : Prop := forall w o w', m w = (o, w') -> outside w w'.

Lemma stays_or_return {A : Type} (m : M (World B) A) o f :
  stays m -> (forall a, stays (f a)) -> stays (or_return m o f).
Proof.
  intros Hm Hf w o' w'. unfold or_return. destruct (m w) as [[a|e|p] w1] eqn:R; intros R'; simplify_eq; eauto using outside_trans.
  - eapply outside_trans; [by eapply Hm|]. by eapply Hf.
Qed.

Section exec.
Context `{Curve} `{AesGcm} `{MathInt} `{EvmExec (World B)} `{!EvmLaws}.

Lemma executeDecryptedTx_stays k plaintext g r : stays (executeDecryptedTx k plaintext g r).
Proof.
  intros w o w'. unfold executeDecryptedTx. destruct (UnmarshalBinary plaintext) as [tx|]; [|intros [= _ <-]; apply outside_refl].
  cbv zeta. do 4 (destruct (_ : bool); [intros [= _ <-]; apply outside_refl|]).
  destruct (TransactionSender w tx) as [from|] eqn:Hfrom; [|intros [= _ <-]; apply outside_refl].
  apply sender_not_module in Hfrom. do 2 (destruct (_ : bool); [intros [= _ <-]; apply outside_refl|]).
  destruct (VerifyFee w tx) as [fees|]; [|intros [= _ <-]; apply outside_refl].
  do 2 (destruct (_ : bool); [intros [= _ <-]; apply outside_refl|]). revert w o w'.
  apply stays_or_return; [|intros []; apply stays_or_return; [|intros []; apply stays_or_return; [|intros res]]].
  - intros w o w'. destruct (tx_To tx); [destruct (_ && _)|]; try (intros [= _ <-]; apply outside_refl). apply netcap_outside.
  - intros w o w'. by apply deduct_outside.
  - intros w o w'. apply apply_outside.
  - intros w o w'. unfold mbind, M_bind, ignore_err. destruct (IncrementNonce _ _ w) as [o1 w1] eqn:R.
    apply nonce_outside in R. destruct o1; by intros [= _ <-].
Qed.

(** ** Decryption attempts *)
Definition cand_txs (st : loop_st) : list EncTx := (l_cands st).*1.*1.

(** What an attempt at [e] leaves to do: release [e], defer it as a candidate, or
    leave it for a later block. *)
Definition attempted e (rest : list EncTx) (res : loop_st * bool * bool) : World B -> Prop :=
  queue ((if res.1.2 then [e] else []) ++ cand_txs res.1.1 ++ rest).

Lemma attempt_kept e rest st gas n m d w :
  queue (e :: cand_txs st ++ rest) w -> attempted e rest (mkLoop n m gas (l_cands st), true, d) w.
Proof. done. Qed.

Lemma attempt_body_queue k cur p on ceiling st e rest w o w' :
  queue (e :: cand_txs st ++ rest) w -> attempt_body k cur p on ceiling st e w = (o, w') ->
  match o with
  | Ret res => attempted e rest res w'
  | Err _ => kept w'
  | Panic _ => queue (e :: cand_txs st ++ rest) w'
  end.
Proof.
  intros Hq. unfold attempt_body. rewrite (bind_Ret (gets _) _ _ _ _ (gets_run _ _)).
  unfold mbind at 1, M_bind at 1. destruct (recoverSharedSecret p e _ w) as [[need [shared|err]]|er|msg].
  3: { intros [= <- <-]. apply Hq. }
  3: { by intros [= <- <-]. }
  - destruct (Threshold.Decrypt _ _) as [plaintext|reason|msg].
    2: { unfold decrypt_failed. rewrite (bind_Ret _ _ _ _ _ (modify_run _ _)). intros [= <- <-].
         eapply (queue_frame []); [apply frame_emit|done|exact Hq]. }
    2: { by intros [= <- <-]. }
    rewrite (bind_Ret _ _ _ _ _ (modify_run _ _)). set (w1 := resetDecryptStrandStreak _ w).
    assert (Hq1 : queue (e :: cand_txs st ++ rest) w1) by (eapply queue_frame; [apply frame_resetStreak|done|exact Hq]).
    clearbody w1. destruct (negb on).
    { rewrite (bind_Ret _ _ _ _ _ (modify_run _ _)). intros [= <- <-]. eapply (queue_frame []); [apply frame_emit|done|exact Hq1]. }
    destruct (executeDecryptedTx _ _ _ _ w1) as [[res|er|msg] w2] eqn:R; [|by intros [= <- <-]..].
    destruct (String.eqb (tag res) _); [intros [= <- <-]|].
    { unfold attempted. simpl. eapply queue_sub; [|exact Hq1]. apply submseteq_cons; reflexivity. }
    intros [= <- <-]. eapply (queue_frame []); [apply frame_emit|done|]. destruct (executed res); [|exact Hq1].
    eapply queue_outside; [|exact Hq1]. by eapply executeDecryptedTx_stays.
  - destruct (String.eqb err _ || String.eqb err _).
    2: { unfold decrypt_failed. rewrite (bind_Ret _ _ _ _ _ (modify_run _ _)). intros [= <- <-].
         eapply (queue_frame []); [apply frame_emit|done|exact Hq]. }
    destruct (_ <=? cur).
    { do 2 rewrite (bind_Ret _ _ _ _ _ (modify_run _ _)). intros [= <- <-].
      eapply queue_frame; [apply frame_bumpStreak|done|]. eapply (queue_frame []); [apply frame_emit|done|exact Hq]. }
    intros [= <- <-]. unfold attempted, cand_txs. simpl. eapply queue_sub; [|exact Hq].
    rewrite !fmap_app. simpl. unfold cand_txs. by rewrite <- app_assoc, Permutation_middle.
Qed.

Lemma attempt_queue k cur p on ceiling st e rest :
  triple kept (queue (e :: cand_txs st ++ rest)) (attempt k cur p on ceiling st e) (attempted e rest).
Proof.
  intros w o w' Hq. unfold attempt. destruct (attempt_body _ _ _ _ _ _ _ w) as [o1 w1] eqn:R.
  apply (attempt_body_queue _ _ _ _ _ _ _ rest) in R; [|done]. destruct o1 as [res|er|msg]; [by intros [= <- <-]..|].
  unfold decrypt_failed. rewrite (bind_Ret _ _ _ _ _ (modify_run _ _)). intros [= <- <-].
  eapply (queue_frame []); [apply frame_emit|done|exact R].
Qed.

Lemma attempt_all_queue k cur p on ceiling l st :
  triple kept (queue (cand_txs st ++ l.*1)) (attempt_all k cur p on ceiling st l) (fun st' => queue (cand_txs st')).
Proof.
  revert st. induction l as [|[e [|]] l IH]; intros st; simpl.
  - rewrite app_nil_r. apply (hoare_mret (fun st' => queue (cand_txs st'))).
  - destruct (on && _).
    { eapply hoare_pre; [|apply (hoare_mret (fun st' => queue (cand_txs st')))]. intros w. apply queue_sub.
      apply submseteq_inserts_r; reflexivity. }
    set (st1 := mkLoop _ _ _ _). eapply hoare_bind.
    { eapply hoare_pre; [|apply (attempt_queue _ _ _ _ _ _ _ l.*1)]. intros w. apply queue_sub.
      change (cand_txs st1) with (cand_txs st). by rewrite Permutation_middle. }
    intros [[st2 release] deferExec]. unfold attempted; simpl.
    eapply (hoare_bind _ _ (fun _ => queue (cand_txs st2 ++ l.*1))).
    { destruct release; [apply release_queue|apply (hoare_mret (fun _ => queue (cand_txs st2 ++ l.*1)))]. }
    intros ?. destruct deferExec; [|apply IH].
    eapply hoare_pre; [|apply (hoare_mret (fun st' => queue (cand_txs st')))]. intros w. apply queue_sub.
    apply submseteq_inserts_r; reflexivity.
  - eapply hoare_pre; [|apply IH]. intros w. apply queue_sub. apply submseteq_app; [reflexivity|]. apply submseteq_cons; reflexivity.
Qed.

Lemma settle_candidates_queue k cur cands :
  triple kept (queue cands.*1.*1) (settle_candidates k cur cands) (fun _ => kept).
Proof.
  unfold settle_candidates. set (granted := selectFairDecrypts _ _). clearbody granted.
  apply (hoare_pre _ (queue (zip cands granted).*1.*1.*1)).
  { intros w. apply queue_sub. do 2 apply fmap_submseteq. apply sublist_submseteq, sublist_zip_fst. }
  eapply hoare_post; [|apply (hoare_for_each _ (fun l : list (EncTx * Z * Z * bool) => queue l.*1.*1.*1))].
  { intros ? w Hq. apply Hq. }
  intros [[[e have] need] []] l'; simpl.
  - eapply hoare_pre; [|apply emit_queue]. intros w. apply queue_sub. apply submseteq_cons; reflexivity.
  - eapply hoare_bind; [apply emit_queue|]. intros ?. apply release_queue.
Qed.

Lemma stop_good l : triple kept (queue l) (mret tt) (fun _ => kept).
Proof. by intros w o w' (Hg & _) [= <- <-]. Qed.
Lemma emit_good l ev : triple kept (queue l) (modify (emit ev)) (fun _ => kept).
Proof. eapply hoare_post; [|apply emit_queue]. by intros ? w (Hg & _). Qed.

Lemma decryptMatured_good k cp p : is_u64 cur0 -> triple kept kept (decryptMatured k cp cur0 p) (fun _ => kept).
Proof.
  intros Hu. unfold decryptMatured. eapply hoare_bind; [apply hoare_gets|]. intros [l truncated]; cbv beta.
  apply (hoare_pre _ (queue l)).
  { intros w [Hg E]. apply (f_equal fst) in E. simpl in E. rewrite E. by apply collect_queue. }
  eapply hoare_bind; [apply shed_queue|]. intros l'; cbv beta.
  eapply hoare_bind.
  { eapply hoare_pre; [|apply attempt_all_queue]. intros w. apply queue_sub. simpl.
    apply sublist_submseteq, sublist_zip_fst. }
  intros st; cbv beta. eapply (hoare_bind _ _ (fun _ => queue [])).
  { apply (hoare_post _ _ (fun _ => kept)); [intros ? w Hg; split_and!; [done|constructor|constructor]|].
    destruct (0 <? _); [apply settle_candidates_queue|apply stop_good]. }
  intros ?. destruct (_ || _); [apply emit_good|apply stop_good].
Qed.

Lemma drain_good k : is_u64 cur0 -> triple kept kept (drainDisabledEncTx k cur0) (fun _ => kept).
Proof.
  intros Hu. unfold drainDisabledEncTx. eapply hoare_bind; [apply hoare_gets|]. intros [l truncated]; cbv beta.
  apply (hoare_pre _ (queue (l ++ []))).
  { intros w [Hg E]. apply (f_equal fst) in E. simpl in E. rewrite E, app_nil_r. by apply collect_queue. }
  eapply hoare_bind; [apply release_each|]. intros ?. destruct truncated; [apply emit_good|apply stop_good].
Qed.

Lemma beginblock_good k ctx cp : cur0 = u64 (BlockHeight ctx) -> triple kept kept (beginblock_body k ctx cp) (fun _ => kept).
Proof.
  intros Hcur. assert (Hu : is_u64 cur0) by (rewrite Hcur; apply u64_range).
  unfold beginblock_body. eapply hoare_bind; [apply hoare_gets|]. intros p; cbv beta. rewrite <- Hcur.
  apply (hoare_pre _ kept); [by intros w [? _]|].
  do 3 (eapply (hoare_bind _ _ (fun _ => kept)); [apply hoare_modify; intros w; eapply kept_frame;
    [first [apply frame_gcRate|apply frame_execute_reveals|apply frame_gc_commits]|done]|intros ?; cbv beta]).
  destruct (_ && _); [by apply decryptMatured_good|]. eapply hoare_bind; [apply hoare_gets|]. intros n; cbv beta.
  apply (hoare_pre _ kept); [by intros w [? _]|].
  destruct (0 <? n); [by apply drain_good|apply (hoare_mret (fun _ => kept))].
Qed.

End exec.
End block.

Section begin_block.
Context `{BankLaws B} `{EncJSON} `{!EncJSONLaws} `{AccAddr} `{Curve} `{AesGcm} `{MathInt} `{EvmExec (World B)} `{!EvmLaws}.
Implicit Types (w : World B) (e : EncTx).

(** The begin-block handler keeps the invariants; ciphertexts only leave the
    mempool, and none before its decrypt height. *)
Lemma BeginBlock_kept k ctx cp w : good w -> kept (u64 (BlockHeight ctx)) w (BeginBlock k ctx cp w).
Proof.
  intros Hg. assert (Hk : kept (u64 (BlockHeight ctx)) w w) by (split; [done|]; intros e; split; auto).
  unfold BeginBlock, cached. destruct (beginblock_body k ctx cp w) as [o w'] eqn:R.
  apply (beginblock_good _ w k ctx cp eq_refl) in R; [|done]. destruct o; [exact R|exact R|].
  by eapply (kept_frame _ _ []); [apply frame_emit|done|].
Qed.

Lemma BeginBlock_good k ctx cp w : good w -> good (BeginBlock k ctx cp w).
Proof. intros Hg. apply (BeginBlock_kept k ctx cp w Hg). Qed.

End begin_block.
End EncBlock.
