(* ===== verification/EncCommit.v ===== *)
(** * x/encmempool: commits are counted and bounded

    The counters [CommitTx] checks its ceilings against are kept by [SetCommit] and
    [DeleteCommit].  [commit_inv] says they are the numbers of stored commits, in
    total and per sender, and that these stay below the ceilings; committing,
    revealing, executing reveals and the garbage collection preserve it. *)
From S2P Require Import Prelude Codec Bank EncTypes StakeWeight Threshold Dkg EncKeeper EncRegistry EncDkg EncAbci EncMsg EncFrame EncInvariant.
From stdpp Require Import gmap strings list sorting.
From Stdlib Require Import ZArith Lia.

#[local] Set Default Goal Selector "!".
Open Scope Z_scope.

Module EncCommit.
Import EncTypes EncKeeper EncRegistry EncDkg EncAbci EncMsg EncFrame EncInvariant.

Lemma CommitPrefix_end : is_Some (prefixEnd CommitPrefix).
Proof. by eexists. Qed.
#[local] Hint Resolve CommitPrefix_end : core.

Lemma commitKey_sender h s q h' s' q' : commitKey h s q = commitKey h' s' q' -> s = s'.
Proof.
  intros E%byte_prefix_inj. apply str_app_inv in E as [_ E]; [|done].
  pose proof (f_equal String.length E) as Hl. rewrite !str_app_length in Hl. unfold be64 in Hl. rewrite !be_bytes_length in Hl.
  apply str_app_inv in E as [-> _]; [done|lia].
Qed.

Section commits.
Context {B : Type} `{EncJSON}.
Implicit Types (w : World B) (c : Commit).

Definition from_sender (s : string) c : Z := if String.eqb (cm_Sender c) s then 1 else 0.
Definition commit_total w : Z := sumZ (fun _ => 1) (IterateCommits w).
Definition commit_total_of (s : string) w : Z := sumZ (from_sender s) (IterateCommits w).

Record commit_inv w : Prop := {
  ci_wf t v : sget (CommitPrefix +:+ t) w = Some v ->
    exists c, json_Unmarshal v = Some c /\ CommitPrefix +:+ t = commitKey (cm_Height c) (cm_Sender c) (cm_Seq c);
  ci_global : GetGlobalCommitCount w = commit_total w;
  ci_sender s : GetSubmitterCommitCount s w = commit_total_of s w;
  ci_bound : commit_total w <= maxInFlightCommits;
  ci_bound_sender s : commit_total_of s w <= maxCommitsPerSender
}.

Definition commit_prefixes : list Z := [3; 35; 36].

Lemma commit_inv_frame ps w w' :
  frame ps w w' -> forallb (fun z => negb (Zmem z ps)) commit_prefixes = true -> commit_inv w -> commit_inv w'.
Proof.
  intros F Hp Hi. simpl in Hp. bool_prop.
  assert (Hl : IterateCommits w' = IterateCommits w).
  { unfold IterateCommits. apply (iter_json_frame ps 3 ""); [done|lia|done]. }
  split; unfold commit_total, commit_total_of, GetGlobalCommitCount, GetSubmitterCommitCount; rewrite ?Hl.
  - intros t v. rewrite (frame_sget _ _ _ _ F) by done. apply (ci_wf w Hi).
  - rewrite (frame_readU64 _ _ _ _ F) by done. apply (ci_global w Hi).
  - intros s. rewrite (frame_readU64 _ _ _ _ F) by done. rewrite ?Hl. apply (ci_sender w Hi).
  - apply (ci_bound w Hi).
  - intros s. rewrite ?Hl. apply (ci_bound_sender w Hi).
Qed.

Lemma commit_inv_store w w' : kvs StoreKey w' = kvs StoreKey w -> commit_inv w -> commit_inv w'.
Proof.
  intros E Hi. assert (Hg : forall k, sget k w' = sget k w) by (intros k; unfold sget, kv_get; by rewrite E).
  assert (Hl : IterateCommits w' = IterateCommits w).
  { unfold IterateCommits, iter_json, siter, kv_iter, kv_range. by rewrite E. }
  destruct Hi as [W G S0 Bd Bs]. unfold commit_total, commit_total_of, GetGlobalCommitCount, GetSubmitterCommitCount, readU64 in *.
  split; unfold commit_total, commit_total_of, GetGlobalCommitCount, GetSubmitterCommitCount, readU64; intros; rewrite ?Hl, ?Hg; auto.
  apply W. by rewrite <- Hg.
Qed.

Lemma readU64_dec_to_zero k k' w :
  0 < readU64 k' w -> readU64 k (dec_to_zero k' w) = readU64 k w - (if decide (k' = k) then 1 else 0).
Proof.
  intros Hn. pose proof (readU64_range k' w) as Hr. unfold dec_to_zero, is_u64 in *.
  destruct (1 <? readU64 k' w) eqn:E; bool_prop.
  - rewrite readU64_sset by (unfold is_u64; lia). case_decide; subst; lia.
  - rewrite readU64_sdel. case_decide; subst; lia.
Qed.

(** The commits seen through one key. *)
Lemma commits_split h s q w f :
  sumZ f (IterateCommits w) =
  match GetCommit h s q w with Some c => f c | None => 0 end + sumZ f (IterateCommits (sdel (commitKey h s q) w)).
Proof.
  unfold IterateCommits, GetCommit, commitKey.
  rewrite (sumZ_perm _ _ _ (iter_json_split CommitPrefix (be64 h +:+ (s +:+ be64 q)) w CommitPrefix_end)), sumZ_app. destruct (get_json _ w); simpl; lia.
Qed.

Lemma stored_commit h s q w :
  commit_inv w ->
  match sget (commitKey h s q) w with
  | Some _ => exists c, GetCommit h s q w = Some c /\ cm_Sender c = s
  | None => GetCommit h s q w = None
  end.
Proof.
  intros Hi. unfold GetCommit, get_json. destruct (sget (commitKey h s q) w) as [v|] eqn:E; [|done].
  destruct (ci_wf w Hi _ v E) as (c & Hc & Hk). exists c. split; [done|]. symmetry. by eapply commitKey_sender.
Qed.

(** *** Adding and removing *)
Lemma commits_sset c w f `{!EncJSONLaws} :
  let key := commitKey (cm_Height c) (cm_Sender c) (cm_Seq c) in
  sumZ f (IterateCommits (sset key (json_Marshal c) w)) = f c + sumZ f (IterateCommits (sdel key w)).
Proof.
  cbv zeta. unfold IterateCommits, commitKey. rewrite (sumZ_perm _ _ _ (iter_json_sset CommitPrefix _ _ w CommitPrefix_end)).
  rewrite json_roundtrip. simpl. lia.
Qed.

Definition commit_rec (t v : string) : Prop :=
  exists c, json_Unmarshal v = Some c /\ CommitPrefix +:+ t = commitKey (cm_Height c) (cm_Sender c) (cm_Seq c).

(** A step that changes the stored commits by [delta] and the counters with them. *)
Lemma commit_inv_change w w' (delta : (Commit -> Z) -> Z) :
  commit_inv w -> (forall t v, sget (CommitPrefix +:+ t) w' = Some v -> commit_rec t v) ->
  (forall f, sumZ f (IterateCommits w') = sumZ f (IterateCommits w) + delta f) ->
  readU64 GlobalCommitCountKey w' = readU64 GlobalCommitCountKey w + delta (fun _ => 1) ->
  (forall s, readU64 (submitterCommitCountKey s) w' = readU64 (submitterCommitCountKey s) w + delta (from_sender s)) ->
  (delta (fun _ => 1) <= 0 \/ readU64 GlobalCommitCountKey w' <= maxInFlightCommits) ->
  (forall s, delta (from_sender s) <= 0 \/ readU64 (submitterCommitCountKey s) w' <= maxCommitsPerSender) ->
  commit_inv w'.
Proof.
  intros Hi Hwf Hsum Hg Hs Bg Bs.
  pose proof (ci_global w Hi) as Cg. pose proof (ci_bound w Hi) as Cb.
  unfold commit_total, GetGlobalCommitCount in *. pose proof (Hsum (fun _ => 1)).
  assert (Cs : forall s, readU64 (submitterCommitCountKey s) w = sumZ (from_sender s) (IterateCommits w)) by apply (ci_sender w Hi).
  assert (Cbs : forall s, sumZ (from_sender s) (IterateCommits w) <= maxCommitsPerSender) by apply (ci_bound_sender w Hi).
  split; unfold commit_total, commit_total_of, GetGlobalCommitCount, GetSubmitterCommitCount; [exact Hwf|lia| |lia|];
    intros s; specialize (Cs s); specialize (Cbs s); specialize (Hs s); specialize (Hsum (from_sender s)); specialize (Bs s); lia.
Qed.

Lemma commits_sdel_frame key w w' f :
  frame [35; 36] w w' -> sumZ f (IterateCommits (sdel key w')) = sumZ f (IterateCommits (sdel key w)).
Proof.
  intros F. f_equal. unfold IterateCommits, iter_json, siter. f_equal. apply kv_iter_ext; [done|]. intros t.
  change (sget (CommitPrefix +:+ t) (sdel key w') = sget (CommitPrefix +:+ t) (sdel key w)).
  rewrite !sget_sdel, (frame_sget _ _ _ _ F) by done. done.
Qed.

Lemma submitterCommitCountKey_inj a b : submitterCommitCountKey a = submitterCommitCountKey b -> a = b.
Proof. apply byte_prefix_inj. Qed.

Lemma sender_delta s s' : (if decide (submitterCommitCountKey s = submitterCommitCountKey s') then 1 else 0) = (if String.eqb s s' then 1 else 0).
Proof.
  case_decide as E; destruct (String.eqb_spec s s'); try done; [|by subst]. by apply submitterCommitCountKey_inj in E.
Qed.

Lemma from_sender_nonneg s c : 0 <= from_sender s c.
Proof. unfold from_sender. destruct (String.eqb _ _); lia. Qed.

Lemma commit_inv_delete h s q w : commit_inv w -> commit_inv (DeleteCommit h s q w).
Proof.
  intros Hi. unfold DeleteCommit. cbv zeta. pose proof (stored_commit h s q w Hi) as Hst.
  pose proof (commits_split h s q w) as Hsum. set (key := commitKey h s q) in *.
  assert (Hwf : forall w', frame [35; 36] w w' -> forall t v, sget (CommitPrefix +:+ t) (sdel key w') = Some v -> commit_rec t v).
  { intros w' F t v. rewrite sget_sdel. case_decide; [done|]. rewrite (frame_sget _ _ _ _ F) by done. apply (ci_wf w Hi). }
  destruct (sget key w) as [v|] eqn:E.
  - destruct Hst as (c & Hc & Hs). rewrite Hc in Hsum.
    assert (F : frame [35; 36] w (decCommitCount s w))
      by (eapply frame_trans; by apply frame_dec_to_zero).
    assert (Hpos : 0 < readU64 GlobalCommitCountKey w /\ 0 < readU64 (submitterCommitCountKey s) w).
    { pose proof (ci_global w Hi) as Cg. pose proof (ci_sender w Hi s) as Cs.
      unfold GetGlobalCommitCount, GetSubmitterCommitCount, commit_total, commit_total_of in *. rewrite Hsum in Cg, Cs.
      rewrite Cg, Cs. unfold from_sender at 1. rewrite Hs, String.eqb_refl.
      split; apply Z.add_pos_nonneg; try lia; apply sumZ_nonneg, Forall_true; [lia|apply from_sender_nonneg]. }
    assert (Hr : forall k, key <> k -> readU64 k (sdel key (decCommitCount s w)) = readU64 k w -
      (if decide (GlobalCommitCountKey = k) then 1 else 0) - (if decide (submitterCommitCountKey s = k) then 1 else 0)).
    { intros k Hk. rewrite readU64_sdel, decide_False by done. unfold decCommitCount.
      assert (0 < readU64 (submitterCommitCountKey s) (dec_to_zero GlobalCommitCountKey w))
        by (rewrite readU64_dec_to_zero, decide_False by (done || apply Hpos); lia).
      rewrite !readU64_dec_to_zero by (done || apply Hpos). lia. }
    apply (commit_inv_change w _ (fun f => - f c)); [done|by apply Hwf| | | |left; lia|].
    + intros f. rewrite (commits_sdel_frame _ _ _ _ F), (Hsum f). lia.
    + rewrite Hr, decide_True, decide_False by done. lia.
    + intros s'. rewrite Hr, decide_False, sender_delta by done. unfold from_sender. rewrite Hs. lia.
    + intros s'. left. pose proof (from_sender_nonneg s' c). lia.
  - rewrite Hst in Hsum. apply (commit_inv_change w _ (fun _ => 0)); [done|by apply Hwf| | | |left; lia|intros; left; lia].
    + intros f. rewrite Hsum. lia.
    + rewrite readU64_sdel, decide_False by done. lia.
    + intros s'. rewrite readU64_sdel, decide_False by done. lia.
Qed.

Lemma commit_inv_set c w `{!EncJSONLaws} :
  commit_inv w -> GetGlobalCommitCount w < maxInFlightCommits ->
  GetSubmitterCommitCount (cm_Sender c) w < maxCommitsPerSender -> commit_inv (SetCommit c w).
Proof.
  intros Hi Bg Bs. unfold SetCommit. cbv zeta. set (s := cm_Sender c) in *.
  pose proof (stored_commit (cm_Height c) s (cm_Seq c) w Hi) as Hst.
  pose proof (commits_split (cm_Height c) s (cm_Seq c) w) as Hsum. set (key := commitKey (cm_Height c) s (cm_Seq c)) in *.
  assert (Hwf : forall w', frame [35; 36] w w' -> forall t v, sget (CommitPrefix +:+ t) (sset key (json_Marshal c) w') = Some v -> commit_rec t v).
  { intros w' F t v. rewrite sget_sset. case_decide as Ek; [|rewrite (frame_sget _ _ _ _ F) by done; apply (ci_wf w Hi)].
    intros [= <-]. exists c. split; [apply json_roundtrip|done]. }
  unfold GetGlobalCommitCount, GetSubmitterCommitCount in *. unfold maxInFlightCommits, maxCommitsPerSender in *.
  destruct (sget key w) as [v|] eqn:E.
  - destruct Hst as (c' & Hc & Hs). rewrite Hc in Hsum.
    assert (Hd : forall s', from_sender s' c = from_sender s' c') by (intros s'; unfold from_sender; by rewrite Hs).
    apply (commit_inv_change w _ (fun f => f c - f c')); [done|by apply (Hwf w)| | | |left; lia|].
    + intros f. pose proof (commits_sset c w f) as Hx. cbv zeta in Hx. fold s key in Hx. rewrite Hx, (Hsum f). lia.
    + unfold readU64. rewrite sget_sset, decide_False by done. lia.
    + intros s'. unfold readU64. rewrite sget_sset, decide_False, Hd by done. lia.
    + intros s'. left. rewrite Hd. lia.
  - rewrite Hst in Hsum. pose proof (readU64_range GlobalCommitCountKey w) as R1.
    pose proof (readU64_range (submitterCommitCountKey s) w) as R2. unfold is_u64 in *.
    assert (F : frame [35; 36] w (incCommitCount s w)) by (eapply frame_trans; by apply frame_inc).
    assert (Hr : forall k, key <> k -> readU64 k (sset key (json_Marshal c) (incCommitCount s w)) = readU64 k w +
      (if decide (GlobalCommitCountKey = k) then 1 else 0) + (if decide (submitterCommitCountKey s = k) then 1 else 0)).
    { intros k Hk. unfold readU64 at 1. rewrite sget_sset, decide_False by done. fold (readU64 k (incCommitCount s w)).
      unfold incCommitCount. rewrite !readU64_inc by (try rewrite readU64_inc by lia; try rewrite decide_False by done; lia). done. }
    apply (commit_inv_change w _ (fun f => f c)); [done|by apply Hwf| | | | |].
    + intros f. pose proof (commits_sset c (incCommitCount s w) f) as Hx. cbv zeta in Hx. fold s key in Hx.
      rewrite Hx, (commits_sdel_frame _ _ _ _ F), (Hsum f). lia.
    + rewrite Hr, decide_True, decide_False by done. cbv beta. lia.
    + intros s'. rewrite Hr, decide_False, sender_delta by done. unfold from_sender. fold s. lia.
    + right. rewrite Hr, decide_True, decide_False by done. unfold maxInFlightCommits. lia.
    + intros s'. rewrite Hr, decide_False, sender_delta by done. unfold from_sender. fold s.
      unfold maxCommitsPerSender. destruct (String.eqb_spec s s') as [<-|]; [right; lia|left; lia].
Qed.

(** *** The handlers *)
Lemma CommitTx_inv ctx msg w r w' `{!EncJSONLaws} :
  commit_inv w -> CommitTx ctx msg w = (Ret r, w') -> commit_inv w'.
Proof.
  intros Hi. unfold CommitTx. destruct (negb _); [discriminate|].
  rewrite (bind_Ret (gets _) _ _ _ _ (gets_run _ _)).
  destruct (maxInFlightCommits <=? _) eqn:Eg; [discriminate|].
  rewrite (bind_Ret (gets _) _ _ _ _ (gets_run _ _)).
  destruct (maxCommitsPerSender <=? _) eqn:Es; [discriminate|]. bool_prop.
  intros (seq & w1 & R1 & R)%bind_Ret_inv.
  assert (F : frame [2] w w1) by (eapply (framed_next_counter [2]); [|exact R1]; done).
  do 2 rewrite (bind_Ret _ _ _ _ _ (modify_run _ _)) in R. injection R as <- <-.
  apply (commit_inv_frame [] (SetCommit (mkCommit (ct_Sender msg) (ct_CommitHash msg) (u64 (BlockHeight ctx)) seq) w1));
    [apply frame_emit|done|].
  apply commit_inv_set; [done|by eapply commit_inv_frame|..]; cbn [cm_Sender]; unfold GetGlobalCommitCount, GetSubmitterCommitCount;
    rewrite (frame_readU64 _ _ _ _ F) by done; unfold GetGlobalCommitCount, GetSubmitterCommitCount in *; lia.
Qed.

Lemma execute_reveals_inv cur delay order pending w : commit_inv w -> commit_inv (execute_reveals cur delay order pending w).
Proof.
  revert order w. induction pending as [|pr rest IH]; intros order w Hi; simpl; [done|].
  destruct (cur <? _); [by apply IH|]. apply IH, commit_inv_delete.
  eapply (commit_inv_frame [4]); [by apply frame_del|done|]. by eapply (commit_inv_frame []); [apply frame_emit|done|].
Qed.

Lemma gc_commits_inv cur window w : commit_inv w -> commit_inv (gc_commits cur window w).
Proof.
  intros Hi. unfold gc_commits. destruct (negb _); [done|]. generalize (List.filter (fun c => addSat (cm_Height c) window <? cur) (IterateCommits w)).
  intros l. revert w Hi. induction l as [|c l IH]; intros w Hi; simpl; [done|]. apply IH.
  eapply (commit_inv_frame [4]); [by apply frame_del|done|]. by apply commit_inv_delete.
Qed.

End commits.
End EncCommit.
