(* ===== verification/EncUntouched.v ===== *)
(** * x/encmempool: what the begin-block handler leaves untouched

    Releasing a ciphertext moves coins and executing one runs the EVM, so the
    handler is not framed in the sense of EncFrame.  [sframed ps m] keeps the part
    that matters to the other records of the module: [m] writes no key of the
    module's store outside the prefixes [ps]. *)
From S2P Require Import Prelude Codec Bank EncTypes StakeWeight Threshold Dkg EncKeeper EncRegistry EncDkg EncAbci EncIngest EncMsg EncFrame EncInvariant EncBond EncEpoch EncBlock EncCommit.
From stdpp Require Import gmap strings list sorting.
From Stdlib Require Import ZArith Lia.

#[local] Set Default Goal Selector "!".
Open Scope Z_scope.

Module EncUntouched.
Import EncTypes EncKeeper EncRegistry EncDkg EncAbci EncIngest EncMsg EncFrame EncInvariant EncBond EncEpoch EncBlock EncCommit.

Section untouched.
Context {B : Type}.
Implicit Types w : World B.

Definition sframe (ps : list Z) w w' : Prop := forall k, key_in ps k = false -> sget k w' = sget k w.
Definition sframed {A : Type} (ps : list Z) (m : M (World B) A) : Prop := forall w o w', m w = (o, w') -> sframe ps w w'.

Lemma sframe_frame ps w w' : frame ps w w' -> sframe ps w w'.
Proof. intros F k. apply (frame_sget _ _ _ _ F). Qed.
Lemma sframe_trans ps w1 w2 w3 : sframe ps w1 w2 -> sframe ps w2 w3 -> sframe ps w1 w3.
Proof. intros F1 F2 k Hk. by rewrite F2, F1. Qed.
Lemma sframe_store ps w w' : kvs StoreKey w' = kvs StoreKey w -> sframe ps w w'.
Proof. intros E k _. unfold sget, kv_get. by rewrite E. Qed.

(** The module's store of the result, with everything else as before. *)
Lemma sframe_split ps w w' :
  sframe ps w w' -> exists w1, frame ps w w1 /\ kvs StoreKey w' = kvs StoreKey w1.
Proof.
  intros F. exists (mkWorld (w_bank w) (<[StoreKey := kvs StoreKey w']> (w_kv w)) (w_events w)).
  assert (E : kvs StoreKey (mkWorld (w_bank w) (<[StoreKey := kvs StoreKey w']> (w_kv w)) (w_events w)) = kvs StoreKey w').
  { unfold kvs at 1. simpl. by rewrite lookup_insert_eq. }
  split_and!; [split_and!|by rewrite E]; [done| |].
  - intros n Hn. unfold kvs. simpl. by rewrite lookup_insert_ne.
  - intros k Hk. rewrite <- (F k Hk). unfold sget, kv_get. by rewrite E.
Qed.

Lemma sframed_framed {A : Type} ps (m : M (World B) A) : framed ps m -> sframed ps m.
Proof. intros Hm w o w' R. by eapply sframe_frame, Hm. Qed.
Lemma sframed_bind {A C : Type} ps (m : M (World B) A) (f : A -> M (World B) C) :
  sframed ps m -> (forall a, sframed ps (f a)) -> sframed ps (m ≫= f).
Proof.
  intros Hm Hf w o w'. unfold mbind, M_bind. destruct (m w) as [[a|e|p] w1] eqn:R; intros R'; simplify_eq;
    [eapply sframe_trans; [by eapply Hm|by eapply Hf]|by eapply Hm..].
Qed.
Lemma sframed_for_each {A : Type} ps (f : A -> M (World B) unit) l : (forall a, sframed ps (f a)) -> sframed ps (for_each f l).
Proof.
  intros Hf. induction l as [|a l IH]; simpl; [apply sframed_framed, framed_mret|]. by apply sframed_bind.
Qed.
Lemma sframed_on_bank {A : Type} ps (m : M B A) : sframed ps (on_bank m).
Proof. intros w o w' R. apply on_bank_inv in R as (b & _ & ->). by apply sframe_store. Qed.
Lemma sframed_ignore ps (m : M (World B) unit) : sframed ps m -> sframed ps (ignore_err m).
Proof. intros Hm w o w'. unfold ignore_err. destruct (m w) as [[]] eqn:R; intros [= _ <-]; by eapply Hm. Qed.

End untouched.

#[export] Hint Resolve sframed_on_bank sframed_ignore : frame.

(** Structural rules, then the frame lemmas of EncFrame. *)
Ltac sframe_tac :=
  repeat first
    [ solve [eauto with frame]
    | match goal with
      | |- sframed _ (_ ≫= _) => apply sframed_bind
      | |- sframed _ (for_each _ _) => apply sframed_for_each
      | |- sframed _ (if ?b then _ else _) => destruct b
      | |- sframed _ (match ?o with _ => _ end) => destruct o
      | |- forall _, _ => intros
      end
    | solve [apply sframed_framed; frame_tac] ].

Definition release_prefixes : list Z := [6; 7; 16; 17; 18; 19; 22; 24; 25; 28; 30; 31; 32; 33].

Section block.
Context `{BankLaws B} `{EncJSON} `{!EncJSONLaws} `{AccAddr}.
Implicit Types (w : World B) (e : EncTx).

Lemma frame_drop e w : frame release_prefixes w (drop_enc_tx e w).
Proof.
  rewrite drop_enc_tx_split. assert (F : frame release_prefixes w (release_counts e (forget e w))).
  { eapply frame_trans; eapply frame_weaken; [apply frame_forget|done|apply frame_release_counts|done]. }
  destruct (0 <? e_Epoch e); [|done]. eapply frame_trans; [exact F|]. eapply frame_weaken; [apply frame_maybePruneEpoch|done].
Qed.

Lemma sframed_release k e : sframed release_prefixes (releaseEncTx k e).
Proof.
  unfold releaseEncTx. apply sframed_bind; [apply sframed_framed, framed_modify, frame_drop|]. intros _.
  unfold refundBond. sframe_tac.
Qed.

Section exec.
Context `{Curve} `{AesGcm} `{MathInt} `{EvmExec (World B)} `{!EvmLaws}.

Lemma sframed_attempt_body k cur p on ceiling st e : sframed [32] (attempt_body k cur p on ceiling st e).
Proof.
  unfold attempt_body, decrypt_failed. apply sframed_bind; [apply sframed_framed; frame_tac|]. intros shares.
  apply sframed_bind; [apply sframed_framed; frame_tac|]. intros [need [shared|err]].
  2: { apply sframed_framed. frame_tac. }
  destruct (Threshold.Decrypt _ _); [|apply sframed_framed; frame_tac..].
  apply sframed_bind; [apply sframed_framed; frame_tac|]. intros _. destruct (negb on); [apply sframed_framed; frame_tac|].
  intros w o w'. destruct (executeDecryptedTx _ _ _ _ w) as [[res|er|msg] w1] eqn:R; [|by intros [= _ <-]..].
  destruct (String.eqb (tag res) _); intros [= _ <-]; [done|].
  eapply sframe_trans; [|apply sframe_frame, frame_emit]. destruct (executed res); [|done].
  apply sframe_store. by eapply executeDecryptedTx_stays.
Qed.

Lemma sframed_attempt k cur p on ceiling st e : sframed [32] (attempt k cur p on ceiling st e).
Proof.
  intros w o w'. unfold attempt. destruct (attempt_body _ _ _ _ _ _ _ w) as [o1 w1] eqn:R.
  apply sframed_attempt_body in R as F.
  destruct o1; [by intros [= _ <-]..|]. intros R'. eapply sframe_trans; [exact F|].
  eapply (sframed_framed [32]); [|exact R']. unfold decrypt_failed. frame_tac.
Qed.

Lemma sframe_weaken ps qs w w' : subset_of ps qs = true -> sframe ps w w' -> sframe qs w w'.
Proof. intros Hs F k Hk. apply F. eapply key_in_weaken; [by apply subset_of_spec|exact Hk]. Qed.
Lemma sframed_weaken {A : Type} ps qs (m : M (World B) A) : subset_of ps qs = true -> sframed ps m -> sframed qs m.
Proof. intros Hs Hm w o w' R. eapply sframe_weaken; [done|by eapply Hm]. Qed.

Lemma sframed_attempt_all k cur p on ceiling st l :
  sframed release_prefixes (attempt_all k cur p on ceiling st l).
Proof.
  revert st. induction l as [|[e [|]] l IH]; intros st; simpl; [apply sframed_framed; frame_tac| |apply IH].
  destruct (on && _); [apply sframed_framed; frame_tac|].
  apply sframed_bind; [eapply sframed_weaken; [|apply sframed_attempt]; done|]. intros [[st' release] d].
  apply sframed_bind; [destruct release; [apply sframed_release|apply sframed_framed; frame_tac]|]. intros _.
  destruct d; [apply sframed_framed; frame_tac|apply IH].
Qed.

Lemma sframed_decryptMatured k cp cur p : sframed release_prefixes (decryptMatured k cp cur p).
Proof.
  unfold decryptMatured. apply sframed_bind; [apply sframed_framed; frame_tac|]. intros [l truncated].
  apply sframed_bind; [unfold shed_excess; sframe_tac; apply sframed_release|]. intros l'.
  apply sframed_bind; [apply sframed_attempt_all|]. intros st.
  apply sframed_bind; [unfold settle_candidates; sframe_tac; apply sframed_release|]. intros _. sframe_tac.
Qed.

(** A step on the other records keeps the commits as they are. *)
Lemma commit_inv_sframe ps w w' :
  sframe ps w w' -> forallb (fun z => negb (Zmem z ps)) commit_prefixes = true -> commit_inv w -> commit_inv w'.
Proof.
  intros (w1 & F & E)%sframe_split Hp Hi. eapply commit_inv_store; [exact E|]. by eapply commit_inv_frame.
Qed.

(** What the begin-block handler keeps: a property of the records at [zs] that the
    execution and the collection of reveals keep. *)
Section beginblock_keeps.
Context (P : World B -> Prop) (zs : list Z).
Context (P_sframe : forall ps w w', sframe ps w w' -> forallb (fun z => negb (Zmem z ps)) zs = true -> P w -> P w').
Context (P_execute : forall cur delay order l w, P w -> P (execute_reveals cur delay order l w)).
Context (P_gc : forall cur window w, P w -> P (gc_commits cur window w)).
Context (P_apart : forallb (fun z => negb (Zmem z (29 :: 37 :: release_prefixes))) zs = true).

Lemma beginblock_keeps k ctx cp : triple P P (beginblock_body k ctx cp) (fun _ => P).
Proof.
  unfold beginblock_body. eapply hoare_bind; [apply hoare_gets|]. intros p; cbv beta.
  apply (hoare_pre _ P); [by intros w [? _]|]. eapply (hoare_bind _ _ (fun _ => P)).
  { apply hoare_modify. intros w. apply (P_sframe (29 :: 37 :: release_prefixes)); [|done].
    apply sframe_frame. eapply frame_weaken; [apply frame_gcRate|done]. }
  intros ?; cbv beta. eapply (hoare_bind _ _ (fun _ => P)); [apply hoare_modify; intros w; apply P_execute|].
  intros ?; cbv beta. eapply (hoare_bind _ _ (fun _ => P)); [apply hoare_modify; intros w; apply P_gc|].
  intros ?; cbv beta. intros w o w' Hi R. assert (Hi' : P w'); [|by destruct o].
  match type of R with ?m _ = _ => assert (Hm : sframed release_prefixes m) end.
  { destruct (_ && _); [apply sframed_decryptMatured|]. unfold drainDisabledEncTx. sframe_tac; apply sframed_release. }
  apply (P_sframe (29 :: 37 :: release_prefixes) w); [|done..].
  eapply (sframe_weaken release_prefixes); [done|]. by eapply Hm.
Qed.

Lemma BeginBlock_keeps k ctx cp w : P w -> P (BeginBlock k ctx cp w).
Proof.
  intros Hi. unfold BeginBlock, cached. destruct (beginblock_body k ctx cp w) as [o w'] eqn:R.
  apply beginblock_keeps in R; [|done]. destruct o; [exact R|exact R|].
  eapply (P_sframe []); [apply sframe_frame, frame_emit|by apply forallb_forall|done].
Qed.
End beginblock_keeps.

(** The begin-block handler keeps the commits counted and bounded. *)
Lemma BeginBlock_commits k ctx cp w : commit_inv w -> commit_inv (BeginBlock k ctx cp w).
Proof.
  apply (BeginBlock_keeps commit_inv commit_prefixes); [apply commit_inv_sframe|..|done].
  - intros cur delay order l w0. apply execute_reveals_inv.
  - intros cur window w0. apply gc_commits_inv.
Qed.

Definition beginblock_prefixes : list Z := release_prefixes ++ [3; 4; 29; 35; 36; 37].

Lemma sframe_BeginBlock k ctx cp w : sframe beginblock_prefixes w (BeginBlock k ctx cp w).
Proof.
  unfold BeginBlock, cached. destruct (beginblock_body k ctx cp w) as [o w'] eqn:R.
  assert (Hb : sframed beginblock_prefixes (beginblock_body k ctx cp)).
  { unfold beginblock_body. apply sframed_bind; [apply sframed_framed; frame_tac|]. intros p.
    do 3 (apply sframed_bind; [apply sframed_framed, framed_modify; intros; eapply frame_weaken;
      [first [apply frame_gcRate|apply frame_execute_reveals|apply frame_gc_commits]|done]|intros _]).
    apply (sframed_weaken release_prefixes); [done|]. destruct (_ && _); [apply sframed_decryptMatured|].
    unfold drainDisabledEncTx. sframe_tac; apply sframed_release. }
  apply Hb in R. destruct o; [exact R|exact R|]. apply sframe_frame, frame_emit.
Qed.

End exec.
End block.
End EncUntouched.
