(* ===== verification/EncReveal.v ===== *)
(** * x/encmempool: commit and reveal

    The two messages and the execution of the reveals: when a reveal is accepted,
    that a commit can be opened, and that matured reveals are executed once, in the
    order of the heights they were committed at. *)
From S2P Require Import Prelude Codec Bank Sha256 EncTypes StakeWeight Threshold CurveModel Dkg EncKeeper EncRegistry EncDkg EncAbci EncIngest EncMsg EncFrame EncInvariant EncBlock EncCommit EncUntouched.
From stdpp Require Import gmap strings list sorting.
From Stdlib Require Import ZArith Lia.

#[local] Set Default Goal Selector "!".
Open Scope Z_scope.

Module EncReveal.
Import EncTypes EncKeeper EncRegistry EncDkg EncAbci EncIngest EncMsg EncFrame EncInvariant EncBlock EncCommit EncUntouched.

Section reveal.
Context `{BankKeeper B} `{EncJSON} `{!EncJSONLaws}.
Implicit Types w : World B.

(** ** Opening a commit *)

(** The condition under which a reveal is accepted, with the commit it opens. *)
Record opens (ctx : Ctx) (msg : MsgRevealTx) w (c : Commit) : Prop := {
  op_stored : GetCommit (rv_CommitHeight msg) (rv_Sender msg) (rv_Seq msg) w = Some c;
  op_sender : cm_Sender c = rv_Sender msg;
  op_mature : addSat (rv_CommitHeight msg) (RevealDelay (GetParams w)) <= u64 (BlockHeight ctx);
  op_tx : strlen (rv_RevealTx msg) <= maxCiphertextBodyBytes;
  op_salt : strlen (rv_Salt msg) <= maxRevealSaltBytes;
  op_hash : sha256 (rv_RevealTx msg +:+ rv_Salt msg) = cm_CommitHash c
}.

Definition revealed (msg : MsgRevealTx) : PendingReveal :=
  mkPendingReveal (rv_Sender msg) (rv_CommitHeight msg) (rv_Seq msg) (rv_RevealTx msg) (rv_Salt msg).

Definition queued (msg : MsgRevealTx) w : Prop :=
  get_json (pendingKey (rv_CommitHeight msg) (rv_Sender msg) (rv_Seq msg)) w = Some (revealed msg).

Lemma RevealTx_run ctx msg w :
  match RevealTx ctx msg w with
  | (Ret _, w') => (exists c, opens ctx msg w c) /\ queued msg w' /\
      w' = emit (mkEvent "encmempool_reveal_queued"
        [("sender", rv_Sender msg); ("commit_height", u64str (rv_CommitHeight msg)); ("seq", u64str (rv_Seq msg))])
        (SetPending (revealed msg) w)
  | (Err _, w') => w' = w /\ forall c, ~ opens ctx msg w c
  | (Panic _, _) => False
  end.
Proof.
  unfold RevealTx. run_gets. destruct (GetCommit _ _ _ w) as [c|] eqn:Ec.
  2: { split; [done|]. intros c [E _ _ _ _ _]. congruence. }
  assert (Hc : forall c', opens ctx msg w c' -> c' = c) by (intros c' [E _ _ _ _ _]; congruence).
  destruct (String.eqb_spec (cm_Sender c) (rv_Sender msg)) as [Es|Es]; cbn [negb].
  2: { split; [done|]. intros c' Ho. pose proof (Hc _ Ho) as ->. by destruct Ho. }
  run_gets. destruct (Z.ltb_spec (u64 (BlockHeight ctx)) (addSat (rv_CommitHeight msg) (RevealDelay (GetParams w)))).
  { split; [done|]. intros c' []. lia. }
  destruct (Z.ltb_spec maxCiphertextBodyBytes (strlen (rv_RevealTx msg))).
  { split; [done|]. intros c' []. lia. }
  destruct (Z.ltb_spec maxRevealSaltBytes (strlen (rv_Salt msg))).
  { split; [done|]. intros c' []. lia. }
  destruct (String.eqb_spec (sha256 (rv_RevealTx msg +:+ rv_Salt msg)) (cm_CommitHash c)) as [Eh|Eh]; cbn [negb].
  2: { split; [done|]. intros c' Ho. pose proof (Hc _ Ho) as ->. by destruct Ho. }
  rewrite (bind_Ret _ _ _ _ _ (modify_run _ _)), modify_run. split_and!; [by exists c| |done].
  unfold queued, get_json, SetPending. change (sget ?k (emit ?e ?w1)) with (sget k w1).
  rewrite sget_sset, decide_True by done. apply json_roundtrip.
Qed.

Lemma CommitTx_stored ctx msg w h q w' :
  CommitTx ctx msg w = (Ret (h, q), w') ->
  GetCommit h (ct_Sender msg) q w' = Some (mkCommit (ct_Sender msg) (ct_CommitHash msg) h q).
Proof.
  unfold CommitTx. intros R. run_inv R. unfold GetCommit, get_json, SetCommit. cbn [cm_Sender cm_Height cm_Seq].
  change (sget ?k (emit ?e ?w1)) with (sget k w1). rewrite sget_sset, decide_True by done. apply json_roundtrip.
Qed.
Lemma CommitTx_height ctx msg w h q w' : CommitTx ctx msg w = (Ret (h, q), w') -> is_u64 h.
Proof. unfold CommitTx. intros R. run_inv R. apply Z.mod_pos_bound. lia. Qed.

(** ** The queue of reveals *)

(** Every queued reveal is stored under its own key. *)
Definition reveal_rec (k v : string) : Prop :=
  exists pr, json_Unmarshal v = Some pr /\ k = pendingKey (pr_CommitHeight pr) (pr_Sender pr) (pr_Seq pr) /\
    is_u64 (pr_CommitHeight pr).
Definition pending_inv w : Prop := forall t v, sget (PendingPrefix +:+ t) w = Some v -> reveal_rec (PendingPrefix +:+ t) v.

Lemma PendingPrefix_end : is_Some (prefixEnd PendingPrefix).
Proof. by apply prefixEnd_byte. Qed.

(** Reveals may disappear, nothing else. *)
Definition fewer w w' : Prop :=
  forall k v, key_in [4] k = true -> sget k w' = Some v -> sget k w = Some v.

Lemma pending_key t : key_in [4] (PendingPrefix +:+ t) = true.
Proof. unfold PendingPrefix, byte_prefix. by rewrite str_app_cons. Qed.

Lemma pending_fewer w w' : fewer w w' -> pending_inv w -> pending_inv w'.
Proof. intros Hf Hi t v E. apply Hi, Hf; [apply pending_key|done]. Qed.

Lemma fewer_trans w1 w2 w3 : fewer w1 w2 -> fewer w2 w3 -> fewer w1 w3.
Proof. intros R1 R2 k v Hk E. by apply R1, R2. Qed.

Lemma fewer_frame ps w w' : sframe ps w w' -> Zmem 4 ps = false -> fewer w w'.
Proof.
  intros F Hm k v Hk E. rewrite <- F; [done|]. destruct k as [|c k]; [done|]. unfold key_in in *.
  apply Zmem_spec, list_elem_of_singleton in Hk. by rewrite Hk.
Qed.

Lemma pending_sframe ps w w' :
  sframe ps w w' -> forallb (fun z => negb (Zmem z ps)) [4] = true -> pending_inv w -> pending_inv w'.
Proof. intros F Hp. apply pending_fewer, (fewer_frame ps); [done|]. simpl in Hp. by bool_prop. Qed.

Lemma pending_frame ps w w' : frame ps w w' -> Zmem 4 ps = false -> pending_inv w -> pending_inv w'.
Proof. intros F Hm. apply pending_fewer, (fewer_frame ps); [by apply sframe_frame|done]. Qed.

Lemma fewer_settle h s q w : fewer w (DeletePending h s q w) /\ fewer w (DeleteCommit h s q w).
Proof.
  split; [|apply (fewer_frame [3; 35; 36]); [apply sframe_frame, frame_DeleteCommit|done]].
  intros k v _. unfold DeletePending. rewrite sget_sdel. by case_decide.
Qed.

Lemma fewer_execute cur delay l : forall order w, fewer w (execute_reveals cur delay order l w).
Proof.
  induction l as [|pr l IH]; intros order w; simpl; [by intros ? ?|]. destruct (_ <? _); [apply IH|].
  eapply fewer_trans; [|apply IH]. eapply fewer_trans; [|apply fewer_settle].
  apply (fewer_settle _ _ _ (emit _ w)).
Qed.

Lemma fewer_gc cur window w : fewer w (gc_commits cur window w).
Proof.
  unfold gc_commits. destruct (negb _); [by intros ? ?|]. generalize (List.filter (fun c => addSat (cm_Height c) window <? cur) (IterateCommits w)).
  intros l. revert w. induction l as [|c l IH]; intros w; simpl; [by intros ? ?|].
  eapply fewer_trans; [|apply IH]. eapply fewer_trans; apply fewer_settle.
Qed.

Lemma RevealTx_pending ctx msg w r w' :
  is_u64 (rv_CommitHeight msg) -> pending_inv w -> RevealTx ctx msg w = (Ret r, w') -> pending_inv w'.
Proof.
  intros Hu Hi R. pose proof (RevealTx_run ctx msg w) as Hr. rewrite R in Hr. destruct Hr as (_ & Hq & ->).
  intros t v. change (sget ?k (emit ?e ?w1)) with (sget k w1). unfold SetPending. rewrite sget_sset.
  case_decide as E; [|apply Hi]. intros [= <-]. exists (revealed msg). split_and!; [apply json_roundtrip|done..].
Qed.

(** ** Execution *)

Definition due (cur delay : Z) (pr : PendingReveal) : bool := addSat (pr_CommitHeight pr) delay <=? cur.
Definition executed_event (order : Z) (pr : PendingReveal) : Event :=
  mkEvent "encmempool_reveal_executed"
    [("sender", pr_Sender pr); ("commit_height", u64str (pr_CommitHeight pr)); ("seq", u64str (pr_Seq pr));
     ("execution_order", u64str order)].

Lemma u64_succ order i : u64 (u64 (order + 1) + i) = u64 (order + (1 + i)).
Proof. unfold u64. rewrite Z.add_mod_idemp_l by lia. f_equal. lia. Qed.

Lemma events_settle h s q w : w_events (DeleteCommit h s q (DeletePending h s q w)) = w_events w.
Proof.
  unfold DeleteCommit, decCommitCount, dec_to_zero. destruct (sget _ _); [|done].
  destruct (1 <? _), (1 <? _); done.
Qed.

Lemma execute_events cur delay l : forall order w, is_u64 order ->
  w_events (execute_reveals cur delay order l w) =
  w_events w ++ imap (fun i => executed_event (u64 (order + Z.of_nat i))) (List.filter (due cur delay) l).
Proof.
  induction l as [|pr l IH]; intros order w Hu; cbn [execute_reveals List.filter]; [by rewrite app_nil_r|].
  unfold due at 1. rewrite Z.leb_antisym. destruct (_ <? _); cbn [negb]; [by apply IH|].
  assert (E0 : u64 (order + Z.of_nat 0) = order) by (rewrite Z.add_0_r; by apply Z.mod_small).
  rewrite IH, events_settle by (apply Z.mod_pos_bound; lia).
  cbn [w_events emit]. rewrite <- app_assoc, imap_cons. rewrite E0. cbn [app]. do 2 f_equal.
  apply imap_ext. intros i x _. cbn [compose]. rewrite u64_succ. do 2 f_equal. lia.
Qed.

Definition committed_before (a b : PendingReveal) : Prop := pr_CommitHeight a <= pr_CommitHeight b.
#[local] Abbreviation key_of pr := (pendingKey (pr_CommitHeight pr) (pr_Sender pr) (pr_Seq pr)).

Lemma pendingKey_le a b :
  is_u64 (pr_CommitHeight a) -> is_u64 (pr_CommitHeight b) -> str_le (key_of a) (key_of b) -> committed_before a b.
Proof.
  intros Ha Hb. unfold str_le, committed_before, pendingKey, PendingPrefix, byte_prefix.
  rewrite str_leb_compare, !str_app_cons, compare_cons, Z.compare_refl. unfold be64. change ("" +:+ ?s) with s.
  rewrite be_bytes_compare by done. destruct (Z.compare_spec (pr_CommitHeight a) (pr_CommitHeight b)); [lia..|done].
Qed.

Lemma sorted_by_commit (es : list (string * string)) :
  StronglySorted key_le es -> (forall k v, (k, v) ∈ es -> reveal_rec k v) ->
  StronglySorted committed_before (omap (fun e => json_Unmarshal e.2) es).
Proof.
  induction 1 as [|[k v] es Hs IH Hall]; intros Hr; simpl; [constructor|].
  destruct (Hr k v) as (pr & E & -> & Hu); [by left|]. simpl. rewrite E. constructor.
  - apply IH. intros k' v' Hin. apply Hr. by right.
  - apply Forall_forall. intros pr' ([k' v'] & Hin & E')%list_elem_of_omap.
    destruct (Hr k' v') as (pr2 & E2 & -> & Hu'); [by right|]. simpl in E'. rewrite E2 in E'. injection E' as ->.
    rewrite Forall_forall in Hall. apply pendingKey_le; [done..|]. exact (Hall _ Hin).
Qed.

Lemma pending_sorted w : pending_inv w -> StronglySorted committed_before (IteratePending w).
Proof.
  intros Hi. apply sorted_by_commit; [apply kv_range_sorted|].
  intros k v Hin. unfold siter in Hin. apply elem_of_kv_iter in Hin as [E [t ->]]; [by apply Hi|apply PendingPrefix_end].
Qed.

Lemma elem_pending w pr :
  pending_inv w -> pr ∈ IteratePending w <-> get_json (key_of pr) w = Some pr /\ is_u64 (pr_CommitHeight pr).
Proof.
  intros Hi. unfold IteratePending. rewrite elem_of_iter_json by apply PendingPrefix_end. split.
  - intros [t E]. pose proof E as E0. unfold get_json in E. destruct (sget _ w) as [v|] eqn:Es; [|done].
    destruct (Hi _ _ Es) as (pr' & E' & Ek & Hu). rewrite E in E'. injection E' as <-. by rewrite <- Ek.
  - intros [E _]. by exists (be64 (pr_CommitHeight pr) +:+ (pr_Sender pr +:+ be64 (pr_Seq pr))).
Qed.

Lemma key_of_prefix pr : key_in [4] (key_of pr) = true.
Proof. apply pending_key. Qed.

Lemma sget_execute cur delay k l : forall order w, key_in [4] k = true ->
  sget k (execute_reveals cur delay order l w) =
  if existsb (fun pr => due cur delay pr && String.eqb (key_of pr) k) l then None else sget k w.
Proof.
  induction l as [|pr l IH]; intros order w Hk; cbn [execute_reveals existsb]; [done|].
  unfold due at 1. rewrite Z.leb_antisym. destruct (_ <? _); cbn [negb andb orb]; [by apply IH|].
  rewrite IH by done. destruct (existsb _ l); [by rewrite orb_true_r|]. rewrite orb_false_r.
  assert (Hc : forall w1 h s q, sget k (DeleteCommit h s q w1) = sget k w1).
  { intros. apply (frame_sget [3; 35; 36] _ _ _ (frame_DeleteCommit _ _ _ _)).
    destruct k; [done|]. unfold key_in in *. apply Zmem_spec, list_elem_of_singleton in Hk. by rewrite Hk. }
  rewrite Hc. unfold DeletePending. rewrite sget_sdel. change (sget ?k (emit ?e ?w1)) with (sget k w1).
  destruct (String.eqb_spec (key_of pr) k), (decide (key_of pr = k)); done.
Qed.

(** The reveals left after the execution are those that were not due. *)
Lemma pending_after cur delay order w pr :
  pending_inv w ->
  pr ∈ IteratePending (execute_reveals cur delay order (IteratePending w) w) <->
  pr ∈ IteratePending w /\ due cur delay pr = false.
Proof.
  intros Hi. pose proof (pending_fewer _ _ (fewer_execute cur delay (IteratePending w) order w) Hi) as Hi'.
  rewrite (elem_pending _ pr Hi'), (elem_pending w pr Hi). unfold get_json. rewrite sget_execute by apply key_of_prefix.
  destruct (existsb _ _) eqn:Ex.
  - split; [by intros [? _]|]. intros ((E & _) & Hd). apply existsb_exists in Ex as (pr' & Hin & Hd').
    apply andb_true_iff in Hd' as [Hd' Ek%String.eqb_eq].
    apply list_elem_of_In, (elem_pending w pr' Hi) in Hin as [E' _]. unfold get_json in E'. rewrite Ek in E'. congruence.
  - split; [|naive_solver]. intros [E Hu]. split; [done|]. apply not_true_iff_false. intros Hd.
    apply not_true_iff_false in Ex. apply Ex, existsb_exists. exists pr. split.
    + apply list_elem_of_In, (elem_pending w pr Hi). done.
    + by rewrite Hd, String.eqb_refl.
Qed.

End reveal.

Section block.
Context `{BankKeeper B} `{EncJSON} `{AccAddr} `{Curve} `{AesGcm} `{MathInt} `{EvmExec (World B)} `{!EvmLaws}.

Lemma BeginBlock_pending k ctx cp (w : World B) : pending_inv w -> pending_inv (BeginBlock k ctx cp w).
Proof.
  apply (BeginBlock_keeps pending_inv [4]); [apply pending_sframe|..|done].
  - intros cur delay order l w0. apply pending_fewer, fewer_execute.
  - intros cur window w0. apply pending_fewer, fewer_gc.
Qed.
End block.
End EncReveal.
