(* ===== verification/EncKeys.v ===== *)
(** * x/encmempool: the registry of encryption keys

    Two indexes: the key of each operator and the owner of each key.  [keys_inv]
    says they are inverse to each other, so that no two operators share a key; an
    announcement, a deletion and the sweep of stale operators preserve it. *)
From S2P Require Import Prelude Codec Bank EncTypes StakeWeight Threshold Dkg EncKeeper EncRegistry EncDkg EncIngest EncMsg EncFrame EncInvariant.
From stdpp Require Import gmap strings list sorting.
From Stdlib Require Import ZArith Lia.

#[local] Set Default Goal Selector "!".
Open Scope Z_scope.

Module EncKeys.
Import EncTypes EncKeeper EncRegistry EncDkg EncIngest EncMsg EncFrame EncInvariant.

Section keys.
Context {B : Type}.
Implicit Types (w : World B) (op key : string).

Definition keys_inv w : Prop := forall op key, GetEncPubKey op w = Some key <-> GetEncKeyOwner key w = Some op.

Lemma get_nonempty_some k w v : get_nonempty k w = Some v -> v <> "".
Proof. unfold get_nonempty. destruct (sget k w) as [[|c t]|]; simpl; intros [= <-]; done. Qed.

Lemma get_nonempty_sset k k' v w :
  v <> "" -> get_nonempty k (sset k' v w) = if decide (k' = k) then Some v else get_nonempty k w.
Proof. intros Hv. unfold get_nonempty. rewrite sget_sset. case_decide; [|done]. by destruct v. Qed.
Lemma get_nonempty_sdel k k' w : get_nonempty k (sdel k' w) = if decide (k' = k) then None else get_nonempty k w.
Proof. unfold get_nonempty. rewrite sget_sdel. by case_decide. Qed.

Lemma keys_inv_frame ps w w' : frame ps w w' -> Zmem 26 ps = false -> Zmem 27 ps = false -> keys_inv w -> keys_inv w'.
Proof.
  intros F H26 H27 Hi op key. unfold GetEncPubKey, GetEncKeyOwner, get_nonempty.
  rewrite !(frame_sget _ _ _ _ F) by done. apply Hi.
Qed.
Lemma keys_inv_store w w' : kvs StoreKey w' = kvs StoreKey w -> keys_inv w -> keys_inv w'.
Proof.
  intros E Hi op key. unfold GetEncPubKey, GetEncKeyOwner, get_nonempty, sget, kv_get. rewrite E. apply Hi.
Qed.

Lemma encPubKeyKey_inj a b : encPubKeyKey a = encPubKeyKey b -> a = b.
Proof. apply byte_prefix_inj. Qed.
Lemma encKeyOwnerKey_inj a b : encKeyOwnerKey a = encKeyOwnerKey b -> a = b.
Proof. apply byte_prefix_inj. Qed.

Ltac key_tac :=
  repeat (first [ case_decide | progress simplify_eq
    | match goal with
      | HE : encPubKeyKey _ = encPubKeyKey _ |- _ => apply encPubKeyKey_inj in HE
      | HE : encKeyOwnerKey _ = encKeyOwnerKey _ |- _ => apply encKeyOwnerKey_inj in HE
      end ]).

(** Binding a key nobody owns to an operator whose old key, if any, is dropped. *)
Lemma keys_inv_bind op key h w :
  keys_inv w -> op <> "" -> key <> "" -> GetEncPubKey op w = None -> GetEncKeyOwner key w = None ->
  keys_inv (setEncKeyRotatedHeight op h (sset (encKeyOwnerKey key) op (sset (encPubKeyKey op) key w))).
Proof.
  intros Hi Hop Hkey Hn1 Hn2. eapply (keys_inv_frame [34]); [by apply frame_set|done..|].
  intros op' key'. unfold GetEncPubKey, GetEncKeyOwner in *. rewrite !get_nonempty_sset by done.
  rewrite (decide_False (P := encKeyOwnerKey key = encPubKeyKey op')) by done.
  rewrite (decide_False (P := encPubKeyKey op = encKeyOwnerKey key')) by done.
  specialize (Hi op' key') as Hi'. unfold GetEncPubKey, GetEncKeyOwner in Hi'. key_tac; intuition congruence.
Qed.

Lemma keys_inv_unbind op w : keys_inv w -> keys_inv (DeleteEncPubKey op w) /\ GetEncPubKey op (DeleteEncPubKey op w) = None.
Proof.
  intros Hi. unfold DeleteEncPubKey. cbv zeta. split.
  - eapply (keys_inv_frame [34]); [by apply frame_del|done..|]. intros op' key'. pose proof (Hi op') as Hop'.
    unfold GetEncPubKey, GetEncKeyOwner in *. rewrite !get_nonempty_sdel. rewrite (decide_False (P := encPubKeyKey op = encKeyOwnerKey key')) by done.
    specialize (Hi op' key') as Hi'. unfold GetEncPubKey, GetEncKeyOwner in Hi'.
    destruct (get_nonempty (encPubKeyKey op) w) as [key|] eqn:E.
    + pose proof (proj1 (Hi op key) E) as Ho. unfold GetEncKeyOwner in Ho. rewrite !get_nonempty_sdel.
      rewrite (decide_False (P := encKeyOwnerKey key = encPubKeyKey op')) by done. key_tac; intuition congruence.
    + key_tac; intuition congruence.
  - unfold GetEncPubKey. rewrite !get_nonempty_sdel, decide_False, decide_True by done. done.
Qed.

Lemma keys_inv_gc k bonded w : keys_inv w -> keys_inv (gcStaleEncKeys k bonded w).
Proof.
  intros Hi. unfold gcStaleEncKeys. destruct (negb _); [done|]. generalize (take (Z.to_nat maxEncKeyGCPerBlock)
    (List.filter (fun op => negb (contains bonded.*1 op)) (IterateEncPubKeys w).*1)). intros l. revert w Hi.
  induction l as [|op l IH]; intros w Hi; simpl; [done|]. by apply IH, keys_inv_unbind.
Qed.

Lemma triple_keys {A : Type} ps (m : M (World B) A) :
  framed ps m -> Zmem 26 ps = false -> Zmem 27 ps = false -> triple keys_inv keys_inv m (fun _ => keys_inv).
Proof.
  intros Hm H26 H27 w o w' Hi R. assert (keys_inv w') by (eapply keys_inv_frame; [by eapply Hm|done..]). by destruct o.
Qed.

Lemma EndBlockDKG_keys k ctx cp bonded w `{EncJSON} `{Curve} `{MathInt} :
  keys_inv w -> keys_inv (EndBlockDKG k ctx cp bonded w).
Proof.
  intros Hi. unfold EndBlockDKG, cached. destruct (endblock_body k ctx cp bonded w) as [o w'] eqn:R.
  assert (Hb : triple keys_inv keys_inv (endblock_body k ctx cp bonded) (fun _ => keys_inv)).
  { unfold endblock_body. eapply hoare_bind; [apply (triple_keys []); [frame_tac|done..]|]. intros p; cbv beta.
    assert (Hret : triple keys_inv keys_inv (mret tt) (fun _ : unit => keys_inv)) by apply (hoare_mret (fun _ => keys_inv)).
    destruct (negb _); [done|].
    eapply hoare_bind; [apply (triple_keys []); [apply framed_runtime_gate|done..]|]. intros go; cbv beta.
    destruct (negb go); [done|]. destruct (_ <? _); [done|].
    eapply hoare_bind; [apply (triple_keys [30; 31]); [apply framed_advancePrecompute|done..]|]. intros ?; cbv beta.
    eapply (hoare_bind _ _ (fun _ => keys_inv)).
    { destruct (_ =? 0); [|done]. apply hoare_modify. intros w1. apply keys_inv_gc. }
    intros ?. apply (triple_keys [16; 17; 18; 19; 20; 21; 23; 28; 30; 31; 32]); [|done..]. frame_tac;
    first [ eapply framed_weaken; [apply framed_settle_round|done]
          | eapply framed_weaken; [apply framed_ActiveMembers|done]
          | eapply framed_weaken; [apply framed_member_change|done]
          | eapply framed_weaken; [apply framed_drift_rekey|done]
          | eapply framed_weaken; [apply framed_retryFailedRound|done]
          | eapply framed_weaken; [apply framed_openRound|done] ]. }
  apply Hb in R; [|done]. destruct o; [exact R|exact R|]. by eapply (keys_inv_frame []); [apply frame_emit|done..|].
Qed.

Section announce.
Context `{CurveLaws} `{Ecdsa}.

Lemma valid_point_nonempty key : Dkg.ValidCompressedPoint key = true -> key <> "".
Proof.
  unfold Dkg.ValidCompressedPoint, Dkg.parsePoint. intros Hv ->.
  destruct (ParsePubKey "") as [P|] eqn:E; [|done]. by apply parse_length in E as [?|?].
Qed.

(** An accepted announcement binds a fresh key; a rejected one changes nothing. *)
Lemma RecordEncPubKey_spec h op key pop w :
  keys_inv w ->
  match RecordEncPubKey h op key pop w with
  | (true, w') => keys_inv w' /\ GetEncPubKey op w' = Some key /\ GetEncKeyOwner key w = None /\
                  Dkg.VerifyEncKeyPoP key op pop = true
  | (false, w') => w' = w
  end.
Proof.
  intros Hi. unfold RecordEncPubKey. cbv zeta.
  destruct (String.eqb op "" || _ || _) eqn:Hg; [done|]. apply orb_false_iff in Hg as [Hg _].
  apply orb_false_iff in Hg as [Hop Hk%negb_false_iff]. apply String.eqb_neq in Hop.
  pose proof (valid_point_nonempty key Hk) as Hkey.
  destruct (match GetEncPubKey op w with Some c => String.eqb c key | None => false end) eqn:Hcur; [done|].
  destruct (negb (Dkg.VerifyEncKeyPoP key op pop)) eqn:Hpop; [done|]. apply negb_false_iff in Hpop.
  destruct (match GetEncKeyOwner key w with Some owner => negb (String.eqb owner op) | None => false end) eqn:Hown; [done|].
  assert (Hfree : GetEncKeyOwner key w = None).
  { destruct (GetEncKeyOwner key w) as [owner|] eqn:E; [|done]. apply negb_false_iff, String.eqb_eq in Hown as ->.
    apply Hi in E. rewrite E, String.eqb_refl in Hcur. done. }
  assert (Hset : forall w1, GetEncPubKey op (setEncKeyRotatedHeight op h
    (sset (encKeyOwnerKey key) op (sset (encPubKeyKey op) key w1))) = Some key).
  { intros w1. unfold GetEncPubKey, setEncKeyRotatedHeight, get_nonempty. rewrite !sget_sset.
    rewrite !decide_False, decide_True by done. by destruct key. }
  destruct (GetEncPubKey op w) as [c|] eqn:Ec.
  2: { split_and!; [by apply keys_inv_bind|apply Hset|done..]. }
  destruct (match getEncKeyRotatedHeight op w with Some _ => _ | None => _ end); [done|].
  split_and!; [|apply Hset|done..].
  (** the old binding: as if the operator had been deleted and bound again *)
  destruct (keys_inv_unbind op w Hi) as [Hi1 Hn1].
  assert (Hfree1 : GetEncKeyOwner key (DeleteEncPubKey op w) = None).
  { unfold DeleteEncPubKey. rewrite Ec. unfold GetEncKeyOwner. cbv zeta. rewrite !get_nonempty_sdel.
    do 2 rewrite decide_False by done. by case_decide. }
  pose proof (keys_inv_bind op key h _ Hi1 Hop Hkey Hn1 Hfree1) as Hi2. eapply (keys_inv_frame []); [|done..|exact Hi2].
  unfold DeleteEncPubKey. rewrite Ec. cbv zeta. unfold setEncKeyRotatedHeight. split_and!; [done|..].
  - intros n Hn. unfold sset, sdel. rewrite !kvs_set, ?kvs_delete. by rewrite !decide_False by done.
  - intros k _. rewrite !sget_sset, !sget_sdel. repeat case_decide; subst; done.
Qed.

Lemma announcements_inv h canon w : keys_inv w -> keys_inv (ingest_announcements h canon w).2.
Proof.
  unfold ingest_announcements, count_steps. generalize 0. revert w.
  induction canon as [|e canon IH]; intros w n Hi; [done|]. simpl.
  pose proof (RecordEncPubKey_spec h (ent_Operator e) (ve_EncPubKey (ent_VE e)) (ve_EncPubKeyPoP (ent_VE e)) w Hi) as Hr.
  destruct (RecordEncPubKey _ _ _ _ w) as [[] w1]; [|subst]; apply IH; [apply Hr|done].
Qed.

Lemma ConsumeVoteExtensions_keys ctx entries w `{EncJSON} `{MathInt} `{AesGcm} :
  keys_inv w -> keys_inv (ConsumeVoteExtensions ctx entries w).
Proof.
  intros Hi. destruct (frame_consume_reports ctx entries w) as [->|F]; [done|].
  eapply keys_inv_frame; [exact F|done..|]. by apply announcements_inv.
Qed.

End announce.
End keys.
End EncKeys.
