(* ===== verification/EncModel.v ===== *)
(** * x/encmempool: a concrete environment

    Executable instances of the parameters of the model: a codec for each stored
    record, addresses, a denomination check, signatures and an EVM that accepts
    plaintexts starting with a mark and runs them without effect.  The concrete
    runs of the module's theorems use them with the ledger of Bank and the group
    of CurveModel. *)
From S2P Require Import Prelude Codec Bank NetCap Sha256 EncTypes StakeWeight Threshold CurveModel Dkg EncKeeper EncRegistry EncDkg EncAbci EncIngest EncMsg EncFrame EncInvariant EncBond EncEpoch EncBlock.
From stdpp Require Import gmap strings list sorting.
From Stdlib Require Import ZArith Lia.

#[local] Set Default Goal Selector "!".
Open Scope Z_scope.

Module EncModel.
Import EncTypes EncKeeper EncRegistry EncDkg EncAbci EncIngest EncMsg EncFrame EncInvariant EncBond EncEpoch EncBlock.

(** ** Records *)
#[export] Instance Codec_DkgMember : Codec DkgMember.
Proof.
  refine (Codec_iso (fun x => (dm_OperatorAddr x, dm_AccountAddr x, dm_EncPubKey x))
    (fun '(a0, a1, a2) =>
      mkDkgMember a0 a1 a2) _).
  by intros [].
Defined.

#[export] Instance Codec_Params : Codec Params.
Proof.
  refine (Codec_iso (fun x => (RevealDelay x, MaxRevealWindow x, EncEnabled x, EncExecEnabled x,
    ThresholdPub x, Threshold x, Keypers x, DecryptDelay x, MaxInFlightEncTx x, MaxInFlightPerSubmitter x,
    EncSubmitBond x, EncSubmitBondDenom x, EncSubmitBondBurnBps x, MaxVerifyOpsPerBlock x, DkgEnabled x,
    DkgStartHeight x, DkgDealWindow x, DkgComplaintWindow x, DkgThreshold x, DkgMembers x,
    DkgRetryBackoff x, DkgMaxAttempts x, DkgMinRekeyGap x, DkgTransparent x, DkgMaxMembers x,
    DkgShareBudget x, DkgMaxEpochBlocks x, DkgRekeyOnStakeDriftBps x, DkgRetainActiveDealings x,
    DkgStrictConcentration x))
    (fun '(a0, a1, a2, a3, a4, a5, a6, a7, a8, a9, a10, a11, a12, a13, a14, a15, a16, a17, a18, a19, a20,
      a21, a22, a23, a24, a25, a26, a27, a28, a29) =>
      mkParams a0 a1 a2 a3 a4 a5 a6 a7 a8 a9 a10 a11 a12 a13 a14 a15 a16 a17 a18 a19 a20 a21 a22 a23 a24
        a25 a26 a27 a28 a29) _).
  by intros [].
Defined.

#[export] Instance Codec_RoundMember : Codec RoundMember.
Proof.
  refine (Codec_iso (fun x => (Index x, OperatorAddr x, AccountAddr x, EncPubKey x, Weight x, EvalPoints x,
    Weighted x))
    (fun '(a0, a1, a2, a3, a4, a5, a6) =>
      mkRoundMember a0 a1 a2 a3 a4 a5 a6) _).
  by intros [].
Defined.

#[export] Instance Codec_DkgRound : Codec DkgRound.
Proof.
  refine (Codec_iso (fun x => (r_Epoch x, r_OpenHeight x, r_DealDeadline x, r_ComplaintDeadline x,
    r_Members x, r_Threshold x, r_MembersHash x, r_Status x, r_Attempt x))
    (fun '(a0, a1, a2, a3, a4, a5, a6, a7, a8) =>
      mkDkgRound a0 a1 a2 a3 a4 a5 a6 a7 a8) _).
  by intros [].
Defined.

#[export] Instance Codec_DkgStoredEncShare : Codec DkgStoredEncShare.
Proof.
  refine (Codec_iso (fun x => (es_MemberIndex x, es_A x, es_Nonce x, es_Body x))
    (fun '(a0, a1, a2, a3) =>
      mkDkgStoredEncShare a0 a1 a2 a3) _).
  by intros [].
Defined.

#[export] Instance Codec_Dealing : Codec Dealing.
Proof.
  refine (Codec_iso (fun x => (d_Epoch x, d_DealerIndex x, d_Dealer x, d_Commitments x, d_EncShares x))
    (fun '(a0, a1, a2, a3, a4) =>
      mkDealing a0 a1 a2 a3 a4) _).
  by intros [].
Defined.

#[export] Instance Codec_DkgComplaintRec : Codec DkgComplaintRec.
Proof.
  refine (Codec_iso (fun x => (c_Epoch x, c_Against x, c_AccuserIndex x))
    (fun '(a0, a1, a2) =>
      mkDkgComplaintRec a0 a1 a2) _).
  by intros [].
Defined.

#[export] Instance Codec_ActiveThresholdKey : Codec ActiveThresholdKey.
Proof.
  refine (Codec_iso (fun x => (ak_Epoch x, ak_Pub x, ak_PublicCommitments x, ak_Threshold x, ak_Qual x))
    (fun '(a0, a1, a2, a3, a4) =>
      mkActiveThresholdKey a0 a1 a2 a3 a4) _).
  by intros [].
Defined.

#[export] Instance Codec_Commit : Codec Commit.
Proof.
  refine (Codec_iso (fun x => (cm_Sender x, cm_CommitHash x, cm_Height x, cm_Seq x))
    (fun '(a0, a1, a2, a3) =>
      mkCommit a0 a1 a2 a3) _).
  by intros [].
Defined.

#[export] Instance Codec_PendingReveal : Codec PendingReveal.
Proof.
  refine (Codec_iso (fun x => (pr_Sender x, pr_CommitHeight x, pr_Seq x, pr_RevealTx x, pr_Salt x))
    (fun '(a0, a1, a2, a3, a4) =>
      mkPendingReveal a0 a1 a2 a3 a4) _).
  by intros [].
Defined.

#[export] Instance Codec_EncTx : Codec EncTx.
Proof.
  refine (Codec_iso (fun x => (e_Submitter x, e_SubmitHeight x, e_DecryptHeight x, e_Seq x, e_A x,
    e_Nonce x, e_Body x, e_Epoch x, e_Bond x, e_BondDenom x, e_BondBurn x))
    (fun '(a0, a1, a2, a3, a4, a5, a6, a7, a8, a9, a10) =>
      mkEncTx a0 a1 a2 a3 a4 a5 a6 a7 a8 a9 a10) _).
  by intros [].
Defined.

#[export] Instance Codec_EncShare : Codec EncShare.
Proof.
  refine (Codec_iso (fun x => (s_Keyper x, s_DecryptHeight x, s_Seq x, s_Index x, s_D x, s_Proof x,
    s_Verified x))
    (fun '(a0, a1, a2, a3, a4, a5, a6) =>
      mkEncShare a0 a1 a2 a3 a4 a5 a6) _).
  by intros [].
Defined.

(** A round is written with its missing weights set to zero. *)
#[export] Instance json : EncJSON := {|
  EncJSON_Params := codec_JSON Params;
  EncJSON_Commit := codec_JSON Commit;
  EncJSON_Pending := codec_JSON PendingReveal;
  EncJSON_EncTx := codec_JSON EncTx;
  EncJSON_EncShare := codec_JSON EncShare;
  EncJSON_DkgRound := {| json_Marshal r := enc (round_stored r); json_Unmarshal := @json_Unmarshal _ (codec_JSON DkgRound) |};
  EncJSON_Dealing := codec_JSON Dealing;
  EncJSON_Complaint := codec_JSON DkgComplaintRec;
  EncJSON_ActiveKey := codec_JSON ActiveThresholdKey
|}.

#[export] Instance json_laws : EncJSONLaws.
Proof.
  split; try apply codec_JSONLaws. intros r. change (json_Unmarshal (json_Marshal r)) with
    (@json_Unmarshal _ (codec_JSON DkgRound) (@json_Marshal _ (codec_JSON DkgRound) (round_stored r))).
  apply codec_JSONLaws.
Qed.

(** ** The environment *)
#[export] Instance addresses : AccAddr := {| AccAddressFromBech32 s := if String.eqb s "" then None else Some s |}.
#[export] Instance denoms : SDKDenom := {| ValidateDenom_ok d := negb (String.eqb d "") |}.
#[export] Instance signatures : Ecdsa := {| ecdsa_Verify key digest sig := String.eqb sig (key +:+ digest) |}.

Definition decode_tx (s : string) : option EthTx :=
  if String.prefix "tx" s then Some (mkEthTx s false 21000 (Some "bob") 1 0 s) else None.

(** The checker of the interface is the keeper of x/netcap: it writes only to its
    own store. *)
Lemma CheckAndRecord_outside {B : Type} `{BankKeeper B} `{Bech32} `{NetCap.Accounts (World B)} `{MathInt}
    `{JSON NetCap.Params} `{JSON NetCap.WindowSpend} ak ctx from to v (w : World B) o w' :
  NetCap.CheckAndRecord ak ctx from to v w = (o, w') -> outside w w'.
Proof.
  assert (Hset : forall addr ws o' (x x' : World B), NetCap.setSpend addr ws x = (o', x') -> outside x x').
  { intros addr ws o' x x' [= _ <-]. split_and!; [by rewrite kvs_set|done|done]. }
  unfold NetCap.CheckAndRecord. rewrite (bind_Ret _ _ _ _ _ (gets_run _ _)). destruct v as [v|]; [|intros [= _ <-]; apply outside_refl].
  destruct (_ || _); [intros [= _ <-]; apply outside_refl|]. cbv zeta. destruct (negb _); [intros [= _ <-]; apply outside_refl|].
  rewrite (bind_Ret _ _ _ _ _ (gets_run _ _)). destruct (_ || _); [intros [= _ <-]; apply outside_refl|].
  destruct (NewIntFromString _); [|intros [= _ <-]; apply outside_refl]. rewrite (bind_Ret _ _ _ _ _ (gets_run _ _)).
  unfold int_add, int_result. destruct (int_fits _); [|intros [= _ <-]; apply outside_refl]. erewrite bind_Ret by reflexivity.
  destruct (_ <? _); [intros [= _ <-]; apply outside_refl|]. destruct (_ || _); [intros [= _ <-]; apply outside_refl|]. apply Hset.
Qed.

#[local] Instance netcap_params : JSON NetCap.Params := @codec_JSON _ NetCap.Params_codec.
#[local] Instance netcap_spend : JSON NetCap.WindowSpend := @codec_JSON _ NetCap.WindowSpend_codec.
#[local] Instance netcap_addresses : Bech32 := {| AccAddress_String a := a |}.
#[local] Instance netcap_accounts : NetCap.Accounts (World ledger) :=
  {| NetCap.account_is_module _ a := Some (String.prefix "module/" a) |}.

#[export] Instance evm : EvmExec (World ledger) := {|
  UnmarshalBinary := decode_tx;
  EVMConfig_ok _ := true;
  TransactionSender _ _ := Some "alice";
  IsPrecompile _ _ := false;
  GetNonce _ _ := 0;
  VerifyFee _ _ := Some 1;
  CheckSenderBalance_ok _ _ _ := true;
  CanTransfer_ok _ _ _ := true;
  NetCap_CheckAndRecord from to v := @NetCap.CheckAndRecord ledger _ _ decimal_MathInt _ _ true (mkCtx 1000 1 false false) from to (Some v);
  DeductTxCosts _ _ := mret tt;
  ApplyTransaction tx := mret (tx_Gas tx, false);
  IncrementNonce _ _ := mret tt
|}.

#[export] Instance evm_laws : EvmLaws.
Proof.
  split; [intros _ _ from [= <-]; vm_compute; discriminate|intros from to v w o w'; apply CheckAndRecord_outside|..];
    intros; match goal with R : _ = (_, _) |- _ => injection R as _ <- end; apply outside_refl.
Qed.

End EncModel.
