(* ===== verification/EncVotes.v ===== *)
(** * x/encmempool: ingestion of vote extensions

    What the injected vote extensions may change: the order of the votes does not
    matter, decryption shares are stored once and only with a verified proof by the
    owner of their index, and the verification work of a block is bounded. *)
From S2P Require Import Prelude Codec Bank Sha256 EncTypes StakeWeight Threshold CurveModel Dkg EncKeeper EncRegistry EncDkg EncAbci EncIngest EncMsg EncFrame EncInvariant EncModel.
From stdpp Require Import gmap strings list sorting.
From Stdlib Require Import ZArith Lia.

#[local] Set Default Goal Selector "!".
Open Scope Z_scope.

Module EncVotes.
Import EncTypes EncKeeper EncRegistry EncDkg EncAbci EncIngest EncFrame EncInvariant.

(** ** The order of the votes *)

#[export] Instance entry_le_total : Total entry_le.
Proof. intros a b. apply (total str_le). Qed.
#[export] Instance entry_le_trans : Transitive entry_le.
Proof. intros a b c. apply (transitivity (R := str_le)). Qed.

Definition named (e : VEEntry) : bool := negb (String.eqb (ent_Operator e) "").

(** Among distinct named operators, keeping the first of each is keeping all. *)
Lemma first_by_operator_all l : forall seen,
  NoDup (ent_Operator <$> List.filter named l) ->
  (forall e, e ∈ l -> named e = true -> contains seen (ent_Operator e) = false) ->
  first_by_operator seen l = List.filter named l.
Proof.
  induction l as [|e l IH]; intros seen Hnd Hseen; [done|]. cbn [first_by_operator List.filter] in *. unfold named at 1.
  unfold named at 1 in Hnd. destruct (String.eqb (ent_Operator e) "") eqn:En; cbn [negb orb] in *.
  { apply IH; [done|]. intros e' Hin. apply Hseen. by right. }
  rewrite (Hseen e) by (first [by left|unfold named; by rewrite En]). apply NoDup_cons in Hnd as [Hni Hnd]. f_equal.
  apply IH; [done|]. intros e' Hin Hn. cbn [contains]. destruct (String.eqb_spec (ent_Operator e) (ent_Operator e')) as [E|E].
  - exfalso. apply Hni. rewrite E. apply list_elem_of_fmap. exists e'. split; [done|].
    apply list_elem_of_In, filter_In. split; [by apply list_elem_of_In|done].
  - apply Hseen; [by right|done].
Qed.

(** A permutation of the list is filtered to a permutation. *)
Lemma filter_Permutation_bool {A} (f : A -> bool) (l l' : list A) : l ≡ₚ l' -> List.filter f l ≡ₚ List.filter f l'.
Proof.
  induction 1 as [|x l l' _ IH|x y l|l1 l2 l3 _ IH1 _ IH2]; simpl; [done| | |by rewrite IH1].
  - destruct (f x); [by constructor|done].
  - destruct (f x), (f y); [apply Permutation_swap|done..].
Qed.

Lemma canonical_named entries :
  NoDup (ent_Operator <$> List.filter named entries) ->
  canonical_entries entries = List.filter named (merge_sort entry_le entries).
Proof.
  intros Hnd. apply first_by_operator_all; [|done].
  by rewrite (filter_Permutation_bool named _ _ (merge_sort_Permutation entry_le entries)).
Qed.

Lemma canonical_Permutation entries entries' :
  entries ≡ₚ entries' -> NoDup (ent_Operator <$> List.filter named entries) ->
  canonical_entries entries = canonical_entries entries'.
Proof.
  intros Hp Hnd. rewrite !canonical_named; [|by rewrite <- (filter_Permutation_bool named _ _ Hp)|done].
  assert (Hpp : List.filter named (merge_sort entry_le entries) ≡ₚ List.filter named (merge_sort entry_le entries')).
  { apply filter_Permutation_bool. by rewrite !merge_sort_Permutation. }
  apply (StronglySorted_unique_strong entry_le); [|apply sorted_filter, StronglySorted_merge_sort; apply _..|done].
  intros a b Ha Hb Hab Hba. rewrite <- Hpp in Hb.
  assert (E : ent_Operator a = ent_Operator b) by by apply str_le_antisym.
  assert (Hnd' : NoDup (ent_Operator <$> List.filter named (merge_sort entry_le entries))).
  { by rewrite (filter_Permutation_bool named _ _ (merge_sort_Permutation entry_le entries)). }
  apply list_elem_of_lookup in Ha as [i Hi], Hb as [j Hj].
  assert (i = j) as <-; [|congruence].
  eapply (proj1 (NoDup_alt _) Hnd' i j (ent_Operator a)); by rewrite list_lookup_fmap, ?Hi, ?Hj; simpl; rewrite ?E.
Qed.

Lemma canonical_sub entries e : e ∈ canonical_entries entries -> e ∈ entries.
Proof.
  unfold canonical_entries. rewrite <- (merge_sort_Permutation entry_le entries) at 2.
  generalize (merge_sort entry_le entries), ([] : list string). intros l. induction l as [|x l IH]; intros seen; simpl; [done|].
  destruct (_ || _); [right; by eapply IH|]. intros [->|Hin]%elem_of_cons; [by left|right; by eapply IH].
Qed.

Section votes.
Context {B : Type} `{EncJSON} `{!EncJSONLaws} `{Curve} `{AesGcm} `{MathInt} `{Ecdsa}.
Implicit Types w : World B.

(** ** Decryption shares *)

(** A stored share is vouched for when it is one of the shares of a vote: it was
    carried by the extension of an operator that owns its index in the round of the
    ciphertext's epoch, for a ciphertext in flight that is due at height [h], with a
    proof that verifies, and it is recorded under that operator as it was sent. *)
Definition vouched (h : Z) (votes : list VEEntry) w (k v : string) : Prop :=
  exists vote s e round member,
    vote ∈ votes /\ s ∈ ve_Shares (ent_VE vote) /\
    k = encShareKey (vs_DecryptHeight s) (vs_Seq s) (vs_Index s) /\
    v = json_Marshal (mkEncShare (ent_Operator vote) (vs_DecryptHeight s) (vs_Seq s) (vs_Index s) (vs_D s) (vs_Proof s) true) /\
    vs_DecryptHeight s <= h /\
    GetEncTx (vs_DecryptHeight s) (vs_Seq s) w = Some e /\ e_Epoch e <> 0 /\ e_Epoch e = vs_Epoch s /\
    GetDkgRound (e_Epoch e) w = Some round /\
    memberByIndex round (memberIndexByOperator round (ent_Operator vote)) = Some member /\ OwnsEvalPoint member (vs_Index s) = true /\
    verifyDecryptShareDLEQ (e_Epoch e) (e_A e) (vs_Index s) (vs_D s) (vs_Proof s) w = true.

(** From [w0] to [w]: what a vote extension does not touch is as it was, stored
    shares are kept and new ones are vouched for. *)
Record vetted (h : Z) (votes : list VEEntry) w0 w : Prop := {
  v_frame : frame consume_prefixes w0 w;
  v_keep : forall k v, key_in [7] k = true -> sget k w0 = Some v -> sget k w = Some v;
  v_new : forall k v, key_in [7] k = true -> sget k w = Some v -> sget k w0 = Some v \/ vouched h votes w0 k v
}.

Lemma share_key_out ps k : key_in [7] k = true -> Zmem 7 ps = false -> key_in ps k = false.
Proof.
  destruct k as [|c k]; [done|]. unfold key_in. intros Hk%Zmem_spec%list_elem_of_singleton Hm. by rewrite Hk.
Qed.

Lemma vetted_refl h votes w : vetted h votes w w.
Proof. split; [apply frame_refl|done|by left]. Qed.

Lemma vetted_frame h votes ps w0 w w' :
  vetted h votes w0 w -> frame ps w w' -> subset_of ps consume_prefixes = true -> Zmem 7 ps = false -> vetted h votes w0 w'.
Proof.
  intros [Hf Hk Hn] F Hs Hm. split; [eapply frame_trans; [done|by eapply frame_weaken]|..]; intros k v Hin;
    rewrite (frame_sget _ _ _ _ F) by (by apply share_key_out); auto.
Qed.

Lemma verify_frame w0 w epoch A i d pf :
  frame consume_prefixes w0 w -> verifyDecryptShareDLEQ epoch A i d pf w = verifyDecryptShareDLEQ epoch A i d pf w0.
Proof.
  intros F. unfold verifyDecryptShareDLEQ, GetActiveKey, getShareKeyCache, get_json.
  by rewrite !(frame_sget _ _ _ _ F) by done.
Qed.

Lemma classify_inv op s w member ctA epoch :
  classifyDecryptShare op s w = Some (member, ctA, epoch) ->
  exists e round, GetEncTx (vs_DecryptHeight s) (vs_Seq s) w = Some e /\ e_Epoch e <> 0 /\ e_Epoch e = vs_Epoch s /\
    GetDkgRound (e_Epoch e) w = Some round /\
    memberByIndex round (memberIndexByOperator round op) = Some member /\ OwnsEvalPoint member (vs_Index s) = true /\
    sget (encShareKey (vs_DecryptHeight s) (vs_Seq s) (vs_Index s)) w = None /\ ctA = e_A e /\ epoch = e_Epoch e.
Proof.
  unfold classifyDecryptShare. destruct (strlen _ =? 0); [done|]. destruct (GetEncTx _ _ w) as [e|]; [|done].
  destruct (_ || _) eqn:Ee; [done|]. destruct (GetDkgRound _ w) as [round|] eqn:Er; [|done]. destruct (memberIndexByOperator round op =? 0); [done|].
  destruct (memberByIndex _ _) as [m|] eqn:Em; [|done]. destruct (OwnsEvalPoint m _) eqn:Eo; [|done]. simpl.
  destruct (hasEncShareAt _ _ _ w) eqn:Eh; [done|]. intros [= -> <- <-]. bool_prop. exists e, round. split_and!; try done.
  unfold hasEncShareAt in Eh. apply bool_decide_eq_false in Eh. by apply eq_None_not_Some.
Qed.

Lemma vetted_store h votes w0 w vote s member ctA epoch :
  vetted h votes w0 w -> vote ∈ votes -> s ∈ ve_Shares (ent_VE vote) -> vs_DecryptHeight s <= h ->
  classifyDecryptShare (ent_Operator vote) s w = Some (member, ctA, epoch) ->
  vetted h votes w0 (verifyAndStoreDecryptShare epoch ctA (ent_Operator vote) s w).2.
Proof.
  intros Hv Hvote Hsin Hh (e & round & He & Hne & Hep & Hr & Hm & Ho & Hnone & -> & ->)%classify_inv. unfold verifyAndStoreDecryptShare.
  destruct (verifyDecryptShareDLEQ _ _ _ _ _ w) eqn:Ev; simpl.
  2: { eapply (vetted_frame _ _ [33]); [exact Hv| |done..]. eapply frame_trans; [apply frame_emit|by apply frame_set]. }
  destruct Hv as [Hf Hk Hn]. split.
  - eapply frame_trans; [exact Hf|by apply frame_set].
  - intros k v Hin E. unfold SetEncShare. rewrite sget_sset. case_decide as Ek; [|by apply Hk].
    exfalso. cbn [s_DecryptHeight s_Seq s_Index] in Ek. subst k. specialize (Hk _ _ Hin E). congruence.
  - intros k v Hin. unfold SetEncShare. rewrite sget_sset. case_decide as Ek; [|by apply Hn].
    intros [= <-]. right. exists vote, s, e, round, member. cbn [s_DecryptHeight s_Seq s_Index] in Ek.
    rewrite (verify_frame _ _ _ _ _ _ _ Hf) in Ev.
    unfold GetEncTx, GetDkgRound, get_json in *. rewrite !(frame_sget _ _ _ _ Hf) in * by done. by split_and!.
Qed.

(** The ciphertexts a block verifies shares for are due. *)
Definition due (h : Z) (processed : gset (Z * Z)) : Prop := forall d q, (d, q) ∈ processed -> d <= h.

Lemma processed_due h w : due h (processed_set h w).
Proof.
  intros d q. unfold processed_set. rewrite elem_of_list_to_set, list_elem_of_fmap. intros (e & [= -> ->] & Hin).
  apply list_elem_of_In, filter_In in Hin as [_ Hin]. lia.
Qed.

Lemma vetted_share h votes w0 p c processed vote s st w st' w' :
  vetted h votes w0 w -> vote ∈ votes -> s ∈ ve_Shares (ent_VE vote) -> due h processed ->
  ingest_share p c processed (ent_Operator vote) s st w = Some (st', w') -> vetted h votes w0 w'.
Proof.
  intros Hv Hvote Hsin Hdue. unfold ingest_share. destruct (bool_decide (_ ∈ processed)) eqn:Ep; cbn [negb]; [|by intros [= _ <-]].
  apply bool_decide_eq_true, Hdue in Ep.
  repeat (destruct (bool_decide _) || destruct (hasRejectedShare _ _ _ _)); try by intros [= _ <-].
  destruct (classifyDecryptShare (ent_Operator vote) s w) as [[[member ctA] epoch]|] eqn:Ec; [|by intros [= _ <-]].
  destruct (_ <=? _); [by intros [= _ <-]|]. destruct (_ <? _); [done|].
  pose proof (vetted_store h votes w0 w vote s member ctA epoch Hv Hvote Hsin Ep Ec) as Hs.
  destruct (verifyAndStoreDecryptShare _ _ _ _ _) as [ok w1]. by intros [= _ <-].
Qed.

Lemma vetted_shares h votes w0 p c processed vote l : forall st w,
  vetted h votes w0 w -> vote ∈ votes -> (forall s, s ∈ l -> s ∈ ve_Shares (ent_VE vote)) -> due h processed ->
  vetted h votes w0 (ingest_shares p c processed (ent_Operator vote) l st w).2.
Proof.
  induction l as [|s l IH]; intros st w Hv Hvote Hl Hdue; simpl; [done|]. destruct (_ <=? _); [done|].
  destruct (ingest_share _ _ _ _ _ _ _) as [[st1 w1]|] eqn:E; [|done]. apply IH; [|done| |done].
  - eapply vetted_share; [exact Hv|done|apply Hl; by left|done..].
  - intros s' Hs'. apply Hl. by right.
Qed.

Lemma vetted_entries h votes w0 p cap c processed canon : forall st w,
  vetted h votes w0 w -> Forall (fun e => e ∈ votes) canon -> due h processed ->
  vetted h votes w0 (ingest_entries p cap c processed canon st w).2.
Proof.
  induction canon as [|e canon IH]; intros st w Hv Hops Hdue; simpl; [done|]. apply Forall_cons in Hops as [Hop Hops].
  destruct (_ <=? _); [done|].
  assert (Hs : forall shares w1, (forall s, s ∈ shares -> s ∈ ve_Shares (ent_VE e)) -> vetted h votes w0 w1 -> vetted h votes w0
    (let '(st1, w2) := ingest_shares p c processed (ent_Operator e) shares st w1 in
     ingest_entries p cap c processed canon st1 w2).2).
  { intros shares w1 Hsub Hw1. pose proof (vetted_shares h votes w0 p c processed e shares st w1 Hw1 Hop Hsub Hdue) as R.
    destruct (ingest_shares _ _ _ _ _ _ _) as [st1 w2]. by apply IH. }
  destruct (cap <? _); apply Hs; try done.
  - intros s Hin. by eapply (subseteq_take (Z.to_nat cap)).
  - eapply (vetted_frame _ _ []); [exact Hv|apply frame_emit|done..].
Qed.

Lemma Consume_vetted ctx entries w : vetted (u64 (BlockHeight ctx)) entries w (ConsumeVoteExtensions ctx entries w).
Proof.
  destruct (consume_split ctx entries w) as [[_ ->]|(w1 & R1 & R2)]; [apply vetted_refl|].
  eapply (vetted_frame _ _ []); [|exact R2|done..]. unfold ingestDecryptSharesBounded.
  pose proof (vetted_entries (u64 (BlockHeight ctx)) entries w (GetParams w) (VoteExtShareCap (GetParams w)) (share_ceiling (GetParams w))
    (processed_set (u64 (BlockHeight ctx)) w1) (canonical_entries entries) (mkShareSt ∅ ∅ 0 0 false) w1) as Hs.
  destruct (ingest_entries _ _ _ _ _ _ _) as [st w2]. cbn [snd] in Hs.
  assert (Hv : vetted (u64 (BlockHeight ctx)) entries w w2).
  { apply Hs.
    - eapply (vetted_frame _ _ [17; 18; 28; 32]); [|exact R1|done..].
      eapply (vetted_frame _ _ [26; 27; 34]); [apply vetted_refl| |done..].
      apply frame_count_steps. intros. apply frame_RecordEncPubKey.
    - apply Forall_forall. intros e. apply canonical_sub.
    - apply processed_due. }
  destruct (ss_deferred st); [|exact Hv]. eapply (vetted_frame _ _ []); [exact Hv|apply frame_emit|done..].
Qed.
(** ** The work of a block *)

(** The records the verification of shares leaves: stored shares and rejections. *)
Definition share_records w : Z := zlen (siter EncSharePrefix w) + zlen (siter RejectedDecryptSharePrefix w).

Lemma siter_sset_le p t v w : is_Some (prefixEnd p) -> zlen (siter p (sset (p +:+ t) v w)) <= zlen (siter p w) + 1.
Proof.
  intros Hp. unfold zlen, siter. rewrite (kv_iter_split StoreKey p t (sset (p +:+ t) v w) Hp), (kv_iter_split StoreKey p t w Hp).
  rewrite (kv_iter_ext StoreKey p (kv_delete StoreKey (p +:+ t) w) (kv_delete StoreKey (p +:+ t) (sset (p +:+ t) v w)) Hp).
  - rewrite !length_app. destruct (kv_get _ _ _), (kv_get _ _ w); simpl; lia.
  - intros t'. change (sget (p +:+ t') (sdel (p +:+ t) (sset (p +:+ t) v w)) = sget (p +:+ t') (sdel (p +:+ t) w)).
    rewrite !sget_sdel, sget_sset. by case_decide.
Qed.

Lemma siter_frame ps z w w' : frame ps w w' -> 0 <= z < 255 -> Zmem z ps = false -> siter (byte_prefix z) w' = siter (byte_prefix z) w.
Proof.
  intros F Hz Hm. apply kv_iter_ext; [by apply prefixEnd_byte|]. intros t. apply (frame_sget _ _ _ _ F).
  unfold byte_prefix. rewrite str_app_cons. unfold key_in. by rewrite byte_to_Z_of by lia.
Qed.

Lemma records_store epoch ctA op s w : share_records (verifyAndStoreDecryptShare epoch ctA op s w).2 <= share_records w + 1.
Proof.
  assert (H7 : is_Some (prefixEnd EncSharePrefix)) by by apply prefixEnd_byte.
  assert (H33 : is_Some (prefixEnd RejectedDecryptSharePrefix)) by by apply prefixEnd_byte.
  unfold verifyAndStoreDecryptShare, share_records. destruct (negb _); simpl.
  - unfold setRejectedShare, rejectedShareKey. set (w1 := emit _ w).
    rewrite (siter_frame [33] 7 w1) by (first [by apply frame_set|lia|done]).
    pose proof (siter_sset_le RejectedDecryptSharePrefix (be64 (vs_DecryptHeight s) +:+ (be64 (vs_Seq s) +:+ be64 (vs_Index s))) marker w1 H33) as Hl.
    change (siter ?p w1) with (siter p w) in *. unfold EncSharePrefix. lia.
  - unfold SetEncShare, encShareKey. cbn [s_DecryptHeight s_Seq s_Index].
    rewrite (siter_frame [7] 33 w) by (first [by apply frame_set|lia|done]).
    match goal with |- context [sset (EncSharePrefix +:+ ?t) ?v w] => pose proof (siter_sset_le EncSharePrefix t v w H7) end.
    unfold RejectedDecryptSharePrefix. lia.
Qed.

(** The budget in use covers the shares stored and the records written. *)
Record paid (ceiling base : Z) (st : share_st) w : Prop := {
  pd_budget : 0 <= ss_global st <= ceiling;
  pd_stored : ss_shared st <= ss_global st;
  pd_records : share_records w <= base + ss_global st
}.

Lemma paid_share p c base processed op s st w st' w' :
  1 <= EffectiveShareBudget p -> paid c base st w -> ingest_share p c processed op s st w = Some (st', w') -> paid c base st' w'.
Proof.
  intros Hb Hp. unfold ingest_share. repeat (destruct (negb _) || destruct (bool_decide _) || destruct (hasRejectedShare _ _ _ _));
    try by intros [= <- <-].
  destruct (classifyDecryptShare op s w) as [[[member ctA] epoch]|]; [|by intros [= <- <-]].
  destruct (_ <=? _); [by intros [= <- <-]|]. set (cost := if _ =? 0 then _ else 1).
  assert (Hc : 1 <= cost) by (unfold cost; destruct (_ =? 0); lia).
  destruct (Z.ltb_spec c (ss_global st + cost)); [done|].
  pose proof (records_store epoch ctA op s w) as Hr. destruct (verifyAndStoreDecryptShare _ _ _ _ _) as [ok w1].
  intros [= <- <-]. destruct Hp. cbn [snd] in Hr. split; cbn [ss_global ss_shared]; [lia|destruct ok; lia|lia].
Qed.

Lemma paid_shares p c base processed op l : 1 <= EffectiveShareBudget p -> forall st w,
  paid c base st w -> let r := ingest_shares p c processed op l st w in paid c base r.1 r.2.
Proof.
  intros Hb. induction l as [|s l IH]; intros st w Hp; simpl; [done|].
  assert (Hd : paid c base (set_deferred st) w) by (destruct Hp; by split).
  destruct (_ <=? _); [done|]. destruct (ingest_share _ _ _ _ _ _ _) as [[st1 w1]|] eqn:E; [|done].
  apply IH. exact (paid_share _ _ _ _ _ _ _ _ _ _ Hb Hp E).
Qed.

Lemma paid_entries p cap c base processed canon : 1 <= EffectiveShareBudget p -> forall st w,
  paid c base st w -> let r := ingest_entries p cap c processed canon st w in paid c base r.1 r.2.
Proof.
  intros Hb. induction canon as [|e canon IH]; intros st w Hp; simpl; [done|].
  assert (Hd : paid c base (set_deferred st) w) by (destruct Hp; by split).
  destruct (_ <=? _); [done|].
  assert (Hs : forall shares w1, paid c base st w1 ->
    let r := (let '(st1, w2) := ingest_shares p c processed (ent_Operator e) shares st w1 in
     ingest_entries p cap c processed canon st1 w2) in paid c base r.1 r.2).
  { intros shares w1 Hw1. pose proof (paid_shares p c base processed (ent_Operator e) shares Hb st w1 Hw1) as R.
    destruct (ingest_shares _ _ _ _ _ _ _) as [st1 w2]. by apply IH. }
  destruct (cap <? _); apply Hs; [|done]. destruct Hp. by split.
Qed.

(** C37: the order of the votes is irrelevant.  When no named operator votes twice,
    every order of the same votes leads to the same state, so all nodes that
    process the same injected commit agree. *)
Theorem votes_order_irrelevant ctx entries entries' w :
  entries ≡ₚ entries' -> NoDup (ent_Operator <$> List.filter named entries) ->
  ConsumeVoteExtensions ctx entries w = ConsumeVoteExtensions ctx entries' w.
Proof.
  intros Hp Hnd. unfold ConsumeVoteExtensions, consume_body. by rewrite (canonical_Permutation entries entries').
Qed.

(** C9: shares from vote extensions are verified and write-once.  Ingesting votes
    keeps every stored decryption share as it is.  Each share it adds was carried by
    the extension of one of the votes, whose operator owns its index in the round of
    the ciphertext's epoch; it belongs to a ciphertext in flight that has reached its
    decryption height, its discrete-log equality proof verifies against the epoch's
    key, and it is recorded as sent, under that operator, with the verified flag. *)
Theorem shares_vouched ctx entries w :
  let w' := ConsumeVoteExtensions ctx entries w in
  (forall k v, key_in [7] k = true -> sget k w = Some v -> sget k w' = Some v) /\
  (forall k v, key_in [7] k = true -> sget k w' = Some v -> sget k w = Some v \/ vouched (u64 (BlockHeight ctx)) entries w k v).
Proof. destruct (Consume_vetted ctx entries w) as [_ Hk Hn]. by split. Qed.

(** The verification work of a block is bounded.  However many shares the votes
    carry, at most [share_ceiling] are stored and at most that many records are
    written for accepted and rejected shares together; the ceiling is the
    configured one, or the cap of a single vote when that is larger. *)
Theorem verification_bounded ctx canon p w :
  is_u64 (DkgShareBudget p) ->
  let '(stored, w') := ingestDecryptSharesBounded ctx canon p w in
  stored <= share_ceiling p /\ share_records w' <= share_records w + share_ceiling p /\
  share_ceiling p <= Z.max (EffectiveMaxVerifyOps p) (VoteExtShareCap p).
Proof.
  intros Hu. unfold ingestDecryptSharesBounded.
  assert (Hb : 1 <= EffectiveShareBudget p).
  { unfold EffectiveShareBudget, DefaultDkgShareBudget, is_u64 in *. destruct (Z.eqb_spec (DkgShareBudget p) 0); lia. }
  assert (Hcap : 1 <= VoteExtShareCap p) by (unfold VoteExtShareCap, voteExtShareFloor; destruct (_ <? _); lia).
  assert (Hc : 0 <= share_ceiling p <= Z.max (EffectiveMaxVerifyOps p) (VoteExtShareCap p)).
  { unfold share_ceiling. destruct (EffectiveMaxVerifyOps p <? _) eqn:E1; destruct (_ <? VoteExtShareCap p) eqn:E2; bool_prop; lia. }
  pose proof (paid_entries p (VoteExtShareCap p) (share_ceiling p) (share_records w) (processed_set (u64 (BlockHeight ctx)) w)
    canon Hb (mkShareSt ∅ ∅ 0 0 false) w) as Hp.
  destruct (ingest_entries _ _ _ _ _ _ _) as [st w1]. destruct Hp as [Hg Hs Hr]; cbn [fst snd] in *.
  { split; simpl; lia. }
  split_and!; [lia| |lia]. destruct (ss_deferred st); [change (share_records (emit ?e w1)) with (share_records w1)|]; lia.
Qed.
End votes.

(** ** Concrete votes: two operators announce keys and send a share. *)
Module Example.
Import CurveModel EncModel.
#[local] Existing Instance decimal_MathInt.

Definition base : World ledger := mkWorld (mkLedger ∅ ∅) ∅ [].
Definition vote (op : string) (key : Z) : VEEntry :=
  mkVEEntry op (mkVoteExtension (be_bytes 33 key) (be_bytes 33 key +:+ Dkg.popDigest op) None
    [mkVoteExtShare 1 5 0 key "d" "proof"] [] []).

Definition now : Ctx := mkCtx 0 7 false false.

Lemma votes_order_irrelevant_witness :
  ConsumeVoteExtensions now [vote "op2" 5; vote "op1" 3] base = ConsumeVoteExtensions now [vote "op1" 3; vote "op2" 5] base.
Proof.
  assert (E : ent_Operator <$> List.filter named [vote "op2" 5; vote "op1" 3] = ["op2"; "op1"]) by (vm_compute; reflexivity).
  assert (Hnd : NoDup ["op2"; "op1"]).
  { apply NoDup_cons. split; [|apply NoDup_singleton]. intros ?%list_elem_of_singleton. discriminate. }
  rewrite <- E in Hnd.
  exact (votes_order_irrelevant now _ _ base (Permutation_swap (vote "op1" 3) (vote "op2" 5) []) Hnd).
Defined.

Lemma verification_bounded_witness :
  share_ceiling DefaultParams = 4096 /\
  share_records (snd (ingestDecryptSharesBounded now [vote "op1" 3; vote "op2" 5] DefaultParams base)) <= share_records base + 4096.
Proof.
  assert (Hu : is_u64 (DkgShareBudget DefaultParams)) by (vm_compute; split; congruence).
  assert (E : share_ceiling DefaultParams = 4096) by (vm_compute; reflexivity).
  pose proof (verification_bounded now [vote "op1" 3; vote "op2" 5] DefaultParams base Hu) as Ht.
  destruct (ingestDecryptSharesBounded now [vote "op1" 3; vote "op2" 5] DefaultParams base) as [stored w'].
  destruct Ht as (_ & Hr & _). rewrite E in Hr. split; [exact E|exact Hr].
Defined.
End Example.
End EncVotes.
