(* ===== verification/VoteExtServed.v ===== *)
(** * evmd: the decryption shares of an honest node are stored

    From the extension a node builds to the record the chain keeps: the vote is
    counted in the bounded ingestion of the block, among the votes of the others. *)
From S2P Require Import Prelude Codec Bank Sha256 EncTypes StakeWeight Threshold CurveModel Dkg DkgProofs EncKeeper EncRegistry EncDkg EncIngest EncFrame DkgNode EncInvariant VoteExt VoteExtProofs EncModel EncVotes.
From stdpp Require Import gmap strings list sorting.
From Stdlib Require Import ZArith Lia.

#[local] Set Default Goal Selector "!".
Open Scope Z_scope.

Module VoteExtServed.
Import EncTypes EncKeeper EncRegistry EncDkg EncIngest EncFrame EncInvariant Threshold Dkg DkgProofs DkgNode VoteExt VoteExtProofs EncVotes.

(** Each operator counts once. *)
Lemma first_by_operator_NoDup l : forall seen,
  NoDup (ent_Operator <$> first_by_operator seen l) /\
  forall e, e ∈ first_by_operator seen l -> contains seen (ent_Operator e) = false.
Proof.
  induction l as [|x l IH]; intros seen; cbn [first_by_operator]; [split; [constructor|by intros e ?%not_elem_of_nil]|].
  destruct (String.eqb _ _ || contains seen _) eqn:E; [apply IH|]. apply orb_false_iff in E as [_ E].
  destruct (IH (ent_Operator x :: seen)) as [Hn Hs]. cbn [contains] in Hs. split.
  - rewrite fmap_cons. apply NoDup_cons. split; [|done]. intros (e & Eo & He)%list_elem_of_fmap. specialize (Hs e He).
    by rewrite Eo, String.eqb_refl in Hs.
  - intros e [->|He]%elem_of_cons; [done|]. specialize (Hs e He). by destruct (String.eqb _ _).
Qed.

Lemma canonical_NoDup entries : NoDup (ent_Operator <$> canonical_entries entries).
Proof. apply first_by_operator_NoDup. Qed.

(** ** The owner of a point *)

(** The members of a round have distinct indices and the points they own are distinct. *)
Record round_ok (round : DkgRound) : Prop := {
  ro_indices : NoDup (Index <$> r_Members round);
  ro_points : NoDup (snd <$> owned_points (r_Members round));
  ro_range : Forall (fun m => Forall (fun i => 0 <= i < 2 ^ 32) (OwnedEvalPoints m)) (r_Members round)
}.

Lemma member_of round op : round_ok round -> memberIndexByOperator round op <> 0 ->
  exists m, m ∈ r_Members round /\ memberByIndex round (memberIndexByOperator round op) = Some m /\ OperatorAddr m = op.
Proof.
  intros Hr Hi. assert (G : exists m, m ∈ r_Members round /\ Index m = memberIndexByOperator round op /\ OperatorAddr m = op).
  { unfold memberIndexByOperator, MemberIndexByOperator in *. destruct (String.eqb op ""); [done|]. revert Hi. clear.
    induction (r_Members round) as [|m l IH]; cbn [index_by_operator]; [done|]. destruct (String.eqb (OperatorAddr m) op) eqn:E.
    - intros _. apply String.eqb_eq in E. exists m. split_and!; [by left|done..].
    - intros (m' & ? & ?)%IH. exists m'. split; [by right|done]. }
  destruct G as (m & Hm & Ei & Eo). exists m. split_and!; [done| |done]. rewrite <- Ei. apply find_unique; [apply Hr|done].
Qed.

Lemma sole_owner round op op' m m' i : round_ok round ->
  memberIndexByOperator round op <> 0 -> memberByIndex round (memberIndexByOperator round op) = Some m -> OwnsEvalPoint m i = true ->
  memberIndexByOperator round op' <> 0 -> memberByIndex round (memberIndexByOperator round op') = Some m' -> OwnsEvalPoint m' i = true ->
  op = op'.
Proof.
  intros Hr H0 Hm Ho H0' Hm' Ho'. destruct (member_of round op Hr H0) as (x & Hx & Ex & <-), (member_of round op' Hr H0') as (x' & Hx' & Ex' & <-).
  rewrite Hm in Ex. rewrite Hm' in Ex'. injection Ex as ->. injection Ex' as ->. apply Zmem_spec in Ho, Ho'. do 1 f_equal.
  assert (H1 : (x, i) ∈ owned_points (r_Members round)) by by apply owned_points_elem.
  assert (H2 : (x', i) ∈ owned_points (r_Members round)) by by apply owned_points_elem.
  apply list_elem_of_lookup in H1 as [a Ha], H2 as [b Hb].
  assert (a = b) as <-; [|congruence].
  eapply (proj1 (NoDup_alt _) (ro_points _ Hr) a b i); by rewrite list_lookup_fmap, ?Ha, ?Hb.
Qed.

Lemma member_points round m : round_ok round -> m ∈ r_Members round -> NoDup (OwnedEvalPoints m).
Proof.
  intros Hr. pose proof (ro_points _ Hr) as Hn. rewrite <- points_snd in Hn. revert Hn. clear Hr.
  induction (r_Members round) as [|x l IH]; [by intros _ ?%not_elem_of_nil|]. rewrite fmap_cons. cbn [concat].
  intros (Hx & _ & Hl)%NoDup_app [->|Hm]%elem_of_cons; [done|by apply IH].
Qed.


Section ingest.
Context {B : Type} `{EncJSON} `{!EncJSONLaws} `{Curve} `{AesGcm} `{MathInt} `{Ecdsa}.
Implicit Types (w : World B) (e : EncTx) (s : VoteExtShare).

Lemma processed_frame ps h w w' : frame ps w w' -> Zmem 6 ps = false -> processed_set h w' = processed_set h w.
Proof.
  intros F H6. unfold processed_set, IterateInFlightFrom. do 4 f_equal. apply kv_range_ext. intros k [t ->]%range_prefix.
  apply (frame_sget ps (EncTxPrefix +:+ t) w w' F). unfold EncTxPrefix, byte_prefix. rewrite str_app_cons. unfold key_in.
  by rewrite byte_to_Z_of by lia.
Qed.

(** ** The price of a share

    One verification with a cached share key, the share budget without. *)
Definition share_cost (p : Params) w s : Z :=
  if strlen (getShareKeyCache (vs_Epoch s) (vs_Index s) w) =? 0 then EffectiveShareBudget p else 1.
(** The shares of a vote that are looked at, and their price. *)
Definition counted (p : Params) (v : VEEntry) : list VoteExtShare := take (Z.to_nat (VoteExtShareCap p)) (ve_Shares (ent_VE v)).
Definition vote_cost (p : Params) w (v : VEEntry) : Z := sumZ (share_cost p w) (counted p v).

Definition slot s : Z * Z * Z := (vs_DecryptHeight s, vs_Seq s, vs_Index s).
Definition same_tx s s' : bool := for_ct (vs_DecryptHeight s', vs_Seq s') s.

(** ** Before the share [s0] of the operator [op] is met *)
Section target.
Context (p : Params) (ceiling : Z) (processed : gset (Z * Z)) (w0 : World B) (op : string) (s0 : VoteExtShare).
Hypothesis Hbudget : 1 <= EffectiveShareBudget p.

Record waiting (st : share_st) w (global spent : Z) : Prop := {
  wt_frame : frame consume_prefixes w0 w;
  wt_unseen : slot s0 ∉ ss_seen st;
  wt_share : sget (encShareKey (vs_DecryptHeight s0) (vs_Seq s0) (vs_Index s0)) w =
             sget (encShareKey (vs_DecryptHeight s0) (vs_Seq s0) (vs_Index s0)) w0;
  wt_rejected : sget (rejectedShareKey (vs_DecryptHeight s0) (vs_Seq s0) (vs_Index s0)) w =
                sget (rejectedShareKey (vs_DecryptHeight s0) (vs_Seq s0) (vs_Index s0)) w0;
  wt_global : ss_global st <= global;
  wt_spent : default 0 (ss_spent st !! (op, vs_DecryptHeight s0, vs_Seq s0)) <= spent
}.

Lemma cost_pos w s : 1 <= share_cost p w s.
Proof. unfold share_cost. destruct (_ =? 0); lia. Qed.

Definition typed_share s : Prop := is_u64 (vs_DecryptHeight s) /\ is_u64 (vs_Seq s) /\ is_u64 (vs_Index s).
Hypothesis Htyped : typed_share s0.

Lemma triple_inj (s : VoteExtShare) : typed_share s ->
  be64 (vs_DecryptHeight s) +:+ (be64 (vs_Seq s) +:+ be64 (vs_Index s)) =
  be64 (vs_DecryptHeight s0) +:+ (be64 (vs_Seq s0) +:+ be64 (vs_Index s0)) -> slot s = slot s0.
Proof.
  intros (Hh & Hq & Hi) E. destruct Htyped as (Hh0 & Hq0 & Hi0). unfold slot.
  apply be64_app_inj in E as [E1 E]; [|done..]. apply be64_app_inj in E as [E2 E]; [|done..]. apply be64_inj in E; [|done..]. congruence.
Qed.

Lemma waiting_mono st w g g' k k' : waiting st w g k -> g <= g' -> k <= k' -> waiting st w g' k'.
Proof. intros [] ? ?. split; try done; lia. Qed.

Lemma waiting_store st w g k op' s epoch ctA spent cost ok w' :
  waiting st w g k -> typed_share s -> slot s <> slot s0 -> verifyAndStoreDecryptShare epoch ctA op' s w = (ok, w') ->
  (op' = op -> same_tx s s0 = true -> spent <= k) ->
  waiting (mkShareSt ({[slot s]} ∪ ss_seen st) (<[(op', vs_DecryptHeight s, vs_Seq s) := spent + 1]> (ss_spent st)) (ss_global st + cost)
    (if ok : bool then ss_shared st + 1 else ss_shared st) (ss_deferred st)) w' (g + cost)
    (if String.eqb op' op && same_tx s s0 then k + 1 else k).
Proof.
  intros [F Hu Hs Hr Hg Hk] Ht Hne E Hsp.
  assert (Hkey : forall pre, pre +:+ (be64 (vs_DecryptHeight s) +:+ (be64 (vs_Seq s) +:+ be64 (vs_Index s))) <>
    pre +:+ (be64 (vs_DecryptHeight s0) +:+ (be64 (vs_Seq s0) +:+ be64 (vs_Index s0)))).
  { intros pre Ek. apply str_app_inv in Ek as [_ Ek]; [|done]. by apply Hne, triple_inj. }
  assert (G : frame consume_prefixes w0 w' /\
    sget (encShareKey (vs_DecryptHeight s0) (vs_Seq s0) (vs_Index s0)) w' = sget (encShareKey (vs_DecryptHeight s0) (vs_Seq s0) (vs_Index s0)) w /\
    sget (rejectedShareKey (vs_DecryptHeight s0) (vs_Seq s0) (vs_Index s0)) w' = sget (rejectedShareKey (vs_DecryptHeight s0) (vs_Seq s0) (vs_Index s0)) w).
  { unfold verifyAndStoreDecryptShare in E. destruct (negb _); injection E as _ <-.
    - split; [eapply frame_trans; [exact F|]; eapply frame_trans; [apply frame_emit|by apply frame_set]|].
      unfold setRejectedShare. rewrite !sget_sset. rewrite !decide_False; [done|apply Hkey|done].
    - split; [eapply frame_trans; [exact F|by apply frame_set]|]. unfold SetEncShare. cbn [s_DecryptHeight s_Seq s_Index].
      rewrite !sget_sset. rewrite !decide_False; [done|done|apply Hkey]. }
  destruct G as (F' & Es & Er). split; [done| |by rewrite Es|by rewrite Er|cbn [ss_global]; lia|].
  - cbn [ss_seen]. rewrite elem_of_union, elem_of_singleton. naive_solver.
  - cbn [ss_spent]. destruct (decide ((op', vs_DecryptHeight s, vs_Seq s) = (op, vs_DecryptHeight s0, vs_Seq s0))) as [Ek|Hk'].
    + rewrite Ek, lookup_insert_eq. injection Ek as -> E1 E2. assert (Es' : same_tx s s0 = true) by (apply bool_decide_eq_true; congruence).
      rewrite Es', String.eqb_refl. cbn [andb]. specialize (Hsp eq_refl Es'). unfold default, from_option, id. lia.
    + rewrite lookup_insert_ne by done. destruct (_ && _); lia.
Qed.

(** Any other share, or one that is not accepted for the slot, leaves it open. *)
Lemma waiting_step op' s st w g k :
  waiting st w g k -> typed_share s ->
  (slot s = slot s0 -> forall w, frame consume_prefixes w0 w -> classifyDecryptShare op' s w = None) ->
  g + share_cost p w0 s <= ceiling ->
  exists st' w', ingest_share p ceiling processed op' s st w = Some (st', w') /\
    waiting st' w' (g + share_cost p w0 s) (if String.eqb op' op && same_tx s s0 then k + 1 else k).
Proof.
  intros Hw Ht Hno Hc. pose proof (cost_pos w0 s) as Hpos.
  assert (Hskip : exists st' w', Some (st, w) = Some (st', w') /\
    waiting st' w' (g + share_cost p w0 s) (if String.eqb op' op && same_tx s s0 then k + 1 else k)).
  { exists st, w. split; [done|]. eapply waiting_mono; [exact Hw|lia|]. destruct (_ && _); lia. }
  unfold ingest_share. destruct (negb _); [done|]. destruct (bool_decide (_ ∈ ss_seen st)); [done|]. destruct (hasRejectedShare _ _ _ _); [done|].
  destruct (classifyDecryptShare op' s w) as [[[member ctA] epoch]|] eqn:Ec; [|done].
  assert (Hne : slot s <> slot s0) by (intros E; rewrite (Hno E w (wt_frame _ _ _ _ Hw)) in Ec; done).
  destruct (classify_inv _ _ _ _ _ _ Ec) as (e & round & _ & _ & Eep & _ & _ & _ & _ & -> & ->).
  set (spent := default 0 (ss_spent st !! (op', vs_DecryptHeight s, vs_Seq s))). destruct (owned member <=? spent); [done|].
  assert (Ecost : (if strlen (getShareKeyCache (e_Epoch e) (vs_Index s) w) =? 0 then EffectiveShareBudget p else 1) = share_cost p w0 s).
  { unfold share_cost. rewrite <- Eep. unfold getShareKeyCache. by rewrite (frame_sget _ _ _ _ (wt_frame _ _ _ _ Hw)) by done. }
  cbv zeta. rewrite Ecost. pose proof (wt_global _ _ _ _ Hw). rewrite (proj2 (Z.ltb_ge ceiling _)) by lia.
  destruct (verifyAndStoreDecryptShare _ _ _ _ _) as [ok w1] eqn:Ev. eexists _, _. split; [reflexivity|].
  eapply waiting_store; [exact Hw|done..|]. intros -> Hsame. unfold spent. apply bool_decide_eq_true in Hsame. injection Hsame as E1 E2.
  rewrite E1, E2. apply Hw.
Qed.

(** The shares of a list that leave the slot open, and their number for the same
    ciphertext. *)
Lemma waiting_shares op' l : forall st w g k,
  waiting st w g k -> Forall typed_share l ->
  (forall s, s ∈ l -> slot s = slot s0 -> forall w, frame consume_prefixes w0 w -> classifyDecryptShare op' s w = None) ->
  g + sumZ (share_cost p w0) l <= ceiling -> forall rest,
  exists st' w', ingest_shares p ceiling processed op' (l ++ rest) st w = ingest_shares p ceiling processed op' rest st' w' /\
    waiting st' w' (g + sumZ (share_cost p w0) l) (k + (if String.eqb op' op then zlen (List.filter (fun s => same_tx s s0) l) else 0)).
Proof.
  induction l as [|s l IH]; intros st w g k Hw Ht Hno Hc rest.
  { exists st, w. split; [done|]. eapply waiting_mono; [exact Hw|simpl; lia|]. destruct (String.eqb _ _); unfold zlen; simpl; lia. }
  apply Forall_cons in Ht as [Ht Hts]. cbn [sumZ] in *. pose proof (cost_pos w0 s).
  assert (Hl : 0 <= sumZ (share_cost p w0) l) by (apply sumZ_nonneg, Forall_forall; intros x _; pose proof (cost_pos w0 x); lia).
  destruct (waiting_step op' s st w g k Hw Ht ltac:(intros E; apply Hno; [by left|done]) ltac:(lia)) as (st1 & w1 & E1 & Hw1).
  destruct (IH st1 w1 _ _ Hw1 Hts ltac:(intros x Hx; apply Hno; by right) ltac:(lia) rest) as (st2 & w2 & E2 & Hw2).
  exists st2, w2. cbn [app ingest_shares]. pose proof (wt_global _ _ _ _ Hw). rewrite (proj2 (Z.leb_gt ceiling _)) by lia.
  rewrite E1, E2. split; [done|]. eapply waiting_mono; [exact Hw2|lia|]. cbn [List.filter].
  destruct (String.eqb op' op); destruct (same_tx s s0); cbn [andb]; unfold zlen; simpl length; lia.
Qed.

Lemma waiting_emit st w g k ev : waiting st w g k -> waiting st (emit ev w) g k.
Proof. intros [F ? ? ? ? ?]. by split. Qed.

Lemma counted_entry (v : VEEntry) rest st w : ss_global st < ceiling -> exists w1, (w1 = w \/ exists ev, w1 = emit ev w) /\
  ingest_entries p (VoteExtShareCap p) ceiling processed (v :: rest) st w =
  (let '(st', w') := ingest_shares p ceiling processed (ent_Operator v) (counted p v) st w1 in
   ingest_entries p (VoteExtShareCap p) ceiling processed rest st' w').
Proof.
  intros Hg. cbn [ingest_entries]. rewrite (proj2 (Z.leb_gt ceiling _)) by lia. unfold counted.
  destruct (Z.ltb_spec (VoteExtShareCap p) (zlen (ve_Shares (ent_VE v)))) as [Hl|Hl].
  - eexists. split; [right; eexists; reflexivity|reflexivity].
  - exists w. split; [by left|]. rewrite take_ge; [done|]. unfold zlen in Hl. lia.
Qed.

(** The vote of another operator, none of whose shares is accepted for the slot. *)
Definition other (v : VEEntry) : Prop :=
  ent_Operator v <> op /\ Forall typed_share (ve_Shares (ent_VE v)) /\
  forall s, s ∈ ve_Shares (ent_VE v) -> slot s = slot s0 -> forall w, frame consume_prefixes w0 w -> classifyDecryptShare (ent_Operator v) s w = None.

Lemma vote_cost_nonneg v : 0 <= vote_cost p w0 v.
Proof. apply sumZ_nonneg, Forall_forall. intros x _. pose proof (cost_pos w0 x). lia. Qed.

Lemma waiting_entries canon : forall st w g k rest,
  waiting st w g k -> Forall other canon -> g + sumZ (vote_cost p w0) canon < ceiling ->
  exists st' w', ingest_entries p (VoteExtShareCap p) ceiling processed (canon ++ rest) st w =
      ingest_entries p (VoteExtShareCap p) ceiling processed rest st' w' /\
    waiting st' w' (g + sumZ (vote_cost p w0) canon) k.
Proof.
  induction canon as [|v canon IH]; intros st w g k rest Hw Ho Hc.
  { exists st, w. split; [done|]. eapply waiting_mono; [exact Hw|simpl; lia|lia]. }
  apply Forall_cons in Ho as [(Hne & Ht & Hno) Ho]. cbn [sumZ] in *. pose proof (wt_global _ _ _ _ Hw).
  pose proof (vote_cost_nonneg v). assert (0 <= sumZ (vote_cost p w0) canon) by (apply sumZ_nonneg, Forall_forall; intros; apply vote_cost_nonneg).
  destruct (counted_entry v (canon ++ rest) st w ltac:(lia)) as (w1 & Hw1 & E). rewrite <- app_comm_cons, E.
  assert (Hwt : waiting st w1 g k) by (destruct Hw1 as [->|[ev ->]]; [done|by apply waiting_emit]).
  destruct (waiting_shares (ent_Operator v) (counted p v) st w1 g k Hwt) with (rest := @nil VoteExtShare) as (st2 & w2 & E2 & Hw2).
  - by apply Forall_take.
  - intros s Hs. apply Hno. by eapply subseteq_take.
  - unfold vote_cost in *. lia.
  - rewrite app_nil_r in E2. rewrite E2. cbn [ingest_shares]. rewrite (proj2 (String.eqb_neq _ _) Hne) in Hw2. unfold vote_cost in *.
    destruct (IH st2 w2 (g + sumZ (share_cost p w0) (counted p v)) k rest) as (st3 & w3 & E3 & Hw3); [|done|lia|].
    + eapply waiting_mono; [exact Hw2|lia|lia].
    + exists st3, w3. split; [exact E3|]. eapply waiting_mono; [exact Hw3|lia|lia].
Qed.

(** The share itself: within its operator's quota and the budget, with a proof that
    verifies, it is stored. *)
Definition stored_record : string :=
  json_Marshal (mkEncShare op (vs_DecryptHeight s0) (vs_Seq s0) (vs_Index s0) (vs_D s0) (vs_Proof s0) true).
Definition share_slot : string := encShareKey (vs_DecryptHeight s0) (vs_Seq s0) (vs_Index s0).

Lemma waiting_stores st w g k member ctA epoch :
  waiting st w g k -> (vs_DecryptHeight s0, vs_Seq s0) ∈ processed ->
  hasRejectedShare (vs_DecryptHeight s0) (vs_Seq s0) (vs_Index s0) w0 = false ->
  classifyDecryptShare op s0 w0 = Some (member, ctA, epoch) -> k < owned member ->
  verifyDecryptShareDLEQ epoch ctA (vs_Index s0) (vs_D s0) (vs_Proof s0) w0 = true ->
  g + share_cost p w0 s0 <= ceiling ->
  exists st' w', ingest_share p ceiling processed op s0 st w = Some (st', w') /\ sget share_slot w' = Some stored_record.
Proof.
  intros Hw Hp Hr Hc Hk Hv Hg. destruct Hw as [F Hu Es Er Hgl Hsp]. unfold ingest_share.
  rewrite bool_decide_eq_true_2 by done. cbn [negb]. fold (slot s0). rewrite bool_decide_eq_false_2 by done.
  replace (hasRejectedShare _ _ _ w) with false by (unfold hasRejectedShare in *; by rewrite Er).
  assert (Hc' : classifyDecryptShare op s0 w = Some (member, ctA, epoch)).
  { rewrite <- Hc. unfold classifyDecryptShare, hasEncShareAt. rewrite Es.
    unfold GetEncTx, GetDkgRound, get_json. rewrite (frame_sget _ _ _ _ F) by done.
    destruct (strlen _ =? 0); [done|]. destruct (match sget _ w0 with Some _ => _ | None => _ end) as [e|]; [|done].
    by rewrite (frame_sget _ _ _ _ F) by done. }
  rewrite Hc'. destruct (classify_inv _ _ _ _ _ _ Hc') as (e & round & _ & _ & Eep & _ & _ & _ & _ & -> & ->).
  rewrite (proj2 (Z.leb_gt (owned member) _)) by lia.
  assert (Ecost : (if strlen (getShareKeyCache (e_Epoch e) (vs_Index s0) w) =? 0 then EffectiveShareBudget p else 1) = share_cost p w0 s0).
  { unfold share_cost. rewrite <- Eep. unfold getShareKeyCache. by rewrite (frame_sget _ _ _ _ F) by done. }
  cbv zeta. rewrite Ecost, (proj2 (Z.ltb_ge ceiling _)) by lia.
  unfold verifyAndStoreDecryptShare. rewrite (verify_frame _ _ _ _ _ _ _ F), Hv. cbn [negb]. eexists _, _. split; [reflexivity|].
  unfold SetEncShare, share_slot, stored_record. cbn [s_DecryptHeight s_Seq s_Index]. rewrite sget_sset. by rewrite decide_True.
Qed.

Lemma waiting_start : waiting (mkShareSt ∅ ∅ 0 0 false) w0 0 0.
Proof. by split. Qed.

Lemma entries_store h (votes : list VEEntry) v canon1 canon2 l1 l2 member ctA epoch :
  due h processed -> Forall (fun vote : VEEntry => vote ∈ votes) (v :: canon2) ->
  Forall other canon1 -> ent_Operator v = op -> counted p v = l1 ++ s0 :: l2 ->
  Forall typed_share l1 -> (forall s, s ∈ l1 -> slot s <> slot s0) ->
  zlen (List.filter (fun s => same_tx s s0) l1) < owned member ->
  (vs_DecryptHeight s0, vs_Seq s0) ∈ processed ->
  hasRejectedShare (vs_DecryptHeight s0) (vs_Seq s0) (vs_Index s0) w0 = false ->
  classifyDecryptShare op s0 w0 = Some (member, ctA, epoch) ->
  verifyDecryptShareDLEQ epoch ctA (vs_Index s0) (vs_D s0) (vs_Proof s0) w0 = true ->
  sumZ (vote_cost p w0) (canon1 ++ v :: canon2) <= ceiling ->
  sget share_slot (ingest_entries p (VoteExtShareCap p) ceiling processed (canon1 ++ v :: canon2) (mkShareSt ∅ ∅ 0 0 false) w0).2 =
  Some stored_record.
Proof.
  intros Hdue Hin Ho Hop Hl Ht Hne Hq Hp Hr Hc Hv Hsum. rewrite sumZ_app in Hsum. cbn [sumZ] in Hsum.
  pose proof (sumZ_nonneg (vote_cost p w0) canon2 ltac:(apply Forall_forall; intros; apply vote_cost_nonneg)) as H2'.
  assert (Hvc : vote_cost p w0 v = sumZ (share_cost p w0) l1 + (share_cost p w0 s0 + sumZ (share_cost p w0) l2)).
  { unfold vote_cost. by rewrite Hl, sumZ_app. }
  assert (Hcosts : forall l, 0 <= sumZ (share_cost p w0) l) by (intros l; apply sumZ_nonneg, Forall_forall; intros x _; pose proof (cost_pos w0 x); lia).
  pose proof (Hcosts l1). pose proof (Hcosts l2). pose proof (cost_pos w0 s0).
  destruct (waiting_entries canon1 _ _ _ _ (v :: canon2) waiting_start Ho ltac:(lia)) as (st1 & w1 & E1 & Hw1). rewrite E1.
  pose proof (wt_global _ _ _ _ Hw1). destruct (counted_entry v canon2 st1 w1 ltac:(lia)) as (w2 & Hw2 & E2). rewrite E2, Hl, Hop.
  assert (Hwt : waiting st1 w2 (0 + sumZ (vote_cost p w0) canon1) 0) by (destruct Hw2 as [->|[ev ->]]; [done|by apply waiting_emit]).
  destruct (waiting_shares op l1 st1 w2 _ _ Hwt Ht) with (rest := s0 :: l2) as (st3 & w3 & E3 & Hw3); [intros s Hs Es; by destruct (Hne s Hs)|lia|].
  rewrite String.eqb_refl in Hw3. rewrite E3. cbn [ingest_shares]. pose proof (wt_global _ _ _ _ Hw3). rewrite (proj2 (Z.leb_gt ceiling _)) by lia.
  destruct (waiting_stores st3 w3 _ _ member ctA epoch Hw3 Hp Hr Hc ltac:(lia) Hv ltac:(lia)) as (st4 & w4 & E4 & Hg). rewrite E4.
  apply Forall_cons in Hin as [Hvin Hin].
  pose proof (vetted_shares h votes w4 p ceiling processed v l2 st4 w4 (vetted_refl h votes w4) Hvin
    ltac:(intros s Hs; eapply (subseteq_take (Z.to_nat (VoteExtShareCap p))); change (s ∈ counted p v); rewrite Hl; set_solver) Hdue) as V.
  rewrite Hop in V. destruct (ingest_shares _ _ _ _ l2 _ _) as [st5 w5]. cbn [snd] in V.
  pose proof (vetted_entries h votes w4 p (VoteExtShareCap p) ceiling processed canon2 st5 w5 V Hin Hdue) as V'.
  exact (v_keep _ _ _ _ V' share_slot _ eq_refl Hg).
Qed.

End target.
End ingest.

(** ** From the node to the chain *)
Section served.
Context {B : Type} `{EncJSON} `{!EncJSONLaws} `{CurveLaws} `{AesGcm} `{MathInt} `{Ecdsa}.
Implicit Types (w : World B) (e : EncTx) (s : VoteExtShare).

Lemma served_chunk fuel ctx ek op w cache s : enc_inv w ->
  let h := u64 (BlockHeight ctx) in
  let out := (buildDecryptShares fuel ctx ek op w cache).1 in
  s ∈ out -> exists e round, in_flight w e /\ served_for fuel h ek op w cache e s /\ GetDkgRound (e_Epoch e) w = Some round /\
    sublist (vs_Index <$> List.filter (for_ct (vs_DecryptHeight s, vs_Seq s)) out) (my_points op round).
Proof.
  intros Hi h out Hs. destruct (build_spec fuel ctx ek op w cache Hi) as (_ & es & cs & Hn & HW & HF & E). fold h out in HF, E.
  assert (Hsf : s ∈ List.filter (for_ct (vs_DecryptHeight s, vs_Seq s)) out).
  { apply list_elem_of_In, List.filter_In. split; [by apply list_elem_of_In|by apply bool_decide_eq_true]. }
  destruct (chunks_filter fuel h ek op w cache (vs_DecryptHeight s, vs_Seq s) es cs Hn (Forall_impl _ _ _ HW (fun e He => proj1 He)) HF)
    as [E0|(e & Hf & _ & HS & Hsub)]; rewrite <- E in *.
  - rewrite E0 in Hsf. by apply not_elem_of_nil in Hsf.
  - destruct Hsub as [E0|(round & HR & Hsub)]; [rewrite E0 in Hsf; by apply not_elem_of_nil in Hsf|].
    exists e, round. split_and!; [done| |done..]. by eapply Forall_forall in HS.
Qed.

(** The state [w'] in which the votes are counted, at height [h], still holds what the
    node read in [w] for the share [s], and the slot of the share is open. *)
Record carried (h : Z) w w' s : Prop := {
  ca_params : GetParams w' = GetParams w;
  ca_tx : GetEncTx (vs_DecryptHeight s) (vs_Seq s) w' = GetEncTx (vs_DecryptHeight s) (vs_Seq s) w;
  ca_round : GetDkgRound (vs_Epoch s) w' = GetDkgRound (vs_Epoch s) w;
  ca_key : GetActiveKey (vs_Epoch s) w' = GetActiveKey (vs_Epoch s) w;
  ca_open : hasEncShareAt (vs_DecryptHeight s) (vs_Seq s) (vs_Index s) w' = false;
  ca_unrejected : hasRejectedShare (vs_DecryptHeight s) (vs_Seq s) (vs_Index s) w' = false;
  ca_window : (vs_DecryptHeight s, vs_Seq s) ∈ processed_set h w'
}.

(** [vote] counts for [op] and carries [out], and the block can pay for the shares of
    all the votes it counts. *)
Record payable (entries : list VEEntry) (vote : VEEntry) (op : string) (out : list VoteExtShare) w : Prop := {
  py_vote : vote ∈ canonical_entries entries;
  py_operator : ent_Operator vote = op;
  py_shares : ve_Shares (ent_VE vote) = out;
  py_typed : Forall (fun v => Forall typed_share (ve_Shares (ent_VE v))) (canonical_entries entries);
  py_enabled : DkgEnabled (GetParams w) = true /\ DkgTransparent (GetParams w) = true;
  py_unsigned : is_u64 (DkgShareBudget (GetParams w));
  py_budget : sumZ (vote_cost (GetParams w) w) (canonical_entries entries) <= share_ceiling (GetParams w)
}.

Lemma classify_served fuel h h' ek op w w' cache e s round :
  in_flight w e -> served_for fuel h ek op w cache e s -> carried h' w w' s -> GetDkgRound (e_Epoch e) w = Some round -> round_ok round ->
  exists member, classifyDecryptShare op s w' = Some (member, e_A e, e_Epoch e) /\ member ∈ r_Members round /\
    my_points op round = OwnedEvalPoints member.
Proof.
  intros Hf [Ee Eh Eq Hne _ _ (round' & ak & shares & sh & D & Hsh & Ei & HP)] [_ Ct Cr _ Co _ _] HR Hro.
  destruct D as [HR' Hm _ Hder _]. rewrite HR in HR'. injection HR' as <-.
  change (memberIndexByOperator round op <> 0) in Hm. destruct (member_of round op Hro Hm) as (m & Hin & Em & _). exists m.
  assert (Ep : my_points op round = OwnedEvalPoints m) by (unfold my_points, points_of; unfold memberIndexByOperator in Em; by rewrite Em).
  split_and!; [|done|done]. unfold classifyDecryptShare. destruct (prove_shape _ _ _ _ _ HP) as [-> _]. change (33 =? 0) with false. cbn iota.
  rewrite Ct, Eh, Eq, Hf, Ee, Z.eqb_refl, (proj2 (Z.eqb_neq _ _) Hne). cbn [orb negb]. rewrite <- Ee, Cr, Ee, HR. cbv zeta.
  rewrite (proj2 (Z.eqb_neq _ _) Hm), Em. rewrite <- Eh, <- Eq, Co.
  assert (Ho : OwnsEvalPoint m (vs_Index s) = true).
  { apply Zmem_spec. rewrite <- Ep, <- (DeriveShares_index _ _ _ _ _ Hder), <- Ei. by apply list_elem_of_fmap_2. }
  by rewrite Ho.
Qed.

Lemma within_quota l1 s l2 pts : sublist (vs_Index <$> List.filter (for_ct (vs_DecryptHeight s, vs_Seq s)) (l1 ++ s :: l2)) pts -> NoDup pts ->
  (forall x, x ∈ l1 -> slot x <> slot s) /\ zlen (List.filter (fun x => same_tx x s) l1) < zlen pts.
Proof.
  intros Hsub Hn. pose proof (sublist_length _ _ Hsub) as Hl. apply (sublist_NoDup _ _ Hn) in Hsub.
  rewrite List.filter_app in Hsub, Hl. cbn [List.filter] in Hsub, Hl.
  assert (Es : for_ct (vs_DecryptHeight s, vs_Seq s) s = true) by by apply bool_decide_eq_true.
  rewrite Es, fmap_app, fmap_cons in Hsub, Hl. rewrite length_app in Hl. cbn [length] in Hl. rewrite length_fmap in Hl. split.
  - intros x Hx Eslot. injection Eslot as E1 E2 E3. apply NoDup_app in Hsub as (_ & Hd & _). apply (Hd (vs_Index x)).
    + apply list_elem_of_fmap_2, list_elem_of_In, List.filter_In. split; [by apply list_elem_of_In|apply bool_decide_eq_true; congruence].
    + rewrite E3. by left.
  - change (List.filter (fun x => same_tx x s) l1) with (List.filter (for_ct (vs_DecryptHeight s, vs_Seq s)) l1). unfold zlen. lia.
Qed.

Lemma classify_member op s w e round r : classifyDecryptShare op s w = Some r ->
  GetEncTx (vs_DecryptHeight s) (vs_Seq s) w = Some e -> GetDkgRound (e_Epoch e) w = Some round -> memberIndexByOperator round op <> 0.
Proof.
  unfold classifyDecryptShare. intros Hc He Hr. rewrite He in Hc. destruct (_ =? 0) in Hc; [done|]. destruct (_ || _) in Hc; [done|].
  rewrite Hr in Hc. cbv zeta in Hc. by destruct (Z.eqb_spec (memberIndexByOperator round op) 0).
Qed.

(** No other operator has a share accepted for a slot that is the operator's own. *)
Lemma others_blocked w op s e round r v :
  GetEncTx (vs_DecryptHeight s) (vs_Seq s) w = Some e -> GetDkgRound (e_Epoch e) w = Some round -> round_ok round ->
  classifyDecryptShare op s w = Some r ->
  ent_Operator v <> op -> Forall typed_share (ve_Shares (ent_VE v)) -> other w op s v.
Proof.
  intros He Hr Hro Hc Hne Ht. split_and!; [done..|]. intros x Hx Eslot w1 F.
  destruct (classifyDecryptShare (ent_Operator v) x w1) as [r'|] eqn:Ex; [|done]. exfalso. apply Hne. injection Eslot as E1 E2 E3.
  assert (He1 : GetEncTx (vs_DecryptHeight x) (vs_Seq x) w1 = Some e).
  { rewrite E1, E2, <- He. unfold GetEncTx, get_json. by rewrite (frame_sget _ _ _ _ F) by done. }
  assert (Hr1 : GetDkgRound (e_Epoch e) w1 = Some round).
  { rewrite <- Hr. unfold GetDkgRound, get_json. by rewrite (frame_sget _ _ _ _ F) by done. }
  pose proof (classify_member _ _ _ _ _ _ Hc He Hr) as M. pose proof (classify_member _ _ _ _ _ _ Ex He1 Hr1) as M1.
  destruct r as [[m ctA] ep], r' as [[m1 ctA1] ep1].
  destruct (classify_inv _ _ _ _ _ _ Hc) as (e' & round' & Ge & _ & _ & Gr & Gm & Go & _). rewrite He in Ge. injection Ge as <-.
  destruct (classify_inv _ _ _ _ _ _ Ex) as (e' & round'' & Ge & _ & _ & Gr' & Gm' & Go' & _). rewrite He1 in Ge. injection Ge as <-.
  rewrite Hr in Gr. injection Gr as <-. rewrite Hr1 in Gr'. injection Gr' as <-. rewrite E3 in Go'.
  exact (sole_owner round (ent_Operator v) op m1 m (vs_Index s) Hro M1 Gm' Go' M Gm Go).
Qed.

(** What is ingested before the shares of a block touches none of what they read. *)
Definition before_shares : list Z := [17; 18; 26; 27; 28; 32; 34].
Lemma classify_frame op s w w1 : frame before_shares w w1 -> classifyDecryptShare op s w1 = classifyDecryptShare op s w.
Proof.
  intros F. unfold classifyDecryptShare, hasEncShareAt, GetEncTx, GetDkgRound, get_json.
  destruct (strlen _ =? 0); [done|]. rewrite !(frame_sget _ _ _ _ F) by done.
  destruct (match sget (encTxKey _ _) w with Some _ => _ | None => _ end) as [e|]; [|done]. by rewrite (frame_sget _ _ _ _ F) by done.
Qed.
Lemma cost_frame p v w w1 : frame before_shares w w1 -> vote_cost p w1 v = vote_cost p w v.
Proof.
  intros F. unfold vote_cost. apply sumZ_ext, Forall_true. intros s. unfold share_cost, getShareKeyCache. by rewrite (frame_sget _ _ _ _ F) by done.
Qed.

Lemma served_verifies fuel h h' ek op w w' cache e s degree ds res round m :
  served_for fuel h ek op w cache e s -> cache_ok ek op w cache ->
  epoch_ready w (vs_Epoch s) degree ds res -> sh_Xi (joint_share ds (Qual res) (vs_Index s)) <> 0 ->
  carried h' w w' s -> keys_cached w' (vs_Epoch s) res -> GetDkgRound (e_Epoch e) w = Some round -> round_ok round ->
  m ∈ r_Members round -> my_points op round = OwnedEvalPoints m ->
  verifyDecryptShareDLEQ (e_Epoch e) (e_A e) (vs_Index s) (vs_D s) (vs_Proof s) w' = true.
Proof.
  intros [Ee Eh Eq _ _ _ (round' & ak & shares & sh & D & Hsh & Ei & HP)] Hcache Hready Hx Hca Hkeys HR Hro Hm Epts.
  destruct D as [HR' _ HA Hder Hclean]. rewrite HR in HR'. injection HR' as <-. rewrite <- Ei in *. rewrite Ee in *.
  eapply (ready_verifies w w' (e_Epoch e) degree ds res fuel (Priv ek) ak shares sh (e_A e) (vs_D s) (vs_Proof s) (my_points op round)); try done.
  - by rewrite <- Ee, (ca_key _ _ _ _ Hca), Ee.
  - rewrite Epts. pose proof (ro_range _ Hro) as Hrange. by eapply Forall_forall in Hrange.
  - by apply Hclean.
Qed.

(** The vote [v] among the counted ones, with its share [s]. *)
Lemma bounded_stores ctx entries v op s p w1 m e round :
  1 <= EffectiveShareBudget p -> v ∈ canonical_entries entries -> ent_Operator v = op -> s ∈ ve_Shares (ent_VE v) ->
  zlen (ve_Shares (ent_VE v)) <= VoteExtShareCap p ->
  Forall (fun v => Forall typed_share (ve_Shares (ent_VE v))) (canonical_entries entries) ->
  sumZ (vote_cost p w1) (canonical_entries entries) <= share_ceiling p ->
  sublist (vs_Index <$> List.filter (for_ct (vs_DecryptHeight s, vs_Seq s)) (ve_Shares (ent_VE v))) (OwnedEvalPoints m) ->
  m ∈ r_Members round -> round_ok round -> GetDkgRound (e_Epoch e) w1 = Some round -> GetEncTx (vs_DecryptHeight s) (vs_Seq s) w1 = Some e ->
  (vs_DecryptHeight s, vs_Seq s) ∈ processed_set (u64 (BlockHeight ctx)) w1 ->
  hasRejectedShare (vs_DecryptHeight s) (vs_Seq s) (vs_Index s) w1 = false ->
  classifyDecryptShare op s w1 = Some (m, e_A e, e_Epoch e) ->
  verifyDecryptShareDLEQ (e_Epoch e) (e_A e) (vs_Index s) (vs_D s) (vs_Proof s) w1 = true ->
  sget (share_slot s) (ingestDecryptSharesBounded ctx (canonical_entries entries) p w1).2 = Some (stored_record op s).
Proof.
  intros Hb Hv Hop Hs Hcap Ht Hsum Hsub Hm Hro HR He Hp Hr Hc Hver. pose proof (canonical_NoDup entries) as Hn.
  assert (Hall : Forall (fun vote => vote ∈ entries) (canonical_entries entries)) by (apply Forall_forall; intros; by apply canonical_sub).
  unfold ingestDecryptSharesBounded. cbv zeta. revert Hn Ht Hsum Hall.
  destruct (list_elem_of_split _ _ Hv) as (c1 & c2 & ->). destruct (list_elem_of_split _ _ Hs) as (l1 & l2 & El). intros Hn Ht Hsum Hall.
  rewrite El in Hsub. destruct (within_quota l1 s l2 _ Hsub (member_points round m Hro Hm)) as [Hd Hq].
  apply Forall_app in Ht as [Ht1 Ht2]. apply Forall_cons in Ht2 as [Htv _]. rewrite El in Htv. apply Forall_app in Htv as [Htl Htr].
  apply Forall_cons in Htr as [Hts _]. apply Forall_app in Hall as [_ Hall].
  assert (Ho : Forall (other w1 op s) c1).
  { apply Forall_forall. intros x Hx. eapply (others_blocked w1 op s e round); [done..| |by eapply Forall_forall in Ht1].
    rewrite fmap_app, fmap_cons in Hn. apply NoDup_app in Hn as (_ & Hdis & _). intros Ex. apply (Hdis (ent_Operator x)); [by apply list_elem_of_fmap_2|].
    rewrite Ex, <- Hop. by left. }
  assert (Ecn : counted p v = l1 ++ s :: l2) by (unfold counted; rewrite take_ge; [done|unfold zlen in Hcap; lia]).
  pose proof (entries_store p (share_ceiling p) _ w1 op s Hb Hts (u64 (BlockHeight ctx)) entries v c1 c2 l1 l2 m (e_A e) (e_Epoch e)
    (processed_due _ _) Hall Ho Hop Ecn Htl Hd Hq Hp Hr Hc Hver Hsum) as G.
  destruct (ingest_entries _ _ _ _ _ _ _) as [st w2]. cbn [snd] in *. by destruct (ss_deferred st).
Qed.

(** C10: the shares of an honest node are stored.  The vote of an operator carries the
    decryption shares its node built, for an epoch whose key was finalised from the
    committed dealings.  When the block that counts the vote still has the ciphertext in
    the window it verifies, with the round, the key and right cached share keys of the
    epoch, and the shares of all counted votes fit in the verification budget of the
    block, every share whose slot is open and not rejected is stored, marked verified,
    under its operator, whatever the other votes carry; the exception is an index at
    which the joint polynomial of the dealers is zero. *)
Theorem served_share_stored fuel ctx ctx' ek op w w' cache entries vote s degree ds res round :
  let out := (buildDecryptShares fuel ctx ek op w cache).1 in
  enc_inv w -> cache_ok ek op w cache -> s ∈ out ->
  epoch_ready w (vs_Epoch s) degree ds res -> sh_Xi (joint_share ds (Qual res) (vs_Index s)) <> 0 ->
  GetDkgRound (vs_Epoch s) w = Some round -> round_ok round ->
  carried (u64 (BlockHeight ctx')) w w' s -> keys_cached w' (vs_Epoch s) res ->
  payable entries vote op out w' ->
  sget (encShareKey (vs_DecryptHeight s) (vs_Seq s) (vs_Index s)) (ConsumeVoteExtensions ctx' entries w') =
  Some (json_Marshal (mkEncShare op (vs_DecryptHeight s) (vs_Seq s) (vs_Index s) (vs_D s) (vs_Proof s) true)).
Proof.
  intros out Hi Hcache Hs Hready Hx HR Hro Hca Hkeys [Pv Po Psh Pt [Pe Ptr] Pu Pb].
  destruct (served_chunk fuel ctx ek op w cache s Hi Hs) as (e & round' & Hf & Hsf & HR' & Hsub).
  pose proof (sf_epoch _ _ _ _ _ _ _ _ Hsf) as Ee. rewrite <- Ee, HR in HR'. injection HR' as <-.
  rewrite Ee in HR. destruct (classify_served fuel _ _ ek op w w' cache e s round Hf Hsf Hca HR Hro) as (m & Hc & Hm & Epts).
  assert (Hv : verifyDecryptShareDLEQ (e_Epoch e) (e_A e) (vs_Index s) (vs_D s) (vs_Proof s) w' = true)
    by exact (served_verifies fuel _ _ ek op w w' cache e s degree ds res round m Hsf Hcache Hready Hx Hca Hkeys HR Hro Hm Epts).
  destruct (consume_split ctx' entries w') as [[E _]|(w1 & R1 & R2)]; [by rewrite Pe, Ptr in E|].
  assert (F : frame before_shares w' w1).
  { eapply frame_trans; [|eapply frame_weaken; [exact R1|done]]. eapply (frame_weaken [26; 27; 34]); [|done].
    apply frame_count_steps. intros. apply frame_RecordEncPubKey. }
  rewrite (frame_sget _ _ _ _ R2) by done.
  eapply (bounded_stores ctx' entries vote op s (GetParams w') w1 m e round); rewrite ?Psh; try done.
  - unfold EffectiveShareBudget, is_u64 in *. destruct (Z.eqb_spec (DkgShareBudget (GetParams w')) 0); [done|lia].
  - rewrite (ca_params _ _ _ _ Hca). apply (build_spec fuel ctx ek op w cache Hi).
  - etransitivity; [|exact Pb]. apply Z.eq_le_incl, sumZ_ext, Forall_true. intros v. by apply cost_frame.
  - by rewrite <- Epts.
  - rewrite <- HR, <- Ee, <- (ca_round _ _ _ _ Hca). unfold GetDkgRound, get_json. by rewrite (frame_sget _ _ _ _ F) by done.
  - unfold in_flight in Hf. rewrite <- (sf_height _ _ _ _ _ _ _ _ Hsf), <- (sf_seq _ _ _ _ _ _ _ _ Hsf), <- (ca_tx _ _ _ _ Hca) in Hf.
    rewrite <- Hf. unfold GetEncTx, get_json. by rewrite (frame_sget _ _ _ _ F) by done.
  - rewrite (processed_frame before_shares _ _ _ F) by done. apply Hca.
  - rewrite <- (ca_unrejected _ _ _ _ Hca). unfold hasRejectedShare. by rewrite (frame_sget _ _ _ _ F) by done.
  - by rewrite (classify_frame _ _ _ _ F).
  - rewrite <- Hv. apply verify_frame. by eapply frame_weaken.
Qed.

End served.
End VoteExtServed.
