(* ===== verification/EncImport.v ===== *)
(** * x/encmempool: import and export of the module's state

    What [InitGenesis] leaves in an empty store: each group of records is the
    imported one, the reference counts are recomputed exactly, and an export gives
    the imported state back. *)
From S2P Require Import Prelude Codec Bank Sha256 EncTypes StakeWeight Threshold CurveModel Dkg EncKeeper EncRegistry EncDkg EncAbci EncIngest EncMsg EncGenesis EncFrame EncInvariant EncModel.
From stdpp Require Import gmap strings list sorting.
From Stdlib Require Import ZArith Lia.

#[local] Set Default Goal Selector "!".
Open Scope Z_scope.

Module EncImport.
Import EncTypes EncKeeper EncRegistry EncGenesis EncFrame EncInvariant.

(** ** Lists accepted without duplicates *)

(** A fold that refuses an element whose key was seen accepts only lists of
    distinct keys. *)
Lemma fold_ok_NoDup {St A K : Type} (f : St -> A -> outcome St) (key : A -> K) (seen : St -> K -> Prop) :
  (forall st x st', f st x = Ret st' -> ~ seen st (key x) /\ seen st' (key x) /\ forall k, seen st k -> seen st' k) ->
  forall l st st', fold_ok f st l = Ret st' -> NoDup (key <$> l) /\ forall x, x ∈ l -> ~ seen st (key x).
Proof.
  intros Hf l. induction l as [|x l IH]; intros st st'; simpl.
  { intros _. split; [constructor|by intros x ?%not_elem_of_nil]. }
  destruct (f st x) as [st1|e|m] eqn:E; [|done..]. cbn. intros R. apply Hf in E as (Hx & Hx1 & Hm).
  apply IH in R as [Hnd Hall]. split.
  - constructor; [|done]. intros (y & Ey & Hy)%list_elem_of_fmap. apply (Hall y Hy). by rewrite <- Ey.
  - intros y [->|Hy]%elem_of_cons; [done|]. intros Hs. by apply (Hall y Hy), Hm.
Qed.

(** Every element passed the test of the fold. *)
Lemma fold_ok_Forall {St A : Type} (f : St -> A -> outcome St) (P : A -> Prop) :
  (forall st x st', f st x = Ret st' -> P x) -> forall l st st', fold_ok f st l = Ret st' -> Forall P l.
Proof.
  intros Hf l. induction l as [|x l IH]; intros st st'; simpl; [constructor|].
  destruct (f st x) as [st1|e|m] eqn:E; [|done..]. cbn. intros R. constructor; [by eapply Hf|by eapply IH].
Qed.

(** The records that are left when a list is written record by record: of those with
    the same key, the last. *)
Fixpoint last_by {A : Type} (key : A -> string) (l : list A) : list A :=
  match l with
  | [] => []
  | a :: l' => if decide (key a ∈ key <$> l') then last_by key l' else a :: last_by key l'
  end.

Lemma last_by_key {A : Type} (key : A -> string) l k : k ∈ key <$> last_by key l <-> k ∈ key <$> l.
Proof.
  induction l as [|a l IH]; [done|]. cbn [last_by]. rewrite fmap_cons, elem_of_cons. case_decide as E.
  - rewrite IH. split; [by right|]. by intros [->|?].
  - rewrite fmap_cons, elem_of_cons. tauto.
Qed.

Lemma last_by_NoDup {A : Type} (key : A -> string) l : NoDup (key <$> last_by key l).
Proof.
  induction l as [|a l IH]; [constructor|]. cbn [last_by]. case_decide as E; [done|]. rewrite fmap_cons. apply NoDup_cons.
  by rewrite last_by_key.
Qed.

Lemma last_by_distinct {A : Type} (key : A -> string) l : NoDup (key <$> l) -> last_by key l = l.
Proof.
  induction l as [|a l IH]; [done|]. rewrite fmap_cons. intros [Ha Hl]%NoDup_cons. cbn [last_by]. rewrite decide_False by done. by rewrite IH.
Qed.

Section store.
Context {B : Type}.
Implicit Types w : World B.

(** ** Writing a list of records *)

Lemma siter_empty p w : is_Some (prefixEnd p) -> (forall t, sget (p +:+ t) w = None) -> siter p w = [].
Proof.
  intros Hp Hn. apply elem_of_nil_inv. intros [k v]. unfold siter. rewrite elem_of_kv_iter by done.
  intros [E [t ->]]. specialize (Hn t). unfold sget in Hn. congruence.
Qed.

Lemma siter_ext p w w' : is_Some (prefixEnd p) -> (forall t, sget (p +:+ t) w' = sget (p +:+ t) w) -> siter p w' = siter p w.
Proof. apply kv_iter_ext. Qed.

(** [set] writes its record under its own key of the prefix [p] and no other. *)
Definition writes {A : Type} (p : string) (suffix value : A -> string) (set : A -> World B -> World B) : Prop :=
  forall a w t, sget (p +:+ t) (set a w) = if decide (suffix a = t) then Some (value a) else sget (p +:+ t) w.

Lemma siter_set_all {A : Type} p (suffix value : A -> string) set l :
  is_Some (prefixEnd p) -> writes p suffix value set -> NoDup (suffix <$> l) -> forall w,
  (forall a, a ∈ l -> sget (p +:+ suffix a) w = None) ->
  siter p (set_all set l w) ≡ₚ ((fun a => (p +:+ suffix a, value a)) <$> l) ++ siter p w.
Proof.
  intros Hp Hw. induction l as [|a l IH]; intros Hnd w Hn; [done|]. simpl. apply NoDup_cons in Hnd as [Ha Hnd].
  unfold set_all in *. simpl. rewrite IH; [|done|].
  2: { intros b Hb. rewrite Hw, decide_False; [apply Hn; by right|]. intros E. apply Ha. rewrite E. by apply list_elem_of_fmap_2. }
  unfold siter. rewrite (kv_iter_split StoreKey p (suffix a) (set a w) Hp).
  change (kv_get StoreKey ?k ?w0) with (sget k w0). rewrite Hw, decide_True by done. simpl.
  rewrite <- Permutation_middle. apply Permutation_cons, Permutation_app_head; [done|].
  apply Permutation_refl', (siter_ext p w (sdel (p +:+ suffix a) (set a w))); [done|].
  intros t. rewrite sget_sdel. case_decide as E; [|by rewrite Hw, decide_False by (intros E'; apply E; by rewrite E')].
  apply str_app_inv in E as [_ <-]; [|done]. symmetry. apply Hn. by left.
Qed.

(** Only the last record of each key counts. *)
Lemma set_all_ext {A : Type} p (suffix value : A -> string) set l : writes p suffix value set -> forall w w',
  (forall t, sget (p +:+ t) w = sget (p +:+ t) w') -> forall t, sget (p +:+ t) (set_all set l w) = sget (p +:+ t) (set_all set l w').
Proof.
  intros Hw. unfold set_all. induction l as [|a l IH]; intros w w' E t; simpl; [apply E|]. apply IH. intros t'. rewrite !Hw. case_decide; [done|apply E].
Qed.

Lemma set_all_shadow {A : Type} p (suffix value : A -> string) set a l : writes p suffix value set -> suffix a ∈ suffix <$> l -> forall w t,
  sget (p +:+ t) (set_all set l (set a w)) = sget (p +:+ t) (set_all set l w).
Proof.
  intros Hw. unfold set_all. induction l as [|b l IH]; [by intros ?%not_elem_of_nil|]. rewrite fmap_cons. intros Hin w t. simpl.
  destruct (decide (suffix a = suffix b)) as [E|E].
  - apply (set_all_ext p suffix value set l Hw). intros t'. rewrite !Hw. by case_decide as Eb; [|rewrite decide_False by congruence].
  - apply elem_of_cons in Hin as [|Hin]; [done|]. rewrite <- (IH Hin (set b w) t). apply (set_all_ext p suffix value set l Hw). intros t'.
    rewrite !Hw. repeat case_decide; congruence.
Qed.

Lemma set_all_last {A : Type} p (suffix value : A -> string) set l : writes p suffix value set -> forall w t,
  sget (p +:+ t) (set_all set l w) = sget (p +:+ t) (set_all set (last_by suffix l) w).
Proof.
  intros Hw. induction l as [|a l IH]; intros w t; [done|]. cbn [last_by]. change (set_all set (a :: l) w) with (set_all set l (set a w)).
  rewrite IH. case_decide as E; [|done]. apply (set_all_shadow p suffix value set a _ Hw). by apply last_by_key.
Qed.

Lemma frame_set_all {A : Type} ps (set : A -> World B -> World B) l : forall w,
  (forall a w, frame ps w (set a w)) -> frame ps w (set_all set l w).
Proof.
  induction l as [|a l IH]; intros w Hs; [apply frame_refl|]. unfold set_all in *. simpl.
  eapply frame_trans; [apply Hs|by apply IH].
Qed.
End store.

(** ** The stages of an import *)
Section import.
Context {B : Type} `{EncJSON} `{!EncJSONLaws} `{Curve} `{MathInt} `{SDKDenom}.
Implicit Types (w : World B) (gs : GenesisState).

(** The writes of [import_state] in order, each with the prefixes it may touch. *)
Definition stages gs : list (list Z * (World B -> World B)) :=
  [ ([1], SetParams (gs_Params gs));
    ([3; 35; 36], set_all SetCommit (gs_Commits gs));
    ([4], set_all SetPending (gs_Pending gs));
    ([5], fun w => if 0 <? gs_EncSeq gs then sset EncSeqKey (be64 (gs_EncSeq gs)) w else w);
    ([20], fun w => if 0 <? gs_CurrentEpoch gs then SetCurrentEpoch (gs_CurrentEpoch gs) w else w);
    ([21], fun w => if 0 <? gs_ActiveEpoch gs then SetActiveEpoch (gs_ActiveEpoch gs) w else w);
    ([16], set_all SetDkgRound (gs_DkgRounds gs));
    ([17], set_all SetDealing (gs_Dealings gs));
    ([19], set_all SetActiveKey (gs_ActiveKeys gs));
    ([26; 27], set_all import_enc_key (gs_EncKeys gs));
    ([7], set_all (fun s => SetEncShare (unverified s)) (gs_EncShares gs));
    ([6; 22; 24; 25], set_all import_enc_tx (gs_EncTxs gs)) ].

Definition run_stages (l : list (list Z * (World B -> World B))) w : World B := foldl (fun w st => st.2 w) w l.

Lemma import_stages gs w : import_state gs w = run_stages (stages gs) w.
Proof. reflexivity. Qed.

Lemma frame_import_enc_tx e w : frame [6; 22; 24; 25] w (import_enc_tx e w).
Proof.
  unfold import_enc_tx, incEpochEncCount, incSubmitterEncCount, incGlobalEncCount.
  assert (F : frame [6; 22; 24; 25] w (inc_count (submitterEncCountKey (e_Submitter e)) (inc_count GlobalEncCountKey (set_enc_tx e w)))).
  { eapply frame_trans; [|by apply frame_inc]. eapply frame_trans; [|by apply frame_inc]. by apply frame_set. }
  destruct (0 <? _); [|exact F]. eapply frame_trans; [exact F|by apply frame_inc].
Qed.

Lemma stages_framed gs : Forall (fun st => forall w, frame st.1 w (st.2 w)) (stages gs).
Proof.
  unfold stages. repeat (apply Forall_cons_2; [intros w; cbn [fst snd]|]); [..|by apply Forall_nil].
  all: first [ apply frame_set_all; intros; first [by apply frame_set|apply frame_SetCommit|apply frame_import_enc_tx|idtac]
             | destruct (0 <? _); [by apply frame_set|apply frame_refl]
             | by apply frame_set ].
  unfold import_enc_key. eapply frame_trans; by apply frame_set.
Qed.

Lemma run_stages_skip z l w k :
  Forall (fun st => forall w, frame st.1 w (st.2 w)) l -> forallb (fun st => negb (Zmem z st.1)) l = true ->
  key_in [z] k = true -> sget k (run_stages l w) = sget k w.
Proof.
  intros Hf. revert w. induction Hf as [|st l Hst _ IH]; intros w Hz Hk; [done|]. simpl in *.
  apply andb_true_iff in Hz as [Hz1 Hz]. rewrite IH by done. apply (frame_sget _ _ _ _ (Hst w)).
  destruct k as [|c k]; [done|]. unfold key_in in *. apply Zmem_spec, list_elem_of_singleton in Hk. rewrite Hk.
  by apply negb_true_iff.
Qed.

(** The records of a prefix that only stage [n] writes: what that stage makes of a
    store without them. *)
Lemma stage_only n z gs w0 st :
  (forall k, sget k w0 = None) -> stages gs !! n = Some st ->
  forallb (fun st' => negb (Zmem z st'.1)) (take n (stages gs) ++ drop (S n) (stages gs)) = true ->
  exists w1, (forall k, key_in [z] k = true -> sget k w1 = None) /\
    forall k, key_in [z] k = true -> sget k (import_state gs w0) = sget k (st.2 w1).
Proof.
  intros Hw0 Hst Hz. rewrite forallb_app in Hz. apply andb_true_iff in Hz as [Hz1 Hz2].
  pose proof (stages_framed gs) as Hf. rewrite <- (take_drop_middle _ _ _ Hst) in Hf.
  apply Forall_app in Hf as [Hf1 [_ Hf2]%Forall_cons].
  exists (run_stages (take n (stages gs)) w0). split.
  - intros k Hk. by rewrite (run_stages_skip z).
  - intros k Hk. rewrite import_stages.
    assert (E : run_stages (stages gs) w0 = run_stages (drop (S n) (stages gs)) (st.2 (run_stages (take n (stages gs)) w0))).
    { rewrite <- (take_drop_middle _ _ _ Hst) at 1. unfold run_stages. by rewrite foldl_app. }
    rewrite E. by apply (run_stages_skip z).
Qed.

Lemma byte_key z t : 0 <= z < 256 -> key_in [z] (byte_prefix z +:+ t) = true.
Proof. intros Hz. unfold byte_prefix. rewrite str_app_cons. unfold key_in. rewrite byte_to_Z_of by lia. simpl. by rewrite Z.eqb_refl. Qed.

(** The entries of a prefix that one stage writes record by record. *)
Lemma imported_entries {A : Type} n z ps (suffix value : A -> string) set l gs w0 :
  (forall k, sget k w0 = None) -> 0 <= z < 255 -> stages gs !! n = Some (ps, set_all set l) ->
  forallb (fun st' => negb (Zmem z st'.1)) (take n (stages gs) ++ drop (S n) (stages gs)) = true ->
  writes (byte_prefix z) suffix value set ->
  siter (byte_prefix z) (import_state gs w0) ≡ₚ (fun a => (byte_prefix z +:+ suffix a, value a)) <$> last_by suffix l.
Proof.
  intros Hw0 Hz Hst Hf Hw. destruct (stage_only n z gs w0 _ Hw0 Hst Hf) as (w1 & Hn & Hs). cbn [snd] in Hs.
  assert (Hp : is_Some (prefixEnd (byte_prefix z))) by by apply prefixEnd_byte.
  rewrite (siter_ext _ (set_all set (last_by suffix l) w1)); [|done|].
  2:{ intros t. rewrite Hs by (apply byte_key; lia). by apply (set_all_last _ suffix value). }
  rewrite (siter_set_all _ suffix value) by (first [done|apply last_by_NoDup|intros; apply Hn, byte_key; lia]).
  rewrite (siter_empty _ w1), app_nil_r; [done..|]. intros t. apply Hn, byte_key. lia.
Qed.

Lemma imported_records {A : Type} `{JSON A} n z ps (suffix value : A -> string) (stored : A -> A) set l gs w0 :
  (forall k, sget k w0 = None) -> 0 <= z < 255 -> stages gs !! n = Some (ps, set_all set l) ->
  forallb (fun st' => negb (Zmem z st'.1)) (take n (stages gs) ++ drop (S n) (stages gs)) = true ->
  writes (byte_prefix z) suffix value set ->
  (forall a, json_Unmarshal (value a) = Some (stored a)) ->
  iter_json (byte_prefix z) (import_state gs w0) ≡ₚ stored <$> last_by suffix l.
Proof.
  intros Hw0 Hz Hst Hf Hw Hj. unfold iter_json.
  rewrite (imported_entries n z ps suffix value set l gs w0) by done.
  apply Permutation_refl'. clear Hst. generalize (last_by suffix l). clear l. intros l. induction l as [|a l IH]; [done|]. simpl. rewrite Hj. by f_equal.
Qed.

Lemma imported_same {A : Type} `{JSONLaws A} n z ps (suffix : A -> string) set l gs w0 :
  (forall k, sget k w0 = None) -> 0 <= z < 255 -> stages gs !! n = Some (ps, set_all set l) ->
  forallb (fun st' => negb (Zmem z st'.1)) (take n (stages gs) ++ drop (S n) (stages gs)) = true ->
  writes (byte_prefix z) suffix json_Marshal set ->
  iter_json (byte_prefix z) (import_state gs w0) ≡ₚ last_by suffix l.
Proof.
  intros. rewrite <- (list_fmap_id (last_by suffix l)). by apply (imported_records n z ps suffix json_Marshal id set); [..|apply json_roundtrip].
Qed.

(** Writing under one key and then elsewhere. *)
Lemma writes_sset {A : Type} p (suffix value : A -> string) : writes p suffix value (fun a => sset (p +:+ suffix a) (value a) : World B -> World B).
Proof.
  intros a w t. rewrite sget_sset. destruct (decide (p +:+ suffix a = p +:+ t)) as [E|E].
  - apply str_app_inv in E as [_ <-]; [|done]. by rewrite decide_True.
  - rewrite decide_False; [done|]. intros E'. apply E. by rewrite E'.
Qed.

Lemma writes_frame {A : Type} z ps (suffix value : A -> string) (set set' : A -> World B -> World B) :
  writes (byte_prefix z) suffix value set -> 0 <= z < 256 -> (forall a w, frame ps (set a w) (set' a w)) -> Zmem z ps = false ->
  writes (byte_prefix z) suffix value set'.
Proof.
  intros Hw Hz Hf Hm a w t. rewrite <- Hw. apply (frame_sget _ _ _ _ (Hf a w)).
  unfold byte_prefix. rewrite str_app_cons. unfold key_in. by rewrite byte_to_Z_of by lia.
Qed.

Definition commit_suffix (c : Commit) : string := be64 (cm_Height c) +:+ (cm_Sender c +:+ be64 (cm_Seq c)).
Definition pending_suffix (p : PendingReveal) : string := be64 (pr_CommitHeight p) +:+ (pr_Sender p +:+ be64 (pr_Seq p)).
Definition tx_suffix (e : EncTx) : string := be64 (e_DecryptHeight e) +:+ be64 (e_Seq e).
Definition share_suffix (s : EncShare) : string := be64 (s_DecryptHeight s) +:+ (be64 (s_Seq s) +:+ be64 (s_Index s)).
Definition deal_suffix (d : Dealing) : string := be64 (d_Epoch d) +:+ be64 (d_DealerIndex d).

Lemma writes_SetCommit : writes CommitPrefix commit_suffix json_Marshal (SetCommit : Commit -> World B -> World B).
Proof.
  intros c w t. unfold SetCommit. fold (commit_suffix c). change (commitKey _ _ _) with (CommitPrefix +:+ commit_suffix c).
  set (w1 := match _ with None => _ | Some _ => _ end).
  rewrite (writes_sset CommitPrefix commit_suffix json_Marshal c w1 t). case_decide; [done|].
  unfold w1. destruct (sget _ w); [done|]. unfold incCommitCount.
  assert (F : frame [35; 36] w (inc_count (submitterCommitCountKey (cm_Sender c)) (inc_count GlobalCommitCountKey w))).
  { eapply frame_trans; by apply frame_inc. }
  by apply (frame_sget _ _ _ _ F).
Qed.

Lemma writes_import_enc_tx : writes EncTxPrefix tx_suffix json_Marshal (import_enc_tx : EncTx -> World B -> World B).
Proof.
  apply (writes_frame 6 [22; 24; 25] _ _ set_enc_tx); [apply (writes_sset EncTxPrefix tx_suffix json_Marshal)|lia| |done].
  intros e w. unfold import_enc_tx, incEpochEncCount, incSubmitterEncCount, incGlobalEncCount.
  assert (F : frame [22; 24; 25] (set_enc_tx e w) (inc_count (submitterEncCountKey (e_Submitter e)) (inc_count GlobalEncCountKey (set_enc_tx e w)))).
  { eapply frame_trans; by apply frame_inc. }
  destruct (0 <? _); [|exact F]. eapply frame_trans; [exact F|by apply frame_inc].
Qed.

(** ** What the validation guarantees *)

Record distinct gs : Prop := {
  di_rounds : NoDup (r_Epoch <$> gs_DkgRounds gs);
  di_keys : NoDup (ak_Epoch <$> gs_ActiveKeys gs);
  di_txs : NoDup ((fun e => (e_DecryptHeight e, e_Seq e)) <$> gs_EncTxs gs);
  di_shares : NoDup ((fun s => (s_DecryptHeight s, s_Seq s, s_Index s)) <$> gs_EncShares gs);
  di_operators : NoDup (kr_Operator <$> gs_EncKeys gs);
  di_enc_keys : NoDup (kr_Key <$> gs_EncKeys gs);
  di_unverified : Forall (fun s => s_Verified s = false) (gs_EncShares gs)
}.

Ltac guards R :=
  repeat match type of R with
  | (if ?b then Err _ else _) = Ret _ => let E := fresh "G" in destruct b eqn:E; [discriminate R|]
  end.

Ltac undecide := repeat match goal with G : bool_decide _ = false |- _ => apply bool_decide_eq_false in G end.

Lemma validated_distinct gs : Genesis_Validate gs = Ret tt -> distinct gs.
Proof.
  unfold Genesis_Validate, validateDkgImportState.
  intros (? & _ & ([rs ks] & R & (? & Hsh & _)%o_bind_Ret)%o_bind_Ret)%o_bind_Ret.
  apply o_bind_Ret in R as (rounds & Hr & R). apply o_bind_Ret in R as (keys & Hk & R). guards R.
  apply o_bind_Ret in R as (? & _ & R). apply o_bind_Ret in R as (? & _ & R).
  apply o_bind_Ret in R as (seqs & Hq & R). guards R.
  apply o_bind_Ret in R as (ss & Hs & R). apply o_bind_Ret in R as (es & He & _). split.
  - apply (fold_ok_NoDup validate_rounds r_Epoch (fun m k => is_Some (m !! k))) in Hr as [? _]; [done|].
    intros st r st' E. unfold validate_rounds in E. guards E. apply o_bind_Ret in E as (? & _ & [= <-]).
    undecide. rewrite lookup_insert_eq. split_and!; [done|done|].
    intros k Hk'. destruct (decide (r_Epoch r = k)) as [->|]; [by rewrite lookup_insert_eq|by rewrite lookup_insert_ne].
  - apply (fold_ok_NoDup (validate_keys rounds) ak_Epoch (fun m k => is_Some (m !! k))) in Hk as [? _]; [done|].
    intros st r st' E. unfold validate_keys in E. guards E. destruct (rounds !! ak_Epoch r); [|done].
    apply o_bind_Ret in E as (? & _ & [= <-]). undecide. rewrite lookup_insert_eq.
    split_and!; [done|done|].
    intros k Hk'. destruct (decide (ak_Epoch r = k)) as [->|]; [by rewrite lookup_insert_eq|by rewrite lookup_insert_ne].
  - apply (fold_ok_NoDup validate_seqs (fun e => (e_DecryptHeight e, e_Seq e)) (fun st k => k ∈ st.1)) in Hq as [? _]; [done|].
    intros st r st' E. unfold validate_seqs in E. guards E. injection E as <-. undecide.
    split_and!; [done|by left|by right].
  - apply (fold_ok_NoDup (validate_shares seqs.1) (fun s => (s_DecryptHeight s, s_Seq s, s_Index s)) (fun st k => k ∈ st)) in Hs as [? _]; [done|].
    intros st r st' E. unfold validate_shares in E. guards E. injection E as <-. undecide.
    split_and!; [done|by left|by right].
  - apply (fold_ok_NoDup validate_enc_keys kr_Operator (fun st k => k ∈ st.1)) in He as [? _]; [done|].
    intros st r st' E. unfold validate_enc_keys in E. guards E. injection E as <-. rewrite <- contains_spec.
    split_and!; [congruence|by left|by right].
  - apply (fold_ok_NoDup validate_enc_keys kr_Key (fun st k => k ∈ st.2)) in He as [? _]; [done|].
    intros st r st' E. unfold validate_enc_keys in E. guards E. injection E as <-. rewrite <- contains_spec.
    split_and!; [congruence|by left|by right].
  - eapply (fold_ok_Forall validate_enc_share); [|exact Hsh]. intros st y st' E. unfold validate_enc_share in E. by guards E.
Qed.

(** The 64-bit fields of the imported records hold 64-bit values, as their Go types
    guarantee. *)
Record typed gs : Prop := {
  ty_seq : is_u64 (gs_EncSeq gs);
  ty_current : is_u64 (gs_CurrentEpoch gs);
  ty_active : is_u64 (gs_ActiveEpoch gs);
  ty_rounds : Forall (fun r => is_u64 (r_Epoch r)) (gs_DkgRounds gs);
  ty_keys : Forall (fun a => is_u64 (ak_Epoch a)) (gs_ActiveKeys gs);
  ty_txs : Forall tx_ok (gs_EncTxs gs);
  ty_shares : Forall (fun s => is_u64 (s_DecryptHeight s) /\ is_u64 (s_Seq s) /\ is_u64 (s_Index s)) (gs_EncShares gs);
  ty_count : zlen (gs_EncTxs gs) < 2 ^ 64
}.

(** Distinct identifiers give distinct keys. *)
Lemma NoDup_keys {A K L : Type} (id : A -> K) (key : A -> L) (l : list A) :
  NoDup (id <$> l) -> (forall a b, a ∈ l -> b ∈ l -> key a = key b -> id a = id b) -> NoDup (key <$> l).
Proof.
  intros Hnd Hk. apply NoDup_alt. intros i j x. rewrite !list_lookup_fmap.
  destruct (l !! i) as [a|] eqn:Ea; [|done]. destruct (l !! j) as [b|] eqn:Eb; [|done]. simpl. intros [= <-] [= E].
  eapply (proj1 (NoDup_alt _) Hnd i j (id a)); rewrite list_lookup_fmap, ?Ea, ?Eb; simpl; [done|f_equal].
  symmetry. apply Hk; [by eapply list_elem_of_lookup_2..|done].
Qed.

Lemma tx_suffixes gs : typed gs -> distinct gs -> NoDup (tx_suffix <$> gs_EncTxs gs).
Proof.
  intros Ht Hd. eapply NoDup_keys; [apply (di_txs gs Hd)|]. intros a b Ha Hb E. pose proof (ty_txs gs Ht) as Hok.
  rewrite Forall_forall in Hok. destruct (Hok a Ha) as (? & ? & _), (Hok b Hb) as (? & ? & _).
  apply be64_app_inj in E as [-> E]; [|done..]. by apply be64_inj in E as ->.
Qed.

Lemma share_suffixes gs : typed gs -> distinct gs -> NoDup (share_suffix <$> gs_EncShares gs).
Proof.
  intros Ht Hd. eapply NoDup_keys; [apply (di_shares gs Hd)|]. intros a b Ha Hb E. pose proof (ty_shares gs Ht) as Hok.
  rewrite Forall_forall in Hok. destruct (Hok a Ha) as (? & ? & ?), (Hok b Hb) as (? & ? & ?).
  apply be64_app_inj in E as [-> E]; [|done..]. apply be64_app_inj in E as [-> E]; [|done..]. by apply be64_inj in E as ->.
Qed.

Lemma epoch_suffixes {A : Type} (ep : A -> Z) l : NoDup (ep <$> l) -> Forall (fun a => is_u64 (ep a)) l -> NoDup ((fun a => be64 (ep a)) <$> l).
Proof.
  intros Hnd Hok. eapply NoDup_keys; [exact Hnd|]. intros a b Ha Hb E. rewrite Forall_forall in Hok. apply be64_inj in E; auto.
Qed.

Lemma unverified_id gs : distinct gs -> unverified <$> gs_EncShares gs = gs_EncShares gs.
Proof.
  intros Hd. pose proof (di_unverified gs Hd) as Hu. rewrite <- (list_fmap_id (gs_EncShares gs)) at 2.
  apply list_fmap_ext. intros i s Hs. rewrite Forall_forall in Hu. specialize (Hu s (list_elem_of_lookup_2 _ _ _ Hs)).
  unfold unverified, id. destruct s. simpl in *. by subst.
Qed.

Lemma readU64_stage n z gs w0 x key :
  (forall k, sget k w0 = None) -> is_u64 x -> key_in [z] key = true ->
  stages gs !! n = Some ([z], fun w => if 0 <? x then sset key (be64 x) w else w) ->
  forallb (fun st' => negb (Zmem z st'.1)) (take n (stages gs) ++ drop (S n) (stages gs)) = true ->
  readU64 key (import_state gs w0) = x.
Proof.
  intros Hw0 Hx Hk Hst Hf. destruct (stage_only n z gs w0 _ Hw0 Hst Hf) as (w1 & Hn & Hs). cbn [snd] in Hs.
  unfold readU64. rewrite Hs by done. destruct (Z.ltb_spec 0 x).
  - rewrite sget_sset, decide_True by done. unfold be64 at 1. rewrite be_bytes_length. by apply be_decode_be64.
  - rewrite Hn by done. unfold is_u64 in Hx. lia.
Qed.

(** ** The recomputed counts *)

Lemma sget_inc k k' w : sget k (inc_count k' w) = if decide (k' = k) then Some (be64 (u64 (readU64 k' w + 1))) else sget k w.
Proof. apply sget_sset. Qed.

(** The import counts in another order than the admission, to the same effect. *)
Lemma import_counts e w k : sget k (import_enc_tx e w) = sget k (count_enc_tx e (set_enc_tx e w)).
Proof.
  unfold import_enc_tx, count_enc_tx, incEpochEncCount, incSubmitterEncCount, incGlobalEncCount.
  destruct (0 <? e_Epoch e); [|done].
  assert (epochEncCountKey (e_Epoch e) <> submitterEncCountKey (e_Submitter e)) by discriminate.
  assert (epochEncCountKey (e_Epoch e) <> GlobalEncCountKey) by discriminate.
  assert (submitterEncCountKey (e_Submitter e) <> GlobalEncCountKey) by discriminate.
  rewrite !sget_inc. unfold readU64. rewrite !sget_inc. unfold readU64. rewrite !sget_inc.
  repeat case_decide; congruence.
Qed.

Lemma counts_sget w w' T : (forall k, sget k w' = sget k w) -> counts_ok w T -> counts_ok w' T.
Proof.
  intros E (Hg & Hs & He). unfold counts_ok, GetGlobalEncCount, GetSubmitterEncCount, getEpochEncCount, readU64 in *.
  split_and!; intros; rewrite E; auto.
Qed.

Lemma counts_import l : forall w T,
  counts_ok w T -> T (fun _ => 1) + zlen l < 2 ^ 64 -> (forall P, 0 <= T (one P) <= T (fun _ => 1)) ->
  Forall tx_ok l -> counts_ok (set_all import_enc_tx l w) (fun f => sumZ f l + T f).
Proof.
  induction l as [|e l IH]; intros w T Hc Hsz HP Hok; [by eapply counts_ok_ext; [|exact Hc]|].
  apply Forall_cons in Hok as [(_ & _ & Hep) Hok]. unfold zlen in *. simpl in Hsz.
  assert (Hc1 : counts_ok (import_enc_tx e w) (fun f => f e + T f)).
  { eapply counts_sget; [intros k; apply import_counts|]. apply counts_take; [|lia|done|done].
    eapply (counts_frame [6]); [by apply frame_set|done|done]. }
  unfold set_all in *. simpl. eapply counts_ok_ext; [|apply (IH _ (fun f => f e + T f)); [done|lia| |done]].
  - intros f. simpl. lia.
  - intros P. specialize (HP P). pose proof (one_bounds P e). lia.
Qed.

Lemma imported_counts gs w0 :
  (forall k, sget k w0 = None) -> typed gs -> counts_ok (import_state gs w0) (fun f => sumZ f (gs_EncTxs gs)).
Proof.
  intros Hw0 Ht.
  set (w1 := run_stages (take 11 (stages gs)) w0).
  assert (E : import_state gs w0 = set_all import_enc_tx (gs_EncTxs gs) w1) by reflexivity.
  assert (Hz : forall z k, forallb (fun st => negb (Zmem z st.1)) (take 11 (stages gs)) = true -> key_in [z] k = true -> sget k w1 = None).
  { intros z k Hf Hk. unfold w1. rewrite (run_stages_skip z); [done| |done|done].
    pose proof (stages_framed gs) as Hs. rewrite <- (take_drop 11 (stages gs)) in Hs. by apply Forall_app in Hs as [? _]. }
  assert (Hc0 : counts_ok w1 (fun _ => 0)).
  { unfold counts_ok, GetGlobalEncCount, GetSubmitterEncCount, getEpochEncCount, readU64.
    split_and!; [by rewrite (Hz 24)|intros; by rewrite (Hz 25)|intros; by rewrite (Hz 22)]. }
  rewrite E. eapply counts_ok_ext; [|apply (counts_import _ w1 (fun _ => 0) Hc0)].
  - intros f. simpl. lia.
  - apply (ty_count gs Ht).
  - intros P. lia.
  - apply (ty_txs gs Ht).
Qed.

Lemma InitGenesis_run gs w0 w : InitGenesis gs w0 = (Ret tt, w) -> Genesis_Validate gs = Ret tt /\ w = import_state gs w0.
Proof.
  unfold InitGenesis. intros (u & w1 & R1 & R)%bind_Ret_inv. unfold lift_outcome in R1. injection R1 as E <-.
  rewrite modify_run in R. injection R as <-. by destruct u.
Qed.

(** The operator is read back from the key of its entry. *)
Lemma registry_keys (l : list EncKeyReg) :
  (fun ok : string * string => mkEncKeyReg ok.1 ok.2) <$>
    ((fun e : string * string => (String.substring 1 (String.length e.1 - 1) e.1, e.2)) <$>
      ((fun kr => (byte_prefix 26 +:+ kr_Operator kr, kr_Key kr)) <$> l)) = l.
Proof.
  induction l as [|[op key] l IH]; [done|]. rewrite !fmap_cons, IH. f_equal.
  cbn [fst snd kr_Operator kr_Key]. f_equal. unfold byte_prefix. rewrite str_app_cons, str_app_nil.
  cbn [String.length String.substring]. rewrite Nat.sub_succ, Nat.sub_0_r. by apply substring_all.
Qed.

Lemma imported_enc_keys gs w0 :
  (forall k, sget k w0 = None) -> distinct gs ->
  (fun ok : string * string => mkEncKeyReg ok.1 ok.2) <$> IterateEncPubKeys (import_state gs w0) ≡ₚ gs_EncKeys gs.
Proof.
  intros Hw0 Hd. unfold IterateEncPubKeys.
  assert (Hw : writes EncPubKeyPrefix kr_Operator kr_Key (import_enc_key : EncKeyReg -> World B -> World B)).
  { apply (writes_frame 26 [27] _ _ (fun kr => sset (EncPubKeyPrefix +:+ kr_Operator kr) (kr_Key kr))); [apply writes_sset|lia| |done].
    intros kr w. unfold import_enc_key. by apply frame_set. }
  pose proof (imported_entries 9 26 _ _ _ _ _ gs w0 Hw0 ltac:(lia) eq_refl eq_refl Hw) as Hp.
  rewrite (last_by_distinct _ _ (di_operators gs Hd)) in Hp.
  unfold EncPubKeyPrefix. etransitivity; [do 2 apply fmap_Permutation; exact Hp|].
  by rewrite registry_keys.
Qed.

(** C38: an import can be exported again.  Importing an accepted state into an empty
    store leaves exactly its records: the export returns the same parameters,
    counters and epochs and, in key order, the same ciphertexts, shares, keys and
    registrations; the rounds, with the missing weights of their members set to zero;
    and of the commits, reveals and dealings, whose keys the validation does not compare,
    those that are the last with their key.  The three in-flight counts are recomputed
    exactly. *)
Theorem genesis_roundtrip gs w0 w :
  (forall k, sget k w0 = None) -> typed gs -> InitGenesis gs w0 = (Ret tt, w) ->
  let out := ExportGenesis w in
  (gs_Params out = gs_Params gs /\ gs_EncSeq out = gs_EncSeq gs /\ gs_CurrentEpoch out = gs_CurrentEpoch gs /\
   gs_ActiveEpoch out = gs_ActiveEpoch gs) /\
  (gs_EncTxs out ≡ₚ gs_EncTxs gs /\ gs_EncShares out ≡ₚ gs_EncShares gs /\
   gs_DkgRounds out ≡ₚ round_stored <$> gs_DkgRounds gs /\ gs_ActiveKeys out ≡ₚ gs_ActiveKeys gs /\
   gs_EncKeys out ≡ₚ gs_EncKeys gs) /\
  (gs_Commits out ≡ₚ last_by commit_suffix (gs_Commits gs) /\ gs_Pending out ≡ₚ last_by pending_suffix (gs_Pending gs) /\
   gs_Dealings out ≡ₚ last_by deal_suffix (gs_Dealings gs)) /\
  counts_ok w (fun f => sumZ f (gs_EncTxs gs)).
Proof.
  intros Hw0 Ht R. apply InitGenesis_run in R as [Hv ->]. apply validated_distinct in Hv as Hd. intros out. subst out.
  split_and!; cbn [ExportGenesis gs_Params gs_EncSeq gs_CurrentEpoch gs_ActiveEpoch gs_EncTxs gs_EncShares gs_DkgRounds
    gs_ActiveKeys gs_EncKeys gs_Commits gs_Pending gs_Dealings].
  - destruct (stage_only 0 1 gs w0 _ Hw0 eq_refl eq_refl) as (w1 & _ & Hs). unfold GetParams, get_json. rewrite Hs by done.
    cbn [snd]. unfold SetParams. rewrite sget_sset, decide_True by done. by rewrite json_roundtrip.
  - by apply (readU64_stage 3 5); [|apply (ty_seq gs Ht)|..].
  - by apply (readU64_stage 4 20); [|apply (ty_current gs Ht)|..].
  - by apply (readU64_stage 5 21); [|apply (ty_active gs Ht)|..].
  - rewrite <- (last_by_distinct _ _ (tx_suffixes gs Ht Hd)).
    apply (imported_same 11 6 [6; 22; 24; 25] tx_suffix import_enc_tx); [done|lia|done|done|apply writes_import_enc_tx].
  - rewrite <- (unverified_id gs Hd), <- (last_by_distinct _ _ (share_suffixes gs Ht Hd)).
    apply (imported_records 10 7 [7] share_suffix (fun s => json_Marshal (unverified s)) unverified (fun s => SetEncShare (unverified s)));
      [done|lia|done|done|apply (writes_sset EncSharePrefix share_suffix)|]. intros s. apply json_roundtrip.
  - rewrite <- (last_by_distinct (fun r => be64 (r_Epoch r)) (gs_DkgRounds gs)) by (apply epoch_suffixes; [apply (di_rounds gs Hd)|apply (ty_rounds gs Ht)]).
    apply (imported_records 6 16 [16] (fun r => be64 (r_Epoch r)) json_Marshal round_stored SetDkgRound);
      [done|lia|done|done|apply (writes_sset DkgRoundPrefix (fun r => be64 (r_Epoch r)))|apply round_roundtrip].
  - rewrite <- (last_by_distinct (fun a => be64 (ak_Epoch a)) (gs_ActiveKeys gs)) by (apply epoch_suffixes; [apply (di_keys gs Hd)|apply (ty_keys gs Ht)]).
    apply (imported_same 8 19 [19] (fun a => be64 (ak_Epoch a)) SetActiveKey);
      [done|lia|done|done|apply (writes_sset ActiveKeyPrefix (fun a => be64 (ak_Epoch a)))].
  - by apply imported_enc_keys.
  - apply (imported_same 1 3 [3; 35; 36] commit_suffix SetCommit); [done|lia|done|done|apply writes_SetCommit].
  - apply (imported_same 2 4 [4] pending_suffix SetPending); [done|lia|done|done|apply (writes_sset PendingPrefix pending_suffix)].
  - apply (imported_same 7 17 [17] deal_suffix SetDealing); [done|lia|done|done|apply (writes_sset DkgDealPrefix deal_suffix)].
  - by apply imported_counts.
Qed.
End import.

(** ** A concrete import: two ciphertexts in flight, a share, a commit
    listed twice and a key. *)
Module Example.
Import CurveModel EncModel.
#[local] Existing Instance decimal_MathInt.

Definition tx (s : string) (h q : Z) : EncTx := mkEncTx s 1 h q (be_bytes 33 7) "nonce-123456" "body" 0 0 "" 0.
Definition state : GenesisState :=
  mkGenesisState DefaultParams [mkCommit "carol" "old" 4 0; mkCommit "carol" "hash" 4 0] [] 2 [tx "bob" 9 1; tx "alice" 5 0]
    [mkEncShare "op1" 9 1 1 (be_bytes 33 5) "proof" false] [] [] [] 0 0 [mkEncKeyReg "op1" (be_bytes 33 3)].
Definition empty : World ledger := mkWorld (mkLedger ∅ ∅) ∅ [].

Lemma genesis_roundtrip_witness :
  gs_EncTxs (ExportGenesis (import_state state empty)) ≡ₚ [tx "bob" 9 1; tx "alice" 5 0] /\
  gs_Commits (ExportGenesis (import_state state empty)) ≡ₚ [mkCommit "carol" "hash" 4 0] /\
  GetGlobalEncCount (import_state state empty) = 2.
Proof.
  assert (Ht : typed state).
  { assert (U : forall z, 0 <= z < 100 -> is_u64 z) by (intros z Hz; unfold is_u64; lia).
    split; cbn [state gs_EncSeq gs_CurrentEpoch gs_ActiveEpoch gs_DkgRounds gs_ActiveKeys gs_EncTxs gs_EncShares].
    - apply U; lia.
    - apply U; lia.
    - apply U; lia.
    - apply Forall_nil_2.
    - apply Forall_nil_2.
    - repeat apply Forall_cons_2; [..|apply Forall_nil_2]; repeat split; apply U; cbn; lia.
    - repeat apply Forall_cons_2; [..|apply Forall_nil_2]; repeat split; apply U; cbn; lia.
    - reflexivity. }
  assert (Hv : Genesis_Validate state = Ret tt) by (vm_compute; reflexivity).
  assert (R : InitGenesis state empty = (Ret tt, import_state state empty)).
  { unfold InitGenesis, lift_outcome. unfold mbind, M_bind. rewrite Hv. reflexivity. }
  destruct (genesis_roundtrip state empty (import_state state empty) (fun _ => eq_refl) Ht R) as (_ & (Hx & _) & (Hcm & _) & Hc & _).
  split; [exact Hx|]. split; [exact Hcm|]. rewrite Hc. vm_compute. reflexivity.
Defined.
End Example.
End EncImport.
