(* ===== verification/EncChain.v ===== *)
(** * x/encmempool: every reachable state

    The module as a state machine: the begin- and end-block handlers, the
    ingestion of the injected vote extensions and the seven messages are the steps
    ([step]); a message that fails is undone by the runtime; the other modules of
    the chain are one more step that respects the module's store and account
    ([outside]).  The theorems state what holds in every state reachable from an
    empty store.

    The sequence number and the epoch counter are assumed not to reach 2^64, at
    which the code wraps them. *)
From S2P Require Import Prelude Codec Bank Sha256 EncTypes StakeWeight Threshold CurveModel Dkg EncKeeper EncRegistry EncDkg EncAbci EncIngest EncMsg EncFrame EncInvariant EncBond EncEpoch EncBlock EncCommit EncUntouched EncReveal EncKeys EncModel.
From stdpp Require Import gmap strings list sorting.
From Stdlib Require Import ZArith Lia.

#[local] Set Default Goal Selector "!".
Open Scope Z_scope.

Module EncChain.
Import EncTypes EncKeeper EncRegistry EncDkg EncAbci EncIngest EncMsg EncFrame EncInvariant EncBond EncEpoch EncBlock EncCommit EncUntouched EncReveal EncKeys.

Section chain.
Context `{BankLaws B} `{EncJSON} `{!EncJSONLaws} `{AccAddr} `{CurveLaws} `{AesGcm} `{MathInt} `{SDKDenom} `{Ecdsa}
  `{EvmExec (World B)} `{!EvmLaws}.
Implicit Types w : World B.

(** A delivered message: its writes are kept when it succeeds. *)
Definition deliver {A : Type} (m : M (World B) A) w : World B :=
  match m w with (Ret _, w') => w' | _ => w end.

(** What an observer sees of a step: the begin block of a height, a submission whose
    ciphertext would be due at a height, or anything else. *)
Inductive label := Begin (height : Z) | Submit (due : Z) | Other.

Inductive step_at : label -> World B -> World B -> Prop :=
| step_begin k ctx cp w : step_at (Begin (u64 (BlockHeight ctx))) w (BeginBlock k ctx cp w)
| step_extensions ctx entries w : step_at Other w (ConsumeVoteExtensions ctx entries w)
| step_end k ctx cp bonded w : GetCurrentEpoch w + 1 < 2 ^ 64 -> step_at Other w (EndBlockDKG k ctx cp bonded w)
| step_params gov cp msg w : step_at Other w (deliver (UpdateParams gov cp msg) w)
| step_commit ctx msg w : step_at Other w (deliver (CommitTx ctx msg) w)
| step_reveal ctx msg w : is_u64 (rv_CommitHeight msg) -> step_at Other w (deliver (RevealTx ctx msg) w)
| step_submit k ctx cp chainID msg w :
    readU64 EncSeqKey w + 1 < 2 ^ 64 ->
    AccAddressFromBech32 (se_Submitter msg) <> Some (NewModuleAddress ModuleName) ->
    step_at (Submit (u64 (u64 (BlockHeight ctx) + DecryptDelay (GetParams w)))) w (deliver (SubmitEncrypted k ctx cp chainID msg) w)
| step_share ctx msg w : step_at Other w (deliver (SubmitDecryptionShare ctx msg) w)
| step_deal ctx msg w : step_at Other w (deliver (DkgDeal ctx msg) w)
| step_complaint ctx msg w : step_at Other w (deliver (DkgComplaint ctx msg) w)
| step_outside w w' : outside w w' -> step_at Other w w'.

Definition step w w' : Prop := exists l, step_at l w w'.

(** A store with parameters at most, and a consistent bank. *)
Definition start w : Prop := bank_valid (w_bank w) /\ forall k, key_in [1] k = false -> sget k w = None.

Definition reachable w : Prop := exists w0, start w0 /\ rtc step w0 w.

Record chain_inv w : Prop := {
  ch_good : good w;
  ch_commits : commit_inv w;
  ch_pending : pending_inv w;
  ch_keys : keys_inv w
}.

Lemma deliver_spec {A : Type} (m : M (World B) A) (P : World B -> Prop) w :
  P w -> (forall a w', m w = (Ret a, w') -> P w') -> P (deliver m w).
Proof. intros Hw Hm. unfold deliver. destruct (m w) as [[a|e|p] w'] eqn:E; [by eapply Hm|done..]. Qed.

Lemma chain_inv_frame ps w w' :
  frame ps w w' -> apart ps = true -> forallb (fun z => negb (Zmem z ps)) (commit_prefixes ++ [4; 26; 27]) = true ->
  chain_inv w -> chain_inv w'.
Proof.
  intros F Hp Hc [Hg Hci Hpe Hk]. rewrite forallb_app in Hc. apply andb_true_iff in Hc as [Hc Hkk].
  simpl in Hkk. bool_prop.
  split; [by eapply good_frame|by eapply commit_inv_frame|by eapply pending_frame|by eapply keys_inv_frame].
Qed.

Lemma deliver_framed {A : Type} ps (m : M (World B) A) w :
  framed ps m -> apart ps = true -> forallb (fun z => negb (Zmem z ps)) (commit_prefixes ++ [4; 26; 27]) = true ->
  chain_inv w -> chain_inv (deliver m w).
Proof. intros Hm Hp Hc Hi. apply deliver_spec; [done|]. intros a w' R. eapply chain_inv_frame; [by eapply Hm|done..]. Qed.

(** ** The initial state *)
Lemma start_inv w : start w -> chain_inv w.
Proof.
  intros [Hb Hs].
  assert (Hg : forall k v, key_in [1] k = false -> sget k w = Some v -> False) by (intros k v Hk; by rewrite Hs).
  assert (Hn : forall k, key_in [1] k = false -> readU64 k w = 0) by (intros k Hk; unfold readU64; by rewrite Hs).
  assert (He : enc_txs w = []).
  { apply elem_of_nil_inv. intros e. unfold enc_txs. rewrite elem_of_iter_json by done. unfold get_json.
    intros [t Ht]. by rewrite Hs in Ht. }
  assert (Hc : IterateCommits w = []).
  { apply elem_of_nil_inv. intros c. unfold IterateCommits. rewrite elem_of_iter_json by done. unfold get_json.
    intros [t Ht]. by rewrite Hs in Ht. }
  assert (Hf : forall e, ~ in_flight w e).
  { intros e. unfold in_flight, GetEncTx, get_json. by rewrite Hs. }
  split; [split; split|split| |].
  - intros t v E. by apply Hg in E.
  - intros e E. by apply Hf in E.
  - unfold tally. rewrite He, Hn by done. done.
  - unfold counts_ok, tally. rewrite He. unfold GetGlobalEncCount, GetSubmitterEncCount, getEpochEncCount. simpl.
    split_and!; intros; by rewrite Hn.
  - intros ep r _. unfold GetDkgRound, get_json. by rewrite Hs.
  - unfold GetActiveEpoch. by rewrite Hn.
  - intros e E. by apply Hf in E.
  - done.
  - intros e E. by apply Hf in E.
  - intros d. unfold escrowed, tally. rewrite He. simpl. by apply GetBalance_range.
  - intros t v E. by apply Hg in E.
  - unfold GetGlobalCommitCount, commit_total. by rewrite Hn, Hc.
  - intros s. unfold GetSubmitterCommitCount, commit_total_of. by rewrite Hn, Hc.
  - unfold commit_total. by rewrite Hc.
  - intros s. unfold commit_total_of. by rewrite Hc.
  - intros t v E. by apply Hg in E.
  - intros op key. unfold GetEncPubKey, GetEncKeyOwner, get_nonempty. by rewrite !Hs.
Qed.

(** ** The steps *)
Lemma submit_inv k ctx cp chainID msg w r w' :
  chain_inv w -> readU64 EncSeqKey w + 1 < 2 ^ 64 ->
  AccAddressFromBech32 (se_Submitter msg) <> Some (NewModuleAddress ModuleName) ->
  SubmitEncrypted k ctx cp chainID msg w = (Ret r, w') -> chain_inv w'.
Proof.
  intros [[Hi Hep Hs] Hc Hpe Hk] Hq Ha R.
  apply SubmitEncrypted_run in R as (epoch & e & Hadm & Hi' & Hs' & He & Ht & Hsub & _ & Hst & Hold & _); [|done..].
  assert (Hsf : sframe (29 :: 37 :: enc_prefixes) w w') by exact Hst.
  destruct (sframe_split _ _ _ Hsf) as (w1 & F & E).
  split; [split; [done| |done]|by eapply commit_inv_sframe|by eapply pending_sframe|eapply keys_inv_store; [exact E|by eapply keys_inv_frame]].
  assert (Huse : forall ep, usable ep w -> usable ep w').
  { intros ep. unfold usable, GetActiveKey, GetDkgRound, get_json. by rewrite !Hst by done. }
  split.
  - intros ep r0. unfold GetDkgRound, get_json, GetCurrentEpoch, readU64. rewrite !Hst by done. apply (ep_round w Hep).
  - unfold GetActiveEpoch, readU64. rewrite Hst by done. intros Hne. apply Huse, (ep_serving w Hep), Hne.
  - intros e0 He0 Hpos. destruct (Hold e0 He0) as [->|He1]; [|by apply Huse, (ep_in_flight w Hep)].
    rewrite (sub_epoch _ _ _ _ _ _ Hsub), (adm_epoch _ _ _ _ _ _ _ Hadm) in *.
    destruct (DkgEnabled _); [|lia]. apply Huse, (ep_serving w Hep). lia.
Qed.

Lemma BeginBlock_keys k ctx cp w : keys_inv w -> keys_inv (BeginBlock k ctx cp w).
Proof.
  intros Hi. destruct (sframe_split _ _ _ (sframe_BeginBlock k ctx cp w)) as (w1 & F & E).
  eapply keys_inv_store; [exact E|]. by eapply keys_inv_frame.
Qed.

Lemma step_inv w w' : chain_inv w -> step w w' -> chain_inv w'.
Proof.
  intros Hi [l Hst]. destruct Hst as [| | | | | | | | | |w w' Ho].
  - destruct Hi. split; [by apply BeginBlock_good|by apply BeginBlock_commits|by apply BeginBlock_pending|by apply BeginBlock_keys].
  - pose proof (frame_ConsumeVoteExtensions ctx entries w) as F. destruct Hi.
    split; [by eapply good_frame|by eapply commit_inv_frame|by eapply pending_frame|by apply ConsumeVoteExtensions_keys].
  - pose proof (frame_EndBlockDKG k ctx cp bonded w) as F. destruct Hi as [[Hen Hep Hs] Hc Hpe Hk].
    destruct (EndBlockDKG_inv k ctx cp bonded w (conj Hen Hep)) as [Hen' Hep']; [done|].
    split; [split; [done..|by eapply solvent_frame]|by eapply commit_inv_frame|by eapply pending_frame|by apply EndBlockDKG_keys].
  - by apply (deliver_framed [1]); [apply framed_UpdateParams|..].
  - apply deliver_spec; [done|]. intros r w' R. pose proof (framed_CommitTx _ _ _ _ _ R) as F. destruct Hi.
    split; [by eapply good_frame|by eapply CommitTx_inv|by eapply pending_frame|by eapply keys_inv_frame].
  - apply deliver_spec; [done|]. intros r w' R. pose proof (framed_RevealTx _ _ _ _ _ R) as F. destruct Hi.
    split; [by eapply good_frame|by eapply commit_inv_frame|by eapply RevealTx_pending|by eapply keys_inv_frame].
  - apply deliver_spec; [done|]. intros r w' R. by eapply submit_inv.
  - by apply (deliver_framed [7]); [apply framed_SubmitDecryptionShare|..].
  - by apply (deliver_framed [17]); [apply framed_DkgDeal|..].
  - by apply (deliver_framed [18]); [apply framed_DkgComplaint|..].
  - destruct Hi. split; [by eapply good_outside|by eapply commit_inv_store; [apply Ho|]| |by eapply keys_inv_store; [apply Ho|]].
    eapply (pending_sframe []); [apply sframe_store, Ho|done..].
Qed.

Lemma reachable_inv w : reachable w -> chain_inv w.
Proof.
  intros (w0 & Hs & Hr). apply start_inv in Hs. induction Hr as [|w1 w2 w3 Hst _ IH]; [done|].
  by apply IH, (step_inv w1).
Qed.

(** ** The abstract mempool

    A bag of ciphertexts and the next sequence number.  A submission enters its
    ciphertext under the next number with the height at which it is due, or is
    refused; the begin block of a height lets ciphertexts leave that are due by then;
    nothing else changes the bag. *)
Record pool := mkPool { p_txs : list EncTx; p_next : Z }.

Inductive pool_step : label -> pool -> pool -> Prop :=
| pool_admit due e s s' :
    e_Seq e = p_next s -> e_DecryptHeight e = due -> p_next s' = p_next s + 1 -> p_txs s' ≡ₚ e :: p_txs s ->
    pool_step (Submit due) s s'
| pool_refuse due s : pool_step (Submit due) s s
| pool_settle h s s' :
    p_next s' = p_next s -> p_txs s' ⊆+ p_txs s ->
    (forall e, e ∈ p_txs s -> h < e_DecryptHeight e -> e ∈ p_txs s') -> pool_step (Begin h) s s'
| pool_idle s : pool_step Other s s.

(** A run of a labelled system, with its labels in order. *)
Inductive labelled {S : Type} (R : label -> S -> S -> Prop) : list label -> S -> S -> Prop :=
| labelled_nil s : labelled R [] s s
| labelled_cons l ls s1 s2 s3 : R l s1 s2 -> labelled R ls s2 s3 -> labelled R (l :: ls) s1 s3.

Lemma labelled_rtc w w' : rtc step w w' -> exists ls, labelled step_at ls w w'.
Proof.
  induction 1 as [w|w1 w2 w3 [l Hl] _ [ls IH]]; [exists []; constructor|]. exists (l :: ls). by econstructor.
Qed.

Definition pool_of w : pool := mkPool (enc_txs w) (readU64 EncSeqKey w).

Lemma submit_perm k ctx cp chainID msg w r w' :
  good w -> readU64 EncSeqKey w + 1 < 2 ^ 64 ->
  AccAddressFromBech32 (se_Submitter msg) <> Some (NewModuleAddress ModuleName) ->
  SubmitEncrypted k ctx cp chainID msg w = (Ret r, w') ->
  exists epoch e, admitted ctx cp chainID (GetParams w) msg epoch w /\
    submitted ctx msg epoch (readU64 EncSeqKey w) (GetParams w) e /\ r = (e_DecryptHeight e, e_Seq e) /\
    enc_txs w' ≡ₚ e :: enc_txs w /\ readU64 EncSeqKey w' = readU64 EncSeqKey w + 1.
Proof.
  intros [Hi _ Hs] Hq Ha R.
  apply SubmitEncrypted_run in R as (epoch & e & Hadm & Hi' & _ & He & Ht & Hst & Hres & _ & Hold & Hseq); [|done..].
  exists epoch, e. split_and!; [done..| |done]. apply submseteq_length_Permutation.
  - apply NoDup_submseteq; [by apply enc_txs_NoDup|]. intros e' Hin. apply in_flight_elem in Hin as [Hin Hok]; [|done].
    destruct (Hold e' Hin) as [->|Hin0]; [by left|right]. by apply in_flight_elem.
  - specialize (Ht (fun _ => 1)). unfold tally in Ht. rewrite !sumZ_one in Ht. simpl. lia.
Qed.

(** A step that writes neither the ciphertexts nor the counter is an idle one. *)
Lemma idle_frame ps w w' : frame ps w w' -> Zmem 5 ps = false -> Zmem 6 ps = false -> pool_step Other (pool_of w) (pool_of w').
Proof.
  intros F Z5 Z6. assert (E : pool_of w' = pool_of w).
  { unfold pool_of, enc_txs. rewrite (frame_readU64 _ _ _ _ F) by done. f_equal.
    apply (iter_json_frame ps 6 "" w w'); [done|lia|done]. }
  rewrite E. constructor.
Qed.

Lemma idle_deliver {A : Type} ps (m : M (World B) A) w :
  framed ps m -> Zmem 5 ps = false -> Zmem 6 ps = false -> pool_step Other (pool_of w) (pool_of (deliver m w)).
Proof.
  intros Hm Z5 Z6. apply deliver_spec; [constructor|]. intros a w' R. eapply idle_frame; [by eapply Hm|done..].
Qed.

Lemma BeginBlock_settles k ctx cp w :
  good w -> pool_step (Begin (u64 (BlockHeight ctx))) (pool_of w) (pool_of (BeginBlock k ctx cp w)).
Proof.
  intros Hg. destruct (BeginBlock_kept k ctx cp w Hg) as [[Hi' _ _] Hl]. destruct Hg as [Hi _ _].
  apply pool_settle; simpl.
  - unfold readU64. by rewrite (sframe_BeginBlock k ctx cp w).
  - apply NoDup_submseteq; [by apply enc_txs_NoDup|]. intros e. rewrite !in_flight_elem by done. intros [He Hok]. split; [by apply Hl|done].
  - intros e. rewrite !in_flight_elem by done. intros [He Hok] Hh. split; [by apply Hl|done].
Qed.

Lemma step_refines l w w' : chain_inv w -> step_at l w w' -> pool_step l (pool_of w) (pool_of w').
Proof.
  intros Hi Hst. destruct Hst as [k ctx cp w|ctx entries w|k ctx cp bonded w|gov cp msg w|ctx msg w|ctx msg w Hu
    |k ctx cp chainID msg w Hq Ha|ctx msg w|ctx msg w|ctx msg w|w w' Ho].
  - apply BeginBlock_settles, Hi.
  - eapply idle_frame; [apply frame_ConsumeVoteExtensions|done..].
  - eapply idle_frame; [apply frame_EndBlockDKG|done..].
  - by eapply idle_deliver; [apply framed_UpdateParams|..].
  - by eapply idle_deliver; [apply framed_CommitTx|..].
  - by eapply idle_deliver; [apply framed_RevealTx|..].
  - apply deliver_spec; [constructor|]. intros r w' R.
    apply submit_perm in R as (epoch & e & _ & Hsub & _ & Hp & Hn); [|apply Hi|done..].
    apply (pool_admit _ e); [apply (sub_seq _ _ _ _ _ _ Hsub)|apply (sub_height _ _ _ _ _ _ Hsub)|done..].
  - by eapply idle_deliver; [apply framed_SubmitDecryptionShare|..].
  - by eapply idle_deliver; [apply framed_DkgDeal|..].
  - by eapply idle_deliver; [apply framed_DkgComplaint|..].
  - assert (E : pool_of w' = pool_of w); [|rewrite E; constructor].
    unfold pool_of. rewrite (store_readU64 _ _ _ (proj1 Ho)). f_equal. unfold enc_txs, iter_json, siter, kv_iter, kv_range.
    by rewrite (proj1 Ho).
Qed.

(** In the abstract mempool a number that is used up never comes back. *)
Lemma pool_no_return ls s s' e : labelled pool_step ls s s' -> e_Seq e < p_next s -> e ∉ p_txs s -> e ∉ p_txs s'.
Proof.
  induction 1 as [|l ls s1 s2 s3 Hst _ IH]; intros Hs He; [done|]. apply IH; destruct Hst as [d e' s1 s2 E _ N P|d s1|h s1 s2 N P _|s1]; try done.
  - lia.
  - lia.
  - rewrite P. intros [->|Hin]%elem_of_cons; [lia|done].
  - intros Hin. apply He. by eapply elem_of_submseteq.
Qed.

Lemma labelled_refine ls w w' : chain_inv w -> labelled step_at ls w w' -> labelled pool_step ls (pool_of w) (pool_of w').
Proof.
  intros Hi Hr. induction Hr as [|l ls w1 w2 w3 Hst _ IH]; [constructor|]. econstructor; [by apply step_refines|].
  apply IH. eapply step_inv; [done|by exists l].
Qed.

(** ** What holds in every reachable state *)

(** C2: the module refines the abstract mempool.  Every run of the module from an
    empty store is, label by label, a run of the abstract mempool from the empty bag.
    The begin block of height [h] lets ciphertexts leave and keeps all that are due
    after [h]; a submission at a height enters one ciphertext, under the next sequence
    number and due the decryption delay later, or is refused; no other step changes
    the bag or the number. *)
Theorem chain_refines_pool ls w0 w :
  start w0 -> labelled step_at ls w0 w -> pool_of w0 = mkPool [] 0 /\ labelled pool_step ls (pool_of w0) (pool_of w).
Proof.
  intros Hs Hr. split; [|apply labelled_refine; [by apply start_inv|done]].
  unfold pool_of. f_equal; [|unfold readU64; by rewrite (proj2 Hs)].
  apply elem_of_nil_inv. intros e. unfold enc_txs. rewrite elem_of_iter_json by done. unfold get_json.
  intros [t Ht]. by rewrite (proj2 Hs) in Ht.
Qed.

(** C16: a ciphertext is settled once.  From a reachable state, a ciphertext whose
    sequence number has been used and that is not in flight is never in flight
    again, whatever the chain does: what was decrypted, dropped or refunded cannot
    be decrypted, dropped or refunded a second time. *)
Theorem settled_once w w' e :
  reachable w -> rtc step w w' -> e_Seq e < readU64 EncSeqKey w -> e ∉ enc_txs w -> e ∉ enc_txs w'.
Proof.
  intros Hr%reachable_inv [ls Hst]%labelled_rtc Hs He. apply (pool_no_return ls (pool_of w) (pool_of w')); [by apply labelled_refine|done..].
Qed.

(** C27: the counters the admission ceilings read are exact.  In every reachable
    state the global count is the number of ciphertexts in flight, the count of a
    submitter is the number of theirs, and the count of an epoch, which decides
    whether its key may be pruned, is the number of ciphertexts encrypted to it. *)
Theorem refcounts_exact w :
  reachable w ->
  GetGlobalEncCount w = zlen (enc_txs w) /\
  (forall s, GetSubmitterEncCount s w = count_if (by_submitter s) w) /\
  (forall ep, is_u64 ep -> ep <> 0 -> getEpochEncCount ep w = count_if (by_epoch ep) w).
Proof.
  intros Hr%reachable_inv. destruct (inv_counts w (good_enc w (ch_good w Hr))) as (Hg & Hs & He).
  split_and!.
  - rewrite Hg. apply sumZ_one.
  - intros s. rewrite count_if_tally. apply Hs.
  - intros ep Hu Hne. rewrite count_if_tally. apply He; unfold is_u64 in Hu; lia.
Qed.

(** C1: bonds are always covered.  In every reachable state and for every
    denomination, the bonds of the ciphertexts in flight add up to at most the
    balance of the module's account, so every release can pay its refund. *)
Theorem bonds_covered w :
  reachable w -> forall d, sumZ (bond_in d) (enc_txs w) <= GetBalance (w_bank w) (NewModuleAddress ModuleName) d.
Proof. intros Hr%reachable_inv d. apply (sol_covered w (good_bonds w (ch_good w Hr)) d). Qed.

(** C28: no key is lost while it is needed.  In every reachable state the epoch of
    each ciphertext in flight, and the serving epoch, has its threshold key
    installed and its round active, whatever rekeys, retries and prunings
    happened in between. *)
Theorem epochs_usable w :
  reachable w ->
  (forall e, e ∈ enc_txs w -> 0 < e_Epoch e -> usable (e_Epoch e) w) /\
  (GetActiveEpoch w <> 0 -> usable (GetActiveEpoch w) w).
Proof.
  intros Hr%reachable_inv. destruct (ch_good w Hr) as [Hi Hep _]. split; [|apply (ep_serving w Hep)].
  intros e He. apply (ep_in_flight w Hep). by apply in_flight_elem.
Qed.

(** C31: what an accepted submission means.  From a reachable state, a submission
    that succeeds passed every guard ([admitted]: switches, encoding, rate limits,
    a serving key on an unconcentrated committee with derivable shares, a proof
    that binds the ciphertext to its submitter), stored exactly one new ciphertext
    with the submitter's data, the maturity height and the serving epoch
    ([submitted]), and left both in-flight ceilings respected. *)
Theorem submission_admitted k ctx cp chainID msg w h q w' :
  reachable w -> readU64 EncSeqKey w + 1 < 2 ^ 64 ->
  AccAddressFromBech32 (se_Submitter msg) <> Some (NewModuleAddress ModuleName) ->
  SubmitEncrypted k ctx cp chainID msg w = (Ret (h, q), w') ->
  let p := GetParams w in
  exists epoch e, admitted ctx cp chainID p msg epoch w /\ submitted ctx msg epoch q p e /\ h = e_DecryptHeight e /\
    enc_txs w' ≡ₚ e :: enc_txs w /\
    (0 < MaxInFlightEncTx p -> zlen (enc_txs w') <= MaxInFlightEncTx p) /\
    (0 < MaxInFlightPerSubmitter p -> count_if (by_submitter (se_Submitter msg)) w' <= MaxInFlightPerSubmitter p).
Proof.
  intros Hr Hq Ha R p. subst p. pose proof (ch_good w (reachable_inv w Hr)) as Hg.
  destruct (inv_counts w (good_enc w Hg)) as (Hc & Hsub & _).
  apply submit_perm in R as (epoch & e & Hadm & Hst & Hres & Hperm & _); [|done..]. injection Hres as -> ->.
  exists epoch, e. split_and!; [done| |done|done| |].
  - rewrite (sub_seq _ _ _ _ _ _ Hst). exact Hst.
  - intros Hm. pose proof (adm_global _ _ _ _ _ _ _ Hadm Hm) as Hlt. rewrite Hc in Hlt. unfold tally in Hlt. rewrite sumZ_one in Hlt.
    unfold zlen. rewrite Hperm. cbn [length]. lia.
  - intros Hm. pose proof (adm_submitter _ _ _ _ _ _ _ Hadm Hm) as Hlt. rewrite Hsub in Hlt. rewrite count_if_tally.
    unfold tally in *. rewrite (sumZ_perm _ _ _ Hperm). cbn [sumZ].
    pose proof (one_bounds (by_submitter (se_Submitter msg)) e). lia.
Qed.

(** C32: releasing a ciphertext settles its bond.  In a reachable state, for a
    ciphertext in flight whose submitter has an account that can receive coins, the
    release succeeds: the burned part of the bond leaves the supply, the rest of it
    goes to the submitter, the module's account loses exactly the bond, no other
    balance changes, and exactly that ciphertext is no longer in flight. *)
Theorem release_settles k e w addr :
  reachable w -> e ∈ enc_txs w -> bankKeeper_set k = true ->
  AccAddressFromBech32 (e_Submitter e) = Some addr -> BlockedAddr addr = false -> addr <> NewModuleAddress ModuleName ->
  GetBalance (w_bank w) addr (e_BondDenom e) + e_Bond e < 2 ^ 256 ->
  let burned := Z.min (e_Bond e) (e_BondBurn e) in
  exists w', releaseEncTx k e w = (Ret tt, w') /\
    (forall d, GetSupply (w_bank w') d = GetSupply (w_bank w) d - (if decide (e_BondDenom e = d) then burned else 0)) /\
    (forall a d, GetBalance (w_bank w') a d = GetBalance (w_bank w) a d
       - (if decide (a = NewModuleAddress ModuleName /\ e_BondDenom e = d) then e_Bond e else 0)
       + (if decide (a = addr /\ e_BondDenom e = d) then e_Bond e - burned else 0)) /\
    (forall e', e' ∈ enc_txs w' <-> e' ∈ enc_txs w /\ e' <> e).
Proof.
  intros Hr%reachable_inv He Hk Ha Hbl Hne Hroom burned. destruct (ch_good w Hr) as [Hi _ Hs].
  assert (Hf : in_flight w e) by by apply in_flight_elem.
  assert (Hbank : w_bank (drop_enc_tx e w) = w_bank w) by apply (frame_bank _ _ _ (frame_drop e w)).
  assert (Hbp : burned_part e = burned) by (unfold burned_part, burned; destruct (e_Bond e <? e_BondBurn e) eqn:E; bool_prop; lia).
  destruct (refundBond_exact k e (drop_enc_tx e w) addr) as (w' & R & Hkv & Hsup & Hbal); rewrite ?Hbank; try done.
  { apply (sol_bank w Hs). }
  { by apply (sol_bonds w Hs). }
  { unfold module_balance. rewrite Hbank. by apply bond_covered. }
  assert (Hrel : releaseEncTx k e w = (Ret tt, w')).
  { unfold releaseEncTx. by rewrite (bind_Ret _ _ _ _ _ (modify_run _ _)). }
  exists w'. rewrite Hbank, Hbp in *. split_and!; [done..|].
  pose proof (release_preserves k e w _ _ Hi Hs Hf Hrel) as (Hi' & _ & _ & Hfl).
  intros e'. rewrite !in_flight_elem by done. rewrite Hfl. naive_solver (eauto using in_flight_ok).
Qed.

(** Stored commits are bounded.  In every reachable state at most 32768
    commits are stored, at most 64 per sender, and the counters say how many. *)
Theorem commits_bounded w :
  reachable w ->
  GetGlobalCommitCount w = zlen (IterateCommits w) /\ zlen (IterateCommits w) <= 32768 /\
  (forall s, GetSubmitterCommitCount s w = sumZ (from_sender s) (IterateCommits w) /\
             sumZ (from_sender s) (IterateCommits w) <= 64).
Proof.
  intros Hr%reachable_inv. destruct (ch_commits w Hr) as [_ Hg Hs Hb Hbs].
  unfold commit_total, commit_total_of in *. rewrite sumZ_one in *. split_and!; [done..|]. intros s. by split.
Qed.

(** C39: a registered encryption key belongs to one operator.  In every reachable
    state the registry of operators' keys and the registry of keys' owners are inverse
    to each other, so two operators never have the same byte string registered; nor
    the same point when both registered it in 33 bytes, the compressed form being the
    only such encoding of a point.  Keys are compared as byte strings: the 65-byte
    encodings the parser accepts as well are other keys. *)
Theorem enc_keys_unique w :
  reachable w ->
  (forall op key, GetEncPubKey op w = Some key <-> GetEncKeyOwner key w = Some op) /\
  (forall op1 op2 key, GetEncPubKey op1 w = Some key -> GetEncPubKey op2 w = Some key -> op1 = op2) /\
  (forall op1 op2 key1 key2 P, (forall b, ParsePubKey b = Some P -> strlen b = 33 -> b = SerializeCompressed P) ->
    GetEncPubKey op1 w = Some key1 -> ParsePubKey key1 = Some P -> strlen key1 = 33 ->
    GetEncPubKey op2 w = Some key2 -> ParsePubKey key2 = Some P -> strlen key2 = 33 -> op1 = op2).
Proof.
  intros Hr%reachable_inv. pose proof (ch_keys w Hr) as Hk.
  assert (Hu : forall op1 op2 key, GetEncPubKey op1 w = Some key -> GetEncPubKey op2 w = Some key -> op1 = op2)
    by (intros op1 op2 key E1%Hk E2%Hk; congruence).
  split_and!; [exact Hk|exact Hu|]. intros op1 op2 key1 key2 P Hc G1 P1 L1 G2 P2 L2.
  rewrite (Hc key1 P1 L1) in G1. rewrite (Hc key2 P2 L2) in G2. by eapply Hu.
Qed.

End chain.

(** ** A concrete history

    A one-member committee generates a key (round opened at height 1, dealing at
    2, finalised at 8), [carol] commits to a transaction and [alice] submits a
    ciphertext with its bond.  A second history announces an encryption key. *)
Module History.
Import CurveModel EncModel.
#[local] Existing Instance decimal_MathInt.

Definition point (z : Z) : string := be_bytes 33 z.
Definition params (transparent : bool) : Params := {|
  RevealDelay := 1; MaxRevealWindow := 100; EncEnabled := true; EncExecEnabled := true;
  ThresholdPub := ""; EncTypes.Threshold := 0; Keypers := []; DecryptDelay := 2;
  MaxInFlightEncTx := 100; MaxInFlightPerSubmitter := 10;
  EncSubmitBond := 100; EncSubmitBondDenom := "stake"; EncSubmitBondBurnBps := 2500;
  MaxVerifyOpsPerBlock := 0;
  DkgEnabled := true; DkgStartHeight := 0; DkgDealWindow := 1; DkgComplaintWindow := 1;
  DkgThreshold := 1; DkgMembers := [mkDkgMember "op1" "acc1" (point 9)]; DkgRetryBackoff := 5; DkgMaxAttempts := 8;
  DkgMinRekeyGap := 30; DkgTransparent := transparent; DkgMaxMembers := 0; DkgShareBudget := 0;
  DkgMaxEpochBlocks := 43200; DkgRekeyOnStakeDriftBps := 500;
  DkgRetainActiveDealings := true; DkgStrictConcentration := true
|}.

Definition keeper : Keeper := mkKeeper true true true true false.
Definition cons : ConsensusParams := mkConsensusParams None None.
Definition bonded : list (string * Z) := [("op1", 10)].
Definition at_height (h : Z) : Ctx := mkCtx 0 h false false.
Definition genesis (p : Params) : World ledger :=
  SetParams p (mkWorld (mkLedger {[ ("alice", "stake") := 1000 ]} {[ "stake" := 1000 ]}) ∅ []).

Definition nonce : string := "nonce-123456".
Definition deal : MsgDkgDeal := mkMsgDkgDeal "acc1" 1 [point 7] [mkDkgStoredEncShare 1 (point 3) nonce "sealed"].
Definition commitment : MsgCommitTx := mkMsgCommitTx "carol" "0123456789abcdef0123456789abcdef".
Definition pok : Dkg.EncKeyPoK := Dkg.pok_with 5 11 "chain" "alice" (point 11) nonce "body".
Definition submission : MsgSubmitEncrypted :=
  mkMsgSubmitEncrypted "alice" (point 11) nonce "body" (Dkg.PoK_Marshal pok).

Definition w1 : World ledger := Eval vm_compute in EndBlockDKG keeper (at_height 1) cons bonded (genesis (params false)).
Lemma w1_eq : EndBlockDKG keeper (at_height 1) cons bonded (genesis (params false)) = w1.
Proof. vm_compute. reflexivity. Qed.
Definition w2 : World ledger := Eval vm_compute in deliver (DkgDeal (at_height 2) deal) w1.
Lemma w2_eq : deliver (DkgDeal (at_height 2) deal) w1 = w2.
Proof. vm_compute. reflexivity. Qed.
Definition w3 : World ledger := Eval vm_compute in EndBlockDKG keeper (at_height 8) cons bonded w2.
Lemma w3_eq : EndBlockDKG keeper (at_height 8) cons bonded w2 = w3.
Proof. vm_compute. reflexivity. Qed.
Definition w4 : World ledger := Eval vm_compute in deliver (CommitTx (at_height 9) commitment) w3.
Lemma w4_eq : deliver (CommitTx (at_height 9) commitment) w3 = w4.
Proof. vm_compute. reflexivity. Qed.
Definition w5 : World ledger := Eval vm_compute in deliver (SubmitEncrypted keeper (at_height 9) cons "chain" submission) w4.
Lemma w5_eq : deliver (SubmitEncrypted keeper (at_height 9) cons "chain" submission) w4 = w5.
Proof. vm_compute. reflexivity. Qed.

Definition announcement : VEEntry :=
  mkVEEntry "op1" (mkVoteExtension (point 9) (point 9 +:+ Dkg.popDigest "op1") None [] [] []).
Definition v1 : World ledger := Eval vm_compute in ConsumeVoteExtensions (at_height 1) [announcement] (genesis (params true)).
Lemma v1_eq : ConsumeVoteExtensions (at_height 1) [announcement] (genesis (params true)) = v1.
Proof. vm_compute. reflexivity. Qed.

Lemma genesis_start p : start (genesis p).
Proof.
  split; [by apply map_Forall_singleton|]. intros k Hk. unfold genesis, SetParams, sget, sset. rewrite kv_get_set.
  case_decide as E; [destruct E as [_ <-]; done|done].
Qed.

Lemma epoch_start_fits : GetCurrentEpoch (genesis (params false)) + 1 < 2 ^ 64.
Proof. vm_compute. reflexivity. Qed.
Lemma epoch_w2_fits : GetCurrentEpoch w2 + 1 < 2 ^ 64.
Proof. vm_compute. reflexivity. Qed.
Lemma seq_w4_fits : readU64 EncSeqKey w4 + 1 < 2 ^ 64.
Proof. vm_compute. reflexivity. Qed.
Lemma submitter_not_module : AccAddressFromBech32 (se_Submitter submission) <> Some (NewModuleAddress ModuleName).
Proof. vm_compute. discriminate. Qed.

Lemma w4_reachable : reachable w4.
Proof.
  exists (genesis (params false)). split; [apply genesis_start|].
  apply (rtc_l _ _ w1); [rewrite <- w1_eq; eexists; exact (step_end keeper (at_height 1) cons bonded _ epoch_start_fits)|].
  apply (rtc_l _ _ w2); [rewrite <- w2_eq; eexists; exact (step_deal (at_height 2) deal w1)|].
  apply (rtc_l _ _ w3); [rewrite <- w3_eq; eexists; exact (step_end keeper (at_height 8) cons bonded w2 epoch_w2_fits)|].
  apply (rtc_l _ _ w4); [rewrite <- w4_eq; eexists; exact (step_commit (at_height 9) commitment w3)|apply rtc_refl].
Qed.

Lemma w5_reachable : reachable w5.
Proof.
  destruct w4_reachable as (w0 & Hs & Hr). exists w0. split; [exact Hs|]. eapply rtc_r; [exact Hr|].
  rewrite <- w5_eq. eexists; exact (step_submit keeper (at_height 9) cons "chain" submission w4 seq_w4_fits submitter_not_module).
Qed.

Lemma v1_reachable : reachable v1.
Proof.
  exists (genesis (params true)). split; [apply genesis_start|]. apply rtc_once. rewrite <- v1_eq. eexists. apply (step_extensions (at_height 1)).
Qed.

Lemma refcounts_exact_witness :
  GetGlobalEncCount w5 = 1 /\ zlen (enc_txs w5) = 1 /\ getEpochEncCount 1 w5 = count_if (by_epoch 1) w5.
Proof.
  destruct (refcounts_exact w5 w5_reachable) as (Hg & _ & He).
  assert (E : GetGlobalEncCount w5 = 1) by (vm_compute; reflexivity).
  split; [exact E|]. split; [rewrite <- Hg; exact E|]. apply He; [split; [discriminate|reflexivity]|discriminate].
Defined.

Lemma bonds_covered_witness :
  sumZ (bond_in "stake") (enc_txs w5) <= GetBalance (w_bank w5) (NewModuleAddress ModuleName) "stake" /\
  GetBalance (w_bank w5) "alice" "stake" = 900.
Proof. split; [apply (bonds_covered w5 w5_reachable "stake")|vm_compute; reflexivity]. Defined.

Lemma submission_admitted_witness :
  exists e, enc_txs w5 ≡ₚ e :: enc_txs w4 /\ zlen (enc_txs w5) <= 100.
Proof.
  assert (R : SubmitEncrypted keeper (at_height 9) cons "chain" submission w4 = (Ret (11, 0), w5)).
  { rewrite <- w5_eq. unfold deliver. assert (E : (SubmitEncrypted keeper (at_height 9) cons "chain" submission w4).1 = Ret (11, 0))
      by (vm_compute; reflexivity).
    destruct (SubmitEncrypted _ _ _ _ _ w4) as [o w]. simpl in E. rewrite E. reflexivity. }
  destruct (submission_admitted keeper (at_height 9) cons "chain" submission w4 11 0 w5 w4_reachable seq_w4_fits submitter_not_module R)
    as (epoch & e & _ & _ & _ & Hp & Hc & _).
  exists e. split; [exact Hp|]. assert (Hm : MaxInFlightEncTx (GetParams w4) = 100) by (vm_compute; reflexivity).
  rewrite Hm in Hc. exact (Hc eq_refl).
Defined.

Definition pending : EncTx := mkEncTx "alice" 9 11 0 (point 11) nonce "body" 1 100 "stake" 25.

(** The begin block of height 10 leaves it alone. *)
Definition w5' : World ledger := Eval vm_compute in BeginBlock keeper (at_height 10) cons w5.
Lemma w5'_eq : BeginBlock keeper (at_height 10) cons w5 = w5'.
Proof. vm_compute. reflexivity. Qed.

Lemma chain_refines_pool_witness :
  labelled pool_step [Other; Other; Other; Other; Submit 11; Begin 10] (mkPool [] 0) (pool_of w5') /\ p_txs (pool_of w5') = [pending].
Proof.
  assert (Hr : labelled step_at [Other; Other; Other; Other; Submit 11; Begin 10] (genesis (params false)) w5').
  { apply (labelled_cons _ _ _ _ w1); [rewrite <- w1_eq; exact (step_end keeper (at_height 1) cons bonded _ epoch_start_fits)|].
    apply (labelled_cons _ _ _ _ w2); [rewrite <- w2_eq; exact (step_deal (at_height 2) deal w1)|].
    apply (labelled_cons _ _ _ _ w3); [rewrite <- w3_eq; exact (step_end keeper (at_height 8) cons bonded w2 epoch_w2_fits)|].
    apply (labelled_cons _ _ _ _ w4); [rewrite <- w4_eq; exact (step_commit (at_height 9) commitment w3)|].
    apply (labelled_cons _ _ _ _ w5); [rewrite <- w5_eq; exact (step_submit keeper (at_height 9) cons "chain" submission w4 seq_w4_fits submitter_not_module)|].
    apply (labelled_cons _ _ _ _ w5'); [rewrite <- w5'_eq; exact (step_begin keeper (at_height 10) cons w5)|constructor]. }
  destruct (chain_refines_pool _ _ _ (genesis_start _) Hr) as [E R]. rewrite E in R. split; [exact R|vm_compute; reflexivity].
Defined.

(** Without shares the ciphertext is dropped once its grace is over. *)
Definition w6 : World ledger := Eval vm_compute in BeginBlock keeper (at_height 100000) cons w5.
Lemma w6_eq : BeginBlock keeper (at_height 100000) cons w5 = w6.
Proof. vm_compute. reflexivity. Qed.
Definition w7 : World ledger := Eval vm_compute in BeginBlock keeper (at_height 100001) cons w6.
Lemma w7_eq : BeginBlock keeper (at_height 100001) cons w6 = w7.
Proof. vm_compute. reflexivity. Qed.

Lemma settled_once_witness : enc_txs w6 = [] /\ pending ∉ enc_txs w7.
Proof.
  assert (E : enc_txs w6 = []) by (vm_compute; reflexivity).
  assert (Hs : e_Seq pending < readU64 EncSeqKey w6) by (vm_compute; reflexivity).
  assert (Hn : pending ∉ enc_txs w6) by (rewrite E; apply not_elem_of_nil).
  assert (Hr : reachable w6).
  { destruct w5_reachable as (w0 & Hs0 & Hr0). exists w0. split; [exact Hs0|]. eapply rtc_r; [exact Hr0|].
    rewrite <- w6_eq. eexists; exact (step_begin keeper (at_height 100000) cons w5). }
  split; [exact E|].
  assert (Hst : step w6 w7) by (rewrite <- w7_eq; eexists; exact (step_begin keeper (at_height 100001) cons w6)).
  exact (settled_once w6 w7 pending Hr (rtc_once _ _ Hst) Hs Hn).
Defined.

Lemma release_settles_witness :
  exists w', releaseEncTx keeper pending w5 = (Ret tt, w') /\
    GetSupply (w_bank w') "stake" = GetSupply (w_bank w5) "stake" - 25 /\
    GetBalance (w_bank w') "alice" "stake" = GetBalance (w_bank w5) "alice" "stake" - 0 + 75.
Proof.
  assert (E : enc_txs w5 = [pending]) by (vm_compute; reflexivity).
  assert (Hin : pending ∈ enc_txs w5) by (rewrite E; left).
  assert (Hne : "alice" <> NewModuleAddress ModuleName) by (vm_compute; discriminate).
  assert (Hroom : GetBalance (w_bank w5) "alice" (e_BondDenom pending) + e_Bond pending < 2 ^ 256) by (vm_compute; reflexivity).
  destruct (release_settles keeper pending w5 "alice" w5_reachable Hin eq_refl eq_refl eq_refl Hne Hroom)
    as (w' & R & Hs & Hb & _).
  exists w'. split; [exact R|]. split; [exact (Hs "stake")|exact (Hb "alice" "stake")].
Defined.

Lemma epochs_usable_witness : GetActiveEpoch w5 = 1 /\ usable 1 w5.
Proof.
  assert (E : GetActiveEpoch w5 = 1) by (vm_compute; reflexivity). split; [exact E|].
  rewrite <- E. apply (epochs_usable w5 w5_reachable). rewrite E. discriminate.
Defined.

Lemma commits_bounded_witness :
  GetGlobalCommitCount w5 = 1 /\ zlen (IterateCommits w5) = 1 /\ sumZ (from_sender "carol") (IterateCommits w5) <= 64.
Proof.
  destruct (commits_bounded w5 w5_reachable) as (Hg & _ & Hs).
  assert (E : GetGlobalCommitCount w5 = 1) by (vm_compute; reflexivity).
  split; [exact E|]. split; [rewrite <- Hg; exact E|apply (Hs "carol")].
Defined.

Lemma enc_keys_unique_witness : GetEncPubKey "op1" v1 = Some (point 9) /\ GetEncKeyOwner (point 9) v1 = Some "op1".
Proof.
  destruct (enc_keys_unique v1 v1_reachable) as [Hk _].
  assert (E : GetEncPubKey "op1" v1 = Some (point 9)) by (vm_compute; reflexivity).
  exact (conj E (proj1 (Hk _ _) E)).
Defined.

End History.
End EncChain.
