(* ===== verification/VoteExtRuns.v ===== *)
(** * evmd: concrete runs of the vote-extension handlers

    A committee of one generated a key and serves a ciphertext; a committee of two
    with a dealer that cheats; and the theorems of [VoteExtProofs] and
    [VoteExtServed] applied to them. *)
From S2P Require Import Prelude Codec Bank Sha256 VoteTrim EncTypes StakeWeight Threshold CurveModel Dkg DkgProofs EncKeeper EncRegistry EncDkg EncAbci EncIngest EncMsg EncFrame DkgNode EncInvariant EncBond EncEpoch EncBlock EncModel EncChain EncVotes VoteExt VoteExtProofs VoteExtServed.
From stdpp Require Import gmap strings list sorting.
From Stdlib Require Import ZArith Lia.

#[local] Set Default Goal Selector "!".
Open Scope Z_scope.

Module VoteExtRuns.
Import EncTypes EncKeeper EncRegistry EncDkg EncAbci EncIngest EncMsg EncFrame EncInvariant EncBlock EncModel EncChain History Threshold Dkg DkgProofs DkgNode VoteExt VoteExtProofs VoteExtServed CurveModel.
#[local] Existing Instance decimal_MathInt.
#[local] Existing Instance codec_CommitProto.
#[local] Existing Instance codec_CommitProtoLaws.

(** A text format for extensions: byte strings in hexadecimal with a comma at their end,
    numbers in binary; nothing in it is a brace. *)
Definition comma : Ascii.ascii := byte_of 44.
Fixpoint dec_hex (s : string) : option (string * string) :=
  match s with
  | EmptyString => None
  | String a r =>
      if Ascii.eqb a comma then Some (EmptyString, r) else
      match r with
      | EmptyString => None
      | String b r' =>
          match hex_value a, hex_value b, dec_hex r' with
          | Some x, Some y, Some (t, r'') => Some (String (byte_of (16 * x + y)) t, r'')
          | _, _, _ => None
          end
      end
  end.

Lemma hex_digit_ne z c : 0 <= z < 16 -> byte_to_Z c = 44 \/ byte_to_Z c = 123 -> Ascii.eqb (hex_digit z) c = false.
Proof.
  intros Hz Hc. apply Ascii.eqb_neq. intros E. apply (f_equal byte_to_Z) in E. unfold hex_digit in E.
  destruct (Z.ltb_spec z 10); rewrite byte_to_Z_of in E by lia; lia.
Qed.

#[local] Instance Codec_hex : Codec string.
Proof.
  refine {| enc s := hex_bytes s +:+ String comma EmptyString; dec := dec_hex |}.
  intros s r. rewrite str_app_assoc, str_app_cons, str_app_nil. induction s as [|c s IH]; [done|].
  cbn [hex_bytes]. rewrite !str_app_cons. cbn [dec_hex]. pose proof (byte_to_Z_range c).
  rewrite hex_digit_ne, !hex_value_digit, IH by (div_lia || by left). do 3 f_equal. rewrite <- (byte_of_to_Z c) at 3. f_equal. div_lia.
Defined.

#[local] Instance Codec_enc_share : Codec DkgStoredEncShare.
Proof.
  refine (Codec_iso (fun x => (es_MemberIndex x, es_A x, es_Nonce x, es_Body x)) (fun '(a0, a1, a2, a3) => mkDkgStoredEncShare a0 a1 a2 a3) _).
  by intros [].
Defined.
#[local] Instance Codec_VoteExtComplaint : Codec VoteExtComplaint.
Proof.
  refine (Codec_iso (fun x => (vc_Epoch x, vc_Against x, vc_EvalPoint x, vc_SharedPoint x, vc_DleqProof x))
    (fun '(a0, a1, a2, a3, a4) => mkVoteExtComplaint a0 a1 a2 a3 a4) _).
  by intros [].
Defined.
#[local] Instance Codec_VoteExtDealing : Codec VoteExtDealing.
Proof.
  refine (Codec_iso (fun x => (vd_Epoch x, vd_Commitments x, vd_EncShares x)) (fun '(a0, a1, a2) => mkVoteExtDealing a0 a1 a2) _).
  by intros [].
Defined.
#[local] Instance Codec_VoteExtShare : Codec VoteExtShare.
Proof.
  refine (Codec_iso (fun x => (vs_Epoch x, vs_DecryptHeight x, vs_Seq x, vs_Index x, vs_D x, vs_Proof x))
    (fun '(a0, a1, a2, a3, a4, a5) => mkVoteExtShare a0 a1 a2 a3 a4 a5) _).
  by intros [].
Defined.
#[local] Instance Codec_VoteExtension : Codec VoteExtension.
Proof.
  refine (Codec_iso (fun x => (ve_EncPubKey x, ve_EncPubKeyPoP x, ve_Dealing x, ve_Shares x, ve_Complaints x, ve_PoisonReports x))
    (fun '(a0, a1, a2, a3, a4, a5) => mkVoteExtension a0 a1 a2 a3 a4 a5) _).
  by intros [].
Defined.
#[export] Instance json_VE : JSON VoteExtension := codec_JSON VoteExtension.
#[export] Instance json_VE_laws : JSONLaws VoteExtension := codec_JSONLaws VoteExtension.

(** No brace is written. *)
Class Plain (A : Type) `{Codec A} : Prop := plain (a : A) : count_byte veObjectOpen (enc a) = 0.
Lemma count_byte_app c s t : count_byte c (s +:+ t) = count_byte c s + count_byte c t.
Proof. induction s as [|d s IH]; [done|]. rewrite str_app_cons. cbn [count_byte]. rewrite IH. lia. Qed.
#[local] Instance Plain_hex : Plain string.
Proof.
  intros s. cbn [enc Codec_hex]. rewrite count_byte_app. change (count_byte veObjectOpen (hex_bytes s) + 0 = 0).
  induction s as [|c s IH]; [done|]. cbn [hex_bytes count_byte]. pose proof (byte_to_Z_range c).
  rewrite !hex_digit_ne by (div_lia || by right). lia.
Qed.
#[local] Instance Plain_Z : Plain Z.
Proof.
  assert (G : forall p, count_byte veObjectOpen (enc_pos p) = 0) by (induction p as [p IH|p IH|]; [exact IH..|done]).
  intros [|p|p]; [done|exact (G p)..].
Qed.
#[local] Instance Plain_pair (A C : Type) `{Plain A} `{Plain C} : Plain (A * C).
Proof. intros [a c]. cbn [enc Codec_pair fst snd]. by rewrite count_byte_app, !plain. Qed.
#[local] Instance Plain_option (A : Type) `{Plain A} : Plain (option A).
Proof. intros [a|]; [|done]. exact (plain a). Qed.
#[local] Instance Plain_list (A : Type) `{Plain A} : Plain (list A).
Proof. intros l. cbn [enc Codec_list]. induction l as [|a l IH]; [done|]. change (count_byte veObjectOpen (enc a +:+ enc_list l) = 0). by rewrite count_byte_app, plain, IH. Qed.
#[local] Instance Plain_enc_share : Plain DkgStoredEncShare.
Proof. intros x. apply (plain (es_MemberIndex x, es_A x, es_Nonce x, es_Body x)). Qed.
#[local] Instance Plain_complaint : Plain VoteExtComplaint.
Proof. intros x. apply (plain (vc_Epoch x, vc_Against x, vc_EvalPoint x, vc_SharedPoint x, vc_DleqProof x)). Qed.
#[local] Instance Plain_dealing : Plain VoteExtDealing.
Proof. intros x. apply (plain (vd_Epoch x, vd_Commitments x, vd_EncShares x)). Qed.
#[local] Instance Plain_share : Plain VoteExtShare.
Proof. intros x. apply (plain (vs_Epoch x, vs_DecryptHeight x, vs_Seq x, vs_Index x, vs_D x, vs_Proof x)). Qed.
#[local] Instance Plain_extension : Plain VoteExtension.
Proof. intros x. apply (plain (ve_EncPubKey x, ve_EncPubKeyPoP x, ve_Dealing x, ve_Shares x, ve_Complaints x, ve_PoisonReports x)). Qed.

#[export] Instance signer : EcdsaSign := {| ecdsa_Sign x d := compressCopy (ScalarBaseMultNonConst x) +:+ d |}.
#[export] Instance signer_laws : EcdsaLaws.
Proof.
  split; [intros x d _; cbn; apply String.eqb_refl|]. intros x d Hd. cbn [ecdsa_Sign signer]. rewrite str_app_length, Hd.
  unfold compressCopy. rewrite compressed_length. lia.
Qed.

Definition ek : EncKey := mkEncKey 5 (compressCopy (ScalarBaseMultNonConst 5)).
Definition valset (a : string) : option string := if String.eqb a "cons1" then Some "op1" else None.
Definition cons : ConsensusParams := mkConsensusParams (Some 1) None.
Definition seal (p : Z) : Z * string := (7, nonce).

(** ** A committee of one *)
Definition members : list RoundMember := [mkRoundMember 1 "op1" "acc1" (compressCopy (ScalarBaseMultNonConst 5)) (Some 1) [1] true].
Definition round : DkgRound := mkDkgRound 1 3 4 5 members 1 "hash" DkgStatusActive 0.
Definition dealt : VoteExtDealing := Eval vm_compute in
  match BuildDealing [4] seal 1 members 1 with Ret d => d | _ => mkVoteExtDealing 0 [] [] end.
Definition key1 : ActiveThresholdKey := mkActiveThresholdKey 1 (compressCopy (ScalarBaseMultNonConst 4)) (commits [4]) 1 [1].
Definition ready : World ledger :=
  SetActiveEpoch 1 (SetActiveKey key1 (SetDealing (mkDealing 1 1 "op1" (vd_Commitments dealt) (vd_EncShares dealt))
    (SetDkgRound round (SetCurrentEpoch 1 (genesis (params true)))))).
Definition tx : EncTx := mkEncTx "alice" 9 11 0 (point 11) nonce "body" 1 0 "" 0.
Definition loaded : World ledger := count_enc_tx tx (set_enc_tx tx (sset EncSeqKey (be64 (u64 (readU64 EncSeqKey ready + 1))) ready)).

Lemma ready_inv : enc_inv ready.
Proof.
  assert (Hg : enc_inv (genesis (params true))) by exact (good_enc _ (ch_good _ (start_inv _ (genesis_start (params true))))).
  assert (F : forall (w : World ledger) k v, key_in [16; 17; 19; 20; 21] k = true -> enc_inv w -> enc_inv (sset k v w)).
  { intros w k v Hk Hi. eapply enc_inv_frame; [by apply frame_set|done|done]. }
  unfold ready, SetActiveEpoch, SetActiveKey, SetDealing, SetDkgRound, SetCurrentEpoch. by repeat (apply F; [done|]).
Qed.

Lemma loaded_inv : enc_inv loaded.
Proof.
  apply (enc_inv_admit ready tx ready_inv); [vm_compute; reflexivity|split_and!; split; [discriminate|reflexivity|discriminate|reflexivity|discriminate|reflexivity]|vm_compute; reflexivity].
Qed.

(** Nothing is stored under the prefixes the history does not write. *)
Lemma unwritten k : key_in [7; 18; 28; 30; 33] k = true -> sget k loaded = None.
Proof.
  assert (F : forall (w : World ledger) key v, key_in [1; 5; 6; 16; 17; 19; 20; 21; 22; 24; 25] key = true -> sget k w = None -> key <> k -> sget k (sset key v w) = None).
  { intros w key v _ Hw Hne. by rewrite sget_sset, decide_False. }
  intros Hk. assert (Hne : forall key, key_in [1; 5; 6; 16; 17; 19; 20; 21; 22; 24; 25] key = true -> key <> k).
  { intros key Hin ->. destruct k as [|c k]; [done|]. unfold key_in in *. apply Zmem_spec in Hk.
    assert (G : Forall (fun z => Zmem z [1; 5; 6; 16; 17; 19; 20; 21; 22; 24; 25] = false) [7; 18; 28; 30; 33]) by (by repeat constructor).
    eapply Forall_forall in G; [|exact Hk]. congruence. }
  unfold loaded, ready, count_enc_tx, incSubmitterEncCount, incGlobalEncCount, incEpochEncCount, inc_count, set_enc_tx, SetActiveEpoch,
    SetActiveKey, SetDealing, SetDkgRound, SetCurrentEpoch, genesis, SetParams. cbn [e_Epoch tx Z.ltb Z.compare].
  by repeat (apply F; [done| |apply Hne; done]).
Qed.

Definition now : Ctx := at_height 11.
Definition share1 : VoteExtShare := Eval vm_compute in
  default (mkVoteExtShare 0 0 0 0 "" "") (head (buildDecryptShares 2 now ek "op1" loaded ∅).1).
Definition cache1 : gmap Z (list PoisonReport) := {[ 1 := [] ]}.

Lemma served_eq : buildDecryptShares 2 now ek "op1" loaded ∅ = ([share1], cache1).
Proof. vm_compute. reflexivity. Qed.

Lemma no_early_share_witness :
  vs_DecryptHeight share1 = 11 /\ exists e, in_flight loaded e /\ e_Seq e = 0 /\ e_Epoch e = 1 /\ e_DecryptHeight e <= 11.
Proof.
  split; [reflexivity|]. destruct (no_early_share 2 now ek "op1" loaded ∅ loaded_inv) as [_ Hs]. cbv zeta in Hs. rewrite served_eq in Hs.
  destruct (Hs share1 ltac:(by left)) as (e & r & He & _ & Eq & Ee & _ & [_ Hh] & _). exists e. split; [exact He|].
  split; [exact (eq_sym Eq)|]. split; [exact (eq_sym Ee)|exact Hh].
Defined.

Lemma round_eq : GetDkgRound 1 loaded = Some round.
Proof. vm_compute. reflexivity. Qed.
Lemma key_eq : GetActiveKey 1 loaded = Some key1.
Proof. vm_compute. reflexivity. Qed.
Definition dealing1 : Dealing := mkDealing 1 1 "op1" (vd_Commitments dealt) (vd_EncShares dealt).
Lemma dealings_eq : dealings_map 1 loaded = {[ 1 := dealing1 ]}.
Proof. vm_compute. reflexivity. Qed.
Lemma clean_eq : DetectPoisonedDealers [1] 5 [1] {[ 1 := dealing1 ]} = [].
Proof. vm_compute. reflexivity. Qed.

Lemma cache1_ok : cache_ok ek "op1" loaded cache1.
Proof.
  unfold cache1. split; [done|set_solver|]. intros epoch r [<- <-]%lookup_singleton_Some. unfold detect_now. rewrite round_eq, key_eq, dealings_eq.
  exact (f_equal Some clean_eq).
Qed.

Lemma cache_transparent_witness :
  (extension_of 2 [4] seal now ek "op1" loaded cache1).1 = (extension_of 2 [4] seal now ek "op1" loaded ∅).1 /\
  cache_ok ek "op1" loaded (extension_of 2 [4] seal now ek "op1" loaded cache1).2.
Proof. apply (cache_transparent 2 [4] seal now ek "op1" loaded cache1 cache1_ok). Defined.

(** The key of the epoch is the one finalised from the only dealing. *)
Definition dealers : list (Z * list Z) := [(1, [4])].
Lemma finalized : exists res, FinalizePublicWeighted [1] 1 (publish dealers) [] None 1 = Ret res /\
  PublicCommitments res = commits [4] /\ Qual res = [1].
Proof.
  assert (Hd : well_dealt 1 dealers).
  { split; [apply NoDup_singleton|]. constructor; [|constructor]. split; [done|apply DkgProofs.Example.nonzero_small; reflexivity]. }
  rewrite finalize_eq by (lia || done). cbv zeta.
  assert (Hj : nonzero (joint 1 dealers (qualified dealers [] [1]))) by (apply DkgProofs.Example.nonzero_small; vm_compute; reflexivity).
  rewrite (proj2 (valid_points _) Hj). change (sumZ _ _ <? 1) with false. eexists. split; [reflexivity|]. split; vm_compute; reflexivity.
Qed.

(** The vote of the node, next to one that sends another operator's share. *)
Definition extension (shares : list VoteExtShare) : VoteExtension := mkVoteExtension "" "" None shares [] [].
Definition vote1 : VEEntry := mkVEEntry "op1" (extension [share1]).
Definition vote0 : VEEntry := mkVEEntry "op0" (extension [mkVoteExtShare 1 11 0 1 "forged" "none"]).
Lemma canonical_eq : canonical_entries [vote1; vote0] = [vote0; vote1].
Proof. reflexivity. Qed.

Lemma loaded_payable : payable [vote1; vote0] vote1 "op1" [share1] loaded.
Proof.
  assert (Hc : forall s, share_cost (GetParams loaded) loaded s = 256).
  { intros s. unfold share_cost, getShareKeyCache. rewrite unwritten by done. vm_compute. reflexivity. }
  split; rewrite ?canonical_eq.
  - right. by left.
  - done.
  - done.
  - repeat constructor; discriminate.
  - split; vm_compute; reflexivity.
  - vm_compute. split; [discriminate|reflexivity].
  - cbn [sumZ]. unfold vote_cost. change (counted (GetParams loaded) vote0) with (ve_Shares (ent_VE vote0)).
    change (counted (GetParams loaded) vote1) with (ve_Shares (ent_VE vote1)).
    cbn [sumZ ve_Shares ent_VE vote0 vote1 extension]. rewrite !Hc. vm_compute. discriminate.
Qed.

Lemma loaded_carried : carried 11 loaded loaded share1.
Proof. split; vm_compute; reflexivity. Qed.

Lemma round_is_ok : round_ok round.
Proof. split; [apply (bool_decide_unpack _); exact I..|by repeat constructor]. Qed.

Lemma served_share_stored_witness :
  sget (encShareKey 11 0 1) (ConsumeVoteExtensions now [vote1; vote0] loaded) =
  Some (json_Marshal (mkEncShare "op1" 11 0 1 (vs_D share1) (vs_Proof share1) true)).
Proof.
  destruct finalized as (res & HR & HC & HQ).
  apply (served_share_stored 2 now now ek "op1" loaded loaded ∅ [vote1; vote0] vote1 share1 1 dealers res round).
  - exact loaded_inv.
  - apply cache_ok_empty.
  - rewrite served_eq. by left.
  - split.
    + lia.
    + split; [apply NoDup_singleton|]. constructor; [|constructor]. split; [done|apply DkgProofs.Example.nonzero_small; reflexivity].
    + exists [1], [], None, 1. split; [done|exact HR].
    + by rewrite HQ.
    + change (vs_Epoch share1) with 1. rewrite key_eq. intros ak [= <-]. split; [exact (eq_sym HC)|exact (eq_sym HQ)].
    + change (vs_Epoch share1) with 1. rewrite HQ, dealings_eq. intros q ->%list_elem_of_singleton. exists dealing1.
      split; [apply lookup_singleton_eq|vm_compute; reflexivity].
  - rewrite HQ. vm_compute. discriminate.
  - exact round_eq.
  - exact round_is_ok.
  - exact loaded_carried.
  - intros i cps P _. unfold getShareKeyCache. by rewrite unwritten.
  - rewrite served_eq. exact loaded_payable.
Defined.

(** ** Acceptance *)
Definition node : Node := mkNode (Some ek) "cons1" cache1.

Lemma objects_pos ve : 0 <= objects ve.
Proof. unfold objects, zlen. destruct (ve_Dealing ve); lia. Qed.

Lemma loaded_within : within (GetParams loaded) loaded.
Proof.
  assert (E : GetParams loaded = params true) by (vm_compute; reflexivity). rewrite E. split; [by split|by vm_compute|].
  intros epoch r Hr. assert (Hin : r ∈ (iter_json DkgRoundPrefix loaded : list DkgRound)).
  { apply elem_of_iter_json; [by apply (prefixEnd_byte 16 EmptyString)|]. by exists (be64 epoch). }
  assert (El : (iter_json DkgRoundPrefix loaded : list DkgRound) = [round]) by (vm_compute; reflexivity).
  rewrite El in Hin. apply list_elem_of_singleton in Hin as ->. by split; vm_compute.
Qed.

Lemma honest_extension_accepted_witness :
  dkgVerifyVoteExtensionHandler cons now (dkgExtendVoteHandler cons valset 2 [4] seal now loaded node).1 loaded = true /\
  strlen (dkgExtendVoteHandler cons valset 2 [4] seal now loaded node).1 = 416.
Proof.
  split; [|vm_compute; reflexivity]. apply (honest_extension_accepted cons valset 2 [4] seal now loaded node loaded_inv).
  - vm_compute. reflexivity.
  - exact loaded_within.
  - split; [by vm_compute|]. split; [done|]. intros P n msg Hm. apply DkgNode.Example.gcm_short, Hm.
  - intros k [= <-]. vm_compute. reflexivity.
  - intros ve. etransitivity; [apply Z.eq_le_incl, (plain ve)|apply objects_pos].
  - intros k [= <-]. vm_compute. discriminate.
Defined.

(** ** A dealer that cheats

    The second member publishes commitments to one polynomial and seals the shares of
    another. *)
Definition pair : list RoundMember :=
  [mkRoundMember 1 "op1" "acc1" (compressCopy (ScalarBaseMultNonConst 5)) (Some 1) [1] true;
   mkRoundMember 2 "op2" "acc2" (compressCopy (ScalarBaseMultNonConst 6)) (Some 1) [2] true].
Definition contested : DkgRound := mkDkgRound 2 3 4 5 pair 2 "hash" DkgStatusOpen 0.
Definition cheat : Dealing := Eval vm_compute in
  match BuildDealing [4; 8] seal 2 pair 2 with
  | Ret d => mkDealing 2 2 "op2" (commits [4; 9]) (vd_EncShares d)
  | _ => mkDealing 0 0 "" [] []
  end.
Definition disputed : World ledger := SetDealing cheat (genesis (params true)).
Definition complaint : VoteExtComplaint := Eval vm_compute in
  default (mkVoteExtComplaint 0 0 0 "" "") (head (buildDkgComplaints 2 ek "op1" contested disputed)).

Lemma complaint_eq : buildDkgComplaints 2 ek "op1" contested disputed = [complaint].
Proof. vm_compute. reflexivity. Qed.

Lemma complaint_upheld_witness :
  vc_Against complaint = 2 /\ exists n, IngestComplaintFromVE contested "op1" complaint 0 disputed = (true, n, record_complaint contested 2 1 disputed).
Proof.
  split; [reflexivity|].
  destruct (complaint_upheld 2 ek "op1" contested disputed complaint
    (mkRoundMember 1 "op1" "acc1" (compressCopy (ScalarBaseMultNonConst 5)) (Some 1) [1] true)) as (_ & _ & H).
  - rewrite complaint_eq. by left.
  - reflexivity.
  - reflexivity.
  - vm_compute. discriminate.
  - by repeat constructor.
  - apply (H 0); vm_compute; reflexivity.
Defined.

(** ** A proposal *)
Definition prepare (_ : Ctx) (req : RequestPrepareProposal) : outcome (list string) :=
  if 5 <=? rp_MaxTxBytes req then Ret ["tx123"] else if 0 <=? rp_MaxTxBytes req then Ret [] else Err "no room".
Definition process (_ : Ctx) (_ : RequestProcessProposal) : outcome bool := Ret true.
Definition validate (_ : Z) (ec : ExtendedCommitInfo) : bool :=
  2 * sumZ v_Power (ec_Votes ec) <? 3 * sumZ v_Power (List.filter VoteTrim.usable (ec_Votes ec)).

Lemma sdk_example : sdk_ok prepare process validate.
Proof.
  split; [done|..].
  - intros ctx req txs. unfold prepare. destruct (Z.leb_spec 5 (rp_MaxTxBytes req)); [by intros [= <-]|].
    destruct (Z.leb_spec 0 (rp_MaxTxBytes req)); [by intros [= <-]|done].
  - intros ctx req txs. unfold prepare. destruct (_ <=? _); [intros [= <-]; by repeat constructor|].
    destruct (_ <=? _); [intros [= <-]; constructor|done].
  - intros height ec ec' Hv [_ [->|[H2 Hp]]]; [done|]. apply Z.ltb_lt. replace (sumZ v_Power (ec_Votes ec')) with (sumZ v_Power (ec_Votes ec)); [lia|].
    clear - H2. induction H2 as [|v v' l l' Hv _ IH]; [done|]. cbn [sumZ]. rewrite IH. f_equal. by destruct Hv as [->| ->].
Qed.

(** The commit does not fit: the padded vote is dropped. *)
Definition request : RequestPrepareProposal := mkRequestPrepareProposal 400 [] VoteTrim.Example.padded.
Definition proposed : list string := Eval vm_compute in
  match wrapDkgPrepareProposal cons prepare now request loaded with Ret txs => txs | _ => [] end.

Lemma proposal_carries_votes_witness :
  sumZ strlen proposed <= 400 /\
  wrapDkgProcessProposal cons process validate now (mkRequestProcessProposal proposed 11) loaded = Ret true.
Proof.
  assert (E : wrapDkgPrepareProposal cons prepare now request loaded = Ret proposed) by (vm_compute; reflexivity).
  destruct (proposal_carries_votes cons valset prepare process validate now now request loaded 11 proposed sdk_example
    ltac:(by split) VoteTrim.Example.powers_padded ltac:(vm_compute; reflexivity) eq_refl E) as (Hs & [(ec & blob & rest & _ & _ & _ & _ & Hp & _)|([Ha|[Hv|Hb]] & _)]).
  - split; [exact Hs|exact Hp].
  - exfalso. vm_compute in Ha. discriminate.
  - discriminate.
  - exfalso. vm_compute in Hb. discriminate.
Defined.

End VoteExtRuns.
