(* ===== verification/EncRuns.v ===== *)
(** * x/encmempool: governance and commit-reveal over whole runs

    What the governance message may change and what no run can undo; when a commit
    can be opened, and in which order reveals are executed. *)
From S2P Require Import Prelude Codec Bank Sha256 EncTypes StakeWeight Threshold CurveModel Dkg EncKeeper EncRegistry EncDkg EncAbci EncIngest EncMsg EncFrame EncInvariant EncBond EncEpoch EncBlock EncCommit EncUntouched EncReveal EncKeys EncModel EncChain.
From stdpp Require Import gmap strings list sorting.
From Stdlib Require Import ZArith Lia.

#[local] Set Default Goal Selector "!".
Open Scope Z_scope.

Module EncRuns.
Import EncTypes EncKeeper EncRegistry EncDkg EncAbci EncIngest EncMsg EncFrame EncInvariant EncBond EncEpoch EncBlock EncCommit EncUntouched EncReveal EncKeys EncChain.

Section runs.
Context `{BankLaws B} `{EncJSON} `{!EncJSONLaws} `{AccAddr} `{CurveLaws} `{AesGcm} `{MathInt} `{SDKDenom} `{Ecdsa}
  `{EvmExec (World B)} `{!EvmLaws}.
Implicit Types w : World B.

(** ** Parameters *)

Lemma GetParams_sframe ps w w' : sframe ps w w' -> Zmem 1 ps = false -> GetParams w' = GetParams w.
Proof. intros F Hm. unfold GetParams, get_json. by rewrite F. Qed.

Lemma GetParams_SetParams p w : GetParams (SetParams p w) = p.
Proof. unfold GetParams, SetParams, get_json. rewrite sget_sset, decide_True by done. by rewrite json_roundtrip. Qed.

(** The ratchet touches no field the validation reads. *)
Lemma ratchet_valid p stored : Params_Validate (ratchet p stored) = Params_Validate p.
Proof. reflexivity. Qed.

(** The runtime conditions for a key generation driven by vote extensions. *)
Definition runtime_ready (cp : ConsensusParams) (p : Params) : Prop :=
  DkgEnabled p = true -> DkgTransparent p = true ->
  exists ve, cp_VoteExtensionsEnableHeight cp = Some ve /\ ve <> 0 /\
    forall bp, cp_Block cp = Some bp -> 0 < bp_MaxBytes bp -> DkgInjectedCommitFitsMaxTxBytes p (bp_MaxBytes bp) = true.

(** The check between the validation and the write, as in [UpdateParams]. *)
Definition runtime_check (cp : ConsensusParams) (p : Params) : M (World B) unit :=
  if DkgEnabled p && DkgTransparent p then
    match cp_VoteExtensionsEnableHeight cp with
    | None => fail "dkg_transparent requires vote extensions"
    | Some ve =>
        if ve =? 0 then fail "dkg_transparent requires vote extensions" else
        match cp_Block cp with
        | Some bp =>
            if (0 <? bp_MaxBytes bp) && negb (DkgInjectedCommitFitsMaxTxBytes p (bp_MaxBytes bp))
            then fail "vote-extension aggregate does not fit" else mret tt
        | None => mret tt
        end
    end
  else mret tt.

Lemma runtime_check_run cp p w :
  (runtime_check cp p w = (Ret tt, w) /\ runtime_ready cp p) \/ exists e, runtime_check cp p w = (Err e, w).
Proof.
  unfold runtime_check, runtime_ready. destruct (DkgEnabled p), (DkgTransparent p); simpl; try (by left).
  destruct (cp_VoteExtensionsEnableHeight cp) as [ve|]; [|by right; eexists].
  destruct (Z.eqb_spec ve 0); [by right; eexists|]. destruct (cp_Block cp) as [bp|].
  - destruct (Z.ltb_spec 0 (bp_MaxBytes bp)); simpl.
    + destruct (DkgInjectedCommitFitsMaxTxBytes p (bp_MaxBytes bp)) eqn:E; simpl; [left|by right; eexists].
      split; [done|]. intros _ _. exists ve. split_and!; [done..|]. by intros bp' [= <-].
    + left. split; [done|]. intros _ _. exists ve. split_and!; [done..|]. intros bp' [= <-]. lia.
  - left. split; [done|]. intros _ _. exists ve. by split_and!.
Qed.

Lemma UpdateParams_run gov cp msg w :
  match UpdateParams gov cp msg w with
  | (Ret _, w') => up_Authority msg = gov /\ exists p, json_Unmarshal (up_Params msg) = Some p /\
      Params_Validate p = Ret tt /\ GetParams w' = ratchet p (GetParams w) /\ runtime_ready cp (GetParams w')
  | (_, w') => w' = w
  end.
Proof.
  unfold UpdateParams. destruct (String.eqb_spec (up_Authority msg) gov) as [Ea|]; [|done].
  destruct (json_Unmarshal (up_Params msg)) as [p|] eqn:Ep; [|done].
  destruct (Params_Validate p) as [[]|e|m] eqn:Ev; [|done..]. cbn [negb]. run_gets.
  set (p' := ratchet p (GetParams w)). fold (runtime_check cp p').
  destruct (runtime_check_run cp p' w) as [[E Hr]|[e E]].
  - run_seq E. run_seq (modify_run (SetParams p') w). rewrite modify_run.
    assert (Eg : forall ev, GetParams (emit ev (SetParams p' w)) = p') by (intros; apply GetParams_SetParams).
    rewrite Eg. split; [done|]. by exists p.
  - by rewrite (bind_Err _ _ _ _ _ E).
Qed.

Lemma sframed_SubmitEncrypted k ctx cp chainID msg :
  sframed [5; 6; 22; 24; 25; 29; 37] (SubmitEncrypted k ctx cp chainID msg).
Proof.
  unfold SubmitEncrypted, escrow_bond, SubmitEncTx, nextEncSeq. sframe_tac; apply sframed_framed.
  - eapply framed_weaken; [apply framed_admit_encrypted|done].
  - by apply framed_next_counter.
  - apply framed_modify. intros w. by apply frame_set.
  - apply framed_modify. intros w. by apply frame_set.
Qed.

(** A step leaves the parameters alone or installs accepted ones. *)
Lemma step_params_change w w' :
  step w w' -> GetParams w' = GetParams w \/
  exists p, Params_Validate p = Ret tt /\ GetParams w' = ratchet p (GetParams w).
Proof.
  assert (Hd : forall {A} ps (m : M (World B) A) w0, sframed ps m -> Zmem 1 ps = false ->
    GetParams (deliver m w0) = GetParams w0).
  { intros A ps m w0 Hm Hp. apply deliver_spec; [done|]. intros a w1 R. eapply GetParams_sframe; [by eapply Hm|done]. }
  intros [l Hst]. destruct Hst as [k ctx cp w|ctx entries w|k ctx cp bonded w|gov cp msg w| | | | | | |w w' Ho].
  - left. by apply (GetParams_sframe beginblock_prefixes); [apply sframe_BeginBlock|].
  - left. by apply (GetParams_sframe consume_prefixes); [apply sframe_frame, frame_ConsumeVoteExtensions|].
  - left. by apply (GetParams_sframe endblock_prefixes); [apply sframe_frame, frame_EndBlockDKG|].
  - pose proof (UpdateParams_run gov cp msg w) as Hr. unfold deliver.
    destruct (UpdateParams gov cp msg w) as [[[]|e|m] w']; [right|by left..].
    destruct Hr as (_ & p & _ & Hv & Hp & _). by exists p.
  - left. by apply (Hd _ [2; 3; 35; 36]); [apply sframed_framed, framed_CommitTx|].
  - left. by apply (Hd _ [4]); [apply sframed_framed, framed_RevealTx|].
  - left. by apply (Hd _ [5; 6; 22; 24; 25; 29; 37]); [apply sframed_SubmitEncrypted|].
  - left. by apply (Hd _ [7]); [apply sframed_framed, framed_SubmitDecryptionShare|].
  - left. by apply (Hd _ [17]); [apply sframed_framed, framed_DkgDeal|].
  - left. by apply (Hd _ [18]); [apply sframed_framed, framed_DkgComplaint|].
  - left. by apply (GetParams_sframe []); [apply sframe_store, Ho|].
Qed.

(** Governance decides the parameters.  [UpdateParams] succeeds only for the
    governance account, with parameters that decode, pass the validation and fit
    the consensus parameters; it installs them with the two switches ratcheted, the
    installed ones are valid too, and nothing else in the store changes.  Whatever
    else it answers, it changes nothing. *)
Theorem UpdateParams_governed gov cp msg w :
  match UpdateParams gov cp msg w with
  | (Ret _, w') => up_Authority msg = gov /\ frame [1] w w' /\ runtime_ready cp (GetParams w') /\
      Params_Validate (GetParams w') = Ret tt /\
      exists p, json_Unmarshal (up_Params msg) = Some p /\ GetParams w' = ratchet p (GetParams w)
  | (_, w') => w' = w
  end.
Proof.
  pose proof (UpdateParams_run gov cp msg w) as Hr. pose proof (framed_UpdateParams gov cp msg w) as Hf.
  destruct (UpdateParams gov cp msg w) as [[a|e|m] w']; [|done..].
  destruct Hr as (Ha & p & Ep & Hv & Hp & Hrt). split_and!; [done|by eapply Hf|done| |by exists p].
  by rewrite Hp, ratchet_valid.
Qed.

(** No run turns the hardening off.  Whatever the chain does, valid parameters
    stay valid, and once dealings are retained or the concentration rule is strict
    it is so in every later state. *)
Theorem hardening_is_permanent w w' :
  rtc step w w' ->
  (Params_Validate (GetParams w) = Ret tt -> Params_Validate (GetParams w') = Ret tt) /\
  (DkgRetainActiveDealings (GetParams w) = true -> DkgRetainActiveDealings (GetParams w') = true) /\
  (DkgStrictConcentration (GetParams w) = true -> DkgStrictConcentration (GetParams w') = true).
Proof.
  induction 1 as [|w1 w2 w3 Hst _ (IHv & IHr & IHc)]; [done|].
  destruct (step_params_change _ _ Hst) as [E|(p & Hv & E)]; rewrite E in *; [by split_and!|].
  rewrite ratchet_valid in IHv. split_and!; [by auto|..].
  - intros Hr. apply IHr. cbn [ratchet DkgRetainActiveDealings]. by rewrite Hr, orb_true_r.
  - intros Hc. apply IHc. cbn [ratchet DkgStrictConcentration]. by rewrite Hc, orb_true_r.
Qed.

(** ** Commit and reveal *)

(** C29: a commit is opened by exactly what was committed.  After a successful commit,
    and as long as it is stored, a reveal under its height and number succeeds if and
    only if its contents hash to the committed value, the reveal delay has passed and
    both parts are within their caps; then it is queued for execution.  A reveal that
    is refused changes nothing. *)
Theorem commit_opened_by_preimage ctx1 ctx2 sender hash w h q w1 w2 tx salt :
  CommitTx ctx1 (mkMsgCommitTx sender hash) w = (Ret (h, q), w1) ->
  GetCommit h sender q w2 = GetCommit h sender q w1 -> pending_inv w2 ->
  let '(o, w3) := RevealTx ctx2 (mkMsgRevealTx sender h q tx salt) w2 in
  (o = Ret tt <-> sha256 (tx +:+ salt) = hash /\ addSat h (RevealDelay (GetParams w2)) <= u64 (BlockHeight ctx2) /\
     strlen tx <= maxCiphertextBodyBytes /\ strlen salt <= maxRevealSaltBytes) /\
  (o = Ret tt -> mkPendingReveal sender h q tx salt ∈ IteratePending w3) /\
  (o <> Ret tt -> w3 = w2).
Proof.
  intros Hc E2 Hp. apply CommitTx_height in Hc as Hh. apply CommitTx_stored in Hc. cbn [ct_Sender ct_CommitHash] in Hc.
  set (msg := mkMsgRevealTx sender h q tx salt). set (c := mkCommit sender hash h q) in *.
  pose proof (RevealTx_run ctx2 msg w2) as Hr. destruct (RevealTx ctx2 msg w2) as [[[]|e|m] w3] eqn:R; [| |done].
  - pose proof (RevealTx_pending ctx2 msg w2 _ _ Hh Hp R) as Hp3.
    destruct Hr as ((c' & [E _ Hm Ht Hs Hx]) & Hq & _). unfold msg in *. simpl in *. rewrite E2, Hc in E. injection E as <-.
    split_and!; [done| |done]. intros _. by apply elem_pending.
  - destruct Hr as [-> Hn]. split_and!; [split; [done|]|done..]. intros (Hx & Hm & Ht & Hs). exfalso.
    apply (Hn c). split; unfold msg; simpl; [by rewrite E2|done..].
Qed.

(** C30: reveals are executed in the order they were committed.  In every reachable
    state the reveals due at a block are executed each once, numbered in sequence, by
    increasing commit height whatever order they were revealed in; afterwards exactly
    the reveals that were not due are still queued. *)
Theorem reveals_in_commit_order cur delay w :
  reachable w ->
  let ready := List.filter (due cur delay) (IteratePending w) in
  let w' := execute_reveals cur delay 0 (IteratePending w) w in
  w_events w' = w_events w ++ imap (fun i => executed_event (u64 (Z.of_nat i))) ready /\
  StronglySorted committed_before ready /\
  (forall pr, pr ∈ IteratePending w' <-> pr ∈ IteratePending w /\ due cur delay pr = false).
Proof.
  intros Hr%reachable_inv ready w'. pose proof (ch_pending w Hr) as Hp. split_and!.
  - apply execute_events. unfold is_u64. lia.
  - by apply sorted_filter, pending_sorted.
  - intros pr. by apply pending_after.
Qed.
End runs.

(** ** Concrete runs

    [carol] commits at height 9 and [dave] at height 10; [dave] reveals first. *)
Module Run.
Import CurveModel EncModel EncChain.History.
#[local] Existing Instance decimal_MathInt.

Definition g0 : World ledger := genesis (params false).
Definition sealed (s : string) : string := sha256 (s +:+ "salt").
Definition g1 : World ledger := deliver (CommitTx (at_height 9) (mkMsgCommitTx "carol" (sealed "tx1"))) g0.
Definition g2 : World ledger := deliver (CommitTx (at_height 10) (mkMsgCommitTx "dave" (sealed "tx2"))) g1.
Definition g3 : World ledger := deliver (RevealTx (at_height 12) (mkMsgRevealTx "dave" 10 1 "tx2" "salt")) g2.
Definition g4 : World ledger := deliver (RevealTx (at_height 12) (mkMsgRevealTx "carol" 9 0 "tx1" "salt")) g3.

Lemma g4_reachable : reachable g4.
Proof.
  assert (U10 : is_u64 10) by (unfold is_u64; lia). assert (U9 : is_u64 9) by (unfold is_u64; lia).
  exists g0. split; [apply genesis_start|].
  apply (rtc_l _ _ g1); [eexists; exact (step_commit (at_height 9) (mkMsgCommitTx "carol" (sealed "tx1")) g0)|].
  apply (rtc_l _ _ g2); [eexists; exact (step_commit (at_height 10) (mkMsgCommitTx "dave" (sealed "tx2")) g1)|].
  apply (rtc_l _ _ g3); [eexists; exact (step_reveal (at_height 12) (mkMsgRevealTx "dave" 10 1 "tx2" "salt") g2 U10)|].
  apply (rtc_l _ _ g4); [eexists; exact (step_reveal (at_height 12) (mkMsgRevealTx "carol" 9 0 "tx1" "salt") g3 U9)|apply rtc_refl].
Qed.

Lemma reveals_in_commit_order_witness :
  pr_Sender <$> List.filter (due 12 1) (IteratePending g4) = ["carol"; "dave"] /\
  StronglySorted committed_before (List.filter (due 12 1) (IteratePending g4)).
Proof.
  destruct (reveals_in_commit_order 12 1 g4 g4_reachable) as (_ & Hs & _).
  split; [vm_compute; reflexivity|exact Hs].
Defined.

Lemma commit_opened_by_preimage_witness :
  fst (RevealTx (at_height 12) (mkMsgRevealTx "carol" 9 0 "tx1" "salt") g2) = Ret tt.
Proof.
  pose (w1 := snd (CommitTx (at_height 9) (mkMsgCommitTx "carol" (sealed "tx1")) g0)).
  assert (R : CommitTx (at_height 9) (mkMsgCommitTx "carol" (sealed "tx1")) g0 = (Ret (9, 0), w1)) by (vm_compute; reflexivity).
  assert (E : GetCommit 9 "carol" 0 g2 = GetCommit 9 "carol" 0 w1) by (vm_compute; reflexivity).
  assert (Hr : reachable g2).
  { exists g0. split; [apply genesis_start|].
    apply (rtc_l _ _ g1); [eexists; exact (step_commit (at_height 9) (mkMsgCommitTx "carol" (sealed "tx1")) g0)|].
    apply (rtc_l _ _ g2); [eexists; exact (step_commit (at_height 10) (mkMsgCommitTx "dave" (sealed "tx2")) g1)|apply rtc_refl]. }
  pose proof (commit_opened_by_preimage (at_height 9) (at_height 12) "carol" (sealed "tx1") g0 9 0 w1 g2 "tx1" "salt"
    R E (ch_pending g2 (reachable_inv g2 Hr))) as Ht.
  destruct (RevealTx (at_height 12) (mkMsgRevealTx "carol" 9 0 "tx1" "salt") g2) as [o w3].
  assert (Hx : sha256 ("tx1" +:+ "salt") = sealed "tx1") by (unfold sealed; exact eq_refl).
  assert (Hd : addSat 9 (RevealDelay (GetParams g2)) <= u64 (BlockHeight (at_height 12))) by (vm_compute; discriminate).
  assert (Hl : strlen "tx1" <= maxCiphertextBodyBytes /\ strlen "salt" <= maxRevealSaltBytes) by (split; vm_compute; discriminate).
  exact (proj2 (proj1 Ht) (conj Hx (conj Hd Hl))).
Defined.

Definition update : MsgUpdateParams := mkMsgUpdateParams "gov" (json_Marshal DefaultParams).

Lemma UpdateParams_governed_witness :
  up_Authority update = "gov" /\ fst (UpdateParams "gov" cons update g0) = Ret tt /\
  Params_Validate (GetParams (snd (UpdateParams "gov" cons update g0))) = Ret tt.
Proof.
  assert (E : fst (UpdateParams "gov" cons update g0) = Ret tt) by (vm_compute; reflexivity).
  pose proof (UpdateParams_governed "gov" cons update g0) as Ht.
  destruct (UpdateParams "gov" cons update g0) as [o w']. cbn [fst snd] in *. rewrite E in Ht.
  destruct Ht as (Ha & _ & _ & Hv & _). split; [exact Ha|]. split; [exact E|exact Hv].
Defined.

Lemma hardening_is_permanent_witness : DkgStrictConcentration (GetParams (deliver (UpdateParams "gov" cons update) g0)) = true.
Proof.
  assert (E : DkgStrictConcentration (GetParams g0) = true) by (vm_compute; reflexivity).
  exact (proj2 (proj2 (hardening_is_permanent g0 _ (rtc_once _ _ (ex_intro _ _ (step_params "gov" cons update g0))))) E).
Defined.

End Run.
End EncRuns.
