(* ===== verification/EncFindings.v ===== *)
(** * x/encmempool: exports that cannot be imported

    Where the genesis code does not do what its comments promise: states the module
    reaches whose own export is refused, and counters an export leaves out. *)
From S2P Require Import Prelude Codec Bank Sha256 EncTypes StakeWeight Threshold CurveModel Dkg EncKeeper EncRegistry EncDkg EncAbci EncIngest EncMsg EncGenesis EncFrame EncInvariant EncBond EncEpoch EncBlock EncCommit EncUntouched EncReveal EncKeys EncModel EncChain EncImport.
From stdpp Require Import gmap strings list sorting.
From Stdlib Require Import ZArith Lia.

#[local] Set Default Goal Selector "!".
Open Scope Z_scope.

Module EncFindings.
Import EncTypes EncKeeper EncRegistry EncDkg EncAbci EncIngest EncMsg EncGenesis EncFrame EncInvariant EncChain EncImport.

Section findings.
Context {B : Type} `{EncJSON} `{Curve} `{MathInt} `{SDKDenom}.
Implicit Types w : World B.

(** A stored share with the verified flag, which every share ingested from a vote
    extension carries, makes the export of the state unimportable. *)
Theorem verified_share_blocks_import w s w0 w1 :
  s ∈ (iter_json EncSharePrefix w : list EncShare) -> s_Verified s = true -> InitGenesis (ExportGenesis w) w0 <> (Ret tt, w1).
Proof.
  intros Hs Hv R. apply InitGenesis_run in R as [R _]. apply validated_distinct, di_unverified in R.
  rewrite Forall_forall in R. cbn [ExportGenesis gs_EncShares] in R. apply R in Hs. congruence.
Qed.

(** An import leaves the counter of the commits and the height of the last rekey at
    zero, whatever they were when the state was exported. *)
Theorem import_forgets_counters gs w0 w :
  (forall k, sget k w0 = None) -> InitGenesis gs w0 = (Ret tt, w) -> readU64 SeqKey w = 0 /\ GetLastRekeyHeight w = 0.
Proof.
  intros Hw0 R. apply InitGenesis_run in R as [_ ->]. rewrite import_stages.
  unfold GetLastRekeyHeight, readU64. split.
  - by rewrite (run_stages_skip 2), Hw0 by (apply stages_framed || done).
  - by rewrite (run_stages_skip 23), Hw0 by (apply stages_framed || done).
Qed.
End findings.

(** Three operators announce keys and the first round opens. *)
Module Example.
Import CurveModel EncModel EncChain.History.
#[local] Existing Instance decimal_MathInt.

Definition announce (op : string) (key : Z) : VEEntry :=
  mkVEEntry op (mkVoteExtension (point key) (point key +:+ Dkg.popDigest op) None [] [] []).
Definition announced : World ledger :=
  ConsumeVoteExtensions (at_height 1) [announce "op1" 3; announce "op2" 5; announce "op3" 7] (genesis (params true)).
Definition opened : World ledger :=
  EndBlockDKG keeper (at_height 2) (mkConsensusParams (Some 1) None) [("op1", 10); ("op2", 10); ("op3", 10)] announced.

(** With the strict concentration rule on, which is the default, the threshold of a
    stake-weighted round differs from the one the import demands: a chain that has
    just opened its first round cannot import its own export. *)
Theorem strict_export_rejected :
  reachable opened /\ r_Threshold <$> gs_DkgRounds (ExportGenesis opened) = [173] /\
  Genesis_Validate (ExportGenesis opened) = Err "weighted threshold".
Proof.
  split; [|split; vm_compute; reflexivity].
  assert (E : GetCurrentEpoch announced + 1 < 2 ^ 64) by (vm_compute; reflexivity).
  exists (genesis (params true)). split; [apply genesis_start|].
  apply (rtc_l _ _ announced); [eexists; exact (step_extensions (at_height 1) _ _)|].
  apply (rtc_l _ _ opened); [eexists; exact (step_end keeper (at_height 2) _ _ announced E)|apply rtc_refl].
Qed.
End Example.
End EncFindings.
